(* ===== verification/_CoqProject ===== *)
-Q . S2P
Prelude.v
Util.v
Err.v
Url.v
Binary.v
HttpTypes.v
Session.v
Http1.v
Response.v
Client.v
KeepAlive.v
Server.v
Tls.v
Uring.v
Ring.v
Notify.v
Pool.v
H2Buf.v
H2Helper.v
H2Frame.v
Http2.v
Addr.v
Net.v
Ops.v
Conn.v
Stream.v
AnyStream.v
H2Io.v
Writers.v
Task.v
Programs.v
EventLoop.v
JsEngine.v
Builtins.v
Natives.v
