(* ===== verification/Prelude.v ===== *)
(** * ppnt: verification of an io_uring / TLS / HTTP client stack

    ppnt is a C++23 program of four libraries under [src/]: [ppnt-common] (errors,
    logging, Base64), [ppnt-io] (an io_uring driver, coroutine tasks, sockets, TLS,
    URLs), [ppnt-http] (HTTP/1.x and HTTP/2 clients, a session pool, a server
    session) and [ppnt-jr] (a V8 host with timers and browser objects).  It is built
    on liburing, nghttp2, llhttp, BoringSSL and V8.

    ** How the parts interact

    A coroutine suspends on an operation, which the driver puts on the ring of
    liburing; a completion resumes it, and another thread wakes the ring with
    [post].  Streams are loops of such operations, TLS streams pump the memory BIOs
    of BoringSSL over them.  A client request takes a session from the pool or
    connects a new one, runs on it, and the consumed response gives the session
    back.  An HTTP/2 session shares one connection between streams and is fed by a
    background task.  The JavaScript runtime installs its objects in a context, runs
    a script and then its timer loop.

    ** Which file models what

    - This file: bytes, machine integers, the [Result] monad, decimal text, and the
      lemmas and tactics the components share.
    - [Util.v]: [ppnt-common/src/util.{ixx,cpp}].  [Err.v]: [err.ixx],
      [log.{ixx,cpp}].
    - [Url.v]: [ppnt-io/src/net/url.{ixx,cpp}].  [Binary.v]: [binary_util.ixx].
      [Tls.v]: the ClientHello rewriter of [net/pptls.{ixx,cpp}].
    - [Uring.v]: the submission queue and the buffer ring of liburing.  [Ring.v]:
      [driver.{ixx,cpp}], with operations at addresses and the resumptions recorded.
      [Notify.v]: [Ring::post] against [run_external_tasks], as interleaved steps.
      [Pool.v]: [run_in_pool] and [suspend_coroutine] of [runtime.ixx], the threads of
      a pool against the ring of [Notify.v].  [Ops.v]: [ops.ixx], the awaiters on
      [Ring::submit] and the buffers an [IOResult] owns.
    - [Task.v]: [task.ixx], and [block_on] and [spawn] of [runtime.ixx], over a heap
      of coroutine frames, with tasks and handles that stay in the coroutine that made
      them.
    - [Addr.v]: [SocketAddress] of [net/addr.ixx].  [Net.v]: [ops.cpp], [net/addr.cpp],
      [net/accept.{ixx,cpp}] on the ring, [net/ssl.cpp].  [Conn.v]: what connections,
      contexts and rings acquire and release ([net/tcp_stream.ixx], [net/ssl.ixx],
      [driver.cpp]), and the ClientHello interceptor of [net/pptls.ixx].  [Stream.v]:
      the loops of [net/tcp_stream.ixx] and [net/ssl.ixx], with the TLS engine as an
      interface of operations and laws.  [AnyStream.v]: the stream interface of
      [net/any_stream.ixx] as a class with laws, TCP, TLS and boxed streams as its
      instances, and the HTTP/1.x session on a stream.
    - [HttpTypes.v]: [ppnt-http/src/http_types].  [Session.v]: keys, connecting and
      the pool ([session_key.ixx], [session.cpp], [client.cpp]).  [Http1.v]:
      [http1.ixx].  [Response.v]: the objects of [http_types/response.ixx].
      [Client.v]: a whole [HttpClient::request], from [Session.v] and [Http1.v].
      [KeepAlive.v]: [bin/test_http_keepalive.cpp] on top of it.  [Server.v]:
      [server.ixx].  [Http2.v]: [http2.ixx], cut at its [co_await]s.  [H2Io.v]: what an
      HTTP/2 session writes to its stream, and how it is made, closed and destroyed.
      [Writers.v]: the steps of [Http2.v] joined with the buffer that all writers of a
      TLS connection share.
    - [H2Buf.v], [H2Helper.v], [H2Frame.v]: the buffers, helpers and frames of
      [third-party/nghttp2/lib].
    - [EventLoop.v]: [ppnt-jr/src/event_loop.ixx] and [builtin/timeout.cpp].
      [JsEngine.v]: the interface of V8 as a type of calls, what its documentation
      says of them in the states it describes, and an instance.  [Builtins.v]: the installation
      of the browser objects and the contexts of [runtime.ixx].  [Natives.v]: the
      native functions, [js_cpp_delay], [execute_script], and [main] of
      [bin/v8_test1.cpp].
    - [Programs.v]: [bin/ppio-test.cpp] and [bin/bar.cpp], put together from [Net.v],
      [Conn.v], [Stream.v], [Task.v], [Binary.v] and [Err.v].

    ** What the theorems show

    - Driver: each completion resumes its coroutine once and with its result, the
      buffers are accounted for down to the objects that own them, an awaited operation
      gives its coroutine the result of its completions, no wakeup of a [post] is lost
      and posted tasks run.  What runs in a pool, and what a callback is given, is
      delivered to the coroutine that waits for it, once if the callback is called once;
      a second call resumes the coroutine again.  With one coroutine that uses the
      pool the ring of [block_on] is not used after its end, with a second one it can be.
    - Tasks: every frame has one owner unless it was let go, [block_on] computes what
      its body denotes and, when it returns a value, leaves the frames that were let go
      and no others; the release of a task with an operation in flight leaves the
      driver with the address of a frame that is gone.
    - Formats: Base64 is RFC 4648 and, up to half a gigabyte, is inverted, well-formed
      URLs are parsed back from their text, dot segments are removed as a reference
      definition does, requests and HTTP/2 frames are read back, the reader refines a
      parser of byte lists, and the rewritten ClientHello is characterised field by
      field.
    - HTTP: a pooled HTTP/1.x session has one user and matches its key; exchanges of
      the client, the server and the HTTP/2 session collect what the peer sent, except
      that of a reason phrase and of a request's URL that the parser reports in pieces
      only the last piece is kept; the
      HTTP/1.x session on any stream refines the one on the list of its reads;
      responses call the hook that frees their session at most once, and requests in a
      row reuse their connection.  That a truncated message is accepted, that a second
      [body_full] takes the body of another request, and that an HTTP/2 request can
      lose its wakeup are theorems as well.
    - Streams and sockets: transfers that succeed are complete, TLS pumping loses
      nothing as long as one coroutine writes at a time and no write fails; an HTTP/2
      session does not keep to one writer, and two requests can corrupt their
      connection.  An acceptor starts one handler for each connection until a completion
      announces no more or an error, which ends the program; addresses read back
      what they were made from, and connections release what they own, except that
      nothing but [close] releases a descriptor.  The interceptor sends the hello of
      the specification.  [https_demo] ends or waits, and prints what was decrypted,
      if its connection and its TLS context can be made.
    - JavaScript: a reset context has exactly the objects and functions the
      extensions install, timers fire once, a turn of the loop ends whatever its
      callbacks schedule, promises of [cppDelay] settle, the console prints its arguments, and a script that ran to its
      end leaves no timer behind.

    ** Fuel and bounds

    Loops whose recursion is not structural take fuel, and running out is a result
    of its own.  Where the length of the input bounds the loop, the function supplies
    it: dot segments, TLS extensions and ORIGIN entries consume a byte or more in each
    round; releasing frames takes at most as many rounds as there are frames; decimal
    digits are at most the bits of the number.  Where the environment bounds the loop
    (transfers, TLS operations, [block_on], a turn of the timer loop) the theorems
    state that some fuel gives the result.  [run_until_empty] does not end while an
    interval is set, so [execute_script] is characterised for the runs that end.
    Integers keep their width: [size_t] and ring counters wrap, deadlines are
    nanoseconds below [2 ^ 62].

    ** Not modelled

    - The libraries llhttp, BoringSSL, V8, the session and header compression of
      nghttp2, the kernel and libc: they are parameters, with their documented
      behaviour as hypotheses that concrete instances satisfy.
    - The [free] functions of the nghttp2 buffers and frames, which only release memory.
    - [TlsStream::shutdown], which does not compile where it is used.
    - Template helpers ([match.ixx], [traits.ixx]), libc re-exports, the commented-out
      request of [client.cpp], and the programs under [bin/] that only test: of these
      [ppio-test.cpp], [bar.cpp], [v8_test1.cpp] and [test_http_keepalive.cpp] are
      modelled. *)

From stdpp Require Export base tactics list numbers option sets.
From stdpp Require Import strings.
From Stdlib Require Export ZArith Lia.
From Stdlib Require Import Ascii.

Local Open Scope Z_scope.

(** ** Bytes and strings

    [std::string], [std::string_view], [std::vector<uint8_t>] and spans of
    bytes are all lists of [Z]; a value of the program holds octets, i.e.
    numbers in [0, 256).  [bs] turns a literal into such a list. *)

Abbreviation bytes := (list Z).

Definition bs (s : string) : bytes :=
  (fun a => Z.of_N (N_of_ascii a)) <$> String.list_ascii_of_string s.

Definition is_byte (z : Z) : Prop := 0 <= z < 256.

(** ** Machine integers *)

Definition u8 (z : Z) : Z := z mod 2 ^ 8.
Definition u16 (z : Z) : Z := z mod 2 ^ 16.
Definition u32 (z : Z) : Z := z mod 2 ^ 32.
Definition u64 (z : Z) : Z := z mod 2 ^ 64.

(** Two's-complement reading of a [w]-bit pattern. *)
Definition swrap (w : Z) (z : Z) : Z :=
  (z + 2 ^ (w - 1)) mod 2 ^ w - 2 ^ (w - 1).
Definition i32 (z : Z) : Z := swrap 32 z.

Definition INT_MAX : Z := 2 ^ 31 - 1.
Definition INT_MIN : Z := - 2 ^ 31.

(** ** [std::expected<T, Error>]

    An [Error] of ppnt-common/src/err.ixx: the code, the message and the
    optional cause it owns. *)

Inductive category := generic_category | system_category.

Inductive error_code := EC (cat : category) (value : Z).

#[warnings="-register-all"]
Inductive Error := MkError (ec : error_code) (message_ : bytes) (cause_ : option Error).

Inductive Result (A : Type) : Type :=
| Ok (a : A)
| Err (e : Error).
Arguments Ok {A} a.
Arguments Err {A} e.

(** The early returns [if (!res) return std::unexpected{res.error()}] are the
    bind of this monad. *)
#[export] Instance Result_ret : MRet Result := @Ok.
#[export] Instance Result_bind : MBind Result :=
  fun _ _ f m => match m with Ok x => f x | Err e => Err e end.

(** A call that returns a [Result], or meets undefined behaviour. *)
Inductive outcome (A : Type) : Type :=
| Returns (r : Result A)
| Undefined.
Arguments Returns {A} r.
Arguments Undefined {A}.

(** The values of [std::errc] the program uses (Linux errno numbers). *)
Inductive errc :=
| invalid_argument | bad_message | address_not_available
| resource_unavailable_try_again | not_enough_memory | io_error | broken_pipe
| connection_aborted | not_connected | protocol_error | operation_canceled
| no_message | interrupted | destination_address_required | wrong_protocol_type.

Definition errc_value (e : errc) : Z :=
  match e with
  | invalid_argument => 22 | bad_message => 74 | address_not_available => 99
  | resource_unavailable_try_again => 11 | not_enough_memory => 12
  | io_error => 5 | broken_pipe => 32 | connection_aborted => 103
  | not_connected => 107 | protocol_error => 71 | operation_canceled => 125
  | no_message => 42 | interrupted => 4 | destination_address_required => 89
  | wrong_protocol_type => 91
  end.

Definition make_error_code (e : errc) : error_code := EC generic_category (errc_value e).

Definition make_err_result {A} (e : errc) (msg : string) : Result A :=
  Err (MkError (make_error_code e) (bs msg) None).

(** ** Searching, as [std::string_view] does it ([None] is [npos]) *)

Fixpoint find_if (p : Z -> bool) (l : bytes) : option nat :=
  match l with
  | [] => None
  | x :: r => if p x then Some 0%nat else S <$> find_if p r
  end.

Fixpoint rfind_if (p : Z -> bool) (l : bytes) : option nat :=
  match l with
  | [] => None
  | x :: r =>
      match rfind_if p r with
      | Some i => Some (S i)
      | None => if p x then Some 0%nat else None
      end
  end.

Definition find_char (c : Z) : bytes -> option nat := find_if (Z.eqb c).
Definition rfind_char (c : Z) : bytes -> option nat := rfind_if (Z.eqb c).
Definition mem_byte (c : Z) (l : bytes) : bool := existsb (Z.eqb c) l.
Definition find_first_of (set : bytes) : bytes -> option nat :=
  find_if (fun c => mem_byte c set).

Fixpoint starts_with (l p : bytes) {struct p} : bool :=
  match p, l with
  | [], _ => true
  | _ :: _, [] => false
  | a :: p', b :: l' => (a =? b) && starts_with l' p'
  end.

Fixpoint bytes_eqb (a b : bytes) : bool :=
  match a, b with
  | [], [] => true
  | x :: a', y :: b' => (x =? y) && bytes_eqb a' b'
  | _, _ => false
  end.

(** ** Decimal numbers: [std::to_string(int)] and [std::from_chars] *)

Fixpoint dec_loop (fuel : nat) (n : Z) (acc : bytes) : bytes :=
  match fuel with
  | O => acc
  | S f =>
      let acc' := (48 + n mod 10) :: acc in
      if n <? 10 then acc' else dec_loop f (n / 10) acc'
  end.

Definition dec_nat (n : Z) : bytes := dec_loop (S (Z.to_nat (Z.log2 n))) n [].

Definition to_string_int (n : Z) : bytes :=
  if n <? 0 then 45 :: dec_nat (- n) else dec_nat n.

Definition is_digit (c : Z) : bool := (48 <=? c) && (c <=? 57).

(** The digits at the front of [l], read in base ten, and how many there are. *)
Fixpoint read_digits (l : bytes) (acc : Z) (n : nat) : Z * nat :=
  match l with
  | c :: r => if is_digit c then read_digits r (10 * acc + (c - 48)) (S n) else (acc, n)
  | [] => (acc, n)
  end.

Inductive chars_result := CharsOk (v : Z) | CharsInvalid | CharsOutOfRange.

(** [std::from_chars(first, last, int&)] in base ten: an optional minus sign,
    at least one digit, no overflow of [int]. *)
Definition from_chars_body (neg : bool) (body : bytes) : chars_result :=
  let '(v, n) := read_digits body 0 0 in
  if Nat.eqb n 0 then CharsInvalid
  else
    let v' := if neg then - v else v in
    if (INT_MIN <=? v') && (v' <=? INT_MAX) then CharsOk v' else CharsOutOfRange.

Definition from_chars_int (l : bytes) : chars_result :=
  match l with
  | c :: r => if c =? 45 then from_chars_body true r else from_chars_body false l
  | [] => CharsInvalid
  end.

(** ** Automation *)

Create HintDb ppnt discriminated.
Create Rewrite HintDb ppnt.

(** Case analysis on the tests the translated code makes. *)
Ltac break_if :=
  match goal with
  | |- context [if ?b then _ else _] => destruct b eqn:?
  | H : context [if ?b then _ else _] |- _ => destruct b eqn:?
  end.

(** Boolean tests on [Z] and [nat] become the propositions they decide. *)
Ltac bool_to_prop :=
  repeat match goal with
  | H : _ && _ = true |- _ => apply andb_true_iff in H; destruct H
  | H : _ || _ = false |- _ => apply orb_false_iff in H; destruct H
  | H : negb _ = true |- _ => apply negb_true_iff in H
  | H : negb _ = false |- _ => apply negb_false_iff in H
  | H : (_ <? _) = true |- _ => apply Z.ltb_lt in H
  | H : (_ <? _) = false |- _ => apply Z.ltb_ge in H
  | H : (_ <=? _) = true |- _ => apply Z.leb_le in H
  | H : (_ <=? _) = false |- _ => apply Z.leb_gt in H
  | H : (_ =? _) = true |- _ => apply Z.eqb_eq in H
  | H : (_ =? _) = false |- _ => apply Z.eqb_neq in H
  | H : Nat.eqb _ _ = true |- _ => apply Nat.eqb_eq in H
  | H : Nat.eqb _ _ = false |- _ => apply Nat.eqb_neq in H
  | H : Nat.ltb _ _ = true |- _ => apply Nat.ltb_lt in H
  | H : Nat.ltb _ _ = false |- _ => apply Nat.ltb_ge in H
  | H : Nat.leb _ _ = true |- _ => apply Nat.leb_le in H
  | H : Nat.leb _ _ = false |- _ => apply Nat.leb_gt in H
  end.

(** [lia] with division and remainder by constants. *)
Ltac zdiv_lia := Z.to_euclidean_division_equations; lia.

(** Replace string literals by their octets. *)
Ltac unlit :=
  repeat match goal with
  | |- context [bs ?s] => let v := eval vm_compute in (bs s) in change (bs s) with v
  | H : context [bs ?s] |- _ => let v := eval vm_compute in (bs s) in change (bs s) with v in H
  end.

(** Two explicit lists, entry by entry. *)
Ltac list_eq := repeat match goal with |- _ :: _ = _ :: _ => apply (f_equal2 cons) end.

(** ** Lemmas on searching *)

Lemma bytes_eqb_spec a b : reflect (a = b) (bytes_eqb a b).
Proof.
  revert b; induction a as [|x a IH]; intros [|y b]; simpl; try (constructor; congruence).
  destruct (Z.eqb_spec x y); simpl; [|constructor; congruence].
  destruct (IH b); constructor; congruence.
Qed.

Lemma bytes_eqb_eq a b : bytes_eqb a b = true <-> a = b.
Proof. destruct (bytes_eqb_spec a b); naive_solver. Qed.

Lemma bytes_eqb_refl a : bytes_eqb a a = true.
Proof. by apply bytes_eqb_eq. Qed.

Lemma mem_byte_spec c l : mem_byte c l = true <-> c ∈ l.
Proof.
  unfold mem_byte. rewrite existsb_exists. setoid_rewrite <- list_elem_of_In.
  setoid_rewrite Z.eqb_eq. naive_solver.
Qed.

Lemma starts_with_app l p : starts_with (p ++ l) p = true.
Proof. induction p as [|x p IH]; simpl; [by destruct l|]. by rewrite Z.eqb_refl. Qed.

Lemma starts_with_spec l p : starts_with l p = true <-> exists r, l = p ++ r.
Proof.
  split; [|by intros [r ->]; apply starts_with_app].
  revert l; induction p as [|x p IH]; intros [|y l]; simpl; eauto; [done|].
  intros [->%Z.eqb_eq [r ->]%IH]%andb_true_iff. eauto.
Qed.

Lemma find_if_None p l : find_if p l = None <-> Forall (fun c => p c = false) l.
Proof.
  induction l as [|x l IH]; simpl; [by split|].
  rewrite Forall_cons. destruct (p x); [split; naive_solver|].
  rewrite fmap_None, IH. naive_solver.
Qed.

(** The first hit is at the end of the longest prefix without one. *)
Lemma find_if_app p a c b :
  Forall (fun x => p x = false) a -> p c = true -> find_if p (a ++ c :: b) = Some (length a).
Proof. induction 1 as [|x a Hx _ IH]; simpl; intros Hc; [by rewrite Hc|]. by rewrite Hx, IH. Qed.

Lemma find_if_Some p l i :
  find_if p l = Some i ->
  exists a c b, l = a ++ c :: b /\ length a = i /\ Forall (fun x => p x = false) a /\ p c = true.
Proof.
  revert i; induction l as [|x l IH]; intros i; simpl; [done|].
  destruct (p x) eqn:Hx.
  - intros [= <-]. by exists [], x, l.
  - intros [j [Hj ->]]%fmap_Some. destruct (IH _ Hj) as (a & c & b & -> & <- & ? & ?).
    exists (x :: a), c, b. by repeat constructor.
Qed.

Lemma rfind_if_None p l : rfind_if p l = None <-> Forall (fun c => p c = false) l.
Proof.
  induction l as [|x l IH]; simpl; [by split|]. rewrite Forall_cons.
  destruct (rfind_if p l); [|destruct (p x)]; naive_solver.
Qed.

(** The last hit is at the start of the longest suffix with no further one. *)
Lemma rfind_if_app p a c b :
  Forall (fun x => p x = false) b -> p c = true -> rfind_if p (a ++ c :: b) = Some (length a).
Proof.
  intros Hb Hc. induction a as [|x a IH]; simpl; [|by rewrite IH].
  apply rfind_if_None in Hb. by rewrite Hb, Hc.
Qed.

Lemma rfind_if_Some p l i :
  rfind_if p l = Some i ->
  exists a c b, l = a ++ c :: b /\ length a = i /\ Forall (fun x => p x = false) b /\ p c = true.
Proof.
  revert i; induction l as [|x l IH]; intros i; simpl; [done|].
  destruct (rfind_if p l) as [j|] eqn:Hj.
  - intros [= <-]. destruct (IH _ eq_refl) as (a & c & b & -> & <- & ? & ?).
    by exists (x :: a), c, b.
  - destruct (p x) eqn:Hx; [|done]. intros [= <-].
    exists [], x, l. apply rfind_if_None in Hj. naive_solver.
Qed.

Lemma Forall_not_byte c l : c ∉ l -> Forall (fun x => (c =? x) = false) l.
Proof.
  intros Hc. apply Forall_forall. intros x Hx. apply Z.eqb_neq. by intros ->.
Qed.

Lemma find_char_None c l : find_char c l = None <-> c ∉ l.
Proof.
  unfold find_char. rewrite find_if_None. split; [|apply Forall_not_byte].
  rewrite Forall_forall. intros H Hc. specialize (H _ Hc). by rewrite Z.eqb_refl in H.
Qed.

Lemma find_char_app c a b : c ∉ a -> find_char c (a ++ c :: b) = Some (length a).
Proof. intros. apply find_if_app; [by apply Forall_not_byte|apply Z.eqb_refl]. Qed.

Lemma rfind_char_None c l : rfind_char c l = None <-> c ∉ l.
Proof.
  unfold rfind_char. rewrite rfind_if_None, <- find_if_None. apply find_char_None.
Qed.

Lemma rfind_char_app c a b : c ∉ b -> rfind_char c (a ++ c :: b) = Some (length a).
Proof. intros. apply rfind_if_app; [by apply Forall_not_byte|apply Z.eqb_refl]. Qed.

#[export] Hint Rewrite find_char_app rfind_char_app using (first [done|assumption]) : ppnt.

(** Behind a separator. *)
Lemma drop_sep {A} (a : list A) c b : drop (length a + 1) (a ++ c :: b) = b.
Proof. by rewrite drop_app_add. Qed.

(** ** Lemmas on decimal numbers *)

Definition digits (l : bytes) : Prop := Forall (fun c => is_digit c = true) l.

(** The number a list of digits stands for, with [acc] already read. *)
Definition dec_value (l : bytes) (acc : Z) : Z :=
  fold_left (fun a c => 10 * a + (c - 48)) l acc.

Lemma read_digits_app ds r acc n :
  digits ds ->
  match r with c :: _ => is_digit c = false | [] => True end ->
  read_digits (ds ++ r) acc n = (dec_value ds acc, (n + length ds)%nat).
Proof.
  intros Hds Hr. revert acc n. induction Hds as [|c ds Hc _ IH]; intros acc n.
  - simpl. rewrite Nat.add_0_r. destruct r as [|c r]; simpl; [done|by rewrite Hr].
  - simpl. rewrite Hc, IH, <- Nat.add_succ_comm. done.
Qed.

Lemma dec_loop_spec fuel n acc :
  0 <= n < 2 ^ Z.of_nat fuel -> (0 < fuel)%nat ->
  exists ds, dec_loop fuel n acc = ds ++ acc /\ digits ds /\ ds <> [] /\ dec_value ds 0 = n.
Proof.
  revert n acc; induction fuel as [|f IH]; intros n acc Hn Hf; [lia|]. cbn [dec_loop].
  assert (Hd : is_digit (48 + n mod 10) = true)
    by (unfold is_digit; pose proof (Z.mod_pos_bound n 10); lia).
  destruct (Z.ltb_spec n 10).
  - exists [48 + n mod 10]. repeat split; [by repeat constructor|done|].
    cbn. rewrite Z.mod_small; lia.
  - rewrite Nat2Z.inj_succ, Z.pow_succ_r in Hn by lia.
    assert (Hq : 0 <= n / 10 < 2 ^ Z.of_nat f).
    { split; [zdiv_lia|]. apply Z.div_lt_upper_bound; lia. }
    assert (Hf' : (0 < f)%nat) by (destruct f; [simpl in Hq; zdiv_lia|lia]).
    destruct (IH _ ((48 + n mod 10) :: acc) Hq Hf') as (ds & -> & Hds & _ & Hv).
    exists (ds ++ [48 + n mod 10]). rewrite <- app_assoc. split; [done|].
    split; [by apply Forall_app; repeat constructor|].
    split; [by destruct ds|]. unfold dec_value in *.
    rewrite fold_left_app, Hv. cbn. pose proof (Z.div_mod n 10). lia.
Qed.

Lemma dec_nat_spec n :
  0 <= n -> digits (dec_nat n) /\ dec_nat n <> [] /\ dec_value (dec_nat n) 0 = n.
Proof.
  intros Hn. unfold dec_nat.
  destruct (dec_loop_spec (S (Z.to_nat (Z.log2 n))) n []) as (ds & -> & ? & ? & ?); [|lia|].
  - rewrite Nat2Z.inj_succ, Z2Nat.id by apply Z.log2_nonneg. split; [done|].
    destruct (Z.eq_dec n 0) as [->|]; [done|]. apply Z.log2_spec. lia.
  - by rewrite app_nil_r.
Qed.

Lemma digits_not_minus ds : digits ds -> ds <> [] -> exists c r, ds = c :: r /\ c <> 45.
Proof.
  destruct 1 as [|c r Hc ?]; [done|]. intros _. exists c, r. split; [done|].
  intros ->. discriminate.
Qed.

Lemma from_chars_body_digits (neg : bool) ds r :
  digits ds -> ds <> [] ->
  match r with c :: _ => is_digit c = false | [] => True end ->
  let v := if neg then - dec_value ds 0 else dec_value ds 0 in
  INT_MIN <= v <= INT_MAX ->
  from_chars_body neg (ds ++ r) = CharsOk v.
Proof.
  intros Hds Hne Hr v Hv. unfold from_chars_body. rewrite read_digits_app by done.
  destruct ds as [|c ds]; [done|]. cbn [length Nat.add Nat.eqb]. fold v.
  rewrite (proj2 (Z.leb_le _ _)), (proj2 (Z.leb_le _ _)) by lia. done.
Qed.

(** Reading back what [std::to_string] wrote, whatever follows the digits. *)
Lemma from_chars_to_string n r :
  INT_MIN <= n <= INT_MAX ->
  match r with c :: _ => is_digit c = false | [] => True end ->
  from_chars_int (to_string_int n ++ r) = CharsOk n.
Proof.
  intros Hn Hr. unfold from_chars_int, to_string_int.
  destruct (Z.ltb_spec n 0).
  - destruct (dec_nat_spec (- n)) as (Hd & Hne & Hv); [lia|]. cbn [app].
    change (45 =? 45) with true. cbv iota.
    rewrite from_chars_body_digits, Hv by (try done; rewrite Hv; lia). f_equal. lia.
  - destruct (dec_nat_spec n) as (Hd & Hne & Hv); [lia|].
    destruct (digits_not_minus _ Hd Hne) as (c & ds & E & Hc).
    rewrite E at 1. cbn [app]. rewrite (proj2 (Z.eqb_neq _ _) Hc).
    rewrite from_chars_body_digits, Hv by (try done; rewrite Hv; lia). done.
Qed.

(** ** Machine-integer lemmas *)

Lemma u8_small z : is_byte z -> u8 z = z.
Proof. intros. apply Z.mod_small. unfold is_byte in *. lia. Qed.

Lemma u8_byte z : is_byte (u8 z).
Proof. apply Z.mod_pos_bound. lia. Qed.

Lemma u8_idemp z : u8 (u8 z) = u8 z.
Proof. apply u8_small, u8_byte. Qed.

Lemma u16_small z : 0 <= z < 65536 -> u16 z = z.
Proof. intros. apply Z.mod_small. lia. Qed.

Lemma i32_small z : INT_MIN <= z <= INT_MAX -> i32 z = z.
Proof. unfold i32, swrap, INT_MIN, INT_MAX. intros. rewrite Z.mod_small; lia. Qed.

(** A decidable property of octets holds of all of them when it holds of the
    256 values; the tests run by [vm_compute]. *)
Lemma below_forall (n : Z) (P : Z -> bool) :
  forallb P (seqZ 0 n) = true -> forall z, 0 <= z < n -> P z = true.
Proof.
  intros H z Hz. rewrite forallb_forall in H. apply H, list_elem_of_In, elem_of_seqZ. lia.
Qed.

Lemma below_forall2 (n m : Z) (P : Z -> Z -> bool) :
  forallb (fun a => forallb (P a) (seqZ 0 m)) (seqZ 0 n) = true ->
  forall a b, 0 <= a < n -> 0 <= b < m -> P a b = true.
Proof.
  intros H a b Ha Hb. revert b Hb. apply below_forall.
  exact (below_forall n (fun a => forallb (P a) (seqZ 0 m)) H a Ha).
Qed.

(** Induction by groups of three, as the Base64 loops consume their input. *)
Lemma list_ind3 {A} (P : list A -> Prop) :
  P [] -> (forall a, P [a]) -> (forall a b, P [a; b]) ->
  (forall a b c r, P r -> P (a :: b :: c :: r)) -> forall l, P l.
Proof.
  intros H0 H1 H2 H3. fix IH 1. intros [|a [|b [|c r]]]; [done|done|done|]. apply H3, IH.
Qed.

#[export] Hint Resolve u8_byte : ppnt.
#[export] Hint Rewrite u8_small u16_small using (first [assumption|lia]) : ppnt.
