(* ===== verification/Util.v ===== *)
(** ppnt-common: ASCII case folding and Base64.

    [src/ppnt-common/src/util.ixx] (case folding, [IgnoreCaseEqual],
    [IgnoreCaseHash]) and [src/ppnt-common/src/util.cpp] (class [Base64]).
    The two Base64 loops are translated with their accumulators: the filling
    index [i], the 3- or 4-byte work array and the result string.  The work
    arrays are uninitialised in C++, so the loops take their initial contents
    as an argument; the theorems hold for every one. *)

From S2P Require Import Prelude.
From stdpp Require Import strings.

Local Open Scope Z_scope.

(** ** ASCII case folding *)

Definition to_lower_ascii (c : Z) : Z :=
  if (65 <=? c) && (c <=? 90) then c + (97 - 65) else c.

Definition to_lower_ascii_str (s : bytes) : bytes :=
  fold_left (fun result c => result ++ [to_lower_ascii c]) s [].

(** [std::ranges::equal] with the folding predicate. *)
Fixpoint ignore_case_equal (a b : bytes) : bool :=
  match a, b with
  | [], [] => true
  | x :: a', y :: b' => (to_lower_ascii x =? to_lower_ascii y) && ignore_case_equal a' b'
  | _, _ => false
  end.

(** [static_cast<size_t>(char)]: [char] is signed on the target, so octets
    from 128 on are sign-extended before the conversion to [size_t]. *)
Definition char_to_size_t (c : Z) : Z := u64 (swrap 8 c).

Definition IgnoreCaseHash (txt : bytes) : Z :=
  fold_left
    (fun h c => u64 (Z.lxor h (char_to_size_t (to_lower_ascii c)) * 1099511628211))
    txt 14695981039346656037.

(** ** Base64 *)

Module Base64.

Definition base64_chars : bytes :=
  bs "ABCDEFGHIJKLMNOPQRSTUVWXYZabcdefghijklmnopqrstuvwxyz0123456789+/".

(** [std::isalnum] in the C locale, then the two extra characters. *)
Definition is_base64 (c : Z) : bool :=
  ((48 <=? c) && (c <=? 57)) || ((65 <=? c) && (c <=? 90)) || ((97 <=? c) && (c <=? 122))
  || (c =? 43) || (c =? 47).

Definition get (a : bytes) (i : nat) : Z := nth i a 0.

(** The four sextets of a filled 3-byte array (lines 25-28 and 40-43). *)
Definition sextets (a3 : bytes) : bytes :=
  [ u8 (Z.shiftr (Z.land (get a3 0) 0xfc) 2);
    u8 (Z.shiftl (Z.land (get a3 0) 0x03) 4 + Z.shiftr (Z.land (get a3 1) 0xf0) 4);
    u8 (Z.shiftl (Z.land (get a3 1) 0x0f) 2 + Z.shiftr (Z.land (get a3 2) 0xc0) 6);
    u8 (Z.land (get a3 2) 0x3f) ].

Definition char_of (s : Z) : Z := nth (Z.to_nat s) base64_chars 0.

Record enc_state := EncState { e_i : nat; e_a3 : bytes; e_ret : bytes }.

(** One turn of the [while (in_len--)] loop on the next input byte. *)
Definition encode_step (st : enc_state) (b : Z) : enc_state :=
  let a3 := <[e_i st := b]> (e_a3 st) in
  if Nat.eqb (S (e_i st)) 3
  then EncState 0 a3 (e_ret st ++ (char_of <$> sextets a3))
  else EncState (S (e_i st)) a3 (e_ret st).

(** The tail: zero the rest of the array, emit [i + 1] characters, pad. *)
Definition encode_tail (st : enc_state) : bytes :=
  let i := e_i st in
  if Nat.eqb i 0 then e_ret st
  else
    let a3 := take i (e_a3 st) ++ replicate (3 - i) 0 in
    e_ret st ++ (char_of <$> take (i + 1) (sextets a3)) ++ replicate (3 - i) 61.

(** [encode(const unsigned char *, int in_len)] reads [in_len] bytes from the
    pointer; a negative count or one past the buffer is an invalid access. *)
Definition encode_ptr (junk : bytes) (buf : bytes) (in_len : Z) : option bytes :=
  if (in_len <? 0) || (Z.of_nat (length buf) <? in_len) then None
  else Some (encode_tail
               (fold_left encode_step (take (Z.to_nat in_len) buf) (EncState 0 junk []))).

(** [encode(std::string_view)]: [str.size()] is converted to [int]. *)
Definition encode (junk : bytes) (str : bytes) : option bytes :=
  encode_ptr junk str (i32 (Z.of_nat (length str))).

(** [base64_chars.find(c)] stored in an [unsigned char]: [npos] becomes 255. *)
Definition find_index (c : Z) : Z :=
  match find_char c base64_chars with Some i => u8 (Z.of_nat i) | None => u8 (-1) end.

(** The three octets of four sextets (lines 73-75, 90-92, 116-118, 133-135). *)
Definition octets (a4 : bytes) : bytes :=
  [ u8 (Z.shiftl (get a4 0) 2 + Z.shiftr (Z.land (get a4 1) 0x30) 4);
    u8 (Z.shiftl (Z.land (get a4 1) 0xf) 4 + Z.shiftr (Z.land (get a4 2) 0x3c) 2);
    u8 (Z.shiftl (Z.land (get a4 2) 0x3) 6 + get a4 3) ].

Record dec_state := DecState { d_i : nat; d_a4 : bytes; d_ret : bytes }.

Definition decode_step (st : dec_state) (c : Z) : dec_state :=
  let a4 := <[d_i st := c]> (d_a4 st) in
  if Nat.eqb (S (d_i st)) 4
  then let a4' := find_index <$> a4 in DecState 0 a4' (d_ret st ++ octets a4')
  else DecState (S (d_i st)) a4 (d_ret st).

(** The loop stops at the end, at the first '=' or at the first character
    outside the alphabet. *)
Fixpoint decode_loop (s : bytes) (st : dec_state) : dec_state :=
  match s with
  | [] => st
  | c :: r => if negb (c =? 61) && is_base64 c then decode_loop r (decode_step st c) else st
  end.

(** Zero the rest of the array, look all four entries up (the zeros are not in
    the alphabet), emit [i - 1] octets. *)
Definition decode_tail (st : dec_state) : bytes :=
  let i := d_i st in
  if Nat.eqb i 0 then d_ret st
  else
    let a4 := find_index <$> (take i (d_a4 st) ++ replicate (4 - i) 0) in
    d_ret st ++ take (i - 1) (octets a4).

(** [in_len] is an [int]; from 2{^31} characters on it is negative and the
    loop runs past the view. *)
Definition decode (junk : bytes) (s : bytes) : option bytes :=
  if i32 (Z.of_nat (length s)) <? 0 then None
  else Some (decode_tail (decode_loop s (DecState 0 junk []))).

(** [decode_bin]: the same loop over a [std::vector<uint8_t>]; [push_back]
    casts every octet.  It first reserves [in_len * 3 / 4] bytes, an [int]
    product that must not overflow. *)
Definition decode_bin_step (st : dec_state) (c : Z) : dec_state :=
  let a4 := <[d_i st := c]> (d_a4 st) in
  if Nat.eqb (S (d_i st)) 4
  then let a4' := find_index <$> a4 in DecState 0 a4' (d_ret st ++ (u8 <$> octets a4'))
  else DecState (S (d_i st)) a4 (d_ret st).

Fixpoint decode_bin_loop (s : bytes) (st : dec_state) : dec_state :=
  match s with
  | [] => st
  | c :: r =>
      if negb (c =? 61) && is_base64 c then decode_bin_loop r (decode_bin_step st c) else st
  end.

Definition decode_bin_tail (st : dec_state) : bytes :=
  let i := d_i st in
  if Nat.eqb i 0 then d_ret st
  else
    let a4 := find_index <$> (take i (d_a4 st) ++ replicate (4 - i) 0) in
    d_ret st ++ (u8 <$> take (i - 1) (octets a4)).

Definition decode_bin (junk : bytes) (s : bytes) : option bytes :=
  let in_len := i32 (Z.of_nat (length s)) in
  if (in_len <? 0) || (INT_MAX <? in_len * 3) then None
  else Some (decode_bin_tail (decode_bin_loop s (DecState 0 junk []))).

(** *** Reference encoder

    RFC 4648, section 4, by groups of three octets: a group is one 24-bit
    number, written as four digits of base 64. *)

Definition group (a b c : Z) : bytes :=
  let n := 65536 * a + 256 * b + c in
  char_of <$> [n / 2 ^ 18; n / 2 ^ 12 mod 64; n / 2 ^ 6 mod 64; n mod 64].

Fixpoint rfc4648 (l : bytes) : bytes :=
  match l with
  | a :: b :: c :: r => group a b c ++ rfc4648 r
  | [a; b] => take 3 (group a b 0) ++ [61]
  | [a] => take 2 (group a 0 0) ++ [61; 61]
  | [] => []
  end.

(** *** Sextets and octets *)

Definition is_sextet (s : Z) : Prop := 0 <= s < 64.

(** The masks and shifts of the code, as divisions (by running them on all the
    values of one octet). *)
Lemma octet_masks a :
  is_byte a ->
  Z.shiftr (Z.land a 0xfc) 2 = a / 4 /\ Z.land a 0x03 = a mod 4 /\
  Z.shiftr (Z.land a 0xf0) 4 = a / 16 /\ Z.land a 0x0f = a mod 16 /\
  Z.shiftr (Z.land a 0xc0) 6 = a / 64 /\ Z.land a 0x3f = a mod 64.
Proof.
  intros Ha.
  assert (H : (Z.shiftr (Z.land a 0xfc) 2 =? a / 4) && (Z.land a 0x03 =? a mod 4)
    && (Z.shiftr (Z.land a 0xf0) 4 =? a / 16) && (Z.land a 0x0f =? a mod 16)
    && (Z.shiftr (Z.land a 0xc0) 6 =? a / 64) && (Z.land a 0x3f =? a mod 64) = true).
  { revert a Ha. apply (below_forall 256 (fun a => _)). vm_compute. done. }
  bool_to_prop. done.
Qed.

Lemma sextet_masks s :
  is_sextet s ->
  Z.shiftr (Z.land s 0x30) 4 = s / 16 /\ Z.land s 0xf = s mod 16 /\
  Z.shiftr (Z.land s 0x3c) 2 = s / 4 /\ Z.land s 0x3 = s mod 4.
Proof.
  intros Hs.
  assert (H : (Z.shiftr (Z.land s 0x30) 4 =? s / 16) && (Z.land s 0xf =? s mod 16)
    && (Z.shiftr (Z.land s 0x3c) 2 =? s / 4) && (Z.land s 0x3 =? s mod 4) = true).
  { revert s Hs. apply (below_forall 64 (fun s => _)). vm_compute. done. }
  bool_to_prop. done.
Qed.

Lemma sextets_div a b c :
  is_byte a -> is_byte b -> is_byte c ->
  sextets [a; b; c] = [a / 4; 16 * (a mod 4) + b / 16; 4 * (b mod 16) + c / 64; c mod 64].
Proof.
  intros Ha Hb Hc. unfold sextets, get. cbn [nth].
  destruct (octet_masks a Ha) as (-> & -> & _), (octet_masks b Hb) as (_ & _ & -> & -> & _),
    (octet_masks c Hc) as (_ & _ & _ & _ & -> & ->).
  rewrite !Z.shiftl_mul_pow2 by lia. unfold is_byte in *.
  rewrite !u8_small by (unfold is_byte; zdiv_lia). list_eq; lia || done.
Qed.

Lemma octets_div s0 s1 s2 s3 :
  is_sextet s0 -> is_sextet s1 -> is_sextet s2 -> is_sextet s3 ->
  octets [s0; s1; s2; s3] = [4 * s0 + s1 / 16; 16 * (s1 mod 16) + s2 / 4; 64 * (s2 mod 4) + s3].
Proof.
  intros H0 H1 H2 H3. unfold octets, get. cbn [nth].
  destruct (sextet_masks s1 H1) as (-> & -> & _), (sextet_masks s2 H2) as (_ & _ & -> & ->).
  rewrite !Z.shiftl_mul_pow2 by lia. unfold is_sextet in *.
  rewrite !u8_small by (unfold is_byte; zdiv_lia). list_eq; lia || done.
Qed.

Lemma sextets_group a b c :
  is_byte a -> is_byte b -> is_byte c -> char_of <$> sextets [a; b; c] = group a b c.
Proof.
  intros Ha Hb Hc. rewrite sextets_div by done. unfold group, is_byte in *.
  change (2 ^ 18) with 262144. change (2 ^ 12) with 4096. change (2 ^ 6) with 64.
  set (n := 65536 * a + 256 * b + c).
  assert (n / 262144 = a / 4) as -> by (subst n; zdiv_lia).
  assert (n / 4096 mod 64 = 16 * (a mod 4) + b / 16) as -> by (subst n; zdiv_lia).
  assert (n / 64 mod 64 = 4 * (b mod 16) + c / 64) as -> by (subst n; zdiv_lia).
  assert (n mod 64 = c mod 64) as -> by (subst n; zdiv_lia). done.
Qed.

Lemma sextets_range a b c :
  is_byte a -> is_byte b -> is_byte c -> Forall is_sextet (sextets [a; b; c]).
Proof.
  intros Ha Hb Hc. rewrite sextets_div by done. unfold is_byte, is_sextet in *.
  repeat constructor; zdiv_lia.
Qed.

Lemma char_of_alphabet s :
  is_sextet s ->
  negb (char_of s =? 61) && is_base64 (char_of s) = true /\ find_index (char_of s) = s.
Proof.
  intros Hs. assert (H : (negb (char_of s =? 61) && is_base64 (char_of s))
    && (find_index (char_of s) =? s) = true).
  { revert s Hs. apply (below_forall 64 (fun s => _)). vm_compute. done. }
  apply andb_true_iff in H as [? ?%Z.eqb_eq]. done.
Qed.

Lemma octets_sextets a b c :
  is_byte a -> is_byte b -> is_byte c -> octets (sextets [a; b; c]) = [a; b; c].
Proof.
  intros Ha Hb Hc. rewrite sextets_div by done. unfold is_byte in *.
  rewrite octets_div by (unfold is_sextet; zdiv_lia).
  list_eq; zdiv_lia || done.
Qed.

(** *** The encoder *)

Lemma encode_loop_group a b c r junk ret :
  length junk = 3%nat ->
  fold_left encode_step (a :: b :: c :: r) (EncState 0 junk ret) =
  fold_left encode_step r (EncState 0 [a; b; c] (ret ++ (char_of <$> sextets [a; b; c]))).
Proof. by destruct junk as [|x [|y [|z [|? ?]]]]. Qed.

Lemma encode_loop_spec l junk ret :
  Forall is_byte l -> length junk = 3%nat ->
  encode_tail (fold_left encode_step l (EncState 0 junk ret)) = ret ++ rfc4648 l.
Proof.
  intros Hl. revert junk ret. induction l as [|a|a b|a b c r IH] using list_ind3;
    intros junk ret Hj; rewrite ?Forall_cons in Hl.
  - by rewrite app_nil_r.
  - destruct junk as [|x [|y [|z [|? ?]]]]; [done..| |done]. destruct Hl as [Ha _].
    unfold encode_tail. cbn [fold_left encode_step Nat.eqb e_i e_a3 e_ret insert list_insert
      take app replicate Nat.add Nat.sub]. cbn [rfc4648].
    rewrite fmap_take, sextets_group by (done || by split). done.
  - destruct junk as [|x [|y [|z [|? ?]]]]; [done..| |done]. destruct Hl as (Ha & Hb & _).
    unfold encode_tail. cbn [fold_left encode_step Nat.eqb e_i e_a3 e_ret insert list_insert
      take app replicate Nat.add Nat.sub]. cbn [rfc4648].
    rewrite fmap_take, sextets_group by (done || by split). done.
  - destruct Hl as (Ha & Hb & Hc & Hr). rewrite encode_loop_group by done.
    rewrite IH by done. cbn [rfc4648]. rewrite sextets_group, app_assoc by done. done.
Qed.

Lemma encode_rfc junk str :
  length junk = 3%nat -> Forall is_byte str -> Z.of_nat (length str) <= INT_MAX ->
  encode junk str = Some (rfc4648 str).
Proof.
  intros Hj Hs Hlen. unfold encode, encode_ptr.
  rewrite i32_small by (unfold INT_MIN; lia).
  rewrite (proj2 (Z.ltb_ge _ 0)), (proj2 (Z.ltb_ge _ _)) by lia. cbn [orb].
  rewrite Nat2Z.id, firstn_all, encode_loop_spec by done. done.
Qed.

(** *** The decoder *)

Lemma decode_loop_group s0 s1 s2 s3 r junk ret :
  Forall is_sextet [s0; s1; s2; s3] -> length junk = 4%nat ->
  decode_loop ((char_of <$> [s0; s1; s2; s3]) ++ r) (DecState 0 junk ret) =
  decode_loop r (DecState 0 [s0; s1; s2; s3] (ret ++ octets [s0; s1; s2; s3])).
Proof.
  rewrite !Forall_cons. intros (H0 & H1 & H2 & H3 & _) Hj.
  destruct junk as [|x [|y [|z [|w [|? ?]]]]]; [done..| |done].
  destruct (char_of_alphabet s0 H0) as [C0 F0], (char_of_alphabet s1 H1) as [C1 F1],
    (char_of_alphabet s2 H2) as [C2 F2], (char_of_alphabet s3 H3) as [C3 F3].
  cbn [fmap list_fmap app decode_loop]. rewrite C0, C1, C2, C3.
  unfold decode_step. cbn [d_i d_a4 d_ret Nat.eqb insert list_insert fmap list_fmap].
  by rewrite F0, F1, F2, F3.
Qed.

(** A partial group: [k] characters and then padding. *)
Lemma decode_loop_partial ss p junk ret :
  Forall is_sextet ss -> (0 < length ss < 4)%nat -> length junk = 4%nat ->
  decode_tail (decode_loop ((char_of <$> ss) ++ 61 :: p) (DecState 0 junk ret)) =
  ret ++ take (length ss - 1)
           (octets (ss ++ replicate (4 - length ss) 255)).
Proof.
  intros Hs Hlen Hj.
  destruct junk as [|x [|y [|z [|w [|? ?]]]]]; [done..| |done].
  assert (F : forall s, is_sextet s -> negb (char_of s =? 61) && is_base64 (char_of s) = true)
    by (intros; by apply char_of_alphabet).
  assert (G : forall s, is_sextet s -> find_index (char_of s) = s)
    by (intros; by apply char_of_alphabet).
  destruct ss as [|s0 [|s1 [|s2 [|? ?]]]]; simpl in Hlen; try lia;
    rewrite ?Forall_cons in Hs; destruct_and?; cbn [fmap list_fmap app decode_loop];
    rewrite ?F by done; cbn [Z.eqb Pos.eqb negb andb];
    unfold decode_tail, decode_step;
    cbn [d_i d_a4 d_ret Nat.eqb insert list_insert fmap list_fmap take replicate Nat.sub app];
    rewrite ?G by done; change (find_index 0) with 255; reflexivity.
Qed.

(** Octets that do not depend on the entries past the group. *)
Lemma octets_take1 s0 s1 x y x' y' :
  take 1 (octets [s0; s1; x; y]) = take 1 (octets [s0; s1; x'; y']).
Proof. done. Qed.

Lemma octets_take2 s0 s1 s2 y y' :
  take 2 (octets [s0; s1; s2; y]) = take 2 (octets [s0; s1; s2; y']).
Proof. done. Qed.

Ltac byte0 := first [done | by split].

Lemma decode_loop_spec l junk ret :
  Forall is_byte l -> length junk = 4%nat ->
  decode_tail (decode_loop (rfc4648 l) (DecState 0 junk ret)) = ret ++ l.
Proof.
  intros Hl. revert junk ret. induction l as [|a|a b|a b c r IH] using list_ind3;
    intros junk ret Hj; rewrite ?Forall_cons in Hl; destruct_and?.
  - by rewrite app_nil_r.
  - pose proof (sextets_range a 0 0) as Hr. pose proof (octets_sextets a 0 0) as Ho.
    cbn [rfc4648]. rewrite <- sextets_group by byte0. rewrite sextets_div in * by byte0.
    specialize (Hr ltac:(done) ltac:(byte0) ltac:(byte0)).
    rewrite !Forall_cons in Hr. destruct_and?.
    rewrite <- fmap_take. cbn [take app].
    rewrite decode_loop_partial by first [done | simpl; lia | eauto using Forall_nil_2, Forall_cons_2].
    cbn [take length Nat.sub app replicate].
    by rewrite (octets_take1 _ _ _ _ (4 * (0 mod 16) + 0 / 64) (0 mod 64)), Ho by byte0.
  - pose proof (sextets_range a b 0) as Hr. pose proof (octets_sextets a b 0) as Ho.
    cbn [rfc4648]. rewrite <- sextets_group by byte0. rewrite sextets_div in * by byte0.
    specialize (Hr ltac:(done) ltac:(done) ltac:(byte0)).
    rewrite !Forall_cons in Hr. destruct_and?.
    rewrite <- fmap_take. cbn [take app].
    rewrite decode_loop_partial by first [done | simpl; lia | eauto using Forall_nil_2, Forall_cons_2].
    cbn [take length Nat.sub app replicate].
    by rewrite (octets_take2 _ _ _ _ (0 mod 64)), Ho by byte0.
  - cbn [rfc4648]. rewrite <- sextets_group by done.
    pose proof (sextets_range a b c) as Hr. pose proof (octets_sextets a b c) as Ho.
    rewrite sextets_div in * by done.
    rewrite decode_loop_group, Ho, IH, <- app_assoc by auto. done.
Qed.

Lemma decode_junk s junk :
  0 <= i32 (Z.of_nat (length s)) ->
  decode junk s = Some (decode_tail (decode_loop s (DecState 0 junk []))).
Proof. intros. unfold decode. by rewrite (proj2 (Z.ltb_ge _ _)). Qed.

Lemma rfc4648_length l : length (rfc4648 l) = (4 * ((length l + 2) / 3))%nat.
Proof.
  induction l as [|a|a b|a b c r IH] using list_ind3; [done..|].
  cbn [rfc4648]. rewrite length_app, IH. cbn [length group fmap list_fmap].
  replace (S (S (S (length r))) + 2)%nat with (1 * 3 + (length r + 2))%nat by lia.
  rewrite Nat.div_add_l by lia. lia.
Qed.

Lemma octets_bytes a4 : u8 <$> octets a4 = octets a4.
Proof. unfold octets. cbn [fmap list_fmap]. by rewrite !u8_idemp. Qed.

Lemma decode_bin_loop_eq s st : decode_bin_loop s st = decode_loop s st.
Proof.
  revert st. induction s as [|c s IH]; intros st; simpl; [done|].
  rewrite IH. unfold decode_bin_step, decode_step. by rewrite octets_bytes.
Qed.

Lemma decode_bin_eq junk s :
  Z.of_nat (length s) * 3 <= INT_MAX -> decode_bin junk s = decode junk s.
Proof.
  intros H. unfold decode_bin, decode. rewrite i32_small by (unfold INT_MIN; lia).
  rewrite (proj2 (Z.ltb_ge (Z.of_nat _) 0)), (proj2 (Z.ltb_ge _ _)) by lia.
  rewrite decode_bin_loop_eq. unfold decode_bin_tail, decode_tail.
  by rewrite fmap_take, octets_bytes.
Qed.

(** C29 ([Base64::encode], functional): for every byte string of at most
    [INT_MAX] bytes the encoder reads inside its buffer and returns the RFC
    4648 encoding, whatever its uninitialised work array held. *)
Theorem encode_is_rfc4648 junk str :
  length junk = 3%nat -> Forall is_byte str -> Z.of_nat (length str) <= INT_MAX ->
  encode junk str = Some (rfc4648 str) /\
  length (rfc4648 str) = (4 * ((length str + 2) / 3))%nat.
Proof. intros. split; [by apply encode_rfc|apply rfc4648_length]. Qed.

(** Witness of C29. *)
Lemma encode_is_rfc4648_witness :
  encode [7; 8; 9] (bs "Hello, World!") = Some (bs "SGVsbG8sIFdvcmxkIQ==").
Proof.
  destruct (encode_is_rfc4648 [7; 8; 9] (bs "Hello, World!")) as [-> _].
  - reflexivity.
  - vm_compute. repeat constructor; intros H; discriminate H.
  - vm_compute. intros H; discriminate H.
  - reflexivity.
Defined.

(** C28 ([Base64], roundtrip): decoding an encoding gives the bytes back,
    through [decode] and through [decode_bin], for every work-array content and
    every byte string of a length n with 12 * ((n + 2) / 3) at most INT_MAX, about
    half a gigabyte; beyond it the size [decode_bin] computes, three times the length
    of the text, is no [int] any more. *)
Theorem decode_encode junk3 junk4 str :
  length junk3 = 3%nat -> length junk4 = 4%nat -> Forall is_byte str ->
  12 * ((Z.of_nat (length str) + 2) / 3) <= INT_MAX ->
  exists e, encode junk3 str = Some e /\ decode junk4 e = Some str /\
            decode_bin junk4 e = Some str.
Proof.
  intros H3 H4 Hs Hlen. exists (rfc4648 str).
  assert (Hle : Z.of_nat (length (rfc4648 str)) * 3 <= INT_MAX).
  { rewrite rfc4648_length, Nat2Z.inj_mul, Nat2Z.inj_div, Nat2Z.inj_add. simpl Z.of_nat. lia. }
  split; [apply encode_rfc; [done..|unfold INT_MAX in *; zdiv_lia]|].
  rewrite decode_bin_eq by done.
  rewrite decode_junk, decode_loop_spec by (done || rewrite i32_small; unfold INT_MIN; lia).
  done.
Qed.

(** Witness of C28. *)
Lemma decode_encode_witness :
  exists e, encode [0; 0; 0] [255; 0] = Some e /\ decode [1; 1; 1; 1] e = Some [255; 0] /\
            decode_bin [1; 1; 1; 1] e = Some [255; 0].
Proof.
  apply (decode_encode [0; 0; 0] [1; 1; 1; 1] [255; 0]).
  - reflexivity.
  - reflexivity.
  - repeat constructor; vm_compute; intros H; discriminate H.
  - vm_compute. intros H; discriminate H.
Defined.

(** ([Base64::decode], functional): decoding stops at the first character
    that is '=' or outside the alphabet; what follows it is ignored. *)
Theorem decode_stops junk p c r :
  negb (c =? 61) && is_base64 c = false ->
  Z.of_nat (length (p ++ c :: r)) <= INT_MAX ->
  decode junk (p ++ c :: r) = decode junk p.
Proof.
  intros Hc Hlen. rewrite length_app in Hlen.
  rewrite !decode_junk
    by (rewrite i32_small; rewrite ?length_app; unfold INT_MIN; lia).
  do 2 f_equal. generalize (DecState 0 junk []). induction p as [|x p IH]; intros st; simpl.
  - by rewrite Hc.
  - destruct (negb (x =? 61) && is_base64 x); [apply IH; simpl in *; lia|done].
Qed.

(** An instance. *)
Lemma decode_stops_witness :
  decode [0; 0; 0; 0] (bs "SGk=anything") = decode [0; 0; 0; 0] (bs "SGk").
Proof.
  apply (decode_stops [0; 0; 0; 0] (bs "SGk") 61 (bs "anything")).
  - reflexivity.
  - vm_compute. intros H; discriminate H.
Defined.

End Base64.

(** ** Case-insensitive comparison *)

Lemma to_lower_ascii_str_map s : to_lower_ascii_str s = to_lower_ascii <$> s.
Proof.
  unfold to_lower_ascii_str.
  assert (G : forall acc, fold_left (fun result c => result ++ [to_lower_ascii c]) s acc =
    acc ++ (to_lower_ascii <$> s)); [|apply G].
  induction s as [|c s IH]; intros acc; simpl; [by rewrite app_nil_r|].
  by rewrite IH, <- app_assoc.
Qed.

Lemma ignore_case_equal_spec a b :
  ignore_case_equal a b = true <-> to_lower_ascii <$> a = to_lower_ascii <$> b.
Proof.
  revert b. induction a as [|x a IH]; intros [|y b]; simpl; try done.
  rewrite andb_true_iff, Z.eqb_eq, IH. split; [intros [E1 E2]; by f_equal|by intros [= E1 E2]].
Qed.

Lemma hash_lower s : IgnoreCaseHash (to_lower_ascii <$> s) = IgnoreCaseHash s.
Proof.
  unfold IgnoreCaseHash. generalize 14695981039346656037. induction s as [|c s IH]; intros h; simpl; [done|].
  rewrite IH. do 5 f_equal. unfold to_lower_ascii.
  destruct ((65 <=? c) && (c <=? 90)) eqn:E; [|by rewrite E].
  bool_to_prop. by rewrite (proj2 (Z.leb_gt (c + (97 - 65)) 90)), andb_false_r by lia.
Qed.

(** ([IgnoreCaseEqual]/[IgnoreCaseHash], functional): the comparison is
    equality of the lower-cased strings, and strings it equates hash alike, as
    an unordered container keyed by them requires. *)
Theorem ignore_case_equal_hash a b :
  (ignore_case_equal a b = true <-> to_lower_ascii_str a = to_lower_ascii_str b) /\
  (ignore_case_equal a b = true -> IgnoreCaseHash a = IgnoreCaseHash b).
Proof.
  rewrite !to_lower_ascii_str_map, ignore_case_equal_spec. split; [done|].
  intros H. by rewrite <- hash_lower, H, hash_lower.
Qed.
