(* ===== verification/Err.v ===== *)
(** ppnt-common: errors with their causes, and log lines.

    [src/ppnt-common/src/err.ixx] ([Error] with its source location, its copies,
    its chain of causes and the formatter that prints it) and
    [src/ppnt-common/src/log.ixx], [log.cpp] (levels and the layout of a line).
    The rest of the development uses the errors of [Prelude.v], which are these
    without the location. *)

From stdpp Require Import base list strings.
From S2P Require Import Prelude.

Local Open Scope Z_scope.

(** ** Errors *)

(** [std::source_location]. *)
Record location := MkLoc { file_name : bytes; line : Z }.

#[warnings="-register-all"]
Inductive lerror := MkLError (ec : error_code) (loc : location) (message_ : bytes) (cause_ : option lerror).

Definition ec_of (e : lerror) : error_code := let 'MkLError ec _ _ _ := e in ec.

(** The copy constructor copies the whole chain. *)
Fixpoint copy (other : lerror) : lerror :=
  let 'MkLError ec loc msg cause := other in
  MkLError ec loc msg (match cause with Some c => Some (copy c) | None => None end).

(** Copy assignment; [same] is [this == &other]. *)
Definition copy_assign (same : bool) (this other : lerror) : lerror :=
  if negb same then
    let 'MkLError ec loc msg cause := other in
    MkLError ec loc msg (match cause with Some c => Some (copy c) | None => None end)
  else this.

Definition with_cause (cause this : lerror) : lerror :=
  let 'MkLError ec loc msg _ := this in MkLError ec loc msg (Some (copy cause)).

Definition cause (this : lerror) : option lerror := let 'MkLError _ _ _ c := this in c.

Definition ec_value (ec : error_code) : Z := let 'EC _ v := ec in v.

Definition is_error (this : lerror) : bool := negb (ec_value (ec_of this) =? 0).

#[export] Instance error_code_eq : EqDecision error_code.
Proof. unfold EqDecision, Decision. intros [[] x] [[] y]; try (by right); destruct (decide (x = y)) as [->|]; auto; right; congruence. Defined.

(** [operator==] compares the codes. *)
Definition lerror_eqb (this other : lerror) : bool := bool_decide (ec_of this = ec_of other).

Definition category_name (c : category) : bytes :=
  match c with generic_category => bs "generic" | system_category => bs "system" end.

(** ** Paths *)

Definition is_slash (c : Z) : bool := (c =? 47) || (c =? 92).

Definition extract_filename (p : bytes) : bytes :=
  match rfind_if is_slash p with Some pos => drop (pos + 1) p | None => p end.

(** [std::string_view::find]. *)
Fixpoint find_str (pat p : bytes) : option nat :=
  if starts_with p pat then Some 0%nat else
  match p with [] => None | _ :: r => S <$> find_str pat r end.

(** [std::string_view::rfind(c, pos)]: the last [c] at [pos] or before. *)
Definition rfind_at (c : Z) (pos : nat) (p : bytes) : option nat := rfind_char c (take (pos + 1) p).

Definition extract_project_path (p : bytes) : bytes :=
  let src_pos := match find_str (bs "/src/") p with Some n => Some n | None => find_str (bs "\src\") p end in
  match src_pos with
  | Some src_pos =>
      match (if (0 <? src_pos)%nat then
               match rfind_at 47 (src_pos - 1) p with
               | Some n => Some n
               | None => rfind_at 92 (src_pos - 1) p
               end
             else None) with
      | Some parent_slash => drop (parent_slash + 1) p
      | None => drop (src_pos + 1) p
      end
  | None => p
  end.

Section Texts.

(** [std::error_code::message]. *)
Context (message : error_code -> bytes).

Definition what (this : lerror) : bytes :=
  let 'MkLError ec _ msg _ := this in
  if bool_decide (msg = []) then message ec else message ec ++ bs ": " ++ msg.

(** What the formatter prints of one error. *)
Definition format_one (curr : lerror) : bytes :=
  let 'MkLError (EC cat value) loc msg _ := curr in
  bs "[" ++ category_name cat ++ bs ":" ++ to_string_int value ++ bs "] " ++ what curr ++ bs " @ " ++
  extract_project_path (file_name loc) ++ bs ":" ++ to_string_int (line loc).

(** The loop over the chain. *)
Fixpoint format_loop (is_first : bool) (curr : lerror) (out : bytes) : bytes :=
  let out := out ++ (if is_first then [10] else [10] ++ bs "  Caused by: ") in
  let out := out ++ format_one curr in
  match curr with
  | MkLError _ _ _ (Some next) => format_loop false next out
  | MkLError _ _ _ None => out
  end.

Definition format (root_err : lerror) : bytes := format_loop true root_err [].

(** ** Logging *)

Inductive log_level := Debug | Info | Warn | Error.

Definition level_int (l : log_level) : Z := match l with Debug => 0 | Info => 1 | Warn => 2 | Error => 3 end.

Definition esc (s : string) : bytes := 27 :: bs s.

Definition get_color (l : log_level) : bytes :=
  match l with Info => esc "[92m" | Warn => esc "[93m" | Error => esc "[91m" | Debug => esc "[94m" end.

Definition get_level_str (l : log_level) : bytes :=
  match l with Info => bs "INFO" | Warn => bs "WARN" | Error => bs "ERR " | Debug => bs "DBUG" end.

(** The stream and the line of [log_impl]; [now] is the time as it is printed. *)
Definition log_impl (l : log_level) (now : bytes) (loc : location) (text : bytes) : bool * bytes :=
  (match l with Error => true | _ => false end,
   esc "[90m" ++ bs "[" ++ now ++ bs "] " ++ get_color l ++ esc "[1m" ++ get_level_str l ++ bs " " ++
   esc "[0m" ++ esc "[2m" ++ bs "[" ++ extract_filename (file_name loc) ++ bs ":" ++ to_string_int (line loc) ++ bs "] " ++
   esc "[0m" ++ text ++ [10]).

(** [set_level] and [get_level]: the state is the global level. *)
Definition initial_level : log_level := Debug.
Definition set_level (l : log_level) (global_level : log_level) : log_level := l.
Definition get_level (global_level : log_level) : log_level := global_level.

(** [debug], [info], [warn], [error]. *)
Definition log_at (l : log_level) (global_level : log_level) (now : bytes) (loc : location) (text : bytes) : option (bool * bytes) :=
  if level_int (get_level global_level) <=? level_int l then Some (log_impl l now loc text) else None.

(** ** Chains *)

(** An error and its causes. *)
Fixpoint chain (e : lerror) : list lerror :=
  e :: match e with MkLError _ _ _ (Some c) => chain c | MkLError _ _ _ None => [] end.

(** Induction over the chain. *)
Lemma lerror_ind' (P : lerror -> Prop) :
  (forall ec loc msg, P (MkLError ec loc msg None)) ->
  (forall ec loc msg c, P c -> P (MkLError ec loc msg (Some c))) -> forall e, P e.
Proof.
  intros H0 H1. fix IH 1. intros [ec loc msg [c|]]; [apply H1, IH|apply H0].
Qed.

Lemma copy_eq (e : lerror) : copy e = e.
Proof. induction e as [|ec loc msg c IH] using lerror_ind'; [done|]. cbn. by rewrite IH. Qed.

Lemma format_loop_spec (e : lerror) (first : bool) (out : bytes) :
  format_loop first e out =
    out ++ (if first then [10] else [10] ++ bs "  Caused by: ") ++ format_one e ++
    concat ((fun c => [10] ++ bs "  Caused by: " ++ format_one c) <$> drop 1 (chain e)).
Proof.
  revert first out. induction e as [ec loc msg|ec loc msg c IH] using lerror_ind'; intros first out.
  - cbn [format_loop chain drop fmap list_fmap concat]. by rewrite app_nil_r, <- app_assoc.
  - assert (Hc : chain c = c :: drop 1 (chain c)) by (by destruct c as [? ? ? [|]]).
    cbn [format_loop chain]. rewrite IH. change (drop 1 (?x :: ?l)) with l.
    set (l1 := format_one (MkLError ec loc msg (Some c))). clearbody l1.
    rewrite Hc at 2. cbn [drop fmap list_fmap concat]. rewrite <- !app_assoc. done.
Qed.

(** ([std::formatter<Error>], functional): an error with a cause prints its own
    line and then, in order, a line for the cause and for each cause below it; the
    cause it had before is gone.  Copies print alike. *)
Theorem error_chain_printed (e c : lerror) :
  format (with_cause c e) =
    [10] ++ format_one e ++ concat ((fun x => [10] ++ bs "  Caused by: " ++ format_one x) <$> chain c) /\
  format (copy e) = format e /\
  format e = [10] ++ format_one e ++
    match cause e with Some d => concat ((fun x => [10] ++ bs "  Caused by: " ++ format_one x) <$> chain d) | None => [] end.
Proof.
  unfold format. rewrite !format_loop_spec, copy_eq. destruct e as [[cat v] loc msg d]. cbn [with_cause cause app].
  rewrite copy_eq. split; [done|]. split; [done|]. by destruct d.
Qed.

End Texts.

(** ** Project paths *)

Lemma drop_suffix (n : nat) (p : bytes) : exists a, p = a ++ drop n p.
Proof. exists (take n p). by rewrite take_drop. Qed.

Lemma rfind_at_last (c : Z) (a d r : bytes) : c ∉ d -> rfind_at c (length (a ++ c :: d) - 1) (a ++ c :: d ++ r) = Some (length a).
Proof.
  intros Hd. unfold rfind_at. replace (a ++ c :: d ++ r) with ((a ++ c :: d) ++ r) by (by rewrite <- app_assoc).
  replace (length (a ++ c :: d) - 1 + 1)%nat with (length (a ++ c :: d)) by (rewrite length_app; cbn; lia).
  rewrite take_app_length. by apply rfind_char_app.
Qed.

(** ([extract_project_path], functional): the printed path is the end of the file's
    path; when the first [/src/] of the path stands behind a directory of its own,
    it starts with this directory. *)
Theorem project_path_spec (p : bytes) :
  (exists a, p = a ++ extract_project_path p) /\
  (forall a dir rest, p = a ++ 47 :: dir ++ bs "/src/" ++ rest -> 47 ∉ dir ->
     find_str (bs "/src/") p = Some (length (a ++ 47 :: dir)) ->
     extract_project_path p = dir ++ bs "/src/" ++ rest).
Proof.
  split.
  - unfold extract_project_path. repeat case_match; try apply drop_suffix; by exists [].
  - intros a dir rest -> Hd Hf. unfold extract_project_path. rewrite Hf.
    rewrite (proj2 (Nat.ltb_lt _ _)) by (rewrite length_app; cbn; lia).
    rewrite rfind_at_last by done.
    replace (a ++ 47 :: dir ++ bs "/src/" ++ rest) with ((a ++ [47]) ++ dir ++ bs "/src/" ++ rest) by (by rewrite <- app_assoc).
    replace (length a + 1)%nat with (length (a ++ [47])) by (by rewrite length_app). by rewrite drop_app_length.
Qed.
