(* ===== verification/Url.v ===== *)
(** ppnt-io/net: URLs.

    [src/ppnt-io/src/net/url.ixx] (class [Url]) and [url.cpp] (parsing,
    reference resolution, printing).  String views are byte lists, positions
    are [nat] and [npos] is [None].  [parse_authority] changes the [Url] it is
    given also when it fails, so it returns the changed [Url] beside its
    result. *)

From S2P Require Import Prelude Util.
From stdpp Require Import strings.

Local Open Scope Z_scope.

Record Url := MkUrl {
  scheme_ : bytes;
  user_info_ : bytes;
  host_ : bytes;
  port_ : Z;
  path_ : bytes;
  query_ : bytes;
  fragment_ : bytes
}.

(** The default member initialisers. *)
Definition Url_default : Url := MkUrl [] [] [] (-1) [47] [] [].

Definition set_scheme_ (s : bytes) (u : Url) : Url :=
  MkUrl s (user_info_ u) (host_ u) (port_ u) (path_ u) (query_ u) (fragment_ u).
Definition set_user_info_ (s : bytes) (u : Url) : Url :=
  MkUrl (scheme_ u) s (host_ u) (port_ u) (path_ u) (query_ u) (fragment_ u).
Definition set_host (s : bytes) (u : Url) : Url :=
  MkUrl (scheme_ u) (user_info_ u) s (port_ u) (path_ u) (query_ u) (fragment_ u).
Definition set_port_ (p : Z) (u : Url) : Url :=
  MkUrl (scheme_ u) (user_info_ u) (host_ u) p (path_ u) (query_ u) (fragment_ u).
Definition set_path (s : bytes) (u : Url) : Url :=
  MkUrl (scheme_ u) (user_info_ u) (host_ u) (port_ u) s (query_ u) (fragment_ u).
Definition set_query_ (s : bytes) (u : Url) : Url :=
  MkUrl (scheme_ u) (user_info_ u) (host_ u) (port_ u) (path_ u) s (fragment_ u).
Definition set_fragment_ (s : bytes) (u : Url) : Url :=
  MkUrl (scheme_ u) (user_info_ u) (host_ u) (port_ u) (path_ u) (query_ u) s.

(** [substr(0, pos)] and [substr(pos)] where [npos] means the whole view. *)
Definition substr_to (pos : option nat) (s : bytes) : bytes :=
  match pos with Some n => take n s | None => s end.

Definition port_or_default (u : Url) : Z :=
  if negb (port_ u =? -1) then port_ u
  else if bytes_eqb (scheme_ u) (bs "http") then 80
  else if bytes_eqb (scheme_ u) (bs "https") then 443
  else 0.

(** ** [Url::parse_authority] *)

Definition strip_brackets (h : bytes) : bytes :=
  if (2 <=? Z.of_nat (length h)) && (nth 0 h 0 =? 91) && (nth (length h - 1) h 0 =? 93)
  then take (length h - 2) (drop 1 h) else h.

Definition has_port (colon_pos close_bracket : option nat) : bool :=
  match colon_pos with
  | None => false
  | Some c => match close_bracket with None => true | Some b => Nat.ltb b c end
  end.

Definition parse_authority (authority : bytes) (url : Url) : Url * Result () :=
  let '(url, authority) :=
    match find_char 64 authority with
    | Some at_pos => (set_user_info_ (take at_pos authority) url, drop (at_pos + 1) authority)
    | None => (url, authority)
    end in
  let colon_pos := rfind_char 58 authority in
  let close_bracket := rfind_char 93 authority in
  if has_port colon_pos close_bracket then
    let colon := default 0%nat colon_pos in
    match from_chars_int (drop (colon + 1) authority) with
    | CharsOk port_num =>
        let url := set_port_ port_num url in
        let host := to_lower_ascii_str (take colon authority) in
        (set_host (strip_brackets host) url, Ok tt)
    | _ => (url, make_err_result invalid_argument "InvalidPort")
    end
  else
    let url := set_port_ (-1) url in
    (set_host (strip_brackets (to_lower_ascii_str authority)) url, Ok tt).

(** ** [remove_dot_segments] *)

(** Cut the output back to before its last slash. *)
Definition pop_segment (output : bytes) : bytes :=
  match output with
  | [] => []
  | _ => match rfind_char 47 output with None => [] | Some last_slash => take last_slash output end
  end.

(** The text before the next slash at or after position [from], and the rest. *)
Definition next_segment (from : nat) (input : bytes) : bytes * bytes :=
  match find_char 47 (drop from input) with
  | None => (input, [])
  | Some n => (take (from + n) input, drop (from + n) input)
  end.

(** One turn of the loop on a non-empty input: the new input and output. *)
Definition rds_step (input output : bytes) : bytes * bytes :=
  if starts_with input (bs "../") then (drop 3 input, output)
  else if starts_with input (bs "./") then (drop 2 input, output)
  else if starts_with input (bs "/./") then (drop 2 input, output)
  else if bytes_eqb input (bs "/.") then (bs "/", output)
  else if starts_with input (bs "/../") || bytes_eqb input (bs "/..") then
    let input := if starts_with input (bs "/../") then drop 3 input else bs "/" in
    (input, pop_segment output)
  else if bytes_eqb input (bs ".") || bytes_eqb input (bs "..") then ([], output)
  else if starts_with input (bs "/") then
    let '(seg, rest) := next_segment 1 input in (rest, output ++ seg)
  else
    let '(seg, rest) := next_segment 0 input in (rest, output ++ seg).

(** The [while (!input.empty())] loop; [None] when the fuel runs out. *)
Fixpoint rds_loop (fuel : nat) (input output : bytes) : option bytes :=
  match input with
  | [] => Some output
  | _ :: _ =>
      match fuel with
      | O => None
      | S f => let '(input', output') := rds_step input output in rds_loop f input' output'
      end
  end.

(** Every turn shortens the input ([rds_loop_total] below), so its length is
    enough fuel. *)
Definition remove_dot_segments (input : bytes) : bytes :=
  default [] (rds_loop (length input) input []).

(** ** [Url::parse] *)

(** [std::isalpha] in the C locale. *)
Definition is_alpha (c : Z) : bool :=
  ((65 <=? c) && (c <=? 90)) || ((97 <=? c) && (c <=? 122)).

Definition parse_tail (rest : bytes) (url : Url) : Url :=
  let query_pos := find_char 63 rest in
  let fragment_pos := find_char 35 rest in
  let '(url, query_pos, rest) :=
    match fragment_pos with
    | None => (url, query_pos, rest)
    | Some f =>
        (set_fragment_ (drop (f + 1) rest) url,
         match query_pos with Some q => if Nat.ltb f q then None else Some q | None => None end,
         take f rest)
    end in
  let '(url, rest) :=
    match query_pos with
    | None => (url, rest)
    | Some q => (set_query_ (drop (q + 1) rest) url, take q rest)
    end in
  set_path (remove_dot_segments rest) url.

Definition parse (input : bytes) : Result Url :=
  match input with
  | [] => make_err_result invalid_argument "empty url input"
  | _ :: _ =>
      match find_char 58 input with
      | None => make_err_result invalid_argument "invalid scheme"
      | Some scheme_end =>
          let url := set_scheme_ (to_lower_ascii_str (take scheme_end input)) Url_default in
          if match scheme_ url with [] => true | c :: _ => negb (is_alpha c) end
          then make_err_result invalid_argument "invalid scheme"
          else
            let rest := drop (scheme_end + 1) input in
            if starts_with rest (bs "//") then
              let rest := drop 2 rest in
              let authority_end := find_first_of (bs "/?#") rest in
              match parse_authority (substr_to authority_end rest) url with
              | (_, Err e) => Err e
              | (url, Ok _) =>
                  let rest := match authority_end with Some n => drop n rest | None => [] end in
                  Ok (parse_tail rest url)
              end
            else Ok (parse_tail rest url)
      end
  end.

(** ** [Url::resolve]

    The network-path branch tests the result of [parse_authority] the wrong
    way round: on success it reads the error of a [Result] that holds none,
    which is undefined behaviour ([Undefined]). *)

Definition base_dir (base_path : bytes) : bytes :=
  match rfind_char 47 base_path with
  | None => bs "/"
  | Some last_slash => take (last_slash + 1) base_path
  end.

(** The branches on [rest] once query and fragment are cut off. *)
Definition resolve_path (rest : bytes) (base url : Url) : outcome Url :=
  if starts_with rest (bs "//") then
    let rest := drop 2 rest in
    let auth_end := find_first_of (bs "/?#") rest in
    match parse_authority (substr_to auth_end rest) url with
    | (_, Ok _) => Undefined
    | (url, Err _) =>
        match auth_end with
        | Some n => Returns (Ok (set_path (remove_dot_segments (drop n rest)) url))
        | None => Returns (Ok (set_path (bs "/") url))
        end
    end
  else if starts_with rest (bs "/") then Returns (Ok (set_path (remove_dot_segments rest) url))
  else
    match rest with
    | [] => Returns (Ok url)
    | _ :: _ =>
        match path_ base with
        | [] => Returns (Ok (set_path (remove_dot_segments (bs "/" ++ rest)) url))
        | _ :: _ =>
            Returns (Ok (set_path (remove_dot_segments (base_dir (path_ base) ++ rest)) url))
        end
    end.

Definition has_scheme (relative : bytes) : bool :=
  match find_char 58 relative with
  | None => false
  | Some scheme_end =>
      match find_first_of (bs "/?#") (take scheme_end relative) with None => true | Some _ => false end
  end.

Definition resolve (relative : bytes) (base : Url) : outcome Url :=
  match relative with
  | [] => Returns (Ok base)
  | _ :: _ =>
      if has_scheme relative then Returns (parse relative)
      else
        let url := set_fragment_ [] (set_query_ [] base) in
        let '(url, rest) :=
          match find_char 35 relative with
          | None => (url, relative)
          | Some f => (set_fragment_ (drop (f + 1) relative) url, take f relative)
          end in
        match find_char 63 rest with
        | None => resolve_path rest base url
        | Some q =>
            let url := set_query_ (drop (q + 1) rest) url in
            match take q rest with
            | [] => Returns (Ok url)
            | rest => resolve_path rest base url
            end
        end
  end.

(** ** Printing *)

Definition host_text (h : bytes) : bytes :=
  match find_char 58 h with
  | Some _ => if negb (nth 0 h 0 =? 91) then bs "[" ++ h ++ bs "]" else h
  | None => h
  end.

Definition port_text (p : Z) : bytes :=
  if negb (p =? -1) then bs ":" ++ to_string_int p else [].

Definition href (u : Url) : bytes :=
  let res := scheme_ u ++ bs "://" in
  let res := match user_info_ u with [] => res | _ => res ++ user_info_ u ++ bs "@" end in
  let res := res ++ host_text (host_ u) in
  let res := res ++ port_text (port_ u) in
  let res := res ++ path_ u in
  let res := match query_ u with [] => res | _ => res ++ bs "?" ++ query_ u end in
  match fragment_ u with [] => res | _ => res ++ bs "#" ++ fragment_ u end.

(** [Url::to_string]. *)
Definition Url_to_string (u : Url) : bytes := href u.

Definition origin (u : Url) : bytes :=
  scheme_ u ++ bs "://" ++ host_ u ++ port_text (port_ u).

(** ** Reference: dot-segment removal on a list of segments

    An absolute path is its list of segments, each after a slash.  RFC 3986,
    section 5.2.4, keeps a stack of them: "." is dropped, ".." pops, and a
    last "." or ".." leaves an empty last segment. *)

Definition join (segs : list bytes) : bytes := concat (cons 47 <$> segs).

Definition is_dot (s : bytes) : bool := bytes_eqb s (bs ".").
Definition is_dotdot (s : bytes) : bool := bytes_eqb s (bs "..").

Fixpoint normalize (segs stack : list bytes) : list bytes :=
  match segs with
  | [] => stack
  | s :: rest =>
      let last := match rest with [] => [[]] | _ => [] end in
      if is_dot s then normalize rest (stack ++ last)
      else if is_dotdot s then normalize rest (removelast stack ++ last)
      else normalize rest (stack ++ [s])
  end.

(** A segment holds no slash. *)
Definition segment (s : bytes) : Prop := 47 ∉ s.

(** ** The loop terminates *)

Lemma starts_with_length l p : starts_with l p = true -> (length p <= length l)%nat.
Proof. intros [r ->]%starts_with_spec. rewrite length_app. lia. Qed.

Lemma next_segment_shrinks from input :
  input <> [] -> (from = 0%nat -> starts_with input (bs "/") = false) ->
  (length (snd (next_segment from input)) < length input)%nat.
Proof.
  intros Hne Hs. unfold next_segment. destruct (find_char 47 (drop from input)) as [n|] eqn:E.
  - simpl. rewrite length_drop. destruct from; [|destruct input; [done|simpl; lia]].
    destruct input as [|c input]; [done|]. specialize (Hs eq_refl).
    unlit. unfold find_char in E. cbn [find_if drop] in E. cbn [starts_with] in Hs.
    rewrite andb_true_r in Hs.
    destruct (47 =? c) eqn:Hc; [done|].
    apply fmap_Some in E as [m [_ ->]]. simpl. lia.
  - destruct input; [done|simpl; lia].
Qed.

Lemma rds_step_shrinks input output :
  input <> [] -> (length (fst (rds_step input output)) < length input)%nat.
Proof.
  intros Hne. assert (Hpos : (0 < length input)%nat) by (destruct input; [done|simpl; lia]).
  unfold rds_step.
  destruct (starts_with input (bs "../")); [cbn [fst]; rewrite length_drop; lia|].
  destruct (starts_with input (bs "./")); [cbn [fst]; rewrite length_drop; lia|].
  destruct (starts_with input (bs "/./")); [cbn [fst]; rewrite length_drop; lia|].
  destruct (bytes_eqb_spec input (bs "/.")) as [->|]; [vm_compute; lia|].
  destruct (starts_with input (bs "/../")); [cbn [orb fst]; rewrite length_drop; lia|].
  destruct (bytes_eqb_spec input (bs "/..")) as [->|]; [vm_compute; lia|]. cbn [orb].
  destruct (bytes_eqb input (bs ".") || bytes_eqb input (bs "..")); [done|].
  destruct (starts_with input (bs "/")) eqn:Hs.
  - pose proof (next_segment_shrinks 1 input Hne ltac:(done)). by destruct (next_segment 1 input).
  - pose proof (next_segment_shrinks 0 input Hne ltac:(done)). by destruct (next_segment 0 input).
Qed.

Lemma rds_loop_total fuel input output :
  (length input <= fuel)%nat -> exists o, rds_loop fuel input output = Some o.
Proof.
  revert input output; induction fuel as [|f IH]; intros [|c input] output Hl; simpl in *;
    eauto; [lia|].
  pose proof (rds_step_shrinks (c :: input) output ltac:(done)) as Hs.
  destruct (rds_step (c :: input) output) as [i' o']. simpl in Hs. apply IH. lia.
Qed.

(** More fuel never changes a result. *)
Lemma rds_loop_mono fuel fuel' input output o :
  rds_loop fuel input output = Some o -> (fuel <= fuel')%nat ->
  rds_loop fuel' input output = Some o.
Proof.
  revert fuel' input output; induction fuel as [|f IH]; intros [|f'] [|c input] output H Hf;
    simpl in *; try done; try lia.
  destruct (rds_step (c :: input) output). apply IH; [done|lia].
Qed.

(** ** One turn on an absolute path *)

(** What may follow a segment: nothing, or the slash of the next one. *)
Definition seg_end (t : bytes) : Prop := match t with [] => True | c :: _ => c = 47 end.

Lemma starts_with_segment s t p :
  segment s -> seg_end t -> segment p ->
  starts_with (s ++ t) (p ++ [47]) = bytes_eqb s p && match t with [] => false | _ => true end.
Proof.
  unfold segment. intros Hs Ht. revert s Hs.
  induction p as [|x p IH]; intros [|y s] Hs Hp; cbn [app starts_with bytes_eqb andb].
  - destruct t as [|c t]; [done|]. simpl in Ht. by subst.
  - rewrite not_elem_of_cons in Hs. destruct Hs as [Hy _].
    by rewrite (proj2 (Z.eqb_neq 47 y) Hy).
  - rewrite not_elem_of_cons in Hp. destruct t as [|c t]; [done|]. simpl in Ht. subst c.
    by rewrite (proj2 (Z.eqb_neq x 47)) by naive_solver.
  - rewrite not_elem_of_cons in Hs, Hp. rewrite IH by naive_solver.
    rewrite (Z.eqb_sym x y). by destruct (y =? x).
Qed.

Lemma bytes_eqb_segment s t p :
  segment p -> seg_end t ->
  bytes_eqb (s ++ t) p = bytes_eqb s p && match t with [] => true | _ => false end.
Proof.
  unfold segment. intros Hp Ht. destruct t as [|c t].
  - by rewrite app_nil_r, andb_true_r.
  - rewrite andb_false_r. simpl in Ht. subst c.
    destruct (bytes_eqb_spec (s ++ 47 :: t) p) as [<-|]; [|done]. set_solver.
Qed.

Lemma next_segment_abs s t :
  segment s -> seg_end t -> next_segment 1 (47 :: s ++ t) = (47 :: s, t).
Proof.
  intros Hs Ht. unfold next_segment. change (drop 1 (47 :: s ++ t)) with (s ++ t).
  destruct t as [|c t].
  - rewrite app_nil_r. by rewrite (proj2 (find_char_None 47 s)).
  - simpl in Ht. subst c. rewrite find_char_app by done. cbn [Nat.add firstn skipn].
    by rewrite take_app_length, drop_app_length.
Qed.

Lemma rds_step_abs s t output :
  segment s -> seg_end t ->
  rds_step (47 :: s ++ t) output =
  let rest := match t with [] => bs "/" | _ => t end in
  if is_dot s then (rest, output)
  else if is_dotdot s then (rest, pop_segment output)
  else (t, output ++ 47 :: s).
Proof.
  intros Hs Ht. unfold rds_step, is_dot, is_dotdot.
  assert (H1 : segment [46]) by (unfold segment; set_solver).
  assert (H2 : segment [46; 46]) by (unfold segment; set_solver).
  pose proof (starts_with_segment s t [46] Hs Ht H1) as E1.
  pose proof (starts_with_segment s t [46; 46] Hs Ht H2) as E2.
  pose proof (bytes_eqb_segment s t [46] H1 Ht) as E3.
  pose proof (bytes_eqb_segment s t [46; 46] H2 Ht) as E4.
  unlit. cbn [app] in *.
  change (starts_with (47 :: s ++ t) [46; 46; 47]) with false.
  change (starts_with (47 :: s ++ t) [46; 47]) with false.
  change (starts_with (47 :: s ++ t) [47; 46; 47]) with (starts_with (s ++ t) [46; 47]).
  change (starts_with (47 :: s ++ t) [47; 46; 46; 47]) with (starts_with (s ++ t) [46; 46; 47]).
  change (bytes_eqb (47 :: s ++ t) [47; 46]) with (bytes_eqb (s ++ t) [46]).
  change (bytes_eqb (47 :: s ++ t) [47; 46; 46]) with (bytes_eqb (s ++ t) [46; 46]).
  change (bytes_eqb (47 :: s ++ t) [46] || bytes_eqb (47 :: s ++ t) [46; 46]) with false.
  change (starts_with (47 :: s ++ t) [47]) with true.
  rewrite E1, E2, E3, E4, next_segment_abs by done.
  destruct (bytes_eqb_spec s [46]) as [->|].
  { destruct t; [done|]. simpl in Ht. by subst. }
  destruct (bytes_eqb_spec s [46; 46]) as [->|]; [|done].
  destruct t; [done|]. simpl in Ht. by subst.
Qed.

Lemma join_app a b : join (a ++ b) = join a ++ join b.
Proof. unfold join. by rewrite fmap_app, concat_app. Qed.

Lemma join_seg_end segs : seg_end (join segs).
Proof. by destruct segs. Qed.

Lemma pop_segment_join stack :
  Forall segment stack -> pop_segment (join stack) = join (removelast stack).
Proof.
  intros H. destruct stack as [|s stack _] using rev_ind; [done|].
  apply Forall_app in H as [_ [Hs _]%Forall_cons].
  rewrite removelast_last, join_app. change (join [s]) with (47 :: (s ++ [])). rewrite app_nil_r.
  unfold pop_segment. rewrite rfind_char_app by done. rewrite take_app_length.
  by destruct (join stack).
Qed.

Lemma Forall_removelast {A} (P : A -> Prop) l : Forall P l -> Forall P (removelast l).
Proof.
  destruct l as [|x l _] using rev_ind; [done|]. rewrite removelast_last.
  by intros [? _]%Forall_app.
Qed.

Lemma rds_loop_nil fuel output : rds_loop fuel [] output = Some output.
Proof. by destruct fuel. Qed.

Lemma rds_loop_slash fuel output :
  (0 < fuel)%nat -> rds_loop fuel (bs "/") output = Some (output ++ [47]).
Proof. destruct fuel; [lia|]. intros _. apply rds_loop_nil. Qed.

(** The loop follows the stack of the reference. *)
Lemma rds_loop_normalize segs stack fuel :
  Forall segment segs -> Forall segment stack -> (length (join segs) <= fuel)%nat ->
  rds_loop fuel (join segs) (join stack) = Some (join (normalize segs stack)).
Proof.
  intros Hsegs. revert stack fuel. induction Hsegs as [|s segs Hs Hsegs IH]; intros stack fuel Hst Hf.
  { by destruct fuel. }
  change (join (s :: segs)) with (47 :: s ++ join segs) in *.
  destruct fuel as [|fuel]; [simpl in Hf; lia|]. cbn [rds_loop].
  rewrite rds_step_abs by (done || apply join_seg_end). cbn [length] in Hf. rewrite length_app in Hf.
  assert (E : segment []) by (unfold segment; set_solver).
  cbn [normalize]. destruct (is_dot s) eqn:Ed; [|destruct (is_dotdot s) eqn:Edd].
  - apply bytes_eqb_eq in Ed as ->. change (length (bs ".")) with 1%nat in Hf. destruct segs as [|s' segs].
    + rewrite rds_loop_slash by lia. cbn [normalize]. by rewrite join_app.
    + rewrite app_nil_r. apply IH; [done|lia].
  - apply bytes_eqb_eq in Edd as ->. change (length (bs "..")) with 2%nat in Hf.
    rewrite pop_segment_join by done.
    destruct segs as [|s' segs].
    + rewrite rds_loop_slash by lia. cbn [normalize]. by rewrite join_app.
    + rewrite app_nil_r. apply IH; [by apply Forall_removelast|lia].
  - replace (join stack ++ 47 :: s) with (join (stack ++ [s]))
      by (rewrite join_app; unfold join; simpl; by rewrite app_nil_r).
    apply IH; [by apply Forall_app; repeat constructor|lia].
Qed.

Lemma remove_dot_segments_join segs :
  Forall segment segs -> remove_dot_segments (join segs) = join (normalize segs []).
Proof.
  intros. unfold remove_dot_segments. change (@nil Z) with (join []) at 2.
  by rewrite rds_loop_normalize.
Qed.

(** ** Normal form of the result *)

Definition clean (s : bytes) : Prop := segment s /\ is_dot s = false /\ is_dotdot s = false.

Lemma normalize_clean segs stack :
  Forall segment segs -> Forall clean stack -> Forall clean (normalize segs stack).
Proof.
  intros Hs. revert stack. induction Hs as [|s segs Hs _ IH]; intros stack Hst; [done|].
  assert (E : clean []) by (split; [unfold segment; set_solver|done]).
  assert (L : Forall clean (match segs with [] => [[]] | _ => [] end)) by (destruct segs; auto).
  cbn [normalize]. destruct (is_dot s) eqn:E1; [|destruct (is_dotdot s) eqn:E2]; apply IH.
  - by apply Forall_app.
  - apply Forall_app. split; [by apply Forall_removelast|done].
  - apply Forall_app. repeat constructor; done.
Qed.

Lemma normalize_nonempty segs stack : segs <> [] -> normalize segs stack <> [].
Proof.
  assert (G : forall l st, st <> [] \/ l <> [] -> normalize l st <> []).
  { induction l as [|s l IH]; intros st H; [naive_solver|]. cbn [normalize].
    destruct (is_dot s); [|destruct (is_dotdot s)]; apply IH.
    - destruct l; [left; by destruct st|by right].
    - destruct l; [left; by destruct (removelast st)|by right].
    - left. by destruct st. }
  intros. apply G. by right.
Qed.

Lemma normalize_id segs stack : Forall clean segs -> normalize segs stack = stack ++ segs.
Proof.
  intros H. revert stack. induction H as [|s segs (_ & E1 & E2) _ IH]; intros stack; simpl.
  - by rewrite app_nil_r.
  - by rewrite E1, E2, IH, <- app_assoc.
Qed.

Lemma absolute_segments r : exists segs, 47 :: r = join segs /\ Forall segment segs /\ segs <> [].
Proof.
  induction r as [|c r (segs & E & Hs & Hne)].
  - exists [[]]. split; [done|]. split; [|done]. repeat constructor. unfold segment. set_solver.
  - destruct (Z.eq_dec c 47) as [->|Hc].
    + exists ([] :: segs). rewrite E. split; [done|]. split; [|done].
      constructor; [unfold segment; set_solver|done].
    + destruct segs as [|s segs]; [done|]. exists ((c :: s) :: segs).
      apply Forall_cons in Hs as [Hs Hss]. injection E as ->.
      split; [done|]. split; [|done]. constructor; [|done]. unfold segment in *. set_solver.
Qed.

Lemma remove_dot_segments_clean segs :
  Forall clean segs -> remove_dot_segments (join segs) = join segs.
Proof.
  intros H. rewrite remove_dot_segments_join, normalize_id; [done..|].
  eapply Forall_impl; [done|]. by intros ? [? _].
Qed.

Lemma remove_dot_segments_absolute r :
  exists segs, remove_dot_segments (47 :: r) = join segs /\ segs <> [] /\ Forall clean segs.
Proof.
  destruct (absolute_segments r) as (segs & E & Hs & Hne). exists (normalize segs []).
  rewrite E. split; [by apply remove_dot_segments_join|].
  split; [by apply normalize_nonempty|by apply normalize_clean].
Qed.

(** ([remove_dot_segments], termination): the loop ends on every input
    within as many turns as the input has characters, and more turns do not
    change its result. *)
Theorem remove_dot_segments_terminates input fuel :
  (length input <= fuel)%nat ->
  exists out, rds_loop fuel input [] = Some out /\ remove_dot_segments input = out.
Proof.
  intros Hf. destruct (rds_loop_total (length input) input []) as [o Ho]; [done|].
  exists o. split; [by eapply rds_loop_mono|]. unfold remove_dot_segments. by rewrite Ho.
Qed.

(** An instance. *)
Lemma remove_dot_segments_terminates_witness :
  exists out, rds_loop 9 (bs "../a/./..") [] = Some out /\
              remove_dot_segments (bs "../a/./..") = out.
Proof. apply (remove_dot_segments_terminates (bs "../a/./..") 9). reflexivity. Defined.

(** C16 ([remove_dot_segments], equivalence): on an absolute path, given as its
    segments, the string loop computes the segment-stack algorithm of RFC
    3986. *)
Theorem remove_dot_segments_refines segs :
  Forall segment segs -> remove_dot_segments (join segs) = join (normalize segs []).
Proof. apply remove_dot_segments_join. Qed.

(** Witness of C16. *)
Lemma remove_dot_segments_refines_witness :
  remove_dot_segments (join [bs "a"; bs ".."; bs "b"; bs "."]) = bs "/b/".
Proof.
  rewrite (remove_dot_segments_refines [bs "a"; bs ".."; bs "b"; bs "."]).
  - reflexivity.
  - repeat constructor; apply find_char_None; reflexivity.
Defined.

(** ([remove_dot_segments], invariant): the result for an absolute path is
    an absolute path none of whose segments is "." or "..", and it is a fixed
    point: normalising twice is normalising once. *)
Theorem remove_dot_segments_normal_form r :
  let out := remove_dot_segments (47 :: r) in
  (exists segs, out = join segs /\ segs <> [] /\ Forall clean segs) /\
  remove_dot_segments out = out.
Proof.
  intros out. destruct (remove_dot_segments_absolute r) as (segs & E & Hne & Hc).
  fold out in E. rewrite E. split; [by exists segs|by apply remove_dot_segments_clean].
Qed.

(** ** Printing and parsing back *)

(** Characters that end an authority, or split it. *)
Definition authority_text (s : bytes) : Prop :=
  Forall (fun c => mem_byte c (bs "/?#") = false) s /\ (64 ∉ s).

Definition lower_case (s : bytes) : Prop := to_lower_ascii <$> s = s.

(** A [Url] whose fields do not run into each other when printed: what
    [Url::parse] builds from a hierarchical URL without stray delimiters. *)
Record url_wf (u : Url) : Prop := UrlWf {
  wf_scheme : exists c s, scheme_ u = c :: s /\ is_alpha c = true;
  wf_scheme_lower : lower_case (scheme_ u);
  wf_scheme_colon : 58 ∉ scheme_ u;
  wf_user : authority_text (user_info_ u);
  wf_host : authority_text (host_ u);
  wf_host_lower : lower_case (host_ u);
  wf_host_bracket : (93 ∉ host_ u) /\ (58 ∈ host_ u -> nth 0 (host_ u) 0 <> 91);
  wf_port : INT_MIN <= port_ u <= INT_MAX;
  wf_path : seg_end (path_ u) /\ (63 ∉ path_ u) /\ (35 ∉ path_ u);
  wf_path_normal : remove_dot_segments (path_ u) = path_ u;
  wf_query : 35 ∉ query_ u
}.

Lemma to_string_int_chars n c : c ∈ to_string_int n -> c = 45 \/ is_digit c = true.
Proof.
  unfold to_string_int. destruct (Z.ltb_spec n 0).
  - destruct (dec_nat_spec (- n)) as [Hd _]; [lia|]. rewrite elem_of_cons.
    intros [->|Hc]; [by left|]. right. unfold digits in Hd. rewrite Forall_forall in Hd. by apply Hd.
  - destruct (dec_nat_spec n) as [Hd _]; [lia|]. right. unfold digits in Hd.
    rewrite Forall_forall in Hd. by apply Hd.
Qed.

Lemma to_string_int_not n c : c <> 45 -> is_digit c = false -> c ∉ to_string_int n.
Proof. intros H1 H2 [?|?]%to_string_int_chars; congruence. Qed.

Lemma strip_brackets_plain h : 93 ∉ h -> strip_brackets h = h.
Proof.
  intros Hh. unfold strip_brackets.
  assert ((nth (length h - 1) h 0 =? 93) = false) as ->; [|by rewrite andb_false_r].
  apply Z.eqb_neq. intros E. apply Hh. rewrite <- E.
  destruct (nth_in_or_default (length h - 1) h 0) as [Hi|Hd]; [by apply list_elem_of_In|].
  rewrite Hd in E. done.
Qed.

Lemma strip_brackets_text h : strip_brackets (91 :: h ++ [93]) = h.
Proof.
  unfold strip_brackets. cbn [length]. rewrite length_app. cbn [length].
  rewrite (proj2 (Z.leb_le _ _)) by lia. cbn [nth].
  replace (S (length h + 1) - 1)%nat with (S (length h)) by lia. cbn [nth].
  rewrite app_nth2, Nat.sub_diag by lia. cbn [nth].
  replace (S (length h + 1) - 2)%nat with (length h) by lia.
  change (drop 1 (91 :: h ++ [93])) with (h ++ [93]). by rewrite take_app_length.
Qed.

(** The two ways a host is printed. *)
Lemma host_text_cases h :
  (58 ∈ h -> nth 0 h 0 <> 91) ->
  ((58 ∉ h) /\ host_text h = h) \/ ((58 ∈ h) /\ host_text h = 91 :: h ++ [93]).
Proof.
  intros Hb. unfold host_text. destruct (find_char 58 h) as [i|] eqn:E.
  - right. destruct (decide (58 ∈ h)) as [Hin|Hn]; [|apply find_char_None in Hn; congruence].
    rewrite (proj2 (Z.eqb_neq _ _) (Hb Hin)). done.
  - left. by apply find_char_None in E.
Qed.

Lemma strip_host_text h :
  93 ∉ h -> (58 ∈ h -> nth 0 h 0 <> 91) -> strip_brackets (host_text h) = h.
Proof.
  intros H1 H2. destruct (host_text_cases h H2) as [[_ ->]|[_ ->]];
    [by apply strip_brackets_plain|apply strip_brackets_text].
Qed.

Lemma lower_host_text h : lower_case h -> to_lower_ascii_str (host_text h) = host_text h.
Proof.
  intros Hl. rewrite to_lower_ascii_str_map. unfold host_text, lower_case in *.
  destruct (find_char 58 h); [|done]. destruct (negb _); [|done].
  rewrite !fmap_app, Hl. done.
Qed.

(** Where the port starts: after the last colon that is not in brackets. *)
Lemma has_port_text h ds :
  93 ∉ h -> (58 ∈ h -> nth 0 h 0 <> 91) -> 58 ∉ ds -> 93 ∉ ds ->
  has_port (rfind_char 58 (host_text h ++ 58 :: ds)) (rfind_char 93 (host_text h ++ 58 :: ds)) = true.
Proof.
  intros H1 H2 H3 H4. rewrite rfind_char_app by done. cbn [has_port].
  destruct (host_text_cases h H2) as [[_ ->]|[_ ->]].
  - rewrite (proj2 (rfind_char_None 93 _)); [done|]. set_solver.
  - replace ((91 :: h ++ [93]) ++ 58 :: ds) with ((91 :: h) ++ 93 :: 58 :: ds)
      by (simpl; by rewrite <- app_assoc).
    rewrite rfind_char_app by set_solver. apply Nat.ltb_lt. simpl. rewrite length_app. simpl. lia.
Qed.

Lemma no_port_text h :
  93 ∉ h -> (58 ∈ h -> nth 0 h 0 <> 91) ->
  has_port (rfind_char 58 (host_text h)) (rfind_char 93 (host_text h)) = false.
Proof.
  intros H1 H2. destruct (host_text_cases h H2) as [[Hc ->]|[Hc ->]].
  - by rewrite (proj2 (rfind_char_None 58 h)).
  - change (91 :: h ++ [93]) with ((91 :: h) ++ [93]).
    rewrite (rfind_char_app 93) by set_solver.
    destruct (rfind_char 58 ((91 :: h) ++ [93])) as [i|] eqn:E; [|done]. cbn [has_port].
    unfold rfind_char in E. apply rfind_if_Some in E as (a & c & b & E & <- & _ & _).
    apply Nat.ltb_ge. apply (f_equal length) in E. rewrite !length_app in E. simpl in *. lia.
Qed.

Lemma parse_hostport h p url authority :
  93 ∉ h -> (58 ∈ h -> nth 0 h 0 <> 91) -> lower_case h -> INT_MIN <= p <= INT_MAX ->
  authority = host_text h ++ port_text p -> 64 ∉ authority ->
  parse_authority authority url = (set_host h (set_port_ p url), Ok tt).
Proof.
  intros H1 H2 Hl Hp -> Hat. unfold parse_authority.
  rewrite (proj2 (find_char_None 64 _)) by done. unfold port_text in *.
  destruct (Z.eqb_spec p (-1)) as [->|Hne]; cbn [negb].
  - rewrite app_nil_r, no_port_text by done.
    by rewrite lower_host_text, strip_host_text.
  - unlit. cbn [app].
    assert (D : (58 ∉ to_string_int p) /\ (93 ∉ to_string_int p))
      by (split; by apply to_string_int_not).
    rewrite has_port_text by naive_solver. rewrite rfind_char_app by naive_solver. cbn [from_option].
    unfold id. rewrite drop_app_add.
    change (drop 1 (58 :: to_string_int p)) with (to_string_int p).
    pose proof (from_chars_to_string p [] Hp I) as E. rewrite app_nil_r in E. rewrite E.
    by rewrite take_app_length, lower_host_text, strip_host_text.
Qed.

Lemma parse_authority_user ui rest url :
  64 ∉ ui -> 64 ∉ rest ->
  parse_authority (ui ++ 64 :: rest) url = parse_authority rest (set_user_info_ ui url).
Proof.
  intros H1 H2. unfold parse_authority.
  rewrite find_char_app, (proj2 (find_char_None 64 rest)) by done.
  rewrite take_app_length, drop_app_add. done.
Qed.

Lemma find_char_skip c a b :
  c ∉ a -> find_char c (a ++ b) = (fun n => (length a + n)%nat) <$> find_char c b.
Proof.
  unfold find_char. intros Ha. induction a as [|x a IH]; simpl; [by destruct (find_if _ b)|].
  rewrite not_elem_of_cons in Ha. rewrite (proj2 (Z.eqb_neq c x)), IH by naive_solver.
  by destruct (find_if _ b).
Qed.

Definition query_text (q : bytes) : bytes := match q with [] => [] | _ => 63 :: q end.
Definition fragment_text (f : bytes) : bytes := match f with [] => [] | _ => 35 :: f end.

Lemma query_text_find p q :
  63 ∉ p -> find_char 63 (p ++ query_text q) = match q with [] => None | _ => Some (length p) end.
Proof.
  intros Hp. destruct q as [|c q]; cbn [query_text].
  - rewrite app_nil_r. by apply find_char_None.
  - by rewrite find_char_app.
Qed.

(** The query position in a text without a fragment delimiter before [n]. *)
Lemma query_pos_cut p q f :
  63 ∉ p ->
  match find_char 63 ((p ++ query_text q) ++ fragment_text f) with
  | Some k => if Nat.ltb (length (p ++ query_text q)) k then None else Some k
  | None => None
  end = match q with [] => None | _ => Some (length p) end.
Proof.
  intros Hp. destruct q as [|c q]; cbn [query_text].
  - rewrite app_nil_r, find_char_skip by done. destruct f as [|x f]; cbn [fragment_text]; [done|].
    change (find_char 63 (35 :: x :: f)) with (S <$> find_char 63 (x :: f)).
    destruct (find_char 63 (x :: f)) as [k|]; [|done]. cbn [fmap option_fmap option_map].
    by rewrite (proj2 (Nat.ltb_lt _ _)) by lia.
  - rewrite <- app_assoc. cbn [app]. rewrite find_char_app by done.
    rewrite (proj2 (Nat.ltb_ge _ _)); [done|]. rewrite length_app. lia.
Qed.

Lemma parse_tail_print p q f url :
  63 ∉ p -> 35 ∉ p -> 35 ∉ q -> query_ url = [] -> fragment_ url = [] ->
  parse_tail (p ++ query_text q ++ fragment_text f) url =
  set_path (remove_dot_segments p) (set_query_ q (set_fragment_ f url)).
Proof.
  intros H1 H2 H3 Hq Hf. destruct url as [s ui h po pa qu fr]. simpl in Hq, Hf. subst qu fr.
  assert (Hnf : 35 ∉ p ++ query_text q) by (destruct q; simpl; set_solver).
  unfold parse_tail. rewrite app_assoc. destruct f as [|x f].
  - cbn [fragment_text]. rewrite app_nil_r.
    rewrite (proj2 (find_char_None 35 _)), query_text_find by done.
    destruct q as [|c q]; cbn [query_text]; [by rewrite app_nil_r|].
    rewrite drop_app_add, take_app_length. done.
  - pose proof (query_pos_cut p q (x :: f) H1) as Hc. cbn [fragment_text] in *.
    rewrite (find_char_app 35) by done. rewrite Hc, take_app_length, drop_app_add.
    change (drop 1 (35 :: x :: f)) with (x :: f).
    destruct q as [|c q]; cbn [query_text]; [by rewrite app_nil_r|].
    rewrite drop_app_add, take_app_length. done.
Qed.

(** The text of [href], field by field. *)
Definition user_text (ui : bytes) : bytes := match ui with [] => [] | _ => ui ++ [64] end.

Definition authority_of (u : Url) : bytes :=
  user_text (user_info_ u) ++ host_text (host_ u) ++ port_text (port_ u).

Lemma href_shape u :
  href u = scheme_ u ++ 58 :: 47 :: 47 :: authority_of u ++
           path_ u ++ query_text (query_ u) ++ fragment_text (fragment_ u).
Proof.
  unfold href, authority_of, user_text. unlit.
  destruct (user_info_ u), (query_ u), (fragment_ u); cbn [query_text fragment_text];
    repeat (rewrite <- app_assoc; cbn [app]); rewrite ?app_nil_r; done.
Qed.

Lemma port_text_chars p :
  Forall (fun c => mem_byte c (bs "/?#") = false) (port_text p) /\ (64 ∉ port_text p).
Proof.
  unfold port_text. destruct (negb (p =? -1)); [|split; [done|set_solver]].
  unlit. cbn [app]. split.
  - constructor; [done|]. apply Forall_forall. intros c [->|Hc]%to_string_int_chars; [done|].
    unfold is_digit in Hc. bool_to_prop. unfold mem_byte, existsb.
    rewrite !(proj2 (Z.eqb_neq _ _)) by lia. done.
  - rewrite not_elem_of_cons. split; [done|]. by apply to_string_int_not.
Qed.

Lemma authority_of_chars u :
  url_wf u ->
  Forall (fun c => mem_byte c (bs "/?#") = false) (authority_of u) /\
  (64 ∉ host_text (host_ u) ++ port_text (port_ u)).
Proof.
  intros W. destruct (wf_user u W) as [Hu _], (wf_host u W) as [Hh Hh'].
  assert (Hht : Forall (fun c => mem_byte c (bs "/?#") = false) (host_text (host_ u)) /\
    (64 ∉ host_text (host_ u))).
  { destruct (host_text_cases (host_ u)) as [[_ ->]|[_ ->]]; [apply (wf_host_bracket u W)|done|].
    split; [|set_solver]. constructor; [done|]. apply Forall_app. split; [done|]. by repeat constructor. }
  pose proof (port_text_chars (port_ u)) as Hpt.
  destruct Hht, Hpt. split; [|set_solver]. unfold authority_of, user_text.
  repeat (apply Forall_app; split); try done.
  destruct (user_info_ u); [done|]. apply Forall_app. split; [done|]. by repeat constructor.
Qed.

Lemma parse_authority_print u :
  url_wf u ->
  parse_authority (authority_of u) (set_scheme_ (scheme_ u) Url_default) =
  (set_host (host_ u) (set_port_ (port_ u)
     (set_user_info_ (user_info_ u) (set_scheme_ (scheme_ u) Url_default))), Ok tt).
Proof.
  intros W. destruct (authority_of_chars u W) as [_ Hat], (wf_host_bracket u W) as [H1 H2].
  unfold authority_of, user_text. destruct (user_info_ u) as [|c ui] eqn:E.
  - eapply parse_hostport; eauto using wf_host_lower, wf_port.
  - rewrite <- app_assoc. cbn [app].
    rewrite (app_comm_cons ui _ c).
    rewrite parse_authority_user; [|rewrite <- E; apply (wf_user u W)|done].
    eapply parse_hostport; eauto using wf_host_lower, wf_port.
Qed.

(** What follows the authority is empty or starts with one of its ends. *)
Lemma authority_split a p q f :
  Forall (fun c => mem_byte c (bs "/?#") = false) a -> seg_end p ->
  let tail := p ++ query_text q ++ fragment_text f in
  substr_to (find_first_of (bs "/?#") (a ++ tail)) (a ++ tail) = a /\
  match find_first_of (bs "/?#") (a ++ tail) with
  | Some n => drop n (a ++ tail) | None => [] end = tail.
Proof.
  intros Ha Hp tail. unfold find_first_of.
  assert (Ht : tail = [] \/ exists c r, tail = c :: r /\ mem_byte c (bs "/?#") = true).
  { unfold tail. destruct p as [|c p]; [|right; exists c, (p ++ query_text q ++ fragment_text f)].
    - destruct q as [|x q]; [|right; by eexists _, _].
      destruct f as [|y f]; [by left|right; by eexists _, _].
    - simpl in Hp. by subst c. }
  destruct Ht as [->|(c & r & -> & Hc)].
  - rewrite app_nil_r, (proj2 (find_if_None _ _) Ha). done.
  - rewrite (find_if_app _ a c r Ha Hc). cbn [substr_to].
    by rewrite take_app_length, drop_app_length.
Qed.

(** C30 ([Url::parse] and [Url::href], round trip): printing a URL and parsing the
    text gives the same URL, field by field, IPv6 hosts and user information
    included, for every URL that is well-formed ([url_wf]): a lower-case scheme that
    starts with a letter and has no colon; a lower-case host and user information
    without slash, question mark, hash and at sign, the host also without a closing
    bracket and, if it has a colon, not starting with an opening one; a port that is
    an [int]; a path that is empty or starts with a slash, holds no question mark
    and no hash and has no dot segments; a query without hash. *)
Theorem parse_href u : url_wf u -> parse (href u) = Ok u.
Proof.
  intros W. rewrite href_shape.
  destruct (wf_scheme u W) as (c & s & Es & Hc), (authority_of_chars u W) as [Ha _].
  destruct (wf_path u W) as (Hp & Hp1 & Hp2).
  destruct (authority_split _ _ (query_ u) (fragment_ u) Ha Hp) as [E1 E2].
  set (tail := path_ u ++ query_text (query_ u) ++ fragment_text (fragment_ u)) in *.
  unfold parse. destruct (scheme_ u ++ _) as [|x r] eqn:E; [by rewrite Es in E|].
  rewrite <- E. rewrite find_char_app by apply (wf_scheme_colon u W).
  rewrite take_app_length, to_lower_ascii_str_map, (wf_scheme_lower u W), drop_app_add.
  cbn [scheme_ set_scheme_]. rewrite Es at 1. rewrite Hc. cbn [negb].
  change (drop 1 (58 :: 47 :: 47 :: authority_of u ++ tail)) with (47 :: 47 :: authority_of u ++ tail).
  rewrite (starts_with_app (authority_of u ++ tail) (bs "//") : starts_with (47 :: 47 :: _) _ = true).
  change (drop 2 (47 :: 47 :: authority_of u ++ tail)) with (authority_of u ++ tail).
  rewrite E1, E2, parse_authority_print by done. unfold tail.
  rewrite parse_tail_print, (wf_path_normal u W) by (done || apply (wf_query u W)).
  by destruct u.
Qed.

(** Witness of C30. *)
Lemma parse_href_witness :
  parse (href (MkUrl (bs "https") (bs "u:p") (bs "::1") 8443 (bs "/a/b") (bs "x=1?y") (bs "f#")))
  = Ok (MkUrl (bs "https") (bs "u:p") (bs "::1") 8443 (bs "/a/b") (bs "x=1?y") (bs "f#")).
Proof.
  apply parse_href. constructor; cbn [scheme_ user_info_ host_ port_ path_ query_ fragment_].
  - exists 104, (bs "ttps"). by split.
  - reflexivity.
  - apply find_char_None. reflexivity.
  - split; [by repeat constructor|apply find_char_None; reflexivity].
  - split; [by repeat constructor|apply find_char_None; reflexivity].
  - reflexivity.
  - split; [apply find_char_None; reflexivity|done].
  - by vm_compute.
  - repeat split; apply find_char_None; reflexivity.
  - reflexivity.
  - apply find_char_None; reflexivity.
Defined.

(** ** Resolving references *)

(** [resolve] on a reference without a scheme: fragment and query are cut off
    and a path remains. *)
Lemma resolve_cut relative base :
  has_scheme relative = false ->
  exists n q f,
    let url := set_fragment_ f (set_query_ q base) in
    let rest := take n relative in
    (resolve relative base = resolve_path rest base url \/
     rest = [] /\ resolve relative base = Returns (Ok url)) \/
    relative = [] /\ resolve relative base = Returns (Ok base).
Proof.
  intros Hs. destruct relative as [|c r]; [exists 0%nat, [], []; by right|].
  unfold resolve. rewrite Hs. set (rel := c :: r).
  destruct (find_char 35 rel) as [f|]; [set (rest := take f rel)|set (rest := rel)].
  - destruct (find_char 63 rest) as [q|]; [|exists f, [], (drop (f + 1) rel); by left; left].
    exists (q `min` f)%nat, (drop (q + 1) rest), (drop (f + 1) rel). left.
    unfold rest. rewrite take_take. destruct (take (q `min` f) rel); [right|left]; done.
  - destruct (find_char 63 rest) as [q|].
    + exists q, (drop (q + 1) rest), []. left. destruct (take q rest) eqn:E; [right|left]; by rewrite ?E.
    + exists (length rel), [], []. left. left. by rewrite firstn_all.
Qed.

Lemma starts_with_take n l p : starts_with (take n l) p = true -> starts_with l p = true.
Proof.
  intros [r Hr]%starts_with_spec. apply starts_with_spec.
  exists (r ++ drop n l). by rewrite app_assoc, <- Hr, take_drop.
Qed.

Definition same_authority (u v : Url) : Prop :=
  scheme_ u = scheme_ v /\ user_info_ u = user_info_ v /\ host_ u = host_ v /\ port_ u = port_ v.

Definition normal_path (p : bytes) : Prop :=
  exists segs, p = join segs /\ segs <> [] /\ Forall clean segs.

Lemma base_dir_absolute p : seg_end p -> exists r, base_dir p = 47 :: r.
Proof.
  destruct p as [|c p]; intros Hp; [by exists []|]. simpl in Hp. subst c. unfold base_dir.
  destruct (rfind_char 47 (47 :: p)) as [n|]; [|by exists []].
  exists (take n p). by rewrite Nat.add_1_r.
Qed.

Lemma resolve_path_local rest base url :
  starts_with rest (bs "//") = false -> seg_end (path_ base) ->
  exists p, resolve_path rest base url = Returns (Ok (set_path p url)) /\
            (p = path_ url /\ rest = [] \/ normal_path p).
Proof.
  intros Hs Hb. unfold resolve_path. rewrite Hs.
  destruct (starts_with rest (bs "/")) eqn:E1.
  - apply starts_with_spec in E1 as [r ->]. eexists. split; [done|].
    right. apply remove_dot_segments_absolute.
  - destruct rest as [|c rest]; [exists (path_ url); split; [by destruct url|by left]|].
    destruct (path_ base) as [|d p] eqn:Ep.
    + eexists. split; [done|]. right. apply remove_dot_segments_absolute.
    + eexists. split; [done|]. right. destruct (base_dir_absolute _ Hb) as [r Er].
      rewrite Er. apply remove_dot_segments_absolute.
Qed.

(** ([Url::resolve], functional): a reference without scheme and without
    authority always resolves, to a URL with the scheme, user information,
    host and port of the base, and a path that is the base's or an absolute
    path without "." and ".." segments; so no number of ".." leaves the
    root. *)
Theorem resolve_local relative base :
  has_scheme relative = false -> starts_with relative (bs "//") = false -> seg_end (path_ base) ->
  exists u, resolve relative base = Returns (Ok u) /\ same_authority u base /\
            (path_ u = path_ base \/ normal_path (path_ u)).
Proof.
  intros Hs H2 Hb.
  destruct (resolve_cut relative base Hs) as (n & q & f & [[E|[_ E]]|[_ E]]); rewrite E;
    [|eexists; split; [done|]; split; [done|by left]..].
  destruct (resolve_path_local (take n relative) base (set_fragment_ f (set_query_ q base)))
    as (p & -> & Hp); [|done|].
  - destruct (starts_with (take n relative) (bs "//")) eqn:E2; [|done].
    apply starts_with_take in E2. congruence.
  - eexists. split; [done|]. split; [done|]. destruct Hp as [[-> _]|Hp]; [by left|by right].
Qed.

(** An instance. *)
Lemma resolve_local_witness :
  let base := MkUrl (bs "http") [] (bs "h") 80 (bs "/a/b/c") (bs "q") [] in
  exists u, resolve (bs "../../../../x?y#z") base = Returns (Ok u) /\ same_authority u base /\
            (path_ u = path_ base \/ normal_path (path_ u)).
Proof.
  intros base. apply (resolve_local (bs "../../../../x?y#z") base).
  - reflexivity.
  - reflexivity.
  - reflexivity.
Defined.

Lemma has_scheme_network r : has_scheme (47 :: 47 :: r) = false.
Proof.
  unfold has_scheme. destruct (find_char 58 (47 :: 47 :: r)) as [n|] eqn:E; [|done].
  destruct n; [|done]. unfold find_char in E. cbn [find_if] in E.
  change (58 =? 47) with false in E. cbv iota in E. by apply fmap_Some in E as (? & _ & ?).
Qed.

Lemma parse_authority_error a u u' e :
  parse_authority a u = (u', Err e) -> host_ u' = host_ u /\ port_ u' = port_ u /\ scheme_ u' = scheme_ u.
Proof.
  unfold parse_authority. destruct (find_char 64 a) as [n|];
    (destruct (has_port _ _); [|done]); (destruct (from_chars_int _); [done|..]);
    intros [= <- _]; done.
Qed.

(** ([Url::resolve], error): the network-path branch tests its error the
    wrong way round.  A reference "//authority..." never resolves to the
    authority it names: either the behaviour is undefined (the authority is
    well formed), or the malformed authority is accepted and the result has
    the host and port of the base. *)
Theorem resolve_network_path r base :
  resolve (bs "//" ++ r) base = Undefined \/
  exists u, resolve (bs "//" ++ r) base = Returns (Ok u) /\
            host_ u = host_ base /\ port_ u = port_ base.
Proof.
  destruct (resolve_cut (47 :: 47 :: r) base (has_scheme_network r))
    as (n & q & f & [[E|[_ E]]|[? _]]); [|right; by eexists|done].
  change (bs "//" ++ r) with (47 :: 47 :: r). rewrite E. unfold resolve_path.
  destruct (starts_with (take n (47 :: 47 :: r)) (bs "//")) eqn:E2.
  - destruct (parse_authority _ _) as [u' [v|e]] eqn:Ep; [by left|]. right.
    apply parse_authority_error in Ep as (? & ? & _).
    destruct (find_first_of _ _); by eexists.
  - right. destruct (starts_with _ (bs "/")); [by eexists|].
    destruct (take n _); [by eexists|]. destruct (path_ base); by eexists.
Qed.
