(* ===== verification/Binary.v ===== *)
(** ppnt-io: byte buffers.

    [src/ppnt-io/src/binary_util.ixx]: [BinartWriter], which appends to a
    vector, and [BinaryReader], a cursor over a span.  The machine is
    little-endian ([std::endian::native] is [little]); [size_t] has 64 bits
    and [ensure] adds in it.  A read outside the span is [OutOfBounds]. *)

From S2P Require Import Prelude.

Local Open Scope Z_scope.

(** ** Integers in memory *)

Inductive endian := big | little.

Definition native : endian := little.

Definition endian_eqb (a b : endian) : bool :=
  match a, b with big, big | little, little => true | _, _ => false end.

(** The [n] bytes of a little-endian integer, and the integer they hold. *)
Fixpoint le_split (n : nat) (v : Z) : bytes :=
  match n with O => [] | S n' => v mod 256 :: le_split n' (v / 256) end.

Fixpoint le_combine (l : bytes) : Z :=
  match l with [] => 0 | b :: r => b + 256 * le_combine r end.

(** [__builtin_bswap16], [32] and [64]. *)
Definition byteswap (n : nat) (v : Z) : Z := le_combine (reverse (le_split n v)).

Definition byteswap_if_needed (n : nat) (v : Z) (e : endian) : Z :=
  if endian_eqb e native then v else byteswap n v.

(** ** [BinartWriter] *)

Definition write_u8 (b : Z) (buffer_ : bytes) : bytes := buffer_ ++ [b].

Definition write_bytes (bs : bytes) (buffer_ : bytes) : bytes := buffer_ ++ bs.

Definition write_u16 (v : Z) (e : endian) (buffer_ : bytes) : bytes :=
  write_bytes (le_split 2 (byteswap_if_needed 2 v e)) buffer_.

Definition write_u32 (v : Z) (e : endian) (buffer_ : bytes) : bytes :=
  write_bytes (le_split 4 (byteswap_if_needed 4 v e)) buffer_.

Definition write_u64 (v : Z) (e : endian) (buffer_ : bytes) : bytes :=
  write_bytes (le_split 8 (byteswap_if_needed 8 v e)) buffer_.

Definition write_u24 (v : Z) (e : endian) (buffer_ : bytes) : bytes :=
  let b2 := u8 (Z.land (Z.shiftr v 16) 255) in
  let b1 := u8 (Z.land (Z.shiftr v 8) 255) in
  let b0 := u8 (Z.land v 255) in
  match e with
  | big => ((buffer_ ++ [b2]) ++ [b1]) ++ [b0]
  | little => ((buffer_ ++ [b0]) ++ [b1]) ++ [b2]
  end.

(** The size of a span, as a [size_t]. *)
Definition zsize (l : bytes) : Z := Z.of_nat (length l).

Definition write_u8_length_prefixed (data buffer_ : bytes) : bytes :=
  write_bytes data (write_u8 (u8 (zsize data)) buffer_).

Definition write_u16_length_prefixed (data : bytes) (e : endian) (buffer_ : bytes) : bytes :=
  write_bytes data (write_u16 (u16 (zsize data)) e buffer_).

Definition write_u24_length_prefixed (data buffer_ : bytes) : bytes :=
  write_bytes data (write_u24 (u32 (zsize data)) big buffer_).

Definition write_string (s buffer_ : bytes) : bytes :=
  match s with [] => buffer_ | _ => write_bytes s buffer_ end.

Definition write_u16_length_prefixed_string (s buffer_ : bytes) : bytes :=
  write_string s (write_u16 (u16 (zsize s)) big buffer_).

(** [buffer_[i] = v]; [None] outside the vector. *)
Definition set_at (i : nat) (v : Z) (buffer_ : bytes) : option bytes :=
  if Nat.ltb i (length buffer_) then Some (<[i := v]> buffer_) else None.

(** [clear]; [reserve] leaves the contents; [leak] gives the vector away. *)
Definition clear (buffer_ : bytes) : bytes := [].
Definition reserve (n : Z) (buffer_ : bytes) : bytes := buffer_.
Definition leak (buffer_ : bytes) : bytes * bytes := (buffer_, []).

(** The overload that runs [block_writer] and patches the length in front. *)
Definition write_u16_length_prefixed_block
    (block_writer : bytes -> bytes) (buffer_ : bytes) : option bytes :=
  let len_pos := length buffer_ in
  let buffer_ := write_u16 0 big buffer_ in
  let start_pos := zsize buffer_ in
  let buffer_ := block_writer buffer_ in
  let data_len := u64 (zsize buffer_ - start_pos) in
  buffer_ ← set_at len_pos (u8 (Z.shiftr data_len 8)) buffer_;
  set_at (len_pos + 1) (u8 data_len) buffer_.

(** ** [BinaryReader] *)

Record BinaryReader := MkReader { data_ : bytes; offset_ : Z }.

Definition reader (data : bytes) : BinaryReader := MkReader data 0.

Definition eof (r : BinaryReader) : bool := zsize (data_ r) <=? offset_ r.
Definition remaining (r : BinaryReader) : Z := u64 (zsize (data_ r) - offset_ r).
Definition position (r : BinaryReader) : Z := offset_ r.

Definition ensure (n : Z) (r : BinaryReader) : bool := u64 (offset_ r + n) <=? zsize (data_ r).

Definition advance (n : Z) (r : BinaryReader) : BinaryReader :=
  MkReader (data_ r) (u64 (offset_ r + n)).

Definition seek (pos : Z) (r : BinaryReader) : bool * BinaryReader :=
  if zsize (data_ r) <? pos then (false, r) else (true, MkReader (data_ r) pos).

Definition skip (n : Z) (r : BinaryReader) : bool * BinaryReader :=
  if negb (ensure n r) then (false, r) else (true, advance n r).

(** What a read gives: a value, [nullopt], or an access outside the span; the
    cursor may have moved in the first two cases. *)
Inductive rres (A : Type) : Type :=
| Got (a : A) (r : BinaryReader)
| Nullopt (r : BinaryReader)
| OutOfBounds.
Arguments Got {A} a r.
Arguments Nullopt {A} r.
Arguments OutOfBounds {A}.

(** The [n] bytes at the cursor. *)
Definition span_at (n : Z) (r : BinaryReader) : option bytes :=
  if (offset_ r + n <=? zsize (data_ r)) && (0 <=? n)
  then Some (take (Z.to_nat n) (drop (Z.to_nat (offset_ r)) (data_ r))) else None.

(** [ensure(n)], then a read of the [n] bytes at the cursor. *)
Definition read_span {A} (n : Z) (f : bytes -> A) (r : BinaryReader) : rres A :=
  if negb (ensure n r) then Nullopt r
  else match span_at n r with Some s => Got (f s) (advance n r) | None => OutOfBounds end.

Definition read_u8 : BinaryReader -> rres Z := read_span 1 (fun s => nth 0 s 0).

Definition read_bytes (n : Z) : BinaryReader -> rres bytes := read_span n id.

(** [memcpy] into the integer, then the swap. *)
Definition read_u16 (e : endian) : BinaryReader -> rres Z :=
  read_span 2 (fun s => byteswap_if_needed 2 (le_combine s) e).

Definition read_u32 (e : endian) : BinaryReader -> rres Z :=
  read_span 4 (fun s => byteswap_if_needed 4 (le_combine s) e).

Definition read_u64 (e : endian) : BinaryReader -> rres Z :=
  read_span 8 (fun s => byteswap_if_needed 8 (le_combine s) e).

Definition read_u24 (e : endian) : BinaryReader -> rres Z :=
  read_span 3 (fun s =>
    match e with
    | big => Z.lor (Z.lor (Z.shiftl (nth 0 s 0) 16) (Z.shiftl (nth 1 s 0) 8)) (nth 2 s 0)
    | little => Z.lor (Z.lor (Z.shiftl (nth 2 s 0) 16) (Z.shiftl (nth 1 s 0) 8)) (nth 0 s 0)
    end).

Definition read_length_prefixed (len : BinaryReader -> rres Z) (r : BinaryReader) : rres bytes :=
  match len r with
  | Got n r => read_bytes n r
  | Nullopt r => Nullopt r
  | OutOfBounds => OutOfBounds
  end.

Definition read_u8_length_prefixed : BinaryReader -> rres bytes := read_length_prefixed read_u8.

Definition read_u16_length_prefixed (e : endian) : BinaryReader -> rres bytes :=
  read_length_prefixed (read_u16 e).

Definition read_u24_length_prefixed : BinaryReader -> rres bytes :=
  read_length_prefixed (read_u24 big).

(** Views of the same bytes as characters. *)
Definition read_string (n : Z) : BinaryReader -> rres bytes := read_bytes n.

Definition read_u16_length_prefixed_string : BinaryReader -> rres bytes :=
  read_u16_length_prefixed big.

(** ** Splitting and combining integers *)

Lemma le_split_length n v : length (le_split n v) = n.
Proof. revert v; induction n; intros v; simpl; congruence. Qed.

Lemma le_split_bytes n v : Forall is_byte (le_split n v).
Proof.
  revert v; induction n; intros v; simpl; constructor; [|done].
  apply Z.mod_pos_bound. lia.
Qed.

Lemma le_combine_split n v : 0 <= v < 256 ^ Z.of_nat n -> le_combine (le_split n v) = v.
Proof.
  revert v; induction n as [|n IH]; intros v Hv; cbn [le_split le_combine]; [simpl in Hv; lia|].
  rewrite Nat2Z.inj_succ, Z.pow_succ_r in Hv by lia. rewrite IH; [zdiv_lia|].
  split; [zdiv_lia|]. apply Z.div_lt_upper_bound; lia.
Qed.

Lemma le_combine_bound l : Forall is_byte l -> 0 <= le_combine l < 256 ^ Z.of_nat (length l).
Proof.
  induction 1 as [|b l Hb _ IH]; cbn [le_combine length]; [done|].
  rewrite Nat2Z.inj_succ, Z.pow_succ_r by lia. unfold is_byte in Hb. lia.
Qed.

Lemma le_split_combine l : Forall is_byte l -> le_split (length l) (le_combine l) = l.
Proof.
  induction 1 as [|b l Hb _ IH]; cbn [le_combine length le_split]; [done|]. unfold is_byte in Hb.
  replace ((b + 256 * le_combine l) mod 256) with b by zdiv_lia.
  replace ((b + 256 * le_combine l) / 256) with (le_combine l) by zdiv_lia.
  by rewrite IH.
Qed.

(** The bytes an integer is stored as, and the integer [n] stored bytes are. *)
Definition int_bytes (n : nat) (e : endian) (v : Z) : bytes :=
  match e with little => le_split n v | big => reverse (le_split n v) end.

Definition int_value (e : endian) (s : bytes) : Z :=
  match e with little => le_combine s | big => le_combine (reverse s) end.

Lemma reverse_bytes s : Forall is_byte s -> Forall is_byte (reverse s).
Proof. intros. by apply Forall_reverse. Qed.

Lemma byteswap_bytes n v e :
  le_split n (byteswap_if_needed n v e) = int_bytes n e v.
Proof.
  destruct e; cbn; [|done]. unfold byteswap.
  rewrite <- (le_split_length n v) at 1. rewrite <- length_reverse.
  apply le_split_combine, reverse_bytes, le_split_bytes.
Qed.

Lemma byteswap_value s e :
  Forall is_byte s -> byteswap_if_needed (length s) (le_combine s) e = int_value e s.
Proof. intros Hs. destruct e; cbn; [|done]. unfold byteswap. by rewrite le_split_combine. Qed.

Lemma int_value_bytes n e v : 0 <= v < 256 ^ Z.of_nat n -> int_value e (int_bytes n e v) = v.
Proof.
  intros. destruct e; unfold int_value, int_bytes; rewrite ?reverse_involutive;
    by apply le_combine_split.
Qed.

Lemma int_bytes_length n e v : length (int_bytes n e v) = n.
Proof. destruct e; unfold int_bytes; rewrite ?length_reverse; apply le_split_length. Qed.

Lemma int_bytes_bytes n e v : Forall is_byte (int_bytes n e v).
Proof. destruct e; unfold int_bytes; [apply reverse_bytes|]; apply le_split_bytes. Qed.

#[export] Hint Resolve int_bytes_bytes le_split_bytes : ppnt.

(** [write_u24] shifts and masks; it stores the same three bytes. *)
Lemma write_u24_bytes v e buf : write_u24 v e buf = buf ++ int_bytes 3 e v.
Proof.
  assert (H0 : u8 (Z.land v 255) = v mod 256).
  { change 255 with (Z.ones 8). rewrite Z.land_ones by lia. apply u8_idemp. }
  assert (Hs : forall k, 0 <= k -> u8 (Z.land (Z.shiftr v k) 255) = v / 2 ^ k mod 256).
  { intros k Hk. change 255 with (Z.ones 8). rewrite Z.land_ones, Z.shiftr_div_pow2 by lia.
    apply u8_idemp. }
  assert (E : le_split 3 v = [v mod 256; v / 2 ^ 8 mod 256; v / 2 ^ 16 mod 256]).
  { cbn [le_split]. rewrite Z.div_div by lia. done. }
  unfold write_u24, int_bytes. rewrite E, H0, !Hs by lia.
  destruct e; rewrite <- !app_assoc; done.
Qed.

(** Disjoint bits: or is addition. *)
Lemma lor_shift a b k : 0 <= k -> 0 <= b < 2 ^ k -> Z.lor (Z.shiftl a k) b = a * 2 ^ k + b.
Proof.
  intros Hk Hb. assert (E : Z.land (Z.shiftl a k) b = 0).
  { apply Z.bits_inj_iff'. intros i Hi. rewrite Z.land_spec, Z.bits_0.
    destruct (Z.lt_ge_cases i k); [by rewrite Z.shiftl_spec_low|].
    rewrite (proj2 (Z.testbit_false b i Hi)); [by rewrite andb_false_r|].
    rewrite Z.div_small; [done|]. split; [lia|].
    apply Z.lt_le_trans with (2 ^ k); [lia|apply Z.pow_le_mono_r; lia]. }
  by rewrite <- Z.lxor_lor, <- Z.add_nocarry_lxor, Z.shiftl_mul_pow2.
Qed.

Lemma read_u24_value s e :
  Forall is_byte s -> length s = 3%nat ->
  match e with
  | big => Z.lor (Z.lor (Z.shiftl (nth 0 s 0) 16) (Z.shiftl (nth 1 s 0) 8)) (nth 2 s 0)
  | little => Z.lor (Z.lor (Z.shiftl (nth 2 s 0) 16) (Z.shiftl (nth 1 s 0) 8)) (nth 0 s 0)
  end = int_value e s.
Proof.
  intros Hs Hl. destruct s as [|a [|b [|c [|]]]]; try done.
  rewrite !Forall_cons in Hs. unfold is_byte in Hs.
  destruct e; cbn [nth]; unfold int_value.
  - change (reverse [a; b; c]) with [c; b; a]. cbn [le_combine].
    rewrite <- Z.lor_assoc, (lor_shift b c 8), (lor_shift a (b * 2 ^ 8 + c) 16) by lia. lia.
  - cbn [le_combine].
    rewrite <- Z.lor_assoc, (lor_shift b a 8), (lor_shift c (b * 2 ^ 8 + a) 16) by lia. lia.
Qed.

(** ** The reader as a parser of the unread bytes *)

Record reader_wf (r : BinaryReader) : Prop := ReaderWf {
  rw_offset : 0 <= offset_ r <= zsize (data_ r);
  rw_size : zsize (data_ r) < 2 ^ 63;
  rw_bytes : Forall is_byte (data_ r)
}.

Definition unread (r : BinaryReader) : bytes := drop (Z.to_nat (offset_ r)) (data_ r).

(** A reference parser splits a value off the front of the unread bytes. *)
Definition parser (A : Type) : Type := bytes -> option (A * bytes).

Definition p_span {A} (n : Z) (f : bytes -> A) : parser A :=
  fun s => if n <=? zsize s then Some (f (take (Z.to_nat n) s), drop (Z.to_nat n) s) else None.

Definition p_int (n : nat) (e : endian) : parser Z := p_span (Z.of_nat n) (int_value e).

Definition p_prefixed (p : parser Z) : parser bytes :=
  fun s => match p s with Some (n, s) => p_span n id s | None => None end.

(** [m], the result of a read at [r], is what the parser gives: the value and
    a cursor at the rest, or [nullopt]; the span is never left. *)
Definition agrees {A} (r : BinaryReader) (m : rres A) (p : option (A * bytes)) : Prop :=
  match p with
  | Some (a, s) => exists r', m = Got a r' /\ reader_wf r' /\ unread r' = s /\ data_ r' = data_ r
  | None => exists r', m = Nullopt r' /\ reader_wf r' /\ data_ r' = data_ r
  end.

Lemma zsize_app a b : zsize (a ++ b) = zsize a + zsize b.
Proof. unfold zsize. rewrite length_app. lia. Qed.

Lemma unread_size r : reader_wf r -> zsize (unread r) = zsize (data_ r) - offset_ r.
Proof. intros [H _ _]. unfold unread, zsize in *. rewrite length_drop. lia. Qed.

Lemma unread_bytes r : reader_wf r -> Forall is_byte (unread r).
Proof. intros [_ _ H]. by apply Forall_drop. Qed.

Lemma read_span_agrees {A} n (f g : bytes -> A) r :
  reader_wf r -> 0 <= n < 2 ^ 63 ->
  (forall s, Forall is_byte s -> zsize s = n -> f s = g s) ->
  agrees r (read_span n f r) (p_span n g (unread r)).
Proof.
  intros W Hn Hfg. pose proof (unread_size r W) as Hs. pose proof (unread_bytes r W) as Hb.
  destruct W as [Ho Hd Hbs]. unfold read_span, p_span, ensure, span_at, u64.
  rewrite Z.mod_small by lia.
  destruct (Z.leb_spec (offset_ r + n) (zsize (data_ r))), (Z.leb_spec n (zsize (unread r)));
    try lia; cbn [negb andb].
  - rewrite (proj2 (Z.leb_le 0 n)) by lia. unfold agrees, advance, u64.
    rewrite Z.mod_small by lia. fold (unread r). exists (MkReader (data_ r) (offset_ r + n)).
    split; [|split; [by constructor; simpl; [lia|..]|]].
    + f_equal. apply Hfg; [by apply Forall_take|]. unfold zsize in *. rewrite length_take. lia.
    + split; [|done]. unfold unread. simpl. rewrite drop_drop. f_equal. lia.
  - exists r. split; [done|]. split; [by constructor|done].
Qed.

Lemma read_prefixed_agrees r len p :
  (forall r, reader_wf r -> agrees r (len r) (p (unread r))) ->
  (forall s n s', Forall is_byte s -> p s = Some (n, s') -> 0 <= n < 2 ^ 63) ->
  reader_wf r -> agrees r (read_length_prefixed len r) (p_prefixed p (unread r)).
Proof.
  intros Hlen Hp W. unfold read_length_prefixed, p_prefixed. specialize (Hlen r W).
  destruct (p (unread r)) as [[n s]|] eqn:E; cbn [agrees] in Hlen.
  - destruct Hlen as (r' & -> & W' & <- & Hd). unfold read_bytes.
    assert (H := read_span_agrees n id id r' W' (Hp _ _ _ (unread_bytes r W) E) (fun _ _ _ => eq_refl)).
    unfold agrees in *. rewrite <- Hd. done.
  - destruct Hlen as (r' & -> & W' & Hd). by exists r'.
Qed.

Lemma read_int_agrees n f e r :
  reader_wf r -> (Z.of_nat n < 2 ^ 63) ->
  (forall s, Forall is_byte s -> length s = n -> f s = int_value e s) ->
  agrees r (read_span (Z.of_nat n) f r) (p_int n e (unread r)).
Proof.
  intros W Hn Hf. apply read_span_agrees; [done|lia|].
  intros s Hb Hs. apply Hf; [done|]. unfold zsize in Hs. lia.
Qed.

Lemma read_u8_agrees r : reader_wf r -> agrees r (read_u8 r) (p_int 1 big (unread r)).
Proof.
  intros W. apply (read_int_agrees 1); [done|done|].
  intros [|b [|]] Hb Hs; try done. cbn. lia.
Qed.

Lemma read_u16_agrees e r : reader_wf r -> agrees r (read_u16 e r) (p_int 2 e (unread r)).
Proof.
  intros W. apply (read_int_agrees 2); [done|done|].
  intros s Hb Hs. rewrite <- Hs. by apply byteswap_value.
Qed.

Lemma read_u24_agrees e r : reader_wf r -> agrees r (read_u24 e r) (p_int 3 e (unread r)).
Proof. intros W. apply (read_int_agrees 3); [done|done|]. intros. by apply read_u24_value. Qed.

Lemma read_u32_agrees e r : reader_wf r -> agrees r (read_u32 e r) (p_int 4 e (unread r)).
Proof.
  intros W. apply (read_int_agrees 4); [done|done|].
  intros s Hb Hs. rewrite <- Hs. by apply byteswap_value.
Qed.

Lemma read_u64_agrees e r : reader_wf r -> agrees r (read_u64 e r) (p_int 8 e (unread r)).
Proof.
  intros W. apply (read_int_agrees 8); [done|done|].
  intros s Hb Hs. rewrite <- Hs. by apply byteswap_value.
Qed.

Lemma read_bytes_agrees n r :
  reader_wf r -> 0 <= n < 2 ^ 63 -> agrees r (read_bytes n r) (p_span n id (unread r)).
Proof. intros. by apply read_span_agrees. Qed.

Lemma int_value_bound e s :
  Forall is_byte s -> 0 <= int_value e s < 256 ^ Z.of_nat (length s).
Proof.
  intros Hs. destruct e; [|by apply le_combine_bound].
  rewrite <- length_reverse. by apply le_combine_bound, reverse_bytes.
Qed.

Lemma p_int_bound n e s v s' :
  Forall is_byte s -> p_int n e s = Some (v, s') -> 0 <= v < 256 ^ Z.of_nat n.
Proof.
  intros Hb. unfold p_int, p_span. destruct (Z.leb_spec (Z.of_nat n) (zsize s)); [|done].
  intros [= <- _]. rewrite Nat2Z.id.
  assert (Hl : length (take n s) = n) by (unfold zsize in *; rewrite length_take; lia).
  pose proof (int_value_bound e (take n s)) as Hv. rewrite Hl in Hv.
  by apply Hv, Forall_take.
Qed.

#[export] Hint Resolve read_u8_agrees read_u16_agrees read_u24_agrees read_u32_agrees
  read_u64_agrees read_bytes_agrees : ppnt.

Lemma read_vec_agrees n e len r :
  (forall r, reader_wf r -> agrees r (len r) (p_int n e (unread r))) -> (n <= 3)%nat ->
  reader_wf r -> agrees r (read_length_prefixed len r) (p_prefixed (p_int n e) (unread r)).
Proof.
  intros Hl Hn W. apply read_prefixed_agrees; [done| |done].
  intros s v s' Hb Hp%p_int_bound; [|done]. split; [lia|].
  apply Z.lt_le_trans with (256 ^ Z.of_nat n); [lia|].
  transitivity (256 ^ 3); [apply Z.pow_le_mono_r; lia|done].
Qed.

(** ** Sequences of fields

    A message is written field by field and read back by the list of the kinds
    of its fields. *)

Inductive field :=
| FU8 (v : Z) | FU16 (e : endian) (v : Z) | FU24 (e : endian) (v : Z)
| FU32 (e : endian) (v : Z) | FU64 (e : endian) (v : Z) | FBytes (l : bytes)
| FVec8 (l : bytes) | FVec16 (e : endian) (l : bytes) | FVec24 (l : bytes).

Inductive kind :=
| KU8 | KU16 (e : endian) | KU24 (e : endian) | KU32 (e : endian) | KU64 (e : endian)
| KBytes (n : Z) | KVec8 | KVec16 (e : endian) | KVec24.

Definition kind_of (f : field) : kind :=
  match f with
  | FU8 _ => KU8 | FU16 e _ => KU16 e | FU24 e _ => KU24 e | FU32 e _ => KU32 e
  | FU64 e _ => KU64 e | FBytes l => KBytes (zsize l) | FVec8 _ => KVec8
  | FVec16 e _ => KVec16 e | FVec24 _ => KVec24
  end.

Definition field_wf (f : field) : Prop :=
  match f with
  | FU8 v => is_byte v
  | FU16 _ v => 0 <= v < 2 ^ 16 | FU24 _ v => 0 <= v < 2 ^ 24
  | FU32 _ v => 0 <= v < 2 ^ 32 | FU64 _ v => 0 <= v < 2 ^ 64
  | FBytes l => Forall is_byte l
  | FVec8 l => Forall is_byte l /\ zsize l < 2 ^ 8
  | FVec16 _ l => Forall is_byte l /\ zsize l < 2 ^ 16
  | FVec24 l => Forall is_byte l /\ zsize l < 2 ^ 24
  end.

Definition write_field (buffer_ : bytes) (f : field) : bytes :=
  match f with
  | FU8 v => write_u8 v buffer_
  | FU16 e v => write_u16 v e buffer_ | FU24 e v => write_u24 v e buffer_
  | FU32 e v => write_u32 v e buffer_ | FU64 e v => write_u64 v e buffer_
  | FBytes l => write_bytes l buffer_
  | FVec8 l => write_u8_length_prefixed l buffer_
  | FVec16 e l => write_u16_length_prefixed l e buffer_
  | FVec24 l => write_u24_length_prefixed l buffer_
  end.

Definition rmap {A B} (f : A -> B) (m : rres A) : rres B :=
  match m with Got a r => Got (f a) r | Nullopt r => Nullopt r | OutOfBounds => OutOfBounds end.

Definition read_kind (k : kind) (r : BinaryReader) : rres field :=
  match k with
  | KU8 => rmap FU8 (read_u8 r)
  | KU16 e => rmap (FU16 e) (read_u16 e r) | KU24 e => rmap (FU24 e) (read_u24 e r)
  | KU32 e => rmap (FU32 e) (read_u32 e r) | KU64 e => rmap (FU64 e) (read_u64 e r)
  | KBytes n => rmap FBytes (read_bytes n r)
  | KVec8 => rmap FVec8 (read_u8_length_prefixed r)
  | KVec16 e => rmap (FVec16 e) (read_u16_length_prefixed e r)
  | KVec24 => rmap FVec24 (read_u24_length_prefixed r)
  end.

Fixpoint read_kinds (ks : list kind) (r : BinaryReader) : rres (list field) :=
  match ks with
  | [] => Got [] r
  | k :: ks =>
      match read_kind k r with
      | Got f r => rmap (cons f) (read_kinds ks r)
      | Nullopt r => Nullopt r
      | OutOfBounds => OutOfBounds
      end
  end.

(** The bytes of a field. *)
Definition field_bytes (f : field) : bytes :=
  match f with
  | FU8 v => int_bytes 1 big v
  | FU16 e v => int_bytes 2 e v | FU24 e v => int_bytes 3 e v
  | FU32 e v => int_bytes 4 e v | FU64 e v => int_bytes 8 e v
  | FBytes l => l
  | FVec8 l => int_bytes 1 big (zsize l) ++ l
  | FVec16 e l => int_bytes 2 e (zsize l) ++ l
  | FVec24 l => int_bytes 3 big (zsize l) ++ l
  end.

(** The parser of a kind. *)
Definition p_map {A B} (f : A -> B) (p : parser A) : parser B :=
  fun s => match p s with Some (a, s) => Some (f a, s) | None => None end.

Definition p_kind (k : kind) : parser field :=
  match k with
  | KU8 => p_map FU8 (p_int 1 big)
  | KU16 e => p_map (FU16 e) (p_int 2 e) | KU24 e => p_map (FU24 e) (p_int 3 e)
  | KU32 e => p_map (FU32 e) (p_int 4 e) | KU64 e => p_map (FU64 e) (p_int 8 e)
  | KBytes n => p_map FBytes (p_span n id)
  | KVec8 => p_map FVec8 (p_prefixed (p_int 1 big))
  | KVec16 e => p_map (FVec16 e) (p_prefixed (p_int 2 e))
  | KVec24 => p_map FVec24 (p_prefixed (p_int 3 big))
  end.

Lemma write_u8_int v buf : is_byte v -> write_u8 v buf = buf ++ int_bytes 1 big v.
Proof.
  intros Hv. unfold write_u8, int_bytes. cbn [le_split].
  unfold is_byte in Hv. rewrite Z.mod_small by lia. done.
Qed.

Lemma write_field_bytes f buf : field_wf f -> write_field buf f = buf ++ field_bytes f.
Proof.
  assert (Hsz : forall l, 0 <= zsize l) by (intros; unfold zsize; lia).
  destruct f; cbn [write_field field_bytes field_wf]; intros Hf;
    unfold write_u32, write_u64, write_u8_length_prefixed, write_u16_length_prefixed,
      write_u24_length_prefixed, write_u16, write_bytes, u16, u32;
    rewrite ?byteswap_bytes, ?write_u24_bytes; try done.
  - by apply write_u8_int.
  - destruct Hf. assert (is_byte (zsize l)) by (split; [done|lia]).
    by rewrite u8_small, write_u8_int, <- app_assoc.
  - destruct Hf. by rewrite <- app_assoc, Z.mod_small by (split; [done|lia]).
  - destruct Hf. by rewrite <- app_assoc, Z.mod_small by (split; [done|lia]).
Qed.

Lemma agrees_map {A B} (f : A -> B) r m p :
  agrees r m (p (unread r)) -> agrees r (rmap f m) (p_map f p (unread r)).
Proof.
  unfold agrees, p_map. destruct (p (unread r)) as [[a s]|].
  - intros (r' & -> & ?). exists r'. done.
  - intros (r' & -> & ?). exists r'. done.
Qed.

Definition kind_wf (k : kind) : Prop := match k with KBytes n => 0 <= n < 2 ^ 63 | _ => True end.

Lemma read_kind_agrees k r :
  kind_wf k -> reader_wf r -> agrees r (read_kind k r) (p_kind k (unread r)).
Proof.
  intros Hk W. destruct k; cbn [read_kind p_kind]; apply agrees_map; auto with ppnt;
    apply read_vec_agrees; auto with ppnt lia.
Qed.

Lemma p_span_app {A} (f : bytes -> A) l s : p_span (zsize l) f (l ++ s) = Some (f l, s).
Proof.
  unfold p_span. rewrite (proj2 (Z.leb_le _ _)) by (rewrite zsize_app; unfold zsize; lia).
  unfold zsize. rewrite Nat2Z.id, take_app_length, drop_app_length. done.
Qed.

Lemma p_int_app n e v s :
  0 <= v < 256 ^ Z.of_nat n -> p_int n e (int_bytes n e v ++ s) = Some (v, s).
Proof.
  intros Hv. unfold p_int. rewrite <- (int_bytes_length n e v) at 1.
  fold (zsize (int_bytes n e v)). rewrite p_span_app. by rewrite int_value_bytes.
Qed.

Lemma p_prefixed_app n e l s :
  zsize l < 256 ^ Z.of_nat n ->
  p_prefixed (p_int n e) ((int_bytes n e (zsize l) ++ l) ++ s) = Some (l, s).
Proof.
  intros Hl. unfold p_prefixed. rewrite <- app_assoc, p_int_app by (unfold zsize in *; lia).
  apply p_span_app.
Qed.

Lemma p_kind_app f s : field_wf f -> p_kind (kind_of f) (field_bytes f ++ s) = Some (f, s).
Proof.
  destruct f; cbn [field_wf kind_of p_kind field_bytes]; intros Hf; unfold p_map;
    rewrite ?p_prefixed_app, ?p_int_app, ?p_span_app; try done; apply Hf.
Qed.

Lemma read_kinds_app fs : forall r s,
  Forall field_wf fs -> reader_wf r -> unread r = concat (field_bytes <$> fs) ++ s ->
  exists r', read_kinds (kind_of <$> fs) r = Got fs r' /\ reader_wf r' /\ unread r' = s.
Proof.
  induction fs as [|f fs IH]; intros r s Hf W Hu; [by exists r|].
  inversion_clear Hf as [|? ? Hf1 Hf2]. cbn [fmap list_fmap concat] in Hu. rewrite <- app_assoc in Hu.
  assert (Hk : kind_wf (kind_of f)).
  { destruct f; try done. cbn [field_bytes] in Hu. pose proof (unread_size r W) as Hs.
    rewrite Hu, !zsize_app in Hs. destruct W as [? ? _]. cbn. unfold zsize in *. lia. }
  pose proof (read_kind_agrees _ r Hk W) as H. rewrite Hu, p_kind_app in H by done.
  destruct H as (r1 & E & W1 & Hu1 & _). destruct (IH r1 s Hf2 W1 Hu1) as (r2 & E2 & W2 & Hu2).
  exists r2. cbn [fmap list_fmap read_kinds]. rewrite E. by rewrite E2.
Qed.

Lemma write_fields_bytes fs buf :
  Forall field_wf fs -> fold_left write_field fs buf = buf ++ concat (field_bytes <$> fs).
Proof.
  intros Hf. revert buf. induction Hf as [|f fs Hf _ IH]; intros buf; cbn [fold_left fmap list_fmap concat].
  - by rewrite app_nil_r.
  - by rewrite IH, write_field_bytes, app_assoc.
Qed.

Lemma field_bytes_bytes f : field_wf f -> Forall is_byte (field_bytes f).
Proof.
  destruct f; cbn [field_wf field_bytes]; intros Hf; rewrite ?Forall_app; auto with ppnt;
    destruct Hf; auto with ppnt.
Qed.

Lemma reader_wf_start l : Forall is_byte l -> zsize l < 2 ^ 63 -> reader_wf (reader l).
Proof. intros. constructor; [|done..]. cbn. unfold zsize in *. lia. Qed.

(** ([BinartWriter] and [BinaryReader], round trip): a message written
    field by field, in any mixture of integers of the five widths and two byte
    orders, raw bytes and length-prefixed vectors, is read back field by field
    and leaves the reader at its end. *)
Theorem read_written_fields fs :
  let msg := fold_left write_field fs [] in
  Forall field_wf fs -> zsize msg < 2 ^ 63 ->
  exists r, read_kinds (kind_of <$> fs) (reader msg) = Got fs r /\ eof r = true.
Proof.
  intros msg Hf Hs. unfold msg in *. rewrite write_fields_bytes in * by done. cbn [app] in *.
  destruct (read_kinds_app fs (reader (concat (field_bytes <$> fs))) []) as (r & E & W & Hu);
    [done| |by rewrite app_nil_r|].
  - apply reader_wf_start; [|done]. apply Forall_concat, Forall_fmap.
    eapply Forall_impl; [exact Hf|]. apply field_bytes_bytes.
  - exists r. split; [done|]. apply Z.leb_le.
    pose proof (unread_size r W) as Hz. rewrite Hu in Hz. change (zsize []) with 0 in Hz. lia.
Qed.

(** An instance. *)
Lemma read_written_fields_witness :
  let fs := [FU8 1; FU16 big 771; FU24 little 66051; FVec16 big [7; 8; 9]; FBytes [0; 255]] in
  exists r, read_kinds (kind_of <$> fs) (reader (fold_left write_field fs [])) = Got fs r /\
            eof r = true.
Proof.
  intros fs. apply (read_written_fields fs).
  - repeat constructor; vm_compute; intros H; discriminate H.
  - reflexivity.
Defined.

(** C36 ([BinaryReader], safety): every read of an integer, of a prefixed vector or
    of at most 2^63 - 1 bytes, at a cursor inside a span of fewer than 2^63 bytes, is
    the split of a prefix of the unread bytes: it returns the value those bytes
    encode and moves the cursor behind them, or returns [nullopt] when there are too
    few; it never leaves the span.  [skip] and [seek] read nothing and are not among
    the reads; for larger sizes the sum of cursor and size wraps around. *)
Theorem reader_refines_parser k r :
  reader_wf r -> kind_wf k -> agrees r (read_kind k r) (p_kind k (unread r)).
Proof. intros. by apply read_kind_agrees. Qed.

(** Witness of C36. *)
Lemma reader_refines_parser_witness :
  agrees (MkReader [9; 0; 2; 5; 6; 7] 1) (read_kind (KVec16 big) (MkReader [9; 0; 2; 5; 6; 7] 1))
    (Some (FVec16 big [5; 6], [7])).
Proof.
  refine (reader_refines_parser (KVec16 big) (MkReader [9; 0; 2; 5; 6; 7] 1) _ _); [|exact I].
  constructor; [vm_compute; split; intros H; discriminate H|reflexivity|].
  repeat constructor; vm_compute; intros H; discriminate H.
Defined.

(** C40: ([BinaryReader::ensure], bounds): the check adds in [size_t], so a
    count close to 2^64 passes it: [skip] then reports success and moves the
    cursor backwards, and [read_bytes] hands out a span outside the data. *)
Theorem skip_wraps r k :
  reader_wf r -> 0 < k <= offset_ r ->
  skip (2 ^ 64 - k) r = (true, MkReader (data_ r) (offset_ r - k)) /\
  read_bytes (2 ^ 64 - k) r = OutOfBounds.
Proof.
  intros [Ho Hd _] Hk. unfold skip, read_bytes, read_span, ensure, advance, span_at, u64.
  replace (offset_ r + (2 ^ 64 - k)) with (offset_ r - k + 1 * 2 ^ 64) by lia.
  rewrite Z.mod_add, Z.mod_small by lia.
  rewrite (proj2 (Z.leb_le _ _)) by lia. cbn [negb].
  rewrite (proj2 (Z.leb_gt _ _)) by lia. done.
Qed.

(** An instance. *)
(** Witness of C40. *)
Lemma skip_wraps_witness :
  skip (2 ^ 64 - 1) (MkReader [1; 2; 3] 2) = (true, MkReader [1; 2; 3] 1) /\
  read_bytes (2 ^ 64 - 1) (MkReader [1; 2; 3] 2) = OutOfBounds.
Proof.
  apply (skip_wraps (MkReader [1; 2; 3] 2) 1).
  - constructor; [vm_compute; split; intros H; discriminate H|reflexivity|].
    repeat constructor; vm_compute; intros H; discriminate H.
  - split; [reflexivity|vm_compute; intros H; discriminate H].
Defined.
