(* ===== verification/HttpTypes.v ===== *)
(** ppnt-http: headers, requests and their HTTP/1.1 text.

    [src/ppnt-http/src/http_types/] ([header.ixx], [request.ixx],
    [version.ixx], [method.ixx]) and the proxy credentials of [proxy.ixx].  A
    request is serialised with a [BinartWriter]; the reference parser at the
    end reads such a text back line by line. *)

From S2P Require Import Prelude Util Url Binary.
From stdpp Require Import strings.

Local Open Scope Z_scope.

(** ** Headers *)

Record HttpHeader := MkHeader { name : bytes; value : bytes }.

Definition header_eqb (a b : HttpHeader) : bool :=
  ignore_case_equal (name a) (name b) && bytes_eqb (value a) (value b).

Abbreviation HttpHeaderList := (list HttpHeader).

Definition add (n v : bytes) (headers_ : HttpHeaderList) : HttpHeaderList := headers_ ++ [MkHeader n v].

Definition set (n v : bytes) (headers_ : HttpHeaderList) : HttpHeaderList :=
  add n v (List.filter (fun h => negb (ignore_case_equal (name h) n)) headers_).

Definition get (n : bytes) (headers_ : HttpHeaderList) : option bytes :=
  value <$> List.find (fun h => ignore_case_equal (name h) n) headers_.

Definition contains (n : bytes) (headers_ : HttpHeaderList) : bool :=
  match get n headers_ with Some _ => true | None => false end.

(** The move constructor and the assignment to another object: the list, and what is left. *)
Definition HttpHeaderList_move (other : HttpHeaderList) : HttpHeaderList * HttpHeaderList := (other, []).

Definition HttpHeaderList_clear (headers_ : HttpHeaderList) : HttpHeaderList := [].

(** [HttpHeaderList::to_string]. *)
Definition headers_to_string (headers_ : HttpHeaderList) : bytes :=
  concat ((fun h => name h ++ bs ":" ++ value h ++ [10]) <$> headers_).

(** ** Proxy credentials *)

Record ProxyAuth := MkAuth { username : bytes; password : bytes }.

(** [junk] is the uninitialised work array of the encoder. *)
Definition basic_auth_value (junk : bytes) (a : ProxyAuth) : option bytes :=
  enc ← Base64.encode junk (username a ++ bs ":" ++ password a);
  Some (bs "Basic " ++ enc).

Definition basic_header (junk : bytes) (a : ProxyAuth) : option HttpHeader :=
  v ← basic_auth_value junk a; Some (MkHeader (bs "Authorization") v).

(** ** Requests *)

Record HttpTimeout := MkTimeout { connection_timeout : Z; read_timeout : Z; write_timeout : Z }.

Definition HttpTimeout_default : HttpTimeout := MkTimeout 5000 5000 5000.

Record HttpRequest := MkRequest {
  url : Url;
  method : bytes;
  headers : HttpHeaderList;
  body : option bytes;
  timeout : HttpTimeout
}.

Definition HttpRequest_default : HttpRequest :=
  MkRequest Url_default (bs "GET") [] None HttpTimeout_default.

(** The move constructor: [timeout] keeps its member initialiser. *)
Definition HttpRequest_move (other : HttpRequest) : HttpRequest :=
  MkRequest (url other) (method other) (headers other) (body other) HttpTimeout_default.

(** Move assignment: [timeout] of the target is kept. *)
Definition HttpRequest_assign (self other : HttpRequest) : HttpRequest :=
  MkRequest (url other) (method other) (headers other) (body other) (timeout self).

(** [Http1RequestBuilder]: the builder is the request it has so far. *)
Definition builder_method (m : bytes) (req_ : HttpRequest) : HttpRequest :=
  MkRequest (url req_) m (headers req_) (body req_) (timeout req_).
Definition builder_path (p : bytes) (req_ : HttpRequest) : HttpRequest :=
  MkRequest (set_path p (url req_)) (method req_) (headers req_) (body req_) (timeout req_).
Definition builder_header (n v : bytes) (req_ : HttpRequest) : HttpRequest :=
  MkRequest (url req_) (method req_) (add n v (headers req_)) (body req_) (timeout req_).
Definition builder_body (b : bytes) (req_ : HttpRequest) : HttpRequest :=
  MkRequest (url req_) (method req_) (headers req_) (Some b) (timeout req_).
Definition builder_build (req_ : HttpRequest) : HttpRequest := HttpRequest_move req_.

Definition crlf : bytes := [13; 10].

Definition is_connect (r : HttpRequest) : bool := bytes_eqb (method r) (bs "CONNECT").

Definition connect_port (u : Url) : Z :=
  let port := port_or_default u in
  if port =? 0 then
    if bytes_eqb (scheme_ u) (bs "https") || bytes_eqb (scheme_ u) (bs "wss") then 443 else 80
  else port.

Definition request_target (r : HttpRequest) : bytes :=
  if is_connect r then host_ (url r) ++ bs ":" ++ to_string_int (connect_port (url r))
  else
    let target := match path_ (url r) with [] => bs "/" | p => p end in
    match query_ (url r) with [] => target | q => target ++ bs "?" ++ q end.

Definition header_line (n v : bytes) : bytes := n ++ bs ": " ++ v ++ crlf.

(** The loop over the headers: the buffer, [has_content_length], [has_host]. *)
Definition write_header (st : bytes * bool * bool) (h : HttpHeader) : bytes * bool * bool :=
  let '(w, has_content_length, has_host) := st in
  (write_string (header_line (name h) (value h)) w,
   has_content_length || ignore_case_equal (name h) (bs "content-length"),
   has_host || ignore_case_equal (name h) (bs "host")).

Definition host_value (r : HttpRequest) : bytes :=
  if is_connect r then request_target r
  else
    let port := port_or_default (url r) in
    if negb (port =? 0) && negb (port =? 80) && negb (port =? 443)
    then host_ (url r) ++ bs ":" ++ to_string_int port
    else host_ (url r).

Definition serialize_to_h1 (r : HttpRequest) : bytes :=
  let w := write_string (method r ++ bs " " ++ request_target r ++ bs " HTTP/1.1" ++ crlf) [] in
  let '(w, has_content_length, has_host) := fold_left write_header (headers r) (w, false, false) in
  let w := if negb has_host then write_string (header_line (bs "Host") (host_value r)) w else w in
  match body r with
  | Some ((_ :: _) as b) =>
      let w := if negb has_content_length
               then write_string (header_line (bs "Content-Length") (dec_nat (zsize b))) w else w in
      write_bytes b (write_u16 3338 big w)
  | _ => write_u16 3338 big w
  end.

(** ** The builder *)

(** What a builder is given is the request it builds, headers in order, with the
    default timeouts. *)
Lemma builder_builds m p b hs :
  builder_build (builder_body b (fold_left (fun r h => builder_header (name h) (value h) r) hs
    (builder_path p (builder_method m HttpRequest_default)))) =
  MkRequest (set_path p Url_default) m hs (Some b) HttpTimeout_default.
Proof.
  set (r0 := builder_path p (builder_method m HttpRequest_default)).
  assert (H : forall hs r, fold_left (fun r h => builder_header (name h) (value h) r) hs r =
    MkRequest (url r) (method r) (headers r ++ hs) (body r) (timeout r)).
  { clear. intros hs. induction hs as [|[n v] hs IH]; intros [u m h b t]; cbn [fold_left]; [cbn; by rewrite app_nil_r|].
    rewrite IH. cbn. unfold add. by rewrite <- app_assoc. }
  by rewrite H.
Qed.

(** ** Header lists *)

Lemma ignore_case_refl n : ignore_case_equal n n = true.
Proof. by apply ignore_case_equal_spec. Qed.

Lemma find_filter_other m n hs :
  ignore_case_equal m n = false ->
  List.find (fun h => ignore_case_equal (name h) m)
    (List.filter (fun h => negb (ignore_case_equal (name h) n)) hs) =
  List.find (fun h => ignore_case_equal (name h) m) hs.
Proof.
  intros Hmn. induction hs as [|h hs IH]; [done|]. cbn [List.filter List.find].
  destruct (ignore_case_equal (name h) n) eqn:En; cbn [negb List.find].
  - destruct (ignore_case_equal (name h) m) eqn:Em; [|done].
    apply ignore_case_equal_spec in En, Em.
    assert (ignore_case_equal m n = true) by (apply ignore_case_equal_spec; congruence). congruence.
  - by destruct (ignore_case_equal (name h) m).
Qed.

Lemma find_app {A} (f : A -> bool) a b :
  List.find f (a ++ b) = match List.find f a with Some x => Some x | None => List.find f b end.
Proof. induction a as [|x a IH]; [done|]. cbn. by destruct (f x). Qed.

Lemma find_filter_self n hs :
  List.find (fun h => ignore_case_equal (name h) n)
    (List.filter (fun h => negb (ignore_case_equal (name h) n)) hs) = None.
Proof.
  induction hs as [|h hs IH]; [done|]. cbn [List.filter].
  destruct (ignore_case_equal (name h) n) eqn:E; cbn [negb List.find]; [done|by rewrite E].
Qed.

(** ([HttpHeaderList], functional): after [set] the name, in any case, has
    exactly one entry, with the new value, and looking up any other name gives
    what it gave before. *)
Theorem header_set_get n v hs m :
  get m (set n v hs) = (if ignore_case_equal m n then Some v else get m hs) /\
  length (List.filter (fun h => ignore_case_equal (name h) n) (set n v hs)) = 1%nat.
Proof.
  split.
  - unfold get, set, add. rewrite find_app. cbn [List.find name].
    destruct (ignore_case_equal m n) eqn:E.
    + assert (Hm : ignore_case_equal n m = true) by (apply ignore_case_equal_spec in E; by apply ignore_case_equal_spec).
      rewrite Hm. destruct (List.find _ (List.filter _ hs)) as [h|] eqn:Ef; [|done].
      apply List.find_some in Ef as [Hin Hh]. apply filter_In in Hin as [_ Hn].
      apply ignore_case_equal_spec in Hh, E. apply negb_true_iff in Hn.
      assert (ignore_case_equal (name h) n = true) by (apply ignore_case_equal_spec; congruence). congruence.
    + rewrite find_filter_other by done. destruct (List.find _ hs); [done|].
      destruct (ignore_case_equal n m) eqn:E'; [|done]. apply ignore_case_equal_spec in E'.
      assert (ignore_case_equal m n = true) by (by apply ignore_case_equal_spec). congruence.
  - unfold set, add. rewrite List.filter_app, length_app. cbn [List.filter name].
    rewrite ignore_case_refl. cbn [length].
    assert (List.filter (fun h => ignore_case_equal (name h) n)
      (List.filter (fun h => negb (ignore_case_equal (name h) n)) hs) = []) as ->; [|done].
    induction hs as [|h hs IH]; [done|]. cbn [List.filter].
    destruct (ignore_case_equal (name h) n) eqn:E; cbn [negb List.filter]; [done|by rewrite E].
Qed.

(** ** Reading a request text *)

Fixpoint take_line (s : bytes) : option (bytes * bytes) :=
  match s with
  | [] => None
  | c :: r =>
      match r with
      | d :: r' =>
          if (c =? 13) && (d =? 10) then Some ([], r')
          else match take_line r with Some (l, rest) => Some (c :: l, rest) | None => None end
      | [] => None
      end
  end.

Definition split_header (line : bytes) : option HttpHeader :=
  i ← find_char 58 line;
  if starts_with (drop (i + 1) line) (bs " ")
  then Some (MkHeader (take i line) (drop (i + 2) line)) else None.

Fixpoint parse_headers (fuel : nat) (s : bytes) : option (HttpHeaderList * bytes) :=
  match fuel with
  | O => None
  | S fuel =>
      match take_line s with
      | None => None
      | Some ([], rest) => Some ([], rest)
      | Some (line, rest) =>
          h ← split_header line;
          match parse_headers fuel rest with Some (hs, b) => Some (h :: hs, b) | None => None end
      end
  end.

Definition split_request_line (line : bytes) : option (bytes * bytes) :=
  i ← find_char 32 line;
  let rest := drop (i + 1) line in
  j ← find_char 32 rest;
  if bytes_eqb (drop (j + 1) rest) (bs "HTTP/1.1") then Some (take i line, take j rest) else None.

Definition parse_request (s : bytes) : option (bytes * bytes * HttpHeaderList * bytes) :=
  match take_line s with
  | None => None
  | Some (line, rest) =>
      match split_request_line line, parse_headers (S (length rest)) rest with
      | Some (m, t), Some (hs, b) => Some (m, t, hs, b)
      | _, _ => None
      end
  end.

(** Text that stays inside its line and field. *)
Definition clean_value (s : bytes) : Prop := 13 ∉ s.
Definition clean_name (s : bytes) : Prop := (13 ∉ s) /\ (58 ∉ s).
Definition clean_token (s : bytes) : Prop := (13 ∉ s) /\ (32 ∉ s).
Definition clean_header (h : HttpHeader) : Prop := clean_name (name h) /\ clean_value (value h).

Lemma take_line_app l r : 13 ∉ l -> take_line (l ++ 13 :: 10 :: r) = Some (l, r).
Proof.
  induction l as [|c l IH]; intros Hl; [done|]. rewrite not_elem_of_cons in Hl. destruct Hl as [Hc Hl].
  cbn [app take_line]. rewrite IH by done.
  destruct (l ++ 13 :: 10 :: r) eqn:E; [by destruct l|].
  by rewrite (proj2 (Z.eqb_neq c 13)) by congruence.
Qed.

Lemma split_header_line h : clean_header h -> split_header (name h ++ bs ": " ++ value h) = Some h.
Proof.
  intros [[_ Hn] _]. unfold split_header. unlit. cbn [app]. rewrite find_char_app by done.
  cbn [mbind option_bind]. rewrite !drop_app_add, take_app_length.
  change (drop 1 (58 :: 32 :: value h)) with (32 :: value h).
  change (drop 2 (58 :: 32 :: value h)) with (value h).
  rewrite (starts_with_app (value h) [32] : starts_with (32 :: value h) [32] = true). by destruct h.
Qed.

(** The text of a list of headers and the empty line. *)
Definition headers_text (hs : HttpHeaderList) : bytes :=
  concat ((fun h => header_line (name h) (value h)) <$> hs).

Lemma parse_headers_text hs b fuel :
  Forall clean_header hs -> (length hs < fuel)%nat ->
  parse_headers fuel (headers_text hs ++ crlf ++ b) = Some (hs, b).
Proof.
  intros Hc. revert fuel. induction Hc as [|h hs Hh _ IH]; intros [|fuel] Hf; try (simpl in Hf; lia).
  - done.
  - cbn [parse_headers].
    assert (E : headers_text (h :: hs) ++ crlf ++ b
      = (name h ++ bs ": " ++ value h) ++ 13 :: 10 :: (headers_text hs ++ crlf ++ b)).
    { unfold headers_text. cbn [fmap list_fmap concat]. unfold header_line. by rewrite <- !app_assoc. }
    rewrite E, take_line_app.
    2: { destruct Hh as [[? _] ?]. unfold clean_value in *. unlit. set_solver. }
    destruct (name h ++ bs ": " ++ value h) eqn:El; [by destruct (name h)|]. rewrite <- El.
    rewrite split_header_line by done. cbn [mbind option_bind]. rewrite IH; [done|simpl in Hf; lia].
Qed.

Lemma split_request_line_text m t :
  clean_token m -> clean_token t ->
  split_request_line (m ++ bs " " ++ t ++ bs " HTTP/1.1") = Some (m, t).
Proof.
  intros [_ Hm] [_ Ht]. unfold split_request_line. unlit. cbn [app].
  rewrite find_char_app by done. cbn [mbind option_bind]. rewrite drop_sep, take_app_length.
  rewrite find_char_app by done. cbn [mbind option_bind]. by rewrite drop_sep, take_app_length.
Qed.

(** ** Serialising *)

(** The headers [serialize_to_h1] adds. *)
Definition added_headers (r : HttpRequest) : HttpHeaderList :=
  (if contains (bs "host") (headers r) then [] else [MkHeader (bs "Host") (host_value r)]) ++
  match body r with
  | Some ((_ :: _) as b) =>
      if contains (bs "content-length") (headers r) then []
      else [MkHeader (bs "Content-Length") (dec_nat (zsize b))]
  | _ => []
  end.

Lemma write_string_app s w : write_string s w = w ++ s.
Proof. destruct s; simpl; [by rewrite app_nil_r|done]. Qed.

Lemma write_headers_app hs : forall w a b,
  fold_left write_header hs (w, a, b) =
  (w ++ headers_text hs, a || contains (bs "content-length") hs, b || contains (bs "host") hs).
Proof.
  induction hs as [|h hs IH]; intros w a b.
  - unfold headers_text, contains, get. cbn. by rewrite app_nil_r, !orb_false_r.
  - cbn [fold_left write_header]. rewrite IH, write_string_app. unfold headers_text, contains, get.
    cbn [fmap list_fmap concat List.find]. rewrite <- app_assoc, <- !orb_assoc. f_equal; [f_equal|].
    + by destruct (ignore_case_equal (name h) (bs "content-length")).
    + by destruct (ignore_case_equal (name h) (bs "host")).
Qed.

Lemma headers_text_app a b : headers_text (a ++ b) = headers_text a ++ headers_text b.
Proof. unfold headers_text. by rewrite fmap_app, concat_app. Qed.

Lemma headers_text_one n v : headers_text [MkHeader n v] = header_line n v.
Proof. unfold headers_text. cbn. by rewrite app_nil_r. Qed.

Lemma serialize_text r :
  serialize_to_h1 r =
  (method r ++ bs " " ++ request_target r ++ bs " HTTP/1.1") ++ 13 :: 10 ::
  headers_text (headers r ++ added_headers r) ++ crlf ++ default [] (body r).
Proof.
  unfold serialize_to_h1, added_headers. rewrite write_headers_app. cbn [orb].
  unfold write_u16, write_bytes. rewrite byteswap_bytes. change (int_bytes 2 big 3338) with crlf.
  rewrite !headers_text_app, !write_string_app.
  assert (E : forall x : bytes, (method r ++ bs " " ++ request_target r ++ bs " HTTP/1.1") ++ 13 :: 10 :: x =
    (method r ++ bs " " ++ request_target r ++ bs " HTTP/1.1" ++ crlf) ++ x).
  { intros x. by rewrite <- !app_assoc. }
  rewrite E. destruct (contains (bs "host") (headers r)); cbn [negb];
    destruct (body r) as [[|c b]|]; cbn [from_option]; unfold id; rewrite ?app_nil_r;
    try (destruct (contains (bs "content-length") (headers r)); cbn [negb]);
    rewrite ?write_string_app, ?headers_text_app, ?headers_text_one, ?app_nil_r; cbn [app];
    by rewrite <- ?app_assoc.
Qed.

(** No field of the request runs out of its place in the text. *)
Record request_clean (r : HttpRequest) : Prop := RequestClean {
  rc_method : clean_token (method r);
  rc_host : clean_token (host_ (url r));
  rc_path : clean_token (path_ (url r));
  rc_query : clean_token (query_ (url r));
  rc_headers : Forall clean_header (headers r)
}.

Lemma clean_token_app a b : clean_token a -> clean_token b -> clean_token (a ++ b).
Proof. unfold clean_token. set_solver. Qed.

Lemma clean_token_lit c : c <> 13 -> c <> 32 -> clean_token [c].
Proof. unfold clean_token. set_solver. Qed.

Lemma clean_token_int n : clean_token (to_string_int n).
Proof. split; by apply to_string_int_not. Qed.

Lemma clean_host_port h p : clean_token h -> clean_token (h ++ bs ":" ++ to_string_int p).
Proof. intros. apply clean_token_app, clean_token_app; [done|by apply clean_token_lit|apply clean_token_int]. Qed.

Lemma clean_target r : request_clean r -> clean_token (request_target r).
Proof.
  intros []. unfold request_target. destruct (is_connect r); [by apply clean_host_port|].
  assert (clean_token (match path_ (url r) with [] => bs "/" | p => p end))
    by (destruct (path_ (url r)); [by apply clean_token_lit|done]).
  destruct (query_ (url r)) eqn:E; [done|].
  apply clean_token_app, clean_token_app; [done|by apply clean_token_lit|done].
Qed.

Lemma clean_host_value r : request_clean r -> clean_token (host_value r).
Proof.
  intros Hc. unfold host_value. destruct (is_connect r) eqn:E; [by apply clean_target|].
  destruct Hc. destruct (_ && _); [by apply clean_host_port|done].
Qed.

Lemma clean_added r : request_clean r -> Forall clean_header (added_headers r).
Proof.
  intros Hc. unfold added_headers. apply Forall_app. split.
  - destruct (contains _ _); [constructor|]. constructor; [|constructor].
    split; [split; apply find_char_None; reflexivity|apply (clean_host_value r Hc)].
  - destruct (body r) as [[|c b]|]; [constructor| |constructor].
    destruct (contains _ _); [constructor|]. constructor; [|constructor].
    split; [split; apply find_char_None; reflexivity|]. unfold clean_value. cbn [value].
    destruct (dec_nat_spec (zsize (c :: b))) as [Hd _]; [unfold zsize; lia|].
    unfold digits in Hd. rewrite Forall_forall in Hd. intros H%Hd. done.
Qed.

Lemma header_line_length h : (1 <= length (header_line (name h) (value h)))%nat.
Proof. unfold header_line. rewrite !length_app. simpl. lia. Qed.

Lemma headers_text_length hs : (length hs <= length (headers_text hs))%nat.
Proof.
  unfold headers_text. induction hs as [|h hs IH]; [done|]. cbn [fmap list_fmap concat].
  rewrite length_app. pose proof (header_line_length h). simpl. lia.
Qed.

(** C26 ([HttpRequest::serialize_to_h1], round trip): a request whose method,
    host, path and query hold no carriage return and no space, whose header names
    hold no carriage return and no colon and whose header values hold no carriage
    return is read back from its text: the method, the request target, the given headers followed by a
    Host header and, for a body, a Content-Length header where none was given,
    and the body. *)
Theorem serialize_parses r :
  request_clean r ->
  parse_request (serialize_to_h1 r) =
  Some (method r, request_target r, headers r ++ added_headers r, default [] (body r)).
Proof.
  intros Hc. rewrite serialize_text. unfold parse_request.
  pose proof (clean_target r Hc) as Ht. destruct (rc_method r Hc) as [Hm1 Hm2].
  rewrite take_line_app.
  2: { destruct Ht. unlit. set_solver. }
  rewrite split_request_line_text by done. rewrite parse_headers_text; [done| |].
  - apply Forall_app. split; [apply Hc|by apply clean_added].
  - rewrite !length_app. pose proof (headers_text_length (headers r ++ added_headers r)) as H.
    rewrite length_app in H. lia.
Qed.

Definition sample_request : HttpRequest :=
  MkRequest (MkUrl (bs "http") [] (bs "example.org") 8080 (bs "/a") (bs "q=1") []) (bs "POST")
    [MkHeader (bs "Accept") (bs "*/*")] (Some (bs "hi")) HttpTimeout_default.

(** Witness of C26. *)
Lemma serialize_parses_witness :
  parse_request (serialize_to_h1 sample_request) =
  Some (bs "POST", bs "/a?q=1",
        [MkHeader (bs "Accept") (bs "*/*"); MkHeader (bs "Host") (bs "example.org:8080");
         MkHeader (bs "Content-Length") (bs "2")], bs "hi").
Proof.
  rewrite (serialize_parses sample_request); [reflexivity|].
  constructor; [split; apply find_char_None; reflexivity..|].
  repeat constructor; apply find_char_None; reflexivity.
Defined.
