(* ===== verification/Session.v ===== *)
(** ppnt-http: session keys, connecting, the session pool and the client.

    [src/ppnt-http/src/session_key.ixx], [proxy.ixx], [session.cpp] and
    [client.cpp].  Network operations are the operations of a record [Net] and
    leave a trace of what was done; sessions are numbered and live in a table
    with their protocol version and whether their connection is alive.  The
    pool is the [std::map] from keys to groups, an association list in key
    order. *)

From S2P Require Import Prelude Util Url Binary HttpTypes.
From stdpp Require Import strings gmap relations.

Local Open Scope Z_scope.

(** ** Keys *)

Record ProxyConfig := MkProxy {
  px_host : bytes;
  px_port : Z;
  px_auth : option ProxyAuth;
  px_headers : HttpHeaderList
}.

Record SessionKey := MkKey {
  key_host : bytes;
  key_port : Z;
  key_ssl : bool;
  key_proxy : option ProxyConfig
}.

(** Three-way comparisons, as [operator<=>] composes them. *)
Definition then_cmp (a b : comparison) : comparison := match a with Eq => b | _ => a end.

Fixpoint cmp_bytes (a b : bytes) : comparison :=
  match a, b with
  | [], [] => Eq
  | [], _ => Lt
  | _, [] => Gt
  | x :: a, y :: b => then_cmp (x ?= y) (cmp_bytes a b)
  end.

Definition cmp_bool (a b : bool) : comparison :=
  match a, b with false, true => Lt | true, false => Gt | _, _ => Eq end.

Definition cmp_option {A} (cmp : A -> A -> comparison) (a b : option A) : comparison :=
  match a, b with
  | Some x, Some y => cmp x y
  | None, None => Eq
  | None, Some _ => Lt
  | Some _, None => Gt
  end.

Definition cmp_auth (a b : ProxyAuth) : comparison :=
  then_cmp (cmp_bytes (username a) (username b)) (cmp_bytes (password a) (password b)).

(** The headers do not take part. *)
Definition cmp_proxy (a b : ProxyConfig) : comparison :=
  then_cmp (cmp_bytes (px_host a) (px_host b))
    (then_cmp (px_port a ?= px_port b) (cmp_option cmp_auth (px_auth a) (px_auth b))).

Definition cmp_key (a b : SessionKey) : comparison :=
  then_cmp (cmp_bytes (key_host a) (key_host b))
    (then_cmp (key_port a ?= key_port b)
       (then_cmp (cmp_bool (key_ssl a) (key_ssl b)) (cmp_option cmp_proxy (key_proxy a) (key_proxy b)))).

Definition key_eqb (a b : SessionKey) : bool := match cmp_key a b with Eq => true | _ => false end.

(** ** Connecting *)

Inductive Version := HTTP_10 | HTTP_11 | HTTP_2 | HTTP_3.

Definition is_h1 (v : Version) : bool := match v with HTTP_11 | HTTP_10 => true | _ => false end.

Definition is_h2 (v : Version) : bool := match v with HTTP_2 => true | _ => false end.

(** What was done on the network, in order. *)
Inductive action :=
| Resolve (host : bytes) (port : Z)
| Connect (addr : Z) (timeout_ms : Z)
| SendRequest (stream : Z) (req : HttpRequest)
| TlsHandshake (stream : Z) (host : bytes).

(** Addresses and streams are numbers. *)
Record Net := MkNet {
  resolve_first : bytes -> Z -> Result Z;
  tcp_connect : Z -> Z -> Result Z;
  h1_request : Z -> HttpRequest -> Result Z;
  tls_client : Result ();
  tls_connect : Z -> bytes -> Result bool
}.

(** A coroutine: its trace and how it ends. *)
Definition task (A : Type) : Type := list action * outcome A.

Definition ret {A} (a : A) : task A := ([], Returns (Ok a)).
Definition fail {A} (e : Error) : task A := ([], Returns (Err e)).
Definition perform {A} (a : action) (r : Result A) : task A := ([a], Returns r).
Definition lift {A} (r : Result A) : task A := ([], Returns r).

Definition bind {A B} (t : task A) (f : A -> task B) : task B :=
  match t with
  | (tr, Returns (Ok a)) => let '(tr', o) := f a in (tr ++ tr', o)
  | (tr, Returns (Err e)) => (tr, Returns (Err e))
  | (tr, Undefined) => (tr, Undefined)
  end.

Section Connect.
Context (net : Net).

(** Scratch space of the Base64 encoder. *)
Context (junk : bytes).

(** The CONNECT request. *)
Definition connect_request (target : Url) (proxy_config : ProxyConfig) : option HttpRequest :=
  let headers := HttpTypes.headers HttpRequest_default in
  match px_auth proxy_config with
  | Some auth =>
      h ← basic_header junk auth;
      Some (MkRequest target (bs "CONNECT") ((headers ++ [h]) ++ px_headers proxy_config) None HttpTimeout_default)
  | None => Some (MkRequest target (bs "CONNECT") (headers ++ px_headers proxy_config) None HttpTimeout_default)
  end.

Definition make_proxy_stream (target : Url) (proxy_config : ProxyConfig) : task Z :=
  bind (perform (Resolve (px_host proxy_config) (px_port proxy_config))
          (resolve_first net (px_host proxy_config) (px_port proxy_config))) (fun addr =>
  bind (perform (Connect addr 0) (tcp_connect net addr 0)) (fun tcp_stream =>
  match connect_request target proxy_config with
  | None => ([], Undefined)
  | Some connect_req =>
      bind (perform (SendRequest tcp_stream connect_req) (h1_request net tcp_stream connect_req)) (fun code =>
      if code =? 200 then ret tcp_stream
      else fail (MkError (make_error_code not_connected)
                   (bs "Proxy connect: " ++ to_string_int code) None))
  end)).

(** The stream, whether it is a TLS stream, and the version spoken on it. *)
Definition session_connect (key : SessionKey) (timeout_ms : Z) (has_tls_ctx : bool)
    : task (Z * bool * Version) :=
  let tcp_stream :=
    match key_proxy key with
    | Some proxy_config =>
        bind (lift (Url.parse (bs "http://" ++ key_host key ++ bs ":" ++ to_string_int (key_port key))))
          (fun target_url => make_proxy_stream target_url proxy_config)
    | None =>
        bind (perform (Resolve (key_host key) (key_port key))
                (resolve_first net (key_host key) (key_port key))) (fun addr =>
        perform (Connect addr timeout_ms) (tcp_connect net addr timeout_ms))
    end in
  bind tcp_stream (fun tcp_stream =>
  if key_ssl key then
    bind (if has_tls_ctx then ret tt else lift (tls_client net)) (fun _ =>
    bind (perform (TlsHandshake tcp_stream (key_host key)) (tls_connect net tcp_stream (key_host key)))
      (fun use_h2 => ret (tcp_stream, true, if (use_h2 : bool) then HTTP_2 else HTTP_11)))
  else ret (tcp_stream, false, HTTP_11)).

End Connect.

(** ** The pool *)

Record Session := MkSession { s_key : SessionKey; s_version : Version; s_alive : bool }.

Record HostGroup := MkGroup { h2_session : option Z; h1_idle : list (option Z) }.

Definition HostGroup_default : HostGroup := MkGroup None [].

Record World := MkWorld {
  sessions_ : list (SessionKey * HostGroup);
  table : gmap Z Session
}.

Fixpoint group_get (key : SessionKey) (l : list (SessionKey * HostGroup)) : HostGroup :=
  match l with
  | [] => HostGroup_default
  | (k, g) :: r => match cmp_key key k with Eq => g | _ => group_get key r end
  end.

(** [sessions_[key] = g]: the entry is created in key order when missing. *)
Fixpoint group_set (key : SessionKey) (g : HostGroup) (l : list (SessionKey * HostGroup))
    : list (SessionKey * HostGroup) :=
  match l with
  | [] => [(key, g)]
  | (k, g') :: r =>
      match cmp_key key k with
      | Eq => (k, g) :: r
      | Lt => (key, g) :: (k, g') :: r
      | Gt => (k, g') :: group_set key g r
      end
  end.

Definition is_valid (w : World) (s : Z) : bool :=
  match table w !! s with Some x => s_alive x | None => false end.

Definition version_of (w : World) (s : Z) : Version :=
  match table w !! s with Some x => s_version x | None => HTTP_11 end.

Definition set_group (key : SessionKey) (g : HostGroup) (w : World) : World :=
  MkWorld (group_set key g (sessions_ w)) (table w).

(** [session->close()]. *)
Definition close (s : Z) (w : World) : World :=
  MkWorld (sessions_ w) (alter (fun x => MkSession (s_key x) (s_version x) false) s (table w)).

(** The loop that pops idle sessions: what is left, and the session found. *)
Fixpoint pop_valid (w : World) (idle : list (option Z)) : list (option Z) * option Z :=
  match idle with
  | [] => ([], None)
  | Some s :: r => if is_valid w s then (r, Some s) else pop_valid w r
  | None :: r => pop_valid w r
  end.

(** [acquire_session] up to the connection: a session, or [None] when one has
    to be connected. *)
Definition acquire_pooled (key : SessionKey) (w : World) : World * option Z :=
  let group := group_get key (sessions_ w) in
  let h2 := match h2_session group with Some s => if negb (is_valid w s) then None else Some s | None => None end in
  let idle := List.filter (fun x => match x with Some s => is_valid w s | None => false end) (h1_idle group) in
  match h2 with
  | Some s => (set_group key (MkGroup h2 idle) w, Some s)
  | None =>
      let '(idle, found) := pop_valid w idle in
      (set_group key (MkGroup h2 idle) w, found)
  end.

(** [acquire_session] after the connection: the new session [s]. *)
Definition acquire_connected (key : SessionKey) (s : Z) (w : World) : World :=
  if is_h2 (version_of w s)
  then set_group key (MkGroup (Some s) (h1_idle (group_get key (sessions_ w)))) w else w.

Definition release_h1_session (key : SessionKey) (session : option Z) (w : World) : World :=
  match session with
  | None => w
  | Some s =>
      if negb (is_valid w s) then w
      else if is_h1 (version_of w s) then
        let group := group_get key (sessions_ w) in
        if Z.of_nat (length (h1_idle group)) <? 100
        then set_group key (MkGroup (h2_session group) (h1_idle group ++ [Some s])) w
        else close s (set_group key group w)
      else w
  end.

(** [SessionPool::close_async]; [close_res] is the result of closing each
    session. *)
Fixpoint close_idle (close_res : Z -> Result ()) (idle : list (option Z)) (w : World)
    : list (option Z) * World * Result () :=
  match idle with
  | [] => ([], w, Ok tt)
  | None :: r => close_idle close_res r w
  | Some s :: r =>
      let w := close s w in
      match close_res s with
      | Ok _ => close_idle close_res r w
      | Err e => (r, w, Err e)
      end
  end.

Fixpoint close_groups (close_res : Z -> Result ()) (l : list (SessionKey * HostGroup)) (w : World)
    : list (SessionKey * HostGroup) * World * Result () :=
  match l with
  | [] => ([], w, Ok tt)
  | (k, g) :: r =>
      let '(w, res) := match h2_session g with Some s => (close s w, close_res s) | None => (w, Ok tt) end in
      match res with
      | Err e => ((k, g) :: r, w, Err e)
      | Ok _ =>
          let '(idle, w, res) := close_idle close_res (h1_idle g) w in
          match res with
          | Err e => ((k, MkGroup None idle) :: r, w, Err e)
          | Ok _ =>
              let '(r, w, res) := close_groups close_res r w in
              ((k, MkGroup None idle) :: r, w, res)
          end
      end
  end.

Definition close_async (close_res : Z -> Result ()) (w : World) : World * Result () :=
  let '(l, w, res) := close_groups close_res (sessions_ w) w in
  match res with
  | Ok _ => (MkWorld [] (table w), Ok tt)
  | Err e => (MkWorld l (table w), Err e)
  end.

(** ** [HttpClient] *)

Definition request_key (req : HttpRequest) (proxy_config : option ProxyConfig) : SessionKey :=
  MkKey (host_ (url req)) (port_or_default (url req)) (bytes_eqb (scheme_ (url req)) (bs "https")) proxy_config.

(** The hook an HTTP/1.x response runs once its body was read. *)
Definition body_consumed_hook (release_key : SessionKey) (held_session : option Z) (success : bool)
    (w : World) : World :=
  match held_session with
  | None => w
  | Some s => if success then release_h1_session release_key (Some s) w else close s w
  end.

(** ** The order of keys *)

(** A lawful three-way comparison up to an equivalence. *)
Record cmp_laws {A} (cmp : A -> A -> comparison) (eqv : A -> A -> Prop) : Prop := CmpLaws {
  cl_eq : forall a b, cmp a b = Eq <-> eqv a b;
  cl_opp : forall a b, cmp b a = CompOpp (cmp a b);
  cl_trans : forall a b c, cmp a b = Lt -> cmp b c = Lt -> cmp a c = Lt;
  cl_compat : forall a b c, eqv a b -> cmp a c = cmp b c
}.

Lemma then_cmp_laws {A B C} (f : A -> B) (g : A -> C) cb eb cc ec :
  cmp_laws cb eb -> cmp_laws cc ec ->
  cmp_laws (fun x y => then_cmp (cb (f x) (f y)) (cc (g x) (g y)))
           (fun x y => eb (f x) (f y) /\ ec (g x) (g y)).
Proof.
  intros [E1 O1 T1 C1] [E2 O2 T2 C2]. split.
  - intros a b. rewrite <- E1, <- E2. destruct (cb (f a) (f b)); simpl; naive_solver.
  - intros a b. rewrite O1, O2. by destruct (cb (f a) (f b)), (cc (g a) (g b)).
  - intros a b c H1 H2. destruct (cb (f a) (f b)) eqn:Eab; simpl in H1; try done.
    + apply E1 in Eab. rewrite (C1 _ _ (f c) Eab). destruct (cb (f b) (f c)); simpl in *; try done. eauto.
    + destruct (cb (f b) (f c)) eqn:Ebc; simpl in H2; try done.
      * apply E1 in Ebc. assert (cb (f a) (f c) = Lt) as ->; [|done].
        rewrite (O1 (f c) (f a)). rewrite <- (C1 _ _ (f a) Ebc). rewrite (O1 (f a) (f b)), Eab. done.
      * by rewrite (T1 _ _ _ Eab Ebc).
  - intros a b c [H1 H2]. by rewrite (C1 _ _ (f c) H1), (C2 _ _ (g c) H2).
Qed.

Lemma cmp_Z_laws : cmp_laws Z.compare (=).
Proof.
  split.
  - apply Z.compare_eq_iff.
  - intros. apply Z.compare_antisym.
  - intros a b c. rewrite !Z.compare_lt_iff. lia.
  - by intros a b c ->.
Qed.

Lemma cmp_bytes_laws : cmp_laws cmp_bytes (=).
Proof.
  assert (E : forall a b, cmp_bytes a b = Eq <-> a = b).
  { induction a as [|x a IH]; intros [|y b]; simpl; try done.
    destruct (Z.compare_spec x y); simpl; [rewrite IH; subst; naive_solver|naive_solver lia..]. }
  split; [exact E| | |by intros a b c ->].
  - induction a as [|x a IH]; intros [|y b]; simpl; try done.
    rewrite Z.compare_antisym. destruct (x ?= y); simpl; [apply IH|done..].
  - induction a as [|x a IH]; intros [|y b] [|z c]; simpl; try done.
    destruct (Z.compare_spec x y) as [->|H1|H1]; simpl; [|intros _|done].
    + destruct (y ?= z); simpl; eauto.
    + destruct (Z.compare_spec y z) as [->|H2|H2]; simpl; [intros _|intros _|done].
      * by rewrite (proj2 (Z.compare_lt_iff _ _) H1).
      * by rewrite (proj2 (Z.compare_lt_iff x z)) by lia.
Qed.

Lemma cmp_bool_laws : cmp_laws cmp_bool (=).
Proof. split; intros [] []; try intros []; done. Qed.

Definition option_eqv {A} (eqv : A -> A -> Prop) (a b : option A) : Prop :=
  match a, b with Some x, Some y => eqv x y | None, None => True | _, _ => False end.

Lemma cmp_option_laws {A} (cmp : A -> A -> comparison) eqv :
  cmp_laws cmp eqv -> cmp_laws (cmp_option cmp) (option_eqv eqv).
Proof.
  intros [E O T C]. split.
  - intros [a|] [b|]; simpl; [apply E|done..].
  - intros [a|] [b|]; simpl; [apply O|done..].
  - intros [a|] [b|] [c|]; simpl; try done. apply T.
  - intros [a|] [b|] [c|]; simpl; try done. apply C.
Qed.

(** Proxies are the same up to the headers sent to them. *)
Definition auth_eqv (a b : ProxyAuth) : Prop := username a = username b /\ password a = password b.
Definition proxy_eqv (a b : ProxyConfig) : Prop :=
  px_host a = px_host b /\ px_port a = px_port b /\ option_eqv auth_eqv (px_auth a) (px_auth b).
Definition key_eqv (a b : SessionKey) : Prop :=
  key_host a = key_host b /\ key_port a = key_port b /\ key_ssl a = key_ssl b /\
  option_eqv proxy_eqv (key_proxy a) (key_proxy b).

Lemma cmp_auth_laws : cmp_laws cmp_auth auth_eqv.
Proof. exact (then_cmp_laws username password _ _ _ _ cmp_bytes_laws cmp_bytes_laws). Qed.

Lemma cmp_proxy_laws : cmp_laws cmp_proxy proxy_eqv.
Proof.
  exact (then_cmp_laws px_host (fun x => x) _ _ _ _ cmp_bytes_laws
    (then_cmp_laws px_port px_auth _ _ _ _ cmp_Z_laws (cmp_option_laws _ _ cmp_auth_laws))).
Qed.

Lemma cmp_key_laws : cmp_laws cmp_key key_eqv.
Proof.
  exact (then_cmp_laws key_host (fun x => x) _ _ _ _ cmp_bytes_laws
    (then_cmp_laws key_port (fun x => x) _ _ _ _ cmp_Z_laws
      (then_cmp_laws key_ssl key_proxy _ _ _ _ cmp_bool_laws (cmp_option_laws _ _ cmp_proxy_laws)))).
Qed.

Lemma key_eqv_sym a b : key_eqv a b -> key_eqv b a.
Proof.
  intros H. apply (cl_eq _ _ cmp_key_laws). apply (cl_eq _ _ cmp_key_laws) in H.
  by rewrite (cl_opp _ _ cmp_key_laws), H.
Qed.

Lemma key_eqv_trans a b c : key_eqv a b -> key_eqv b c -> key_eqv a c.
Proof.
  intros H1 H2. apply (cl_eq _ _ cmp_key_laws). rewrite (cl_compat _ _ cmp_key_laws _ _ c H1).
  by apply (cl_eq _ _ cmp_key_laws).
Qed.

Lemma key_eqv_refl a : key_eqv a a.
Proof.
  apply (cl_eq _ _ cmp_key_laws). pose proof (cl_opp _ _ cmp_key_laws a a) as H.
  by destruct (cmp_key a a).
Qed.

(** ** The map from keys to groups *)

Definition above (key : SessionKey) (l : list (SessionKey * HostGroup)) : Prop :=
  Forall (fun p => cmp_key key (fst p) = Lt) l.

Fixpoint sorted (l : list (SessionKey * HostGroup)) : Prop :=
  match l with [] => True | (k, _) :: r => above k r /\ sorted r end.

Lemma group_get_above key l : above key l -> group_get key l = HostGroup_default.
Proof. induction 1 as [|[k g] l H _ IH]; simpl in *; [done|]. by rewrite H. Qed.

Lemma above_trans key k l : cmp_key key k = Lt -> above k l -> above key l.
Proof.
  intros H Ha. eapply Forall_impl; [exact Ha|]. intros p. by apply (cl_trans _ _ cmp_key_laws).
Qed.

(** Setting a group replaces the one of the key, or adds one. *)
Lemma group_set_view key l :
  sorted l ->
  (exists l1 k l2, l = l1 ++ (k, group_get key l) :: l2 /\ key_eqv key k /\
     forall g, group_set key g l = l1 ++ (k, g) :: l2) \/
  (exists l1 l2, l = l1 ++ l2 /\ group_get key l = HostGroup_default /\
     forall g, group_set key g l = l1 ++ (key, g) :: l2).
Proof.
  induction l as [|[k g'] r IH]; intros Hs; [right; by exists [], []|].
  destruct Hs as [Ha Hs]. cbn [group_get group_set]. destruct (cmp_key key k) eqn:E.
  - left. exists [], k, r. by apply (cl_eq _ _ cmp_key_laws) in E.
  - right. exists [], ((k, g') :: r). split; [done|]. split; [|done].
    apply group_get_above. by eapply above_trans.
  - destruct (IH Hs) as [(l1 & k1 & l2 & El & Hk & Hg)|(l1 & l2 & El & Hd & Hg)].
    + left. exists ((k, g') :: l1), k1, l2. split; [by rewrite El at 1|]. split; [done|].
      intros g. by rewrite Hg.
    + right. exists ((k, g') :: l1), l2. split; [by rewrite El|]. split; [done|].
      intros g. by rewrite Hg.
Qed.

Lemma group_set_above key g l k : cmp_key k key = Lt -> above k l -> above k (group_set key g l).
Proof.
  intros Hk. unfold above. induction 1 as [|[k' g'] l H Hl IH]; simpl in *; [by repeat constructor|].
  destruct (cmp_key key k'); by repeat constructor.
Qed.

Lemma group_set_sorted key g l : sorted l -> sorted (group_set key g l).
Proof.
  induction l as [|[k g'] r IH]; intros Hs; [by repeat constructor|].
  destruct Hs as [Ha Hs]. cbn [group_set]. destruct (cmp_key key k) eqn:E; simpl.
  - done.
  - split; [|done]. constructor; [done|by eapply above_trans].
  - split; [|by apply IH]. apply group_set_above; [|done]. by rewrite (cl_opp _ _ cmp_key_laws), E.
Qed.

(** All idle sessions of the pool. *)
Definition idle_of (l : list (SessionKey * HostGroup)) : list (option Z) :=
  concat ((fun p => h1_idle (snd p)) <$> l).

Lemma idle_of_app a b : idle_of (a ++ b) = idle_of a ++ idle_of b.
Proof. unfold idle_of. by rewrite fmap_app, concat_app. Qed.

Lemma idle_of_middle a k g b : idle_of (a ++ (k, g) :: b) ≡ₚ h1_idle g ++ idle_of (a ++ b).
Proof.
  rewrite !idle_of_app. change (idle_of ((k, g) :: b)) with (h1_idle g ++ idle_of b).
  by rewrite Permutation_app_swap_app.
Qed.

(** Setting a group exchanges its idle sessions and keeps the others. *)
Lemma idle_of_set key l :
  sorted l -> exists rest, idle_of l ≡ₚ h1_idle (group_get key l) ++ rest /\
    forall g, idle_of (group_set key g l) ≡ₚ h1_idle g ++ rest.
Proof.
  intros Hs. destruct (group_set_view key l Hs) as [(l1 & k & l2 & El & _ & Hg)|(l1 & l2 & El & Hd & Hg)];
    exists (idle_of (l1 ++ l2)).
  - split; [rewrite El at 1; apply idle_of_middle|]. intros g. rewrite Hg. apply idle_of_middle.
  - split; [by rewrite Hd, <- El|]. intros g. rewrite Hg. apply idle_of_middle.
Qed.

(** What holds of every group, and of an empty one, holds after setting one. *)
Lemma group_set_forall (P : SessionKey -> HostGroup -> Prop) key g l :
  sorted l -> (forall p, p ∈ l -> P (fst p) (snd p)) ->
  (forall k, key_eqv key k -> P k g) ->
  forall p, p ∈ group_set key g l -> P (fst p) (snd p).
Proof.
  intros Hs Hl Hg p Hp.
  destruct (group_set_view key l Hs) as [(l1 & k & l2 & El & Hk & E)|(l1 & l2 & El & _ & E)];
    rewrite E, elem_of_app, elem_of_cons in Hp; destruct Hp as [Hp|[->|Hp]].
  1,3: apply Hl; rewrite El; set_solver.
  - by apply Hg.
  - apply Hl. rewrite El. set_solver.
  - apply Hg, key_eqv_refl.
  - apply Hl. rewrite El. set_solver.
Qed.

(** The group of a key is one of the map's, under an equivalent key, or empty. *)
Lemma group_get_in key l :
  sorted l -> (exists k, (k, group_get key l) ∈ l /\ key_eqv key k) \/ group_get key l = HostGroup_default.
Proof.
  intros Hs. destruct (group_set_view key l Hs) as [(l1 & k & l2 & El & Hk & _)|(l1 & l2 & _ & Hd & _)].
  - left. exists k. split; [|done]. rewrite El at 2. set_solver.
  - by right.
Qed.

(** ** The pool hands out every HTTP/1.x session to one holder *)

Definition group_ok (w : World) (k : SessionKey) (g : HostGroup) : Prop :=
  (length (h1_idle g) <= 100)%nat /\
  (forall x, x ∈ h1_idle g -> exists s e, x = Some s /\ table w !! s = Some e /\
     is_h1 (s_version e) = true /\ key_eqv k (s_key e)) /\
  (forall s, h2_session g = Some s -> exists e, table w !! s = Some e /\
     is_h2 (s_version e) = true /\ key_eqv k (s_key e)).

(** [busy] are the HTTP/1.x sessions in use. *)
Record pool_ok (busy : list Z) (w : World) : Prop := PoolOk {
  po_sorted : sorted (sessions_ w);
  po_nodup : NoDup (idle_of (sessions_ w) ++ (Some <$> busy));
  po_groups : forall p, p ∈ sessions_ w -> group_ok w (fst p) (snd p)
}.

Lemma group_ok_default w k : group_ok w k HostGroup_default.
Proof. split; [simpl; lia|]. split; [intros x Hx; by apply not_elem_of_nil in Hx|done]. Qed.

Lemma group_ok_eqv w k k' g : key_eqv k k' -> group_ok w k g -> group_ok w k' g.
Proof.
  intros Hk (H1 & H2 & H3). pose proof (key_eqv_sym _ _ Hk). split; [done|]. split.
  - intros x Hx. destruct (H2 x Hx) as (s & e & ? & ? & ? & ?). exists s, e. eauto using key_eqv_trans.
  - intros s Hs. destruct (H3 s Hs) as (e & ? & ? & ?). exists e. eauto using key_eqv_trans.
Qed.

Lemma group_get_ok busy w key : pool_ok busy w -> group_ok w key (group_get key (sessions_ w)).
Proof.
  intros [Hs _ Hg]. destruct (group_get_in key _ Hs) as [(k & Hin & Hk)| ->]; [|apply group_ok_default].
  apply (group_ok_eqv w k); [by apply key_eqv_sym|]. by apply (Hg _ Hin).
Qed.

(** Changing one group, when the sessions it gives up and takes fit. *)
Lemma pool_ok_set busy busy' w key g :
  pool_ok busy w -> group_ok w key g ->
  (forall rest, NoDup (h1_idle (group_get key (sessions_ w)) ++ rest ++ (Some <$> busy)) ->
     NoDup (h1_idle g ++ rest ++ (Some <$> busy'))) ->
  pool_ok busy' (set_group key g w).
Proof.
  intros [Hs Hn Hg] Hok Hd. constructor; cbn [set_group sessions_].
  - by apply group_set_sorted.
  - destruct (idle_of_set key _ Hs) as (rest & H1 & H2). rewrite (H2 g), <- app_assoc. apply Hd.
    by rewrite app_assoc, <- H1.
  - apply (group_set_forall (fun k g => group_ok (set_group key g w) k g)); [done|apply Hg|].
    intros k Hk. by apply (group_ok_eqv w key).
Qed.

Lemma NoDup_sub {A} (l1 l2 : list A) : l1 ⊆+ l2 -> NoDup l2 -> NoDup l1.
Proof. intros [k ->]%submseteq_Permutation. rewrite NoDup_app. naive_solver. Qed.

Lemma filter_submseteq {A} (f : A -> bool) (l : list A) : List.filter f l ⊆+ l.
Proof.
  induction l as [|x l IH]; [done|]. cbn [List.filter]. destruct (f x).
  - by apply submseteq_skip.
  - by apply submseteq_cons.
Qed.

Lemma pop_valid_spec w idle r found :
  pop_valid w idle = (r, found) ->
  match found with
  | Some s => exists p, idle = p ++ Some s :: r /\ is_valid w s = true
  | None => r = []
  end.
Proof.
  induction idle as [|[s|] idle IH]; cbn [pop_valid]; [by intros [= <- <-]| |].
  - destruct (is_valid w s) eqn:E; [intros [= <- <-]; by exists []|].
    intros H%IH. destruct found; [|done]. destruct H as (p & -> & ?). by exists (Some s :: p).
  - intros H%IH. destruct found; [|done]. destruct H as (p & -> & ?). by exists (None :: p).
Qed.

Lemma h2_not_h1 v : is_h2 v = true -> is_h1 v = false.
Proof. by destruct v. Qed.

(** [acquire_session] drops dead sessions and gives out the HTTP/2 session of
    the group or one of its idle ones. *)
Lemma acquire_pooled_view key w :
  let g := group_get key (sessions_ w) in
  exists h2 idle found, acquire_pooled key w = (set_group key (MkGroup h2 idle) w, found) /\
    (h2 = None \/ h2 = h2_session g) /\
    match found with
    | None => idle ⊆+ h1_idle g
    | Some s => is_valid w s = true /\
        (h2_session g = Some s /\ idle ⊆+ h1_idle g \/ Some s :: idle ⊆+ h1_idle g)
    end.
Proof.
  intros g. unfold acquire_pooled. fold g. set (idle := List.filter _ (h1_idle g)).
  assert (Hsub : idle ⊆+ h1_idle g) by apply filter_submseteq.
  destruct (h2_session g) as [s|] eqn:Eh2; [destruct (is_valid w s) eqn:Ev|]; cbn [negb].
  - exists (Some s), idle, (Some s). split; [done|]. split; [by right|]. split; [done|]. by left.
  - destruct (pop_valid w idle) as [r f] eqn:Ep. apply pop_valid_spec in Ep.
    exists None, r, f. split; [done|]. split; [by left|]. destruct f as [s'|].
    + destruct Ep as (p & Ep & ?). split; [done|]. right. etransitivity; [|exact Hsub].
      rewrite Ep. apply submseteq_inserts_l. done.
    + subst r. apply submseteq_nil_l.
  - destruct (pop_valid w idle) as [r f] eqn:Ep. apply pop_valid_spec in Ep.
    exists None, r, f. split; [done|]. split; [by left|]. destruct f as [s'|].
    + destruct Ep as (p & Ep & ?). split; [done|]. right. etransitivity; [|exact Hsub].
      rewrite Ep. apply submseteq_inserts_l. done.
    + subst r. apply submseteq_nil_l.
Qed.

(** A group with fewer idle sessions. *)
Lemma group_ok_sub w key g h2 idle :
  group_ok w key g -> (h2 = None \/ h2 = h2_session g) -> idle ⊆+ h1_idle g ->
  group_ok w key (MkGroup h2 idle).
Proof.
  intros (Hl & Hi & Hh) Hh2 Hsub. split; [apply submseteq_length in Hsub; simpl; lia|]. split.
  - intros x Hx. apply Hi. by eapply elem_of_submseteq.
  - intros s Hs. cbn in Hs. apply Hh. destruct Hh2; congruence.
Qed.

Lemma acquire_pooled_ok busy w key w' found :
  pool_ok busy w -> acquire_pooled key w = (w', found) ->
  table w' = table w /\
  match found with
  | Some s => exists e, table w !! s = Some e /\ key_eqv key (s_key e) /\ s_alive e = true /\
      pool_ok (if is_h1 (s_version e) then s :: busy else busy) w'
  | None => pool_ok busy w'
  end.
Proof.
  intros W. pose proof (group_get_ok busy w key W) as Hg.
  destruct (acquire_pooled_view key w) as (h2 & idle & f & E & Hh2 & Hf).
  rewrite E. intros [= <- <-]. split; [done|]. set (g := group_get key (sessions_ w)) in *.
  assert (Hkeep : idle ⊆+ h1_idle g -> pool_ok busy (set_group key (MkGroup h2 idle) w)).
  { intros Hsub. apply (pool_ok_set busy); [done|by eapply group_ok_sub|].
    intros rest. apply NoDup_sub. by apply submseteq_skips_r. }
  destruct f as [s|]; [|by apply Hkeep]. destruct Hf as [Hv [[Es Hsub]|Hsub]].
  - destruct Hg as (_ & _ & Hh). destruct (Hh s Es) as (e & He & Hv2 & Hk). exists e.
    unfold is_valid in Hv. rewrite He in Hv. rewrite (h2_not_h1 _ Hv2). auto.
  - pose proof Hg as (_ & Hi & _).
    destruct (Hi (Some s)) as (s1 & e & [= <-] & He & Hv1 & Hk); [eapply elem_of_submseteq; [|exact Hsub]; left|].
    exists e. unfold is_valid in Hv. rewrite He in Hv. rewrite Hv1. split; [done|]. split; [done|]. split; [done|].
    assert (Hsub' : idle ⊆+ h1_idle g) by (etransitivity; [by apply submseteq_cons|exact Hsub]).
    apply (pool_ok_set busy); [done|by eapply group_ok_sub|].
    intros rest. apply NoDup_sub. cbn [h1_idle fmap list_fmap].
    transitivity ((Some s :: idle) ++ rest ++ (Some <$> busy)); [|by apply submseteq_skips_r].
    rewrite (app_assoc idle rest), <- Permutation_middle, <- app_assoc. done.
Qed.

(** The table may forget nothing but that a connection is alive. *)
Definition table_keeps (w w' : World) : Prop :=
  forall s e, table w !! s = Some e ->
    exists e', table w' !! s = Some e' /\ s_version e' = s_version e /\ s_key e' = s_key e.

Lemma group_ok_table w w' k g : table_keeps w w' -> group_ok w k g -> group_ok w' k g.
Proof.
  intros Ht (H1 & H2 & H3). split; [done|]. split.
  - intros x Hx. destruct (H2 x Hx) as (s & e & -> & He & Hv & Hk).
    destruct (Ht s e He) as (e' & ? & Ev & Ek). rewrite <- Ev in Hv. rewrite <- Ek in Hk. eauto 7.
  - intros s Hs. destruct (H3 s Hs) as (e & He & Hv & Hk). destruct (Ht s e He) as (e' & ? & Ev & Ek).
    rewrite <- Ev in Hv. rewrite <- Ek in Hk. eauto.
Qed.

Lemma pool_ok_table busy w w' :
  sessions_ w' = sessions_ w -> table_keeps w w' -> pool_ok busy w -> pool_ok busy w'.
Proof.
  intros Hs Ht [H1 H2 H3]. constructor; rewrite Hs; [done|done|].
  intros p Hp. by apply (group_ok_table w), H3.
Qed.

Lemma close_keeps s w : table_keeps w (close s w).
Proof.
  intros s' e He. cbn. destruct (decide (s = s')) as [<-|Hn].
  - rewrite lookup_alter_eq, He. by eexists.
  - rewrite lookup_alter_ne by done. eauto.
Qed.

Lemma close_ok busy s w : pool_ok busy w -> pool_ok busy (close s w).
Proof. apply pool_ok_table; [done|apply close_keeps]. Qed.

(** Giving a session back. *)
Lemma release_ok busy w key s e :
  pool_ok (s :: busy) w -> table w !! s = Some e -> key_eqv key (s_key e) -> is_h1 (s_version e) = true ->
  pool_ok busy (release_h1_session key (Some s) w).
Proof.
  intros W He Hk Hv. pose proof (group_get_ok _ w key W) as Hg.
  assert (Hdrop : pool_ok busy w).
  { destruct W as [H1 H2 H3]. constructor; [done| |done]. revert H2. apply NoDup_sub.
    apply submseteq_skips_l. by apply submseteq_cons. }
  unfold release_h1_session. destruct (is_valid w s); cbn [negb]; [|done].
  unfold version_of. rewrite He, Hv. set (g := group_get key (sessions_ w)) in *.
  destruct (Z.ltb_spec (Z.of_nat (length (h1_idle g))) 100).
  - apply (pool_ok_set (s :: busy)); [done| |].
    + destruct Hg as (Hl & Hi & Hh). split; [cbn; rewrite length_app; simpl; lia|]. split; [|done].
      intros x [Hx|Hx%list_elem_of_singleton]%elem_of_app; [by apply Hi|]. subst x. eauto 7.
    + intros rest. apply NoDup_sub. cbn [h1_idle fmap list_fmap]. rewrite <- app_assoc. cbn [app].
      by rewrite (Permutation_middle rest).
  - apply close_ok, (pool_ok_set busy); done.
Qed.

(** A new session, under a number not used before. *)
Lemma connected_ok busy w key s v :
  pool_ok busy w -> table w !! s = None ->
  (forall x, x ∈ busy -> is_Some (table w !! x)) ->
  let w' := MkWorld (sessions_ w) (<[s := MkSession key v true]> (table w)) in
  pool_ok (if is_h1 v then s :: busy else busy) (acquire_connected key s w').
Proof.
  intros W Hs Hbusy w'.
  assert (Hidle : Some s ∉ idle_of (sessions_ w)).
  { intros (l & Hin & Hl)%list_elem_of_In%in_concat. apply list_elem_of_In in Hin, Hl.
    apply list_elem_of_fmap in Hin as (p & -> & Hp). destruct (po_groups _ _ W p Hp) as (_ & Hi & _).
    destruct (Hi _ Hl) as (s1 & e & [= <-] & He & _). congruence. }
  assert (Hnb : s ∉ busy) by (intros [x Hx]%Hbusy; congruence).
  assert (W' : pool_ok busy w').
  { apply (pool_ok_table busy w); [done| |done]. intros s' e He. cbn. exists e.
    rewrite lookup_insert_ne by congruence. done. }
  unfold acquire_connected, version_of. cbn [w' table]. rewrite lookup_insert_eq. cbn [s_version].
  destruct v; cbn [is_h1 is_h2]; try done.
  1,2: destruct W' as [H1 H2 H3]; constructor; [done| |done]; cbn [fmap list_fmap];
    rewrite <- Permutation_middle; apply NoDup_cons; split; [|done];
    rewrite elem_of_app, list_elem_of_fmap; intros [?|(x & [= ->] & ?)]; done.
  apply (pool_ok_set busy); [done| |done].
  destruct (group_get_ok busy w' key W') as (Hl & Hi & _). split; [done|]. split; [done|].
  intros s' [= <-]. eexists. split; [apply lookup_insert_eq|]. split; [done|apply key_eqv_refl].
Qed.

(** A group after some of its sessions were closed. *)
Definition shrunk (p q : SessionKey * HostGroup) : Prop :=
  fst q = fst p /\ (h2_session (snd q) = None \/ h2_session (snd q) = h2_session (snd p)) /\
  h1_idle (snd q) ⊆+ h1_idle (snd p).

Lemma shrunk_refl p : shrunk p p.
Proof. split; [done|]. split; [by right|done]. Qed.

Lemma shrunk_all l : Forall2 shrunk l l.
Proof. induction l; constructor; [apply shrunk_refl|done]. Qed.

Lemma table_keeps_refl w : table_keeps w w.
Proof. intros s e He. by exists e. Qed.

Lemma table_keeps_trans w1 w2 w3 : table_keeps w1 w2 -> table_keeps w2 w3 -> table_keeps w1 w3.
Proof.
  intros H1 H2 s e He. destruct (H1 s e He) as (e' & He' & ? & ?).
  destruct (H2 s e' He') as (e2 & ? & ? & ?). exists e2. split; [done|]. split; congruence.
Qed.

Lemma close_idle_spec res idle : forall w idle' w' r,
  close_idle res idle w = (idle', w', r) ->
  idle' ⊆+ idle /\ sessions_ w' = sessions_ w /\ table_keeps w w' /\ (forall u, r = Ok u -> idle' = []).
Proof.
  induction idle as [|[s|] idle IH]; intros w idle' w' r; cbn [close_idle].
  - intros [= <- <- <-]. eauto using table_keeps_refl.
  - destruct (res s) as [u|e].
    + intros (H1 & H2 & H3 & H4)%IH. split; [by apply submseteq_cons|]. split; [done|].
      split; [|done]. eapply table_keeps_trans; [apply close_keeps|exact H3].
    + intros [= <- <- <-]. split; [by apply submseteq_cons|]. split; [done|].
      split; [apply close_keeps|done].
  - intros (H1 & H2 & H3 & H4)%IH. split; [by apply submseteq_cons|done].
Qed.

Lemma close_groups_spec res l : forall w l' w' r,
  close_groups res l w = (l', w', r) ->
  Forall2 shrunk l l' /\ sessions_ w' = sessions_ w /\ table_keeps w w'.
Proof.
  induction l as [|[k g] l IH]; intros w l' w' r; cbn [close_groups].
  - intros [= <- <- <-]. eauto using table_keeps_refl.
  - set (st := match h2_session g with Some s => _ | None => _ end).
    assert (Hst : sessions_ (fst st) = sessions_ w /\ table_keeps w (fst st))
      by (unfold st; destruct (h2_session g); [split; [done|apply close_keeps]|split; [done|apply table_keeps_refl]]).
    destruct st as [w1 [u|e]]; cbn [fst] in Hst; destruct Hst as [Hs1 Ht1].
    2: { intros [= <- <- <-]. split; [apply shrunk_all|done]. }
    destruct (close_idle res (h1_idle g) w1) as [[idle w2] [u2|e2]] eqn:Ei;
      destruct (close_idle_spec _ _ _ _ _ _ Ei) as (Hi & Hs2 & Ht2 & _).
    2: { intros [= <- <- <-]. split; [|split; [congruence|by eapply table_keeps_trans]].
         constructor; [split; [done|]; split; [by left|done]|apply shrunk_all]. }
    destruct (close_groups res l w2) as [[r2 w3] res3] eqn:Eg. intros [= <- <- <-].
    destruct (IH _ _ _ _ Eg) as (Hf & Hs3 & Ht3).
    split; [constructor; [split; [done|]; split; [by left|done]|done]|].
    split; [congruence|]. eauto using table_keeps_trans.
Qed.

Lemma shrunk_sorted l l' : Forall2 shrunk l l' -> sorted l -> sorted l'.
Proof.
  induction 1 as [|[k g] [k' g'] l l' [E _] Hl IH]; [done|]. cbn in E. subst k'. intros [Ha Hs].
  split; [|by apply IH]. clear -Ha Hl. unfold above in *. induction Hl as [|p q l l' [E _] _ IH]; [done|].
  inversion_clear Ha. constructor; [by rewrite E|by apply IH].
Qed.

Lemma shrunk_idle l l' : Forall2 shrunk l l' -> idle_of l' ⊆+ idle_of l.
Proof.
  induction 1 as [|p q l l' (_ & _ & Hi) _ IH]; [done|]. by apply submseteq_app.
Qed.

Lemma shrunk_groups w l l' :
  Forall2 shrunk l l' -> (forall p, p ∈ l -> group_ok w (fst p) (snd p)) ->
  forall p, p ∈ l' -> group_ok w (fst p) (snd p).
Proof.
  induction 1 as [|p q l l' (E & Hh & Hi) _ IH]; intros Hg; [done|].
  intros p' [->|Hp]%elem_of_cons; [|apply IH; [intros; apply Hg; by right|done]].
  destruct q as [k [h2 idle]]. cbn in *. subst k. apply (group_ok_sub w _ (snd p)); [apply Hg; left|done|done].
Qed.

Lemma close_async_ok busy res w w' r :
  pool_ok busy w -> close_async res w = (w', r) -> pool_ok busy w' /\ table_keeps w w'.
Proof.
  intros W. unfold close_async. destruct (close_groups res (sessions_ w) w) as [[l w1] res1] eqn:E.
  destruct (close_groups_spec _ _ _ _ _ _ E) as (Hf & Hs & Ht). destruct W as [H1 H2 H3].
  destruct res1 as [u|e]; intros [= <- <-]; (split; [|exact Ht]).
  - constructor; [done| |intros p Hp; by apply not_elem_of_nil in Hp].
    revert H2. apply NoDup_sub. cbn. by apply submseteq_inserts_l.
  - constructor; cbn [sessions_].
    + by eapply shrunk_sorted.
    + revert H2. apply NoDup_sub. apply submseteq_skips_r. by apply shrunk_idle.
    + intros p Hp. apply (group_ok_table w); [exact Ht|]. by eapply shrunk_groups.
Qed.

(** ** Requests of a client

    Any number of [HttpClient::request] calls share a pool.  A call holds the
    session it acquired until the body of its response was read or it failed;
    calls waiting for a connection have found none in the pool.  They keep a
    reference to their group, so [close_async] is a step of the system only
    while no call waits for a connection. *)

Record client := MkClient {
  cw : World;
  holders : list (Z * SessionKey);
  connecting : list SessionKey
}.

Inductive client_step : client -> client -> Prop :=
| step_pooled c key w' s :
    acquire_pooled key (cw c) = (w', Some s) ->
    client_step c (MkClient w' ((s, key) :: holders c) (connecting c))
| step_miss c key w' :
    acquire_pooled key (cw c) = (w', None) ->
    client_step c (MkClient w' (holders c) (key :: connecting c))
| step_connected c c1 key c2 s v :
    connecting c = c1 ++ key :: c2 -> table (cw c) !! s = None ->
    client_step c (MkClient
      (acquire_connected key s (MkWorld (sessions_ (cw c)) (<[s := MkSession key v true]> (table (cw c)))))
      ((s, key) :: holders c) (c1 ++ c2))
| step_connect_failed c c1 key c2 :
    connecting c = c1 ++ key :: c2 -> client_step c (MkClient (cw c) (holders c) (c1 ++ c2))
| step_consumed c h1 s key h2 success :
    holders c = h1 ++ (s, key) :: h2 -> is_h1 (version_of (cw c) s) = true ->
    client_step c (MkClient (body_consumed_hook key (Some s) success (cw c)) (h1 ++ h2) (connecting c))
| step_dropped c h1 s key h2 :
    holders c = h1 ++ (s, key) :: h2 ->
    client_step c (MkClient (cw c) (h1 ++ h2) (connecting c))
| step_peer_closed c s :
    client_step c (MkClient (close s (cw c)) (holders c) (connecting c))
| step_close_all c res w' r :
    connecting c = [] ->
    close_async res (cw c) = (w', r) -> client_step c (MkClient w' (holders c) (connecting c)).

Definition busy (w : World) (hs : list (Z * SessionKey)) : list Z :=
  List.filter (fun s => is_h1 (version_of w s)) (fst <$> hs).

(** A held session is the one of its key. *)
Definition holder_ok (w : World) (h : Z * SessionKey) : Prop :=
  exists e, table w !! fst h = Some e /\ key_eqv (snd h) (s_key e).

Definition client_inv (c : client) : Prop :=
  pool_ok (busy (cw c) (holders c)) (cw c) /\ Forall (holder_ok (cw c)) (holders c).

Lemma holder_ok_keeps w w' h : table_keeps w w' -> holder_ok w h -> holder_ok w' h.
Proof.
  intros Ht (e & He & Hk). destruct (Ht _ _ He) as (e' & ? & _ & Ek). exists e'. by rewrite Ek.
Qed.

Lemma version_keeps w w' s e : table_keeps w w' -> table w !! s = Some e -> version_of w' s = version_of w s.
Proof. intros Ht He. destruct (Ht _ _ He) as (e' & He' & Ev & _). unfold version_of. by rewrite He, He'. Qed.

Lemma busy_keeps w w' hs : table_keeps w w' -> Forall (holder_ok w) hs -> busy w' hs = busy w hs.
Proof.
  intros Ht. unfold busy. induction 1 as [|h hs (e & He & _) _ IH]; [done|].
  cbn [fmap list_fmap List.filter]. by rewrite (version_keeps w w' _ e), IH.
Qed.

Lemma busy_middle w h1 s k h2 :
  busy w (h1 ++ (s, k) :: h2) ≡ₚ (if is_h1 (version_of w s) then [s] else []) ++ busy w (h1 ++ h2).
Proof.
  unfold busy. rewrite !fmap_app, !List.filter_app. cbn [fmap list_fmap List.filter fst].
  destruct (is_h1 (version_of w s)); [|done]. by rewrite <- Permutation_middle.
Qed.

Lemma pool_ok_sub b b' w : b' ⊆+ b -> pool_ok b w -> pool_ok b' w.
Proof.
  intros Hb [H1 H2 H3]. constructor; [done| |done]. revert H2. apply NoDup_sub.
  by apply submseteq_skips_l, fmap_submseteq.
Qed.

(** A change of the world that keeps the table, with its holders. *)
Lemma client_inv_keeps c w' hs cs :
  client_inv c -> table_keeps (cw c) w' -> hs ⊆+ holders c ->
  pool_ok (busy (cw c) hs) w' -> client_inv (MkClient w' hs cs).
Proof.
  intros [_ Hh] Ht Hsub Hp.
  assert (Hhs : Forall (holder_ok (cw c)) hs).
  { rewrite Forall_forall in *. intros h Hin. apply Hh. by eapply elem_of_submseteq. }
  split; cbn [cw holders]; [by rewrite (busy_keeps (cw c))|].
  eapply Forall_impl; [exact Hhs|]. intros h. by apply holder_ok_keeps.
Qed.

Lemma submseteq_middle {A} (a : list A) x b : a ++ b ⊆+ a ++ x :: b.
Proof. apply submseteq_skips_l. by apply submseteq_cons. Qed.

Lemma release_keeps key s w : table_keeps w (release_h1_session key (Some s) w).
Proof.
  unfold release_h1_session. repeat case_match; try apply table_keeps_refl.
  - exact (table_keeps_refl w).
  - exact (close_keeps s (set_group key (group_get key (sessions_ w)) w)).
Qed.

(** One more holder. *)
Lemma client_inv_add c w' s key e cs :
  client_inv c -> table_keeps (cw c) w' -> table w' !! s = Some e -> key_eqv key (s_key e) ->
  pool_ok (if is_h1 (s_version e) then s :: busy (cw c) (holders c) else busy (cw c) (holders c)) w' ->
  client_inv (MkClient w' ((s, key) :: holders c) cs).
Proof.
  intros [_ Hh] Ht He Hk Hp. split; cbn [cw holders].
  - unfold busy in *. cbn [fmap list_fmap List.filter fst].
    fold (busy w' (holders c)). unfold version_of at 1. rewrite He. rewrite (busy_keeps (cw c)) by done.
    unfold busy. by destruct (is_h1 (s_version e)).
  - constructor; [by exists e|]. eapply Forall_impl; [exact Hh|]. intros h. by apply holder_ok_keeps.
Qed.

Lemma client_step_inv c c' : client_inv c -> client_step c c' -> client_inv c'.
Proof.
  intros I Hs. pose proof I as [Hp Hh].
  destruct Hs as [c key w' s Ha|c key w' Ha|c c1 key c2 s v Hc Hf|c c1 key c2 Hc|c h1 s key h2 success Eh Hv
    |c h1 s key h2 Eh|c s|c res w' r Hn Ha].
  - destruct (acquire_pooled_ok _ _ _ _ _ Hp Ha) as (Et & e & He & Hk & _ & Hp').
    apply (client_inv_add c w' s key e); try done; [|by rewrite Et].
    intros s' e' He'. rewrite Et. by exists e'.
  - destruct (acquire_pooled_ok _ _ _ _ _ Hp Ha) as (Et & Hp').
    apply (client_inv_keeps c); try done. intros s' e' He'. rewrite Et. by exists e'.
  - set (w1 := MkWorld (sessions_ (cw c)) (<[s := MkSession key v true]> (table (cw c)))).
    assert (Et : table (acquire_connected key s w1) = table w1)
      by (unfold acquire_connected; by destruct (is_h2 _)).
    apply (client_inv_add c _ s key (MkSession key v true)); [done| | |apply key_eqv_refl|].
    + intros s' e' He'. rewrite Et. cbn. rewrite lookup_insert_ne by congruence. by exists e'.
    + rewrite Et. cbn. apply lookup_insert_eq.
    + apply connected_ok; [done|done|]. intros x Hx. unfold busy in Hx.
      apply list_elem_of_In, filter_In in Hx as [Hx _].
      apply list_elem_of_In, list_elem_of_fmap in Hx as (h & -> & Hin).
      rewrite Forall_forall in Hh. destruct (Hh h Hin) as (e & -> & _). done.
  - done.
  - rewrite Eh in Hh. apply Forall_app in Hh as [_ Hh]. inversion_clear Hh as [|? ? (e & He & Hk) _].
    assert (Hb : pool_ok (s :: busy (cw c) (h1 ++ h2)) (cw c)).
    { revert Hp. apply pool_ok_sub. rewrite Eh, busy_middle, Hv. done. }
    unfold version_of in Hv. cbn [fst snd] in *. rewrite He in Hv.
    assert (Hsub : h1 ++ h2 ⊆+ holders c) by (rewrite Eh; apply submseteq_middle).
    destruct success; cbn [body_consumed_hook].
    + apply (client_inv_keeps c); [done|apply release_keeps|done|by apply (release_ok _ _ _ _ e)].
    + apply (client_inv_keeps c); [done|apply close_keeps|done|]. apply close_ok. revert Hb.
      apply pool_ok_sub. by apply submseteq_cons.
  - apply (client_inv_keeps c); [done|apply table_keeps_refl|rewrite Eh; apply submseteq_middle|].
    revert Hp. apply pool_ok_sub. rewrite Eh, busy_middle. by apply submseteq_inserts_l.
  - apply (client_inv_keeps c); [done|apply close_keeps|done|by apply close_ok].
  - destruct (close_async_ok _ _ _ _ _ Hp Ha) as [Hp' Ht]. by apply (client_inv_keeps c).
Qed.

Definition client_start : client := MkClient (MkWorld [] ∅) [] [].

Lemma client_reachable_inv c : rtc client_step client_start c -> client_inv c.
Proof.
  intros Hs. assert (I : client_inv client_start).
  { split; [|constructor]. constructor; [done|constructor|]. intros p Hp. by apply not_elem_of_nil in Hp. }
  revert I. induction Hs as [|x y z Hxy _ IH]; [done|]. intros I. apply IH. by eapply client_step_inv.
Qed.

(** C4: The held HTTP/1.x sessions are all different, no held HTTP/1.x session is
    idle in the pool under any key, and no key has more than 100 idle sessions. *)
Theorem h1_sessions_exclusive c :
  rtc client_step client_start c ->
  NoDup (busy (cw c) (holders c)) /\
  (forall key s, s ∈ busy (cw c) (holders c) -> Some s ∉ h1_idle (group_get key (sessions_ (cw c)))) /\
  (forall key, (length (h1_idle (group_get key (sessions_ (cw c)))) <= 100)%nat).
Proof.
  intros [Hp _]%client_reachable_inv. pose proof (po_nodup _ _ Hp) as Hn.
  apply NoDup_app in Hn as (_ & Hd & Hb). split; [by apply NoDup_fmap_1 in Hb|]. split.
  - intros key s Hs Hi. apply (Hd (Some s)); [|by apply list_elem_of_fmap_2].
    destruct (group_get_in key _ (po_sorted _ _ Hp)) as [(k & Hin & _)|E].
    + unfold idle_of. apply list_elem_of_In, in_concat. eexists. split; [|by apply list_elem_of_In].
      apply list_elem_of_In, list_elem_of_fmap. by eexists (_, _).
    + rewrite E in Hi. by apply not_elem_of_nil in Hi.
  - intros key. apply (group_get_ok _ _ key Hp).
Qed.

(** C31: A session in use was connected for an equal key, and so were the sessions
    the pool keeps for a key; only its HTTP/2 session speaks HTTP/2. *)
Theorem sessions_match_key c :
  rtc client_step client_start c ->
  (forall s key, (s, key) ∈ holders c ->
     exists e, table (cw c) !! s = Some e /\ key_eqb key (s_key e) = true) /\
  (forall key s, Some s ∈ h1_idle (group_get key (sessions_ (cw c))) ->
     exists e, table (cw c) !! s = Some e /\ key_eqb key (s_key e) = true /\ is_h1 (s_version e) = true) /\
  (forall key s, h2_session (group_get key (sessions_ (cw c))) = Some s ->
     exists e, table (cw c) !! s = Some e /\ key_eqb key (s_key e) = true /\ is_h2 (s_version e) = true).
Proof.
  assert (Hk : forall a b, key_eqv a b -> key_eqb a b = true).
  { intros a b E. apply (cl_eq _ _ cmp_key_laws) in E. unfold key_eqb. by rewrite E. }
  intros [Hp Hh]%client_reachable_inv. split; [|split].
  - intros s key Hin. rewrite Forall_forall in Hh. destruct (Hh _ Hin) as (e & He & E). eauto.
  - intros key s Hin. destruct (group_get_ok _ _ key Hp) as (_ & Hi & _).
    destruct (Hi _ Hin) as (s' & e & [= <-] & He & Hv & E). eauto 6.
  - intros key s Hin. destruct (group_get_ok _ _ key Hp) as (_ & _ & Hi).
    destruct (Hi _ Hin) as (e & He & Hv & E). eauto 6.
Qed.

(** ** A connection *)

Lemma bind_ok {A B} (t : task A) (f : A -> task B) tr b :
  bind t f = (tr, Returns (Ok b)) ->
  exists a t1 t2, t = (t1, Returns (Ok a)) /\ f a = (t2, Returns (Ok b)) /\ tr = t1 ++ t2.
Proof.
  destruct t as [t1 [[a|e]|]]; cbn; [|done|done]. destruct (f a) as [t2 o] eqn:E.
  intros [= <- ->]. eauto 7.
Qed.

Ltac bind_inv :=
  repeat match goal with
  | H : bind _ _ = (_, Returns (Ok _)) |- _ => apply bind_ok in H as (? & ? & ? & ? & ? & ?)
  end;
  unfold perform, lift, ret, fail in *; simplify_eq.

Lemma make_proxy_stream_ok net junk target p tr s :
  make_proxy_stream net junk target p = (tr, Returns (Ok s)) ->
  exists addr req, resolve_first net (px_host p) (px_port p) = Ok addr /\ tcp_connect net addr 0 = Ok s /\
    connect_request junk target p = Some req /\ h1_request net s req = Ok 200 /\
    tr = [Resolve (px_host p) (px_port p); Connect addr 0; SendRequest s req].
Proof.
  unfold make_proxy_stream. intros H. bind_inv.
  destruct (connect_request junk target p) as [req|]; [|done]. bind_inv.
  case_match eqn:Ec; simplify_eq. apply Z.eqb_eq in Ec as ->. eauto 8.
Qed.

(** A connection comes about in one way.  Without a proxy the host of the key
    is resolved and connected to; with a proxy only the proxy is, and the
    stream is used after the proxy answered a CONNECT request with 200.  TLS is
    then negotiated for the host of the key if the key asks for it, and HTTP/2
    is spoken exactly when that chose it. *)
Theorem session_connect_route net junk key timeout_ms has_ctx tr s tls v :
  session_connect net junk key timeout_ms has_ctx = (tr, Returns (Ok (s, tls, v))) ->
  tls = key_ssl key /\
  (v = HTTP_2 <-> tls = true /\ tls_connect net s (key_host key) = Ok true) /\
  (v <> HTTP_2 -> v = HTTP_11) /\
  exists addr pre, tr = pre ++ (if tls then [TlsHandshake s (key_host key)] else []) /\
  match key_proxy key with
  | None =>
      resolve_first net (key_host key) (key_port key) = Ok addr /\ tcp_connect net addr timeout_ms = Ok s /\
      pre = [Resolve (key_host key) (key_port key); Connect addr timeout_ms]
  | Some p =>
      exists target req, Url.parse (bs "http://" ++ key_host key ++ bs ":" ++ to_string_int (key_port key)) = Ok target /\
      resolve_first net (px_host p) (px_port p) = Ok addr /\ tcp_connect net addr 0 = Ok s /\
      connect_request junk target p = Some req /\ h1_request net s req = Ok 200 /\
      pre = [Resolve (px_host p) (px_port p); Connect addr 0; SendRequest s req]
  end.
Proof.
  unfold session_connect. intros H. bind_inv.
  assert (Htls : x = s /\ tls = key_ssl key /\
    (v = HTTP_2 <-> tls = true /\ tls_connect net s (key_host key) = Ok true) /\ (v <> HTTP_2 -> v = HTTP_11) /\
    x1 = (if tls then [TlsHandshake s (key_host key)] else [])).
  { destruct (key_ssl key); bind_inv; [|naive_solver]. destruct has_ctx; bind_inv;
      match goal with E : tls_connect _ _ _ = Ok ?b |- _ => rewrite E; destruct b end; clear; naive_solver. }
  destruct Htls as (-> & -> & H1 & H2 & ->). split; [done|]. split; [done|]. split; [done|].
  destruct (key_proxy key) as [p|]; bind_inv; [|eauto 8].
  match goal with H : make_proxy_stream _ _ _ _ = _ |- _ =>
    apply make_proxy_stream_ok in H as (addr & req & ? & ? & ? & ? & ->) end.
  exists addr. eexists. split; [done|]. eauto 10.
Qed.

(** ** Witnesses *)

Definition sample_key : SessionKey := MkKey (bs "h") 80 false None.

(** The second request of a client on the connection of the first one. *)
Definition sample_client : client :=
  MkClient (MkWorld [(sample_key, MkGroup None [])] {[1 := MkSession sample_key HTTP_11 true]}) [(1, sample_key)] [].

Lemma sample_client_reachable : rtc client_step client_start sample_client.
Proof.
  eapply rtc_l; [eapply (step_miss _ sample_key); reflexivity|vm_compute].
  eapply rtc_l; [apply (step_connected _ [] sample_key [] 1 HTTP_11); reflexivity|vm_compute].
  eapply rtc_l; [apply (step_consumed _ [] 1 sample_key [] true); reflexivity|vm_compute].
  eapply rtc_l; [eapply (step_pooled _ sample_key); reflexivity|vm_compute].
  apply rtc_refl.
Qed.

(** Witness of C4. *)
Lemma h1_sessions_exclusive_witness :
  busy (cw sample_client) (holders sample_client) = [1] /\
  Some 1 ∉ h1_idle (group_get sample_key (sessions_ (cw sample_client))).
Proof.
  pose proof (h1_sessions_exclusive sample_client sample_client_reachable) as (_ & H & _).
  split; [reflexivity|]. apply H. vm_compute. left.
Defined.

(** Witness of C31. *)
Lemma sessions_match_key_witness :
  exists e, table (cw sample_client) !! 1 = Some e /\ key_eqb sample_key (s_key e) = true.
Proof.
  destruct (sessions_match_key sample_client sample_client_reachable) as (H & _). apply H. left.
Defined.

Definition sample_net : Net :=
  MkNet (fun _ p => Ok p) (fun a _ => Ok (a + 1)) (fun _ _ => Ok 200) (Ok tt) (fun _ _ => Ok true).

Definition sample_proxied : SessionKey :=
  MkKey (bs "h") 443 true (Some (MkProxy (bs "p") 8080 None [])).

(** An instance. *)
Lemma session_connect_route_witness :
  let '(tr, o) := session_connect sample_net [] sample_proxied 5 true in
  o = Returns (Ok (8081, true, HTTP_2)) /\
  exists pre, tr = pre ++ [TlsHandshake 8081 (bs "h")] /\ pre !! 0%nat = Some (Resolve (bs "p") 8080).
Proof.
  destruct (session_connect sample_net [] sample_proxied 5 true) as [tr o] eqn:E.
  assert (Ho : o = Returns (Ok (8081, true, HTTP_2))) by (vm_compute in E; congruence).
  subst o. split; [done|].
  destruct (session_connect_route _ _ _ _ _ _ _ _ _ E) as (_ & _ & _ & addr & pre & -> & H).
  exists pre. split; [done|]. destruct H as (? & ? & _ & _ & _ & _ & _ & ->). done.
Defined.
