(* ===== verification/Http1.v ===== *)
(** ppnt-http: an HTTP/1.x client session.

    [src/ppnt-http/src/http1.ixx] ([Http1Session]).  The parser llhttp is a
    function from its state and a chunk to the callbacks it makes, in order,
    and whether it accepted the chunk; the connection is the list of what its
    reads give, an empty chunk being the end of the stream. *)

From S2P Require Import Prelude Util Url Binary HttpTypes.
From stdpp Require Import strings.

Local Open Scope Z_scope.

(** ** The callbacks *)

Record HttpStatus := MkStatus { code : Z; message : bytes }.

Record HeadParts := MkHead { status : HttpStatus; head_headers : HttpHeaderList }.

(** [to_string] of a status and of a response. *)
Definition status_to_string (st : HttpStatus) : bytes := to_string_int (code st) ++ bs " " ++ message st.
Definition response_to_string (h : HeadParts) : bytes :=
  status_to_string (status h) ++ [10] ++ concat ((fun h => name h ++ bs ": " ++ value h ++ [10]) <$> head_headers h).

Definition HeadParts_default : HeadParts := MkHead (MkStatus 0 []) [].

Record Http1Session := MkH1 {
  body_buffer_ : bytes;
  response_ : HeadParts;
  temp_header_name_ : bytes;
  temp_header_value_ : bytes;
  last_was_value_ : bool;
  headers_complete_ : bool;
  message_complete_ : bool
}.

(** [reset_state], which also is the state after [init]. *)
Definition reset_state : Http1Session := MkH1 [] HeadParts_default [] [] false false false.

Definition commit_header (s : Http1Session) : Http1Session :=
  match temp_header_name_ s with
  | [] => s
  | n => MkH1 (body_buffer_ s)
           (MkHead (status (response_ s)) (add n (temp_header_value_ s) (head_headers (response_ s))))
           [] [] (last_was_value_ s) (headers_complete_ s) (message_complete_ s)
  end.

Inductive event :=
| MessageBegin
| Status (status_code : Z) (at_ : bytes)
| HeaderField (at_ : bytes)
| HeaderValue (at_ : bytes)
| HeadersComplete
| Body (at_ : bytes)
| MessageComplete.

Definition on_status (c : Z) (m : bytes) (s : Http1Session) : Http1Session :=
  MkH1 (body_buffer_ s) (MkHead (MkStatus c m) (head_headers (response_ s))) (temp_header_name_ s)
    (temp_header_value_ s) (last_was_value_ s) (headers_complete_ s) (message_complete_ s).

Definition on_header_field (b : bytes) (s : Http1Session) : Http1Session :=
  let s := if last_was_value_ s then
             let s := commit_header s in
             MkH1 (body_buffer_ s) (response_ s) (temp_header_name_ s) (temp_header_value_ s) false
               (headers_complete_ s) (message_complete_ s)
           else s in
  MkH1 (body_buffer_ s) (response_ s) (temp_header_name_ s ++ b) (temp_header_value_ s) (last_was_value_ s)
    (headers_complete_ s) (message_complete_ s).

Definition on_header_value (b : bytes) (s : Http1Session) : Http1Session :=
  MkH1 (body_buffer_ s) (response_ s) (temp_header_name_ s) (temp_header_value_ s ++ b) true
    (headers_complete_ s) (message_complete_ s).

Definition on_headers_complete (s : Http1Session) : Http1Session :=
  let s := if last_was_value_ s then commit_header s else s in
  MkH1 (body_buffer_ s) (response_ s) (temp_header_name_ s) (temp_header_value_ s) (last_was_value_ s) true
    (message_complete_ s).

Definition on_body (b : bytes) (s : Http1Session) : Http1Session :=
  MkH1 (body_buffer_ s ++ b) (response_ s) (temp_header_name_ s) (temp_header_value_ s) (last_was_value_ s)
    (headers_complete_ s) (message_complete_ s).

Definition on_message_complete (s : Http1Session) : Http1Session :=
  MkH1 (body_buffer_ s) (response_ s) (temp_header_name_ s) (temp_header_value_ s) (last_was_value_ s)
    (headers_complete_ s) true.

Definition on_event (s : Http1Session) (e : event) : Http1Session :=
  match e with
  | MessageBegin => s
  | Status c m => on_status c m s
  | HeaderField b => on_header_field b s
  | HeaderValue b => on_header_value b s
  | HeadersComplete => on_headers_complete s
  | Body b => on_body b s
  | MessageComplete => on_message_complete s
  end.

(** ** Requests and bodies *)

(** How a call ends; [Blocked] waits for a read that has no result yet. *)
Inductive ended (S A : Type) := Ended (s : S) (reads : list (Result bytes)) (r : Result A) | Blocked.
Arguments Ended {S A}.
Arguments Blocked {S A}.

Section Session.
Context {P : Type} (execute : P -> bytes -> P * list event * bool) (parser_reset : P -> P).

Fixpoint read_headers (reads : list (Result bytes)) (p : P) (s : Http1Session) : ended (P * Http1Session) HeadParts :=
  if headers_complete_ s then Ended (p, s) reads (Ok (response_ s)) else
  match reads with
  | [] => Blocked
  | Err e :: reads => Ended (p, s) reads (Err e)
  | Ok [] :: reads => Ended (p, s) reads (Ok (response_ s))
  | Ok chunk :: reads =>
      let '(p, evs, ok) := execute p chunk in
      let s := fold_left on_event evs s in
      if ok then read_headers reads p s
      else Ended (p, s) reads (make_err_result bad_message "http1 request")
  end.

(** The response moves out of the session. *)
Definition move_response (s : Http1Session) : Http1Session :=
  MkH1 (body_buffer_ s) HeadParts_default (temp_header_name_ s) (temp_header_value_ s) (last_was_value_ s)
    (headers_complete_ s) (message_complete_ s).

(** [write_res] is the result of writing the request's text. *)
Definition request (write_res : bytes -> Result Z) (req : HttpRequest) (reads : list (Result bytes)) (p : P)
    : ended (P * Http1Session) HeadParts :=
  let p := parser_reset p in
  let s := reset_state in
  match write_res (serialize_to_h1 req) with
  | Err e => Ended (p, s) reads (Err e)
  | Ok _ =>
      match read_headers reads p s with
      | Ended (p, s) reads (Ok r) => Ended (p, move_response s) reads (Ok r)
      | x => x
      end
  end.

Fixpoint body_full (reads : list (Result bytes)) (p : P) (s : Http1Session) : ended (P * Http1Session) bytes :=
  let finish reads :=
    Ended (p, MkH1 [] (response_ s) (temp_header_name_ s) (temp_header_value_ s) (last_was_value_ s)
                (headers_complete_ s) (message_complete_ s)) reads (Ok (body_buffer_ s)) in
  if message_complete_ s then finish reads else
  match reads with
  | [] => Blocked
  | Err e :: reads => Ended (p, s) reads (Err e)
  | Ok [] :: reads => finish reads
  | Ok chunk :: reads =>
      let '(p, evs, ok) := execute p chunk in
      let s := fold_left on_event evs s in
      if ok then body_full reads p s
      else Ended (p, s) reads (make_err_result bad_message "http1 body")
  end.

(** What the parser makes of a list of chunks: its events and its last state,
    if it accepts them all. *)
Fixpoint parse_chunks (p : P) (chunks : list bytes) : option (list (list event) * P) :=
  match chunks with
  | [] => Some ([], p)
  | c :: chunks =>
      let '(p, evs, ok) := execute p c in
      if ok : bool then '(r, p) ← parse_chunks p chunks; Some (evs :: r, p) else None
  end.
End Session.

(** ** Messages and their callbacks *)

Definition is_hc (e : event) : bool := match e with HeadersComplete => true | _ => false end.
Definition is_mc (e : event) : bool := match e with MessageComplete => true | _ => false end.
Definition body_of (e : event) : bytes := match e with Body b => b | _ => [] end.

(** The callbacks for one span of bytes, cut anywhere. *)
Inductive pieces (mk : bytes -> event) : bytes -> list event -> Prop :=
| piece_last b : pieces mk b [mk b]
| piece_more a b evs : pieces mk b evs -> pieces mk (a ++ b) (mk a :: evs).

Inductive header_events : HttpHeaderList -> list event -> Prop :=
| header_events_nil : header_events [] []
| header_events_cons h hs es1 es2 es3 :
    name h <> [] -> pieces HeaderField (name h) es1 -> pieces HeaderValue (value h) es2 -> header_events hs es3 ->
    header_events (h :: hs) (es1 ++ es2 ++ es3).

Inductive body_events : bytes -> list event -> Prop :=
| body_events_nil : body_events [] []
| body_events_cons a b es : body_events b es -> body_events (a ++ b) (Body a :: es).

(** The callbacks for a whole response whose end the parser finds in its bytes and
    that has no trailers.  The reason phrase comes in any number of pieces [spans],
    also in none. *)
Inductive message_events (st : HttpStatus) (spans : list bytes) (hs : HttpHeaderList) (b : bytes) : list event -> Prop :=
| MessageEvents es1 es2 :
    concat spans = message st -> header_events hs es1 -> body_events b es2 ->
    message_events st spans hs b
      (MessageBegin :: (Status (code st) <$> spans) ++ es1 ++ HeadersComplete :: es2 ++ [MessageComplete]).

(** What [on_status] leaves: the status code with the last piece alone, and the
    default status if it was not called. *)
Definition kept_status (c : Z) (spans : list bytes) : HttpStatus :=
  match last spans with Some m => MkStatus c m | None => status HeadParts_default end.

Lemma status_run c spans s :
  fold_left on_event (Status c <$> spans) s =
  MkH1 (body_buffer_ s)
    (MkHead (match last spans with Some m => MkStatus c m | None => status (response_ s) end) (head_headers (response_ s)))
    (temp_header_name_ s) (temp_header_value_ s) (last_was_value_ s) (headers_complete_ s) (message_complete_ s).
Proof.
  revert s. induction spans as [|m spans IH]; intros s; [by destruct s as [? [? ?] ? ? ? ? ?]|].
  cbn [fmap list_fmap fold_left on_event]. rewrite last_cons. etransitivity; [apply IH|]. by destruct (last spans).
Qed.

Lemma status_events_plain c spans :
  existsb is_hc (Status c <$> spans) = false /\ existsb is_mc (Status c <$> spans) = false /\
  concat (body_of <$> (Status c <$> spans)) = [].
Proof. induction spans as [|m spans IH]; [done|exact IH]. Qed.

Lemma field_pieces n evs s :
  pieces HeaderField n evs -> last_was_value_ s = false ->
  fold_left on_event evs s =
  MkH1 (body_buffer_ s) (response_ s) (temp_header_name_ s ++ n) (temp_header_value_ s) false
    (headers_complete_ s) (message_complete_ s).
Proof.
  intros Hp. revert s. induction Hp as [b|a b evs _ IH]; intros s Hl.
  - cbn [fold_left on_event]. unfold on_header_field. rewrite Hl. cbn. by rewrite Hl.
  - cbn [fold_left on_event]. rewrite IH; unfold on_header_field; rewrite Hl; cbn; [|done]. by rewrite <- app_assoc.
Qed.

Lemma value_pieces v evs s :
  pieces HeaderValue v evs ->
  fold_left on_event evs s =
  MkH1 (body_buffer_ s) (response_ s) (temp_header_name_ s) (temp_header_value_ s ++ v) true
    (headers_complete_ s) (message_complete_ s).
Proof.
  intros Hp. revert s. induction Hp as [b|a b evs _ IH]; intros s; [done|].
  cbn [fold_left on_event]. rewrite IH. cbn. by rewrite <- app_assoc.
Qed.

(** A header whose value was seen is as good as committed. *)
Definition settle (s : Http1Session) : Http1Session :=
  let s := if last_was_value_ s then commit_header s else s in
  MkH1 (body_buffer_ s) (response_ s) (temp_header_name_ s) (temp_header_value_ s) false
    (headers_complete_ s) (message_complete_ s).

Definition with_headers (hs : HttpHeaderList) (s : Http1Session) : Http1Session :=
  MkH1 (body_buffer_ s) (MkHead (status (response_ s)) (head_headers (response_ s) ++ hs)) (temp_header_name_ s)
    (temp_header_value_ s) (last_was_value_ s) (headers_complete_ s) (message_complete_ s).

Lemma field_settle b s : on_header_field b s = on_header_field b (settle s).
Proof. unfold on_header_field, settle. by destruct (last_was_value_ s) eqn:E; cbn; rewrite ?E. Qed.

Lemma settle_settled s : last_was_value_ (settle s) = false.
Proof. done. Qed.

Lemma one_header n v es1 es2 s :
  n <> [] -> pieces HeaderField n es1 -> pieces HeaderValue v es2 ->
  temp_header_name_ (settle s) = [] -> temp_header_value_ (settle s) = [] ->
  settle (fold_left on_event (es1 ++ es2) s) = with_headers [MkHeader n v] (settle s).
Proof.
  intros Hn H1 H2 E1 E2. rewrite fold_left_app, (value_pieces v) by done.
  assert (E : fold_left on_event es1 s = fold_left on_event es1 (settle s)).
  { inversion H1; cbn [fold_left on_event]; by rewrite field_settle. }
  rewrite E, (field_pieces n) by done. cbn [temp_header_name_ temp_header_value_ body_buffer_ response_
    headers_complete_ message_complete_]. rewrite E1, E2. destruct n as [|x n]; [done|].
  pose proof (settle_settled s) as E3. clear E. destruct (settle s) as [bb [st hd] tn tv lw hc mc].
  cbn in E1, E2, E3 |- *. by subst.
Qed.

Lemma header_run hs evs s :
  header_events hs evs -> temp_header_name_ (settle s) = [] -> temp_header_value_ (settle s) = [] ->
  settle (fold_left on_event evs s) = with_headers hs (settle s).
Proof.
  intros Hh. revert s. induction Hh as [|h hs es1 es2 es3 Hn H1 H2 _ IH]; intros s E1 E2.
  - cbn. unfold with_headers. rewrite app_nil_r. by destruct (settle s) as [? [? ?] ? ? ? ? ?].
  - rewrite app_assoc, fold_left_app. pose proof (one_header _ _ _ _ s Hn H1 H2 E1 E2) as E.
    rewrite IH; rewrite E; [|done|done]. unfold with_headers. cbn. rewrite <- app_assoc. by destruct h.
Qed.

Lemma body_run b evs s :
  body_events b evs ->
  fold_left on_event evs s =
  MkH1 (body_buffer_ s ++ b) (response_ s) (temp_header_name_ s) (temp_header_value_ s) (last_was_value_ s)
    (headers_complete_ s) (message_complete_ s).
Proof.
  intros Hb. revert s. induction Hb as [|a b evs _ IH]; intros s; cbn [fold_left on_event].
  - rewrite app_nil_r. by destruct s.
  - rewrite IH. cbn. by rewrite <- app_assoc.
Qed.

(** ** What a list of callbacks leaves in the session *)

Definition body_phase (e : event) : Prop := match e with Body _ | MessageComplete => True | _ => False end.

Lemma commit_header_keeps s :
  body_buffer_ (commit_header s) = body_buffer_ s /\ headers_complete_ (commit_header s) = headers_complete_ s /\
  message_complete_ (commit_header s) = message_complete_ s.
Proof. unfold commit_header. by destruct (temp_header_name_ s). Qed.

Lemma events_effect es s :
  body_buffer_ (fold_left on_event es s) = body_buffer_ s ++ concat (body_of <$> es) /\
  headers_complete_ (fold_left on_event es s) = headers_complete_ s || existsb is_hc es /\
  message_complete_ (fold_left on_event es s) = message_complete_ s || existsb is_mc es.
Proof.
  revert s. induction es as [|e es IH]; intros s; cbn [fold_left fmap list_fmap concat existsb].
  - by rewrite app_nil_r, !orb_false_r.
  - destruct (IH (on_event s e)) as (-> & -> & ->). destruct (commit_header_keeps s) as (E1 & E2 & E3).
    rewrite !app_assoc, !orb_assoc. clear IH.
    destruct e; cbn; unfold on_header_field, on_headers_complete; destruct (last_was_value_ s); cbn;
      rewrite ?E1, ?E2, ?E3, ?app_nil_r, ?orb_false_r, ?orb_true_r; done.
Qed.

Lemma body_phase_response es s : Forall body_phase es -> response_ (fold_left on_event es s) = response_ s.
Proof. intros H. revert s. induction H as [|e es He _ IH]; intros s; [done|]. cbn. rewrite IH. by destruct e. Qed.

Lemma pieces_plain mk b es :
  (forall a, is_hc (mk a) = false /\ is_mc (mk a) = false /\ body_of (mk a) = []) -> pieces mk b es ->
  existsb is_hc es = false /\ existsb is_mc es = false /\ concat (body_of <$> es) = [].
Proof.
  intros Hmk. induction 1 as [b|a b es _ (I1 & I2 & I3)]; cbn.
  - destruct (Hmk b) as (-> & -> & ->). done.
  - destruct (Hmk a) as (-> & -> & ->). done.
Qed.

Lemma header_events_plain hs es :
  header_events hs es -> existsb is_hc es = false /\ existsb is_mc es = false /\ concat (body_of <$> es) = [].
Proof.
  induction 1 as [|h hs es1 es2 es3 _ H1 H2 _ (I1 & I2 & I3)]; [done|].
  destruct (pieces_plain HeaderField _ _ ltac:(done) H1) as (A1 & A2 & A3).
  destruct (pieces_plain HeaderValue _ _ ltac:(done) H2) as (B1 & B2 & B3).
  rewrite !existsb_app, !fmap_app, !concat_app, A1, A2, A3, B1, B2, B3. done.
Qed.

Lemma body_events_plain b es :
  body_events b es -> existsb is_mc es = false /\ concat (body_of <$> es) = b /\ Forall body_phase es.
Proof.
  induction 1 as [|a b es _ (I1 & I2 & I3)]; [done|]. cbn. rewrite I1, I2. split; [done|]. split; [done|by constructor].
Qed.

(** ** The loops *)

Section Loops.
Context {P : Type} (execute : P -> bytes -> P * list event * bool).

Lemma read_headers_chunks chunks p evss p' s :
  parse_chunks execute p chunks = Some (evss, p') -> Forall (fun c => c <> []) chunks ->
  headers_complete_ (fold_left on_event (concat evss) s) = true ->
  exists p1 c2 e1 e2, evss = e1 ++ e2 /\ parse_chunks execute p1 c2 = Some (e2, p') /\ Forall (fun c => c <> []) c2 /\
    headers_complete_ (fold_left on_event (concat e1) s) = true /\
    read_headers execute (Ok <$> chunks) p s =
    Ended (p1, fold_left on_event (concat e1) s) (Ok <$> c2) (Ok (response_ (fold_left on_event (concat e1) s))).
Proof.
  revert p evss s. induction chunks as [|c chunks IH]; intros p evss s Hp Hne Hc.
  - injection Hp as <- <-. cbn in Hc. exists p, [], [], []. cbn. by rewrite Hc.
  - destruct (headers_complete_ s) eqn:Ehc.
    + exists p, (c :: chunks), [], evss. cbn [concat fold_left app fmap list_fmap read_headers]. by rewrite Ehc.
    + cbn [parse_chunks] in Hp. destruct (execute p c) as [[p1 evs] ok] eqn:Ee. destruct ok; [|done].
      destruct (parse_chunks execute p1 chunks) as [[r p2]|] eqn:Er; [|done]. cbn in Hp. injection Hp as <- <-.
      apply Forall_cons in Hne as [Hc0 Hne]. cbn [concat] in Hc. rewrite fold_left_app in Hc.
      destruct (IH _ _ _ Er Hne Hc) as (q & c2 & e1 & e2 & -> & H1 & H2 & H3 & H4).
      exists q, c2, (evs :: e1), e2. cbn [concat fmap list_fmap read_headers]. rewrite fold_left_app, Ehc, Ee.
      destruct c; [done|]. done.
Qed.

Lemma body_full_chunks chunks p evss p' s :
  parse_chunks execute p chunks = Some (evss, p') -> Forall (fun c => c <> []) chunks ->
  message_complete_ (fold_left on_event (concat evss) s) = true ->
  exists st reads e1 e2, evss = e1 ++ e2 /\ message_complete_ (fold_left on_event (concat e1) s) = true /\
    body_full execute (Ok <$> chunks) p s = Ended st reads (Ok (body_buffer_ (fold_left on_event (concat e1) s))).
Proof.
  revert p evss s. induction chunks as [|c chunks IH]; intros p evss s Hp Hne Hc.
  - injection Hp as <- <-. cbn in Hc. eexists _, _, [], []. cbn. by rewrite Hc.
  - destruct (message_complete_ s) eqn:Emc.
    + eexists _, _, [], evss. cbn [concat fold_left app fmap list_fmap body_full]. by rewrite Emc.
    + cbn [parse_chunks] in Hp. destruct (execute p c) as [[p1 evs] ok] eqn:Ee. destruct ok; [|done].
      destruct (parse_chunks execute p1 chunks) as [[r p2]|] eqn:Er; [|done]. cbn in Hp. injection Hp as <- <-.
      apply Forall_cons in Hne as [Hc0 Hne]. cbn [concat] in Hc. rewrite fold_left_app in Hc.
      destruct (IH _ _ _ Er Hne Hc) as (st & reads & e1 & e2 & -> & H3 & H4).
      exists st, reads, (evs :: e1), e2. cbn [concat fmap list_fmap body_full]. rewrite fold_left_app, Emc, Ee.
      destruct c; [done|]. done.
Qed.
End Loops.

Lemma marked_prefix {A} (f : A -> bool) pre x post a r :
  pre ++ x :: post = a ++ r -> existsb f pre = false -> existsb f a = true ->
  exists q, a = pre ++ x :: q /\ post = q ++ r.
Proof.
  revert a. induction pre as [|y pre IH]; intros [|z a] E Hp Ha; cbn in *; try done.
  - injection E as <- ->. by exists a.
  - injection E as <- E. apply orb_false_iff in Hp as [H1 H2]. rewrite H1 in Ha.
    destruct (IH a E H2 Ha) as (q & -> & ->). by exists q.
Qed.

(** The response at the end of the headers. *)
Lemma head_collected c spans hs es1 :
  header_events hs es1 ->
  response_ (fold_left on_event (MessageBegin :: (Status c <$> spans) ++ es1 ++ [HeadersComplete]) reset_state)
  = MkHead (kept_status c spans) hs.
Proof.
  intros Hh. cbn [fold_left on_event]. rewrite fold_left_app, status_run. cbn [reset_state response_ body_buffer_
    temp_header_name_ temp_header_value_ last_was_value_ headers_complete_ message_complete_ HeadParts_default status head_headers].
  rewrite fold_left_app. set (s0 := MkH1 [] _ [] [] false false false).
  pose proof (header_run hs es1 s0 Hh eq_refl eq_refl) as E. cbn [fold_left on_event].
  transitivity (response_ (settle (fold_left on_event es1 s0))).
  - unfold settle, on_headers_complete. by destruct (last_was_value_ _).
  - by rewrite E.
Qed.

(** A request and its body, for any cut of the response's bytes. *)
Lemma exchange_run {P} (execute : P -> bytes -> P * list event * bool) (parser_reset : P -> P)
    write_res req n chunks p evss p' st spans hs b :
  write_res (serialize_to_h1 req) = Ok n ->
  Forall (fun c => c <> []) chunks -> parse_chunks execute (parser_reset p) chunks = Some (evss, p') ->
  message_events st spans hs b (concat evss) ->
  exists p1 s1 reads st2 reads2,
    request execute parser_reset write_res req (Ok <$> chunks) p = Ended (p1, s1) reads (Ok (MkHead (kept_status (code st) spans) hs)) /\
    body_full execute reads p1 s1 = Ended st2 reads2 (Ok b).
Proof.
  intros Hw Hne Hp Hm. inversion Hm as [es1 es2 _ Hh Hb E]. destruct (status_events_plain (code st) spans) as (C1 & C2 & C3).
  destruct (header_events_plain _ _ Hh) as (A1 & A2 & A3). destruct (body_events_plain _ _ Hb) as (B1 & B2 & B3).
  set (pre := MessageBegin :: (Status (code st) <$> spans) ++ es1) in *.
  assert (E' : pre ++ HeadersComplete :: es2 ++ [MessageComplete] = concat evss) by (rewrite <- E; cbn; by rewrite <- app_assoc). clear E.
  assert (Epre : existsb is_hc pre = false) by (unfold pre; cbn; by rewrite existsb_app, C1, A1).
  destruct (read_headers_chunks execute chunks _ _ _ reset_state Hp Hne) as (p1 & c2 & e1 & e2 & -> & Hp2 & Hne2 & Hc & Er).
  { rewrite (proj1 (proj2 (events_effect _ _))), <- E', existsb_app. cbn. by rewrite orb_true_r. }
  rewrite concat_app in E'. rewrite (proj1 (proj2 (events_effect _ _))) in Hc. cbn [headers_complete_ reset_state orb] in Hc.
  destruct (marked_prefix is_hc _ _ _ _ _ E' Epre Hc) as (q & Eq & Epost).
  assert (Hresp : response_ (fold_left on_event (concat e1) reset_state) = MkHead (kept_status (code st) spans) hs).
  { rewrite Eq. change (pre ++ HeadersComplete :: q) with (pre ++ [HeadersComplete] ++ q).
    rewrite app_assoc, fold_left_app, body_phase_response; [unfold pre; rewrite <- app_comm_cons, <- app_assoc; by apply head_collected|].
    assert (Hall : Forall body_phase (q ++ concat e2)) by (rewrite <- Epost; apply Forall_app; split; [done|by repeat constructor]).
    by apply Forall_app in Hall as [? _]. }
  set (s1 := fold_left on_event (concat e1) reset_state) in *.
  assert (Hs1 : body_buffer_ s1 = concat (body_of <$> q) /\ message_complete_ s1 = existsb is_mc q).
  { unfold s1. destruct (events_effect (concat e1) reset_state) as (-> & _ & ->). rewrite Eq, fmap_app, concat_app, existsb_app.
    unfold pre. cbn. by rewrite fmap_app, concat_app, existsb_app, C2, C3, A2, A3. }
  destruct (body_full_chunks execute c2 _ _ _ (move_response s1) Hp2 Hne2) as (st2 & reads2 & e21 & e22 & -> & Hmc & Eb).
  { destruct (events_effect (concat e2) (move_response s1)) as (_ & _ & ->). cbn. rewrite (proj2 Hs1), <- existsb_app, <- Epost, existsb_app.
    cbn. by rewrite orb_true_r. }
  exists p1, (move_response s1), (Ok <$> c2), st2, reads2.
  unfold request. rewrite Hw, Er, Hresp. split; [done|]. rewrite Eb. do 2 f_equal.
  destruct (events_effect (concat e21) (move_response s1)) as (Hbb & _ & Hmm).
  rewrite Hmm in Hmc. cbn in Hmc, Hbb. rewrite Hbb, (proj1 Hs1). rewrite (proj2 Hs1), <- existsb_app in Hmc.
  rewrite concat_app, app_assoc in Epost.
  destruct (marked_prefix is_mc _ _ _ _ _ Epost B1 Hmc) as (q' & Eq' & Enil).
  rewrite <- concat_app, <- fmap_app, Eq', fmap_app, concat_app, B2.
  destruct q'; [|done]. cbn. by rewrite app_nil_r.
Qed.

(** ** Responses that follow each other on a connection *)

Lemma read_headers_app {P} (execute : P -> bytes -> P * list event * bool) reads rest p s st reads' r :
  read_headers execute reads p s = Ended st reads' r -> read_headers execute (reads ++ rest) p s = Ended st (reads' ++ rest) r.
Proof.
  revert p s. induction reads as [|x reads IH]; intros p s; cbn [app read_headers].
  - destruct (headers_complete_ s) eqn:E; [|done]. intros [= <- <- <-]. by destruct rest; cbn [read_headers]; rewrite E.
  - destruct (headers_complete_ s); [by intros [= <- <- <-]|]. destruct x as [[|b c]|e]; [by intros [= <- <- <-]| |by intros [= <- <- <-]].
    destruct (execute p (b :: c)) as [[p1 evs] [|]]; [apply IH|by intros [= <- <- <-]].
Qed.

(** The body ends with the last chunk. *)
Lemma body_full_all {P} (execute : P -> bytes -> P * list event * bool) chunks rest p evss p' s :
  parse_chunks execute p chunks = Some (evss, p') -> Forall (fun c => c <> []) chunks ->
  (forall e1 e2, evss = e1 ++ e2 -> message_complete_ (fold_left on_event (concat e1) s) = bool_decide (e2 = [])) ->
  exists s', body_full execute ((Ok <$> chunks) ++ rest) p s =
    Ended (p', s') rest (Ok (body_buffer_ (fold_left on_event (concat evss) s))).
Proof.
  revert p evss s. induction chunks as [|c chunks IH]; intros p evss s Hp Hne Hc.
  - injection Hp as <- <-. specialize (Hc [] [] eq_refl). cbn in Hc. eexists. destruct rest; cbn; by rewrite Hc.
  - cbn [parse_chunks] in Hp. destruct (execute p c) as [[p1 evs] ok] eqn:Ee. destruct ok; [|done].
    destruct (parse_chunks execute p1 chunks) as [[r p2]|] eqn:Er; [|done]. cbn in Hp. injection Hp as <- <-.
    apply Forall_cons in Hne as [Hc0 Hne]. assert (Emc : message_complete_ s = false) by exact (Hc [] (evs :: r) eq_refl).
    destruct (IH p1 r (fold_left on_event evs s) Er Hne) as [s' E].
    { intros e1 e2 ->. rewrite <- fold_left_app. by apply (Hc (evs :: e1) e2). }
    exists s'. cbn [fmap list_fmap app body_full concat]. rewrite Emc, Ee. destruct c; [done|]. by rewrite E, fold_left_app.
Qed.

(** The message ends inside the last list of callbacks. *)
Lemma mc_at_end (evss : list (list event)) pre e1 e2 :
  concat evss = pre ++ [MessageComplete] -> existsb is_mc pre = false -> last evss <> Some [] ->
  evss = e1 ++ e2 -> existsb is_mc (concat e1) = bool_decide (e2 = []).
Proof.
  intros Ec Hpre Hl ->. destruct e2 as [|x e2].
  - rewrite app_nil_r in Ec. by rewrite Ec, existsb_app, bool_decide_true, orb_true_r.
  - rewrite bool_decide_false by done. destruct (exists_last (l := x :: e2)) as (e2' & y & E2); [done|]. rewrite E2 in *.
    rewrite app_assoc, last_snoc in Hl. rewrite concat_app, concat_app in Ec. cbn [concat] in Ec. rewrite app_nil_r, app_assoc in Ec.
    destruct (exists_last (l := y)) as (y' & z & ->); [by intros ->|].
    rewrite app_assoc in Ec. apply app_inj_tail in Ec as [<- _]. rewrite !existsb_app in Hpre.
    by apply orb_false_iff in Hpre as [[H _]%orb_false_iff _].
Qed.

(** An exchange takes its response from the connection and nothing else. *)
Lemma exchange_leaves {P} (execute : P -> bytes -> P * list event * bool) (parser_reset : P -> P)
    write_res req n chunks rest p evss p' st spans hs b :
  write_res (serialize_to_h1 req) = Ok n ->
  Forall (fun c => c <> []) chunks -> parse_chunks execute (parser_reset p) chunks = Some (evss, p') ->
  message_events st spans hs b (concat evss) -> last evss <> Some [] ->
  exists p1 s1 reads s2,
    request execute parser_reset write_res req ((Ok <$> chunks) ++ rest) p = Ended (p1, s1) reads (Ok (MkHead (kept_status (code st) spans) hs)) /\
    body_full execute reads p1 s1 = Ended (p', s2) rest (Ok b).
Proof.
  intros Hw Hne Hp Hm Hl.
  destruct (exchange_run execute parser_reset write_res req n chunks p evss p' st spans hs b Hw Hne Hp Hm)
    as (p1 & s1 & reads & st2 & reads2 & E1 & E2).
  inversion Hm as [es1 es2 _ Hh Hb Ec]. destruct (status_events_plain (code st) spans) as (C1 & C2 & C3).
  destruct (header_events_plain _ _ Hh) as (_ & A2 & _). destruct (body_events_plain _ _ Hb) as (B1 & _ & _).
  assert (Ec' : concat evss = (MessageBegin :: (Status (code st) <$> spans) ++ es1 ++ HeadersComplete :: es2) ++ [MessageComplete])
    by (rewrite <- Ec; cbn; by rewrite <- !app_assoc).
  assert (Hpre : existsb is_mc (MessageBegin :: (Status (code st) <$> spans) ++ es1 ++ HeadersComplete :: es2) = false)
    by (cbn; rewrite !existsb_app; cbn; by rewrite C2, A2, B1).
  destruct (read_headers_chunks execute chunks _ _ _ reset_state Hp Hne) as (q & c2 & e1 & e2 & He & Hp2 & Hne2 & _ & Er).
  { rewrite (proj1 (proj2 (events_effect _ _))), <- Ec. cbn. rewrite !existsb_app. cbn. by rewrite !orb_true_r. }
  unfold request in E1 |- *. rewrite Hw, Er in E1. injection E1 as <- <- <- Ehd.
  rewrite Hw, (read_headers_app _ _ rest _ _ _ _ _ Er), Ehd.
  set (s1 := move_response (fold_left on_event (concat e1) reset_state)) in *.
  assert (Hmc : forall f1 f2, e2 = f1 ++ f2 -> message_complete_ (fold_left on_event (concat f1) s1) = bool_decide (f2 = [])).
  { intros f1 f2 ->. rewrite (proj2 (proj2 (events_effect _ _))). unfold s1. cbn [move_response message_complete_].
    rewrite (proj2 (proj2 (events_effect _ _))). cbn [message_complete_ reset_state orb]. rewrite <- existsb_app, <- concat_app.
    eapply mc_at_end; [exact Ec'|exact Hpre|exact Hl|by rewrite <- app_assoc]. }
  destruct (body_full_all execute c2 [] q e2 p' s1 Hp2 Hne2 Hmc) as [s2 Eb0]. rewrite app_nil_r, E2 in Eb0. injection Eb0 as _ _ ->.
  destruct (body_full_all execute c2 rest q e2 p' s1 Hp2 Hne2 Hmc) as [s3 Eb]. eexists _, _, _, s3. split; [done|exact Eb].
Qed.

(** ([Http1Session::request] and [body_full], functional): however the bytes
    of a response are cut into reads, and however the parser cuts the reason phrase,
    header names, header values and the body into callbacks, the request returns all
    headers in order and the status with the last piece of the reason phrase, and
    [body_full] then returns the body. *)
Theorem exchange_collects {P} (execute : P -> bytes -> P * list event * bool) (parser_reset : P -> P)
    write_res req n chunks p evss p' st spans hs b :
  write_res (serialize_to_h1 req) = Ok n ->
  Forall (fun c => c <> []) chunks -> parse_chunks execute (parser_reset p) chunks = Some (evss, p') ->
  message_events st spans hs b (concat evss) ->
  exists p1 s1 reads st2 reads2,
    request execute parser_reset write_res req (Ok <$> chunks) p = Ended (p1, s1) reads (Ok (MkHead (kept_status (code st) spans) hs)) /\
    body_full execute reads p1 s1 = Ended st2 reads2 (Ok b).
Proof. apply exchange_run. Qed.

(** ([Http1Session::request] and [body_full], error): a stream that ends
    early is not reported.  If it ends before the headers are complete the
    request succeeds with what was parsed so far, status 0 if nothing was; if it
    ends inside the body, [body_full] succeeds with the bytes so far. *)
Theorem truncation_succeeds {P} (execute : P -> bytes -> P * list event * bool) chunks p evss p' s :
  parse_chunks execute p chunks = Some (evss, p') -> Forall (fun c => c <> []) chunks ->
  (headers_complete_ s = false -> existsb is_hc (concat evss) = false ->
   exists p1 s1, read_headers execute ((Ok <$> chunks) ++ [Ok []]) p s = Ended (p1, s1) [] (Ok (response_ s1)) /\
     s1 = fold_left on_event (concat evss) s) /\
  (message_complete_ s = false -> existsb is_mc (concat evss) = false ->
   exists st, body_full execute ((Ok <$> chunks) ++ [Ok []]) p s =
     Ended st [] (Ok (body_buffer_ s ++ concat (body_of <$> concat evss)))).
Proof.
  intros Hp Hne. split.
  - revert p evss s Hp. induction Hne as [|c chunks Hc _ IH]; intros p evss s Hp H1 H2.
    + injection Hp as <- <-. cbn. rewrite H1. by eexists _, _.
    + cbn [parse_chunks] in Hp. destruct (execute p c) as [[p1 evs] ok] eqn:Ee. destruct ok; [|done].
      destruct (parse_chunks execute p1 chunks) as [[r p2]|] eqn:Er; [|done]. cbn in Hp. injection Hp as <- <-.
      cbn [concat] in *. rewrite existsb_app in H2. apply orb_false_iff in H2 as [H2 H3].
      rewrite fold_left_app. cbn [fmap list_fmap app read_headers]. rewrite H1, Ee. destruct c; [done|].
      apply IH; [done| |done]. rewrite (proj1 (proj2 (events_effect _ _))), H1. done.
  - revert p evss s Hp. induction Hne as [|c chunks Hc _ IH]; intros p evss s Hp H1 H2.
    + injection Hp as <- <-. cbn. rewrite H1. eexists. by rewrite app_nil_r.
    + cbn [parse_chunks] in Hp. destruct (execute p c) as [[p1 evs] ok] eqn:Ee. destruct ok; [|done].
      destruct (parse_chunks execute p1 chunks) as [[r p2]|] eqn:Er; [|done]. cbn in Hp. injection Hp as <- <-.
      cbn [concat] in *. rewrite existsb_app in H2. apply orb_false_iff in H2 as [H2 H3].
      cbn [fmap list_fmap app body_full]. rewrite H1, Ee. destruct c; [done|].
      destruct (events_effect evs s) as (Eb & _ & Em).
      destruct (IH p1 r (fold_left on_event evs s) Er) as [st Es]; [by rewrite Em, H1, H2|done|].
      exists st. rewrite Es, Eb, fmap_app, concat_app, app_assoc. done.
Qed.

(** ** Witnesses *)

(** A parser that plays back callbacks, a list for each chunk. *)
Definition playback (p : list (list event)) (c : bytes) : list (list event) * list event * bool :=
  match p with [] => ([], [], false) | evs :: p => (p, evs, true) end.

Definition sample_events : list (list event) :=
  [[MessageBegin; Status 200 (bs "O")];
   [Status 200 (bs "K"); HeaderField (bs "Se")];
   [HeaderField (bs "rver"); HeaderValue (bs "x"); HeadersComplete; Body (bs "a")];
   [Body (bs "b"); MessageComplete]].

Lemma sample_message :
  message_events (MkStatus 200 (bs "OK")) [bs "O"; bs "K"] [MkHeader (bs "Server") (bs "x")] (bs "ab") (concat sample_events).
Proof.
  apply (MessageEvents (MkStatus 200 (bs "OK")) [bs "O"; bs "K"] [MkHeader (bs "Server") (bs "x")] (bs "ab")
    [HeaderField (bs "Se"); HeaderField (bs "rver"); HeaderValue (bs "x")] [Body (bs "a"); Body (bs "b")]).
  - done.
  - apply (header_events_cons (MkHeader (bs "Server") (bs "x")) [] [HeaderField (bs "Se"); HeaderField (bs "rver")]
      [HeaderValue (bs "x")] []); [done| |apply piece_last|constructor].
    apply (piece_more HeaderField (bs "Se") (bs "rver")), piece_last.
  - apply (body_events_cons (bs "a") (bs "b")), (body_events_cons (bs "b") []), body_events_nil.
Qed.

(** An instance. *)
Lemma exchange_collects_witness :
  exists p1 s1 reads st2 reads2,
    request playback (fun p => p) (fun _ => Ok 1) sample_request (Ok <$> [bs "1"; bs "2"; bs "3"; bs "4"]) sample_events =
      Ended (p1, s1) reads (Ok (MkHead (MkStatus 200 (bs "K")) [MkHeader (bs "Server") (bs "x")])) /\
    body_full playback reads p1 s1 = Ended st2 reads2 (Ok (bs "ab")).
Proof.
  apply (exchange_collects playback (fun p => p) (fun _ => Ok 1) sample_request 1 _ sample_events sample_events []
    (MkStatus 200 (bs "OK")) [bs "O"; bs "K"]);
    [done|by repeat constructor|done|exact sample_message].
Defined.

(** An instance. *)
Lemma truncation_succeeds_witness :
  exists p1 s1, read_headers playback [Ok (bs "1"); Ok []] sample_events reset_state = Ended (p1, s1) [] (Ok (response_ s1)).
Proof.
  destruct (truncation_succeeds playback [bs "1"] sample_events (take 1 sample_events) (drop 1 sample_events) reset_state)
    as [H _]; [done|by repeat constructor|].
  destruct (H eq_refl eq_refl) as (p1 & s1 & E & _). by exists p1, s1.
Defined.
