(* ===== verification/Response.v ===== *)
(** ppnt-http: response objects.

    [src/ppnt-http/src/http_types/response.ixx] ([HttpResponse]: its members, moves and
    setters, [body_full]) and the response [SessionWrapper::request] of
    [src/ppnt-http/src/session.ixx] makes of the one of the wrapped session.  Sessions
    and hooks are numbers; responses live in variables, and operations on them in any
    order are a run.  The hook is what gives a session back to the pool. *)

From stdpp Require Import gmap strings.
From S2P Require Import Prelude HttpTypes Http1.

Local Open Scope Z_scope.

(** ** [HttpResponse] *)

Record HttpResponse := MkHttpResponse {
  session_ : option Z;
  session_owner_ : option Z;
  body_consumed_hook_ : option Z;
  body_consumed_ : bool;
  head_ : HeadParts;
  id_ : Z
}.

(** The constructors. *)
Definition HttpResponse_new (session : Z) : HttpResponse := MkHttpResponse (Some session) None None false HeadParts_default (-1).
Definition HttpResponse_default : HttpResponse := MkHttpResponse None None None false HeadParts_default (-1).

(** The move constructor, and the assignment to another object: the response, and what
    is left of the other one, which keeps the number of its status. *)
Definition HttpResponse_move (other : HttpResponse) : HttpResponse * HttpResponse :=
  (other, MkHttpResponse None None None false (MkHead (MkStatus (code (status (head_ other))) []) []) (-1)).

Definition set_session_ptr (session : option Z) (r : HttpResponse) : HttpResponse :=
  MkHttpResponse session (session_owner_ r) (body_consumed_hook_ r) (body_consumed_ r) (head_ r) (id_ r).

(** [set_session] with a shared pointer. *)
Definition set_session (session : option Z) (r : HttpResponse) : HttpResponse :=
  MkHttpResponse session session (body_consumed_hook_ r) (body_consumed_ r) (head_ r) (id_ r).

Definition set_body_consumed_hook (hook : Z) (r : HttpResponse) : HttpResponse :=
  MkHttpResponse (session_ r) (session_owner_ r) (Some hook) (body_consumed_ r) (head_ r) (id_ r).

Definition set_status (st : HttpStatus) (r : HttpResponse) : HttpResponse :=
  MkHttpResponse (session_ r) (session_owner_ r) (body_consumed_hook_ r) (body_consumed_ r) (MkHead st (head_headers (head_ r))) (id_ r).

Definition set_headers (hs : HttpHeaderList) (r : HttpResponse) : HttpResponse :=
  MkHttpResponse (session_ r) (session_owner_ r) (body_consumed_hook_ r) (body_consumed_ r) (MkHead (status (head_ r)) hs) (id_ r).

Definition set_id (id : Z) (r : HttpResponse) : HttpResponse :=
  MkHttpResponse (session_ r) (session_owner_ r) (body_consumed_hook_ r) (body_consumed_ r) (head_ r) id.

(** [SessionWrapper::request]: [inner] is the result of the wrapped session. *)
Definition wrapper_request (this : Z) (inner : Result HttpResponse) : Result HttpResponse :=
  match inner with
  | Err e => Err e
  | Ok inner_resp =>
      Ok (set_headers (head_headers (head_ inner_resp)) (set_id (id_ inner_resp)
           (set_status (status (head_ inner_resp)) (HttpResponse_new this))))
  end.

(** [body_full] after the session has given its result: the response, and the call of the
    hook with the session and whether the body was read. *)
Definition body_full_end (ok : bool) (r : HttpResponse) : HttpResponse * option (Z * option Z * bool) :=
  if body_consumed_ r then (r, None)
  else
    (MkHttpResponse (session_ r) (session_owner_ r) (body_consumed_hook_ r) true (head_ r) (id_ r),
     (fun h => (h, session_owner_ r, ok)) <$> body_consumed_hook_ r).

(** ** Runs *)

(** The variables that hold responses, and the calls of hooks. *)
Record store := MkStore { vars : gmap Z HttpResponse; calls : list (Z * option Z * bool) }.

Inductive resp_op :=
| NewResponse (x : Z) (session : Z)
| MoveCtor (x y : Z)
| MoveAssign (x y : Z)
| SetSessionPtr (x : Z) (s : option Z)
| SetSession (x : Z) (s : option Z)
| SetHook (x hook : Z)
| BodyFull (x : Z) (ok : bool)
| Destroy (x : Z).

Definition move_var (x y : Z) (s : store) : option store :=
  other ← vars s !! y;
  let '(this, other) := HttpResponse_move other in
  Some (MkStore (<[x := this]> (<[y := other]> (vars s))) (calls s)).

(** [None] is undefined behaviour: a variable that is not there, or [body_full] on a
    response without a session. *)
Definition run_op (op : resp_op) (s : store) : option store :=
  match op with
  | NewResponse x session => Some (MkStore (<[x := HttpResponse_new session]> (vars s)) (calls s))
  | MoveCtor x y => if x =? y then None else move_var x y s
  | MoveAssign x y => if x =? y then Some s else move_var x y s
  | SetSessionPtr x session => r ← vars s !! x; Some (MkStore (<[x := set_session_ptr session r]> (vars s)) (calls s))
  | SetSession x session => r ← vars s !! x; Some (MkStore (<[x := set_session session r]> (vars s)) (calls s))
  | SetHook x hook => r ← vars s !! x; Some (MkStore (<[x := set_body_consumed_hook hook r]> (vars s)) (calls s))
  | BodyFull x ok =>
      r ← vars s !! x;
      match session_ r with
      | None => None
      | Some _ =>
          let '(r, call) := body_full_end ok r in
          Some (MkStore (<[x := r]> (vars s)) (calls s ++ match call with Some c => [c] | None => [] end))
      end
  | Destroy x => Some (MkStore (delete x (vars s)) (calls s))
  end.

(** A hook is a new closure each time one is set. *)
Definition new_hook (hook : Z) (s : store) : Prop :=
  (forall c, c ∈ calls s -> c.1.1 <> hook) /\ (forall x r, vars s !! x = Some r -> body_consumed_hook_ r <> Some hook).

Inductive resp_run : store -> Prop :=
| run_start : resp_run (MkStore ∅ [])
| run_next s op s' :
    resp_run s -> (forall x hook, op = SetHook x hook -> new_hook hook s) -> run_op op s = Some s' -> resp_run s'.

(** Every hook is in one response, and not called if the response was not consumed. *)
Record hooks_ok (s : store) : Prop := HooksOk {
  ho_one x y r r' h : vars s !! x = Some r -> vars s !! y = Some r' -> body_consumed_hook_ r = Some h ->
    body_consumed_hook_ r' = Some h -> x = y;
  ho_uncalled x r h c : vars s !! x = Some r -> body_consumed_hook_ r = Some h -> body_consumed_ r = false ->
    c ∈ calls s -> c.1.1 <> h;
  ho_calls : NoDup ((fun c => c.1.1) <$> calls s)
}.

(** ** Hooks are called once *)

(** The hooks of the new variables come from old ones, no two from the same. *)
Lemma hooks_ok_rename (f : Z -> Z) vs s :
  (forall z r h, vs !! z = Some r -> body_consumed_hook_ r = Some h ->
    exists r0, vars s !! f z = Some r0 /\ body_consumed_hook_ r0 = Some h /\ (body_consumed_ r = false -> body_consumed_ r0 = false)) ->
  (forall z z' r r' h, vs !! z = Some r -> vs !! z' = Some r' -> body_consumed_hook_ r = Some h -> body_consumed_hook_ r' = Some h ->
    f z = f z' -> z = z') ->
  hooks_ok s -> hooks_ok (MkStore vs (calls s)).
Proof.
  intros Hf Hinj [H1 H2 H3]. split; cbn [vars calls]; [| |done].
  - intros x y r r' h Hx Hy Hr Hr'. destruct (Hf _ _ _ Hx Hr) as (r0 & E0 & Eh & _). destruct (Hf _ _ _ Hy Hr') as (r1 & E1 & Eh' & _).
    eapply Hinj; eauto.
  - intros x r h c Hx Hr Hc. destruct (Hf _ _ _ Hx Hr) as (r0 & E0 & Eh & Ec). eapply H2; eauto.
Qed.

(** A change of one response that keeps its hook. *)
Lemma hooks_ok_update x r r' s :
  vars s !! x = Some r -> body_consumed_hook_ r' = body_consumed_hook_ r -> (body_consumed_ r' = false -> body_consumed_ r = false) ->
  hooks_ok s -> hooks_ok (MkStore (<[x := r']> (vars s)) (calls s)).
Proof.
  intros Hx Hh Hc. apply (hooks_ok_rename id); [|done]. intros z q h Hz Hq. destruct (decide (z = x)) as [->|Hne].
  - rewrite lookup_insert_eq in Hz. injection Hz as <-. exists r. by rewrite <- Hh.
  - rewrite lookup_insert_ne in Hz by done. by exists q.
Qed.

(** A response without a hook. *)
Lemma hooks_ok_none x r s : body_consumed_hook_ r = None -> hooks_ok s -> hooks_ok (MkStore (<[x := r]> (vars s)) (calls s)).
Proof.
  intros Hr. apply (hooks_ok_rename id); [|done]. intros z q h Hz Hq. destruct (decide (z = x)) as [->|Hne].
  - rewrite lookup_insert_eq in Hz. injection Hz as <-. congruence.
  - rewrite lookup_insert_ne in Hz by done. by exists q.
Qed.

Lemma hooks_ok_move x y s s' : x <> y -> move_var x y s = Some s' -> hooks_ok s -> hooks_ok s'.
Proof.
  intros Hne. unfold move_var. destruct (vars s !! y) as [r|] eqn:Hy; [|done]. cbn. intros [= <-].
  set (vs := <[x := r]> _).
  assert (Hvs : forall z q h, vs !! z = Some q -> body_consumed_hook_ q = Some h -> z = x /\ q = r \/ z <> x /\ z <> y /\ vars s !! z = Some q).
  { intros z q h Hz Hq. unfold vs in Hz. destruct (decide (z = x)) as [->|Hzx]; [rewrite lookup_insert_eq in Hz; left; by injection Hz|].
    rewrite lookup_insert_ne in Hz by done. destruct (decide (z = y)) as [->|Hzy].
    - rewrite lookup_insert_eq in Hz. injection Hz as <-. done.
    - rewrite lookup_insert_ne in Hz by done. by right. }
  apply (hooks_ok_rename (fun z => if decide (z = x) then y else z)).
  - intros z q h Hz Hq. destruct (Hvs z q h Hz Hq) as [[-> ->]|(H1 & H2 & H3)].
    + rewrite decide_True by done. by exists r.
    + rewrite decide_False by done. by exists q.
  - intros z z' q q' h Hz Hz' Hq Hq' E. destruct (Hvs z q h Hz Hq) as [[-> _]|(H1 & H2 & _)], (Hvs z' q' h Hz' Hq') as [[-> _]|(H1' & H2' & _)]; [done| | |].
    + rewrite decide_True, decide_False in E by done. congruence.
    + rewrite decide_False, decide_True in E by done. congruence.
    + by rewrite !decide_False in E by done.
Qed.

Lemma hooks_ok_body x ok r s :
  vars s !! x = Some r -> hooks_ok s ->
  let '(r', call) := body_full_end ok r in
  hooks_ok (MkStore (<[x := r']> (vars s)) (calls s ++ match call with Some c => [c] | None => [] end)).
Proof.
  intros Hx Hok. unfold body_full_end. destruct (body_consumed_ r) eqn:Ec; cbn.
  { rewrite app_nil_r, insert_id by done. by destruct s. }
  set (r' := MkHttpResponse _ _ _ true _ _).
  assert (Hok' : hooks_ok (MkStore (<[x := r']> (vars s)) (calls s))) by (by apply (hooks_ok_update x r)).
  destruct (body_consumed_hook_ r) as [h|] eqn:Eh; cbn; [|by rewrite app_nil_r].
  destruct Hok' as [H1 H2 H3]. cbn [vars calls] in *. split; cbn [vars calls]; [exact H1| |].
  - intros z q g c Hz Hg Hc [Hin|Hin%list_elem_of_singleton]%elem_of_app; [by eapply H2|]. subst c. cbn. intros ->.
    assert (z = x) as -> by (eapply H1; [exact Hz|apply lookup_insert_eq|exact Hg|done]).
    rewrite lookup_insert_eq in Hz. by injection Hz as <-.
  - rewrite fmap_app. apply NoDup_app. split; [done|]. split; [|apply NoDup_singleton].
    intros g (c & -> & Hc)%list_elem_of_fmap Hg%list_elem_of_singleton. by eapply (ho_uncalled _ Hok x r h).
Qed.

Lemma run_op_hooks op s s' :
  (forall x hook, op = SetHook x hook -> new_hook hook s) -> run_op op s = Some s' -> hooks_ok s -> hooks_ok s'.
Proof.
  intros Hnew Hop Hok. destruct op as [x n|x y|x y|x p|x p|x g|x ok|x]; cbn [run_op] in Hop.
  - injection Hop as <-. by apply hooks_ok_none.
  - destruct (Z.eqb_spec x y); [done|]. by eapply hooks_ok_move.
  - destruct (Z.eqb_spec x y); [by injection Hop as <-|]. by eapply hooks_ok_move.
  - destruct (vars s !! x) as [r|] eqn:Hx; [|done]. injection Hop as <-. by eapply hooks_ok_update.
  - destruct (vars s !! x) as [r|] eqn:Hx; [|done]. injection Hop as <-. by eapply hooks_ok_update.
  - destruct (vars s !! x) as [r|] eqn:Hx; [|done]. injection Hop as <-. destruct (Hnew x g eq_refl) as [N1 N2].
    destruct Hok as [H1 H2 H3]. split; cbn [vars calls]; [| |done].
    + intros z z' q q' h Hz Hz' Hq Hq'. destruct (decide (z = x)) as [->|Hzx], (decide (z' = x)) as [->|Hzx']; [done|..];
        rewrite ?lookup_insert_eq, ?lookup_insert_ne in * by done; simplify_eq/=; [by apply N2 in Hz'|by apply N2 in Hz|by eapply H1].
    + intros z q h c Hz Hq Hc. destruct (decide (z = x)) as [->|Hzx]; rewrite ?lookup_insert_eq, ?lookup_insert_ne in Hz by done;
        simplify_eq/=; [apply N1|by eapply H2].
  - destruct (vars s !! x) as [r|] eqn:Hx; [|done]. cbn in Hop. destruct (session_ r); [|done].
    pose proof (hooks_ok_body x ok r s Hx Hok) as H. destruct (body_full_end ok r). by injection Hop as <-.
  - injection Hop as <-. revert Hok. apply (hooks_ok_rename id); [|done]. intros z r h Hz Hr.
    apply lookup_delete_Some in Hz as [_ Hz]. by exists r.
Qed.

(** C15 ([HttpResponse], safety): whatever is done with responses, moving them and reading
    their bodies any number of times, the hook of a response is called at most once,
    and a response that still has an uncalled hook is the only one that has it: the
    session it holds is not given back to the pool twice. *)
Theorem hook_called_once s :
  resp_run s ->
  NoDup ((fun c => c.1.1) <$> calls s) /\
  (forall x r h, vars s !! x = Some r -> body_consumed_hook_ r = Some h -> body_consumed_ r = false ->
     (h ∉ (fun c => c.1.1) <$> calls s) /\
     forall y r', vars s !! y = Some r' -> body_consumed_hook_ r' = Some h -> y = x).
Proof.
  intros Hr. assert (Hok : hooks_ok s).
  { induction Hr as [|s op s' _ IH Hnew Hop]; [by split; cbn; [intros *; rewrite lookup_empty|intros *; rewrite lookup_empty|constructor]|].
    by eapply run_op_hooks. }
  destruct Hok as [H1 H2 H3]. split; [done|]. intros x r h Hx Hh Hc. split.
  - intros (c & -> & Hin)%list_elem_of_fmap. by eapply H2.
  - intros y r' Hy Hh'. by eapply H1.
Qed.

Fixpoint run_ops (ops : list resp_op) (s : store) : option store :=
  match ops with [] => Some s | op :: ops => run_op op s ≫= run_ops ops end.

Lemma run_ops_run ops s s' :
  resp_run s -> (forall x h, SetHook x h ∉ ops) -> run_ops ops s = Some s' -> resp_run s'.
Proof.
  revert s. induction ops as [|op ops IH]; intros s Hs Hops E; cbn [run_ops] in E; [by injection E as <-|].
  destruct (run_op op s) as [s1|] eqn:Eo; [|done]. eapply (IH s1); [|set_solver|exact E].
  eapply run_next; [exact Hs| |exact Eo]. intros x h ->. exfalso. apply (Hops x h). set_solver.
Qed.

(** A response is made and given its session and hook, then moved and read twice. *)
Definition sample_made : list resp_op := [NewResponse 1 7; SetSession 1 (Some 7)].
Definition sample_used : list resp_op := [MoveCtor 2 1; BodyFull 2 true; MoveCtor 3 2; BodyFull 3 true].

(** Witness of C15. *)
Lemma hook_called_once_witness :
  exists s, run_ops (sample_made ++ SetHook 1 100 :: sample_used) (MkStore ∅ []) = Some s /\
    calls s = [(100, Some 7, true)] /\ NoDup ((fun c => c.1.1) <$> calls s).
Proof.
  set (s1 := MkStore (<[1 := set_session (Some 7) (HttpResponse_new 7)]> (<[1 := HttpResponse_new 7]> ∅)) []).
  destruct (run_op (SetHook 1 100) s1) as [s2|] eqn:E2; [|discriminate E2].
  destruct (run_ops sample_used s2) as [s3|] eqn:E3; [|injection E2 as <-; discriminate E3].
  assert (H : resp_run s3).
  { apply (run_ops_run sample_used s2); [|intros x h; unfold sample_used; set_solver|exact E3].
    apply (run_next s1 (SetHook 1 100)); [|intros x h [= <- <-]|exact E2].
    - apply (run_ops_run sample_made (MkStore ∅ [])); [apply run_start|intros x h; unfold sample_made; set_solver|reflexivity].
    - split; [unfold s1; cbn; set_solver|]. intros z r. unfold s1. cbn [vars].
      destruct (decide (z = 1)) as [->|Hz]; [by intros [= <-]|]. by rewrite !lookup_insert_ne, lookup_empty. }
  exists s3. split; [injection E2 as <-; exact E3|]. split; [injection E2 as <-; by injection E3 as <-|].
  apply (hook_called_once s3 H).
Defined.
