(* ===== verification/Client.v ===== *)
(** ppnt-http: an exchange of the client.

    [src/ppnt-http/src/client.cpp] [HttpClient::request] and
    [src/ppnt-http/src/http_types/response.ixx] [HttpResponse::body_full], put
    together from the session pool ([Session.v]) and the HTTP/1.x session
    ([Http1.v]): a request acquires a session, runs on it, and hands out a response
    whose body, once it is read, gives the session back to the pool. *)

From stdpp Require Import gmap strings.
From S2P Require Import Prelude Url HttpTypes Session Http1.

Local Open Scope Z_scope.

Section Client.

(** llhttp, the transport's write and the requests of HTTP/2 sessions. *)
Context {P : Type} (execute : P -> bytes -> P * list event * bool) (parser_reset : P -> P).
Context (write_res : bytes -> Result Z).
Context (h2_request : Z -> HttpRequest -> option (Result HeadParts)) (h2_body : Z -> option (Result bytes)).

(** The pool, and for each HTTP/1.x session its parser, its state and the results
    the reads of its connection will have. *)
Record net := MkNet { world : World; conns : gmap Z (P * Http1Session * list (Result bytes)) }.

Definition set_conn (s : Z) (c : P * Http1Session * list (Result bytes)) (n : net) : net :=
  MkNet (world n) (<[s := c]> (conns n)).

(** [AnySession::request] and [AnySession::body_full]; [None] waits for a read. *)
Definition session_request (s : Z) (req : HttpRequest) (n : net) : option (Result HeadParts * net) :=
  if is_h1 (version_of (world n) s) then
    '(p, _, reads) ← conns n !! s;
    match request execute parser_reset write_res req reads p with
    | Ended (p, h1) reads r => Some (r, set_conn s (p, h1, reads) n)
    | Blocked => None
    end
  else r ← h2_request s req; Some (r, n).

Definition session_body_full (s : Z) (n : net) : option (Result bytes * net) :=
  if is_h1 (version_of (world n) s) then
    '(p, h1, reads) ← conns n !! s;
    match body_full execute reads p h1 with
    | Ended (p, h1) reads r => Some (r, set_conn s (p, h1, reads) n)
    | Blocked => None
    end
  else r ← h2_body s; Some (r, n).

(** The response; [hook_key] is the key its hook has captured. *)
Record HttpResponse := MkResponse {
  session_owner_ : Z;
  hook_key : option SessionKey;
  body_consumed_ : bool;
  head_ : HeadParts
}.

(** [acquire_session]; [connected] is the result of [session_connect]: the number
    of the new session, its version, its parser and its reads. *)
Definition acquire_session (key : SessionKey) (connected : Result (Z * Version * P * list (Result bytes))) (n : net)
    : Result Z * net :=
  let '(w, found) := acquire_pooled key (world n) in
  match found with
  | Some s => (Ok s, MkNet w (conns n))
  | None =>
      match connected with
      | Err e => (Err e, MkNet w (conns n))
      | Ok (s, v, p, reads) =>
          let w := MkWorld (sessions_ w) (<[s := MkSession key v true]> (table w)) in
          (Ok s, MkNet (acquire_connected key s w) (<[s := (p, reset_state, reads)]> (conns n)))
      end
  end.

Definition client_request (req : HttpRequest) (proxy_config : option ProxyConfig)
    (connected : Result (Z * Version * P * list (Result bytes))) (n : net) : option (Result HttpResponse * net) :=
  let key := request_key req proxy_config in
  let '(session, n) := acquire_session key connected n in
  match session with
  | Err e => Some (Err e, n)
  | Ok s =>
      '(res, n) ← session_request s req n;
      match res with
      | Err e => Some (Err e, n)
      | Ok head =>
          let hook := if is_h1 (version_of (world n) s) then Some key else None in
          Some (Ok (MkResponse s hook false head), n)
      end
  end.

Definition is_ok {A} (r : Result A) : bool := match r with Ok _ => true | Err _ => false end.

(** [HttpResponse::body_full]: the hook runs once. *)
Definition response_body_full (resp : HttpResponse) (n : net) : option (Result bytes * HttpResponse * net) :=
  '(result, n) ← session_body_full (session_owner_ resp) n;
  if negb (body_consumed_ resp) then
    let n := match hook_key resp with
             | Some key => MkNet (body_consumed_hook key (Some (session_owner_ resp)) (is_ok result) (world n)) (conns n)
             | None => n
             end in
    Some (result, MkResponse (session_owner_ resp) (hook_key resp) true (head_ resp), n)
  else Some (result, resp, n).

(** ** The exchange *)

Lemma group_get_set (key : SessionKey) (g : HostGroup) (l : list (SessionKey * HostGroup)) :
  group_get key (group_set key g l) = g.
Proof.
  assert (E : cmp_key key key = Eq) by apply (cl_eq _ _ cmp_key_laws), key_eqv_refl.
  induction l as [|[k g'] l IH]; cbn; [by rewrite E|].
  destruct (cmp_key key k) eqn:C; cbn; [by rewrite C|by rewrite E|by rewrite C].
Qed.

(** A miss leaves the key's group empty. *)
Lemma acquire_miss (key : SessionKey) (w w1 : World) :
  acquire_pooled key w = (w1, None) -> group_get key (sessions_ w1) = HostGroup_default /\ table w1 = table w.
Proof.
  unfold acquire_pooled. destruct (h2_session (group_get key (sessions_ w))) as [s|].
  - destruct (is_valid w s); cbn [negb]; [done|]. destruct (pop_valid _ _) as [idle found] eqn:Ep. intros [= <- ->].
    apply pop_valid_spec in Ep as ->. cbn. by rewrite group_get_set.
  - destruct (pop_valid _ _) as [idle found] eqn:Ep. intros [= <- ->].
    apply pop_valid_spec in Ep as ->. cbn. by rewrite group_get_set.
Qed.

(** A released session of a key without others is the next one acquired. *)
Lemma release_then_acquire (key : SessionKey) (s : Z) (w : World) :
  group_get key (sessions_ w) = HostGroup_default -> is_valid w s = true -> is_h1 (version_of w s) = true ->
  exists w', acquire_pooled key (release_h1_session key (Some s) w) = (w', Some s).
Proof.
  intros Hg Hv Hh. unfold release_h1_session. rewrite Hv, Hh, Hg.
  change (Z.of_nat (length (h1_idle HostGroup_default)) <? 100) with true. cbn [negb].
  unfold acquire_pooled, set_group. cbn [sessions_]. rewrite group_get_set. cbn.
  assert (Hv' : forall x, is_valid (MkWorld x (table w)) s = true) by (intros x; exact Hv).
  rewrite !Hv'. cbn. rewrite !Hv'. by eexists.
Qed.


(** the hook runs once but the response keeps its session.  A second
    [body_full] on a response whose session has been taken by another request takes
    the body that request was waiting for, and leaves it an empty one. *)
Theorem stale_response_steals (stale other : HttpResponse) (n : net) (p : P) (h1 : Http1Session) (reads : list (Result bytes)) :
  body_consumed_ stale = true -> session_owner_ other = session_owner_ stale ->
  is_h1 (version_of (world n) (session_owner_ stale)) = true ->
  conns n !! session_owner_ stale = Some (p, h1, reads) -> message_complete_ h1 = true ->
  exists n' other' n'',
    response_body_full stale n = Some (Ok (body_buffer_ h1), stale, n') /\ world n' = world n /\
    response_body_full other n' = Some (Ok [], other', n'').
Proof.
  intros Hc Ho Hh Hconn Hm. unfold response_body_full, session_body_full. rewrite Ho, Hh, Hconn. cbn [mbind option_bind].
  assert (Hb : forall h, message_complete_ h = true -> body_full execute reads p h =
    Ended (p, MkH1 [] (response_ h) (temp_header_name_ h) (temp_header_value_ h) (last_was_value_ h)
      (headers_complete_ h) true) reads (Ok (body_buffer_ h))).
  { intros h E. destruct reads; cbn [body_full]; by rewrite E. }
  rewrite (Hb h1 Hm). cbn [mbind option_bind]. rewrite Hc. cbn [negb].
  destruct (body_consumed_ other) eqn:Ec; eexists _, _, _;
    (split; [reflexivity|]); (split; [reflexivity|]); cbn [set_conn world conns]; rewrite Hh, lookup_insert_eq;
    cbn [mbind option_bind]; rewrite Hb by done; reflexivity.
Qed.

End Client.

(** ** Witnesses *)


(** Two responses on session 5, the first one read before. *)
(** An instance. *)
Lemma stale_response_steals_witness :
  let n := MkNet (MkWorld [] {[5 := MkSession sample_key HTTP_11 true]})
    {[5 := ([] : list (list event), MkH1 (bs "secret") HeadParts_default [] [] false true true, [])]} in
  let stale := MkResponse 5 (Some sample_key) true HeadParts_default in
  let other := MkResponse 5 (Some sample_key) false HeadParts_default in
  exists n' other' n'',
    response_body_full playback (fun _ => None) stale n = Some (Ok (bs "secret"), stale, n') /\ world n' = world n /\
    response_body_full playback (fun _ => None) other n' = Some (Ok [], other', n'').
Proof.
  intros n stale other.
  apply (stale_response_steals playback (fun _ => None) stale other n [] (MkH1 (bs "secret") HeadParts_default [] [] false true true) []);
    reflexivity.
Defined.
