(* ===== verification/KeepAlive.v ===== *)
(** ppnt-http/bin: requests that share a connection.

    [src/ppnt-http/bin/test_http_keepalive.cpp]: five requests one after the other with
    one client ([run_sequence]), for each of which the program reports whether it ran on
    the session of the one before.  Built from the client of [Client.v], the pool of
    [Session.v] and the session of [Http1.v]. *)

From stdpp Require Import gmap strings.
From S2P Require Import Prelude Err Url Binary HttpTypes Session Http1 Client.

Local Open Scope Z_scope.

Definition kRequestCount : nat := 5.

(** [None] dereferences the result of a failed parse. *)
Definition make_request (url_str : bytes) (add_keep_alive_header : bool) : option HttpRequest :=
  match parse url_str with
  | Err _ => None
  | Ok u =>
      Some (MkRequest u (bs "GET") (if add_keep_alive_header then add (bs "Connection") (bs "keep-alive") [] else [])
              None HttpTimeout_default)
  end.

Definition version_number (v : Version) : Z := match v with HTTP_10 => 0 | HTTP_11 => 1 | HTTP_2 => 2 | HTTP_3 => 3 end.

Definition bool_text (b : bool) : bytes := if b then bs "true" else bs "false".

(** How the coroutine ends: at its end, by [co_return] after an error, or it waits, or
    its behaviour is undefined. *)
Inductive sequence_end := Completed | GaveUp | Waiting | UndefinedBehaviour.

Definition lines : Type := list (log_level * bytes).

Section KeepAlive.
Context {P : Type} (execute : P -> bytes -> P * list Http1.event * bool) (parser_reset : P -> P).
Context (write_res : bytes -> Result Z).
Context (h2_request : Z -> HttpRequest -> option (Result HeadParts)) (h2_body : Z -> option (Result bytes)).
Context (ptr_text : Z -> bytes) (error_text : Prelude.Error -> bytes).

Definition tag (label : bytes) (index : Z) : bytes := bs "[" ++ label ++ bs ":" ++ to_string_int index ++ bs "] ".

Definition log_response_meta (label : bytes) (index : Z) (head : HeadParts) (v : Version) (session_ptr : Z) (reused : bool) : bytes :=
  tag label index ++ bs "status=" ++ to_string_int (code (status head)) ++ bs " version=" ++ to_string_int (version_number v) ++
  bs " session=" ++ ptr_text session_ptr ++ bs " reused=" ++ bool_text reused ++
  bs " connection=" ++ default (bs "<missing>") (get (bs "connection") (head_headers head)) ++
  bs " keep-alive=" ++ default (bs "<missing>") (get (bs "keep-alive") (head_headers head)).

(** The loop of [run_sequence] from its turn [i]; [connects i] is what connecting gives
    in this turn, if it is needed. *)
Fixpoint run_turns (label url_str : bytes) (keep : bool) (k : nat) (i : Z) (last_session_ptr : option Z)
    (connects : Z -> Result (Z * Version * P * list (Result bytes))) (n : net) (log : lines) : net (P := P) * lines * sequence_end :=
  match k with
  | O => (n, log, Completed)
  | S k =>
      match make_request url_str keep with
      | None => (n, log, UndefinedBehaviour)
      | Some req =>
          match client_request execute parser_reset write_res h2_request req None (connects i) n with
          | None => (n, log, Waiting)
          | Some (Err e, n) => (n, log ++ [(Err.Error, tag label i ++ bs "request error: " ++ error_text e)], GaveUp)
          | Some (Ok res, n) =>
              let session_ptr := session_owner_ res in
              let reused := match last_session_ptr with Some l => session_ptr =? l | None => false end in
              let log := log ++ [(Info, log_response_meta label i (head_ res) (version_of (world n) session_ptr) session_ptr reused)] in
              match response_body_full execute h2_body res n with
              | None => (n, log, Waiting)
              | Some (Err e, _, n) => (n, log ++ [(Err.Error, tag label i ++ bs "body drain error: " ++ error_text e)], GaveUp)
              | Some (Ok body, _, n) =>
                  run_turns label url_str keep k (i + 1) (Some session_ptr) connects n
                    (log ++ [(Info, tag label i ++ bs "drained_body_bytes=" ++ to_string_int (zsize body))])
              end
          end
      end
  end.

(** With a new client. *)
Definition run_sequence (label url_str : bytes) (keep : bool)
    (connects : Z -> Result (Z * Version * P * list (Result bytes))) : net (P := P) * lines * sequence_end :=
  run_turns label url_str keep kRequestCount 1 None connects (MkNet (MkWorld [] ∅) ∅)
    [(Info, bs "[" ++ label ++ bs "] target=" ++ url_str ++ bs " requests=" ++ to_string_int (Z.of_nat kRequestCount) ++
            bs " keep_alive_header=" ++ bool_text keep)].

(** ** One turn *)

(** Responses that follow each other on a connection: each as it arrives, its head as
    the session keeps it and its body, with the parser's state before it. *)
Inductive responses : P -> list (list bytes * HeadParts * bytes) -> Prop :=
| responses_nil p : responses p []
| responses_cons p p' chunks evss st spans hs b rs :
    Forall (fun c => c <> []) chunks -> parse_chunks execute (parser_reset p) chunks = Some (evss, p') ->
    message_events st spans hs b (concat evss) -> last evss <> Some [] -> responses p' rs ->
    responses p ((chunks, MkHead (kept_status (code st) spans) hs, b) :: rs).

Fixpoint reads_of (rs : list (list bytes * HeadParts * bytes)) : list (Result bytes) :=
  match rs with [] => [] | (chunks, _, _) :: rs => (Ok <$> chunks) ++ reads_of rs end.

(** The key has the session [s] and no other, which a request holds or which is idle. *)
Record holds (key : SessionKey) (s : Z) (v : Version) (idle : list (option Z)) (n : net (P := P)) : Prop := Holds {
  h_group : group_get key (sessions_ (world n)) = MkGroup None idle;
  h_table : table (world n) !! s = Some (MkSession key v true)
}.

Lemma acquire_idle key s v conn n :
  holds key s v [Some s] n ->
  exists n1, acquire_session key conn n = (Ok s, n1) /\ holds key s v [] n1 /\ conns n1 = conns n.
Proof.
  intros [Hg Ht]. unfold acquire_session, acquire_pooled. rewrite Hg.
  assert (Hv : is_valid (world n) s = true) by (unfold is_valid; by rewrite Ht).
  cbn [h2_session h1_idle List.filter]. rewrite Hv. cbn [pop_valid]. rewrite Hv.
  eexists. split; [done|]. split; [|done]. split; cbn; [by rewrite group_get_set|done].
Qed.

Lemma acquire_new key s v p reads n :
  group_get key (sessions_ (world n)) = HostGroup_default -> is_h1 v = true ->
  exists n1, acquire_session key (Ok (s, v, p, reads)) n = (Ok s, n1) /\ holds key s v [] n1 /\
    conns n1 !! s = Some (p, reset_state, reads).
Proof.
  intros Hg Hv. unfold acquire_session, acquire_pooled. rewrite Hg. cbn [h2_session h1_idle HostGroup_default List.filter pop_valid].
  unfold acquire_connected, version_of. cbn [table sessions_ set_group]. rewrite lookup_insert_eq. cbn [s_version].
  replace (is_h2 v) with false by (by destruct v).
  eexists. split; [done|]. split; [|apply lookup_insert_eq]. split; cbn; [by rewrite group_get_set|by rewrite lookup_insert_eq].
Qed.

(** A request on the session it acquired, and its body. *)
Lemma turn_runs req s v conn n n1 p h chunks rest evss p' st spans hs b len :
  let key := request_key req None in
  acquire_session key conn n = (Ok s, n1) -> holds key s v [] n1 -> is_h1 v = true ->
  conns n1 !! s = Some (p, h, (Ok <$> chunks) ++ rest) -> write_res (serialize_to_h1 req) = Ok len ->
  Forall (fun c => c <> []) chunks -> parse_chunks execute (parser_reset p) chunks = Some (evss, p') ->
  message_events st spans hs b (concat evss) -> last evss <> Some [] ->
  exists resp n2 resp' n3 h',
    client_request execute parser_reset write_res h2_request req None conn n = Some (Ok resp, n2) /\
    session_owner_ resp = s /\ head_ resp = MkHead (kept_status (code st) spans) hs /\ version_of (world n2) s = v /\
    response_body_full execute h2_body resp n2 = Some (Ok b, resp', n3) /\
    holds key s v [Some s] n3 /\ conns n3 !! s = Some (p', h', rest).
Proof.
  intros key Hacq [Hg Ht] Hv Hc Hw Hne Hp Hm Hl.
  destruct (exchange_leaves execute parser_reset write_res req len chunks rest p evss p' st spans hs b Hw Hne Hp Hm Hl)
    as (p1 & s1 & reads & s2 & Ereq & Ebody).
  assert (Hver : version_of (world n1) s = v) by (unfold version_of; by rewrite Ht).
  assert (Hval : is_valid (world n1) s = true) by (unfold is_valid; by rewrite Ht).
  unfold client_request. fold key. rewrite Hacq. unfold session_request. rewrite Hver, Hv, Hc.
  cbn [mbind option_bind]. rewrite Ereq. cbn [mbind option_bind set_conn world]. rewrite Hver, Hv.
  eexists _, _, _, _, s2. split; [done|]. split; [done|]. split; [done|]. split; [done|].
  unfold response_body_full, session_body_full. cbn [session_owner_ set_conn world conns]. rewrite Hver, Hv, lookup_insert_eq.
  cbn [mbind option_bind]. rewrite Ebody. cbn [mbind option_bind body_consumed_ hook_key negb is_ok session_owner_ set_conn world conns].
  split; [done|]. split; [|apply lookup_insert_eq]. unfold body_consumed_hook, release_h1_session.
  rewrite Hval, Hver, Hv, Hg. split; [apply group_get_set|done].
Qed.

(** ** The sequence *)

(** What the program prints for responses that all come on the session [s]; [reused] is for
    the first of them. *)
Fixpoint report (label : bytes) (v : Version) (s : Z) (i : Z) (reused : bool) (rs : list (list bytes * HeadParts * bytes)) : lines :=
  match rs with
  | [] => []
  | (_, head, b) :: rs =>
      [(Info, log_response_meta label i head v s reused);
       (Info, tag label i ++ bs "drained_body_bytes=" ++ to_string_int (zsize b))] ++ report label v s (i + 1) true rs
  end.

Section Sequence.
Context (label url_str : bytes) (keep : bool) (req : HttpRequest) (s : Z) (v : Version) (len : Z).
Context (connects : Z -> Result (Z * Version * P * list (Result bytes))).
Hypothesis Hreq : make_request url_str keep = Some req.
Hypothesis Hv : is_h1 v = true.
Hypothesis Hw : write_res (serialize_to_h1 req) = Ok len.

Lemma run_turns_reuse rs p h rest i n log :
  responses p rs -> holds (request_key req None) s v [Some s] n -> conns n !! s = Some (p, h, reads_of rs ++ rest) ->
  exists n', run_turns label url_str keep (length rs) i (Some s) connects n log = (n', log ++ report label v s i true rs, Completed).
Proof.
  intros Hr. revert h i n log. induction Hr as [p|p p' chunks evss st spans hs b rs Hne Hp Hm Hl _ IH]; intros h i n log Hh Hc.
  - exists n. cbn. by rewrite app_nil_r.
  - cbn [reads_of] in Hc. rewrite <- app_assoc in Hc.
    destruct (acquire_idle _ _ _ (connects i) _ Hh) as (n1 & Ha & Hh1 & Ec). rewrite <- Ec in Hc.
    destruct (turn_runs req s v (connects i) n n1 p h chunks (reads_of rs ++ rest) evss p' st spans hs b len Ha Hh1 Hv Hc Hw Hne Hp Hm Hl)
      as (resp & n2 & resp' & n3 & h' & E1 & E2 & E3 & E4 & E5 & Hh3 & Hc3).
    cbn [length run_turns]. rewrite Hreq, E1, E2, E3, E4, E5, Z.eqb_refl.
    destruct (IH h' (i + 1) n3 ((log ++ [(Info, log_response_meta label i (MkHead (kept_status (code st) spans) hs) v s true)]) ++
      [(Info, tag label i ++ bs "drained_body_bytes=" ++ to_string_int (zsize b))]) Hh3 Hc3) as [n' ->].
    exists n'. cbn [report]. by rewrite <- !app_assoc.
Qed.
End Sequence.

(** C14 ([run_sequence] of [test_http_keepalive.cpp], functional): on an HTTP/1.x
    connection that answers every request, each answer without trailers and with an end
    that the parser finds in its bytes, whatever way the bytes arrive, the program
    connects once and all requests after the first one report that they reuse its
    session; it prints for every response in order the status code (0 if the parser
    made no [on_status] call, which it makes for each piece of the reason phrase),
    the headers it asks for and the body size, and runs to its end. *)
Theorem keepalive_reuses (label url_str : bytes) (keep : bool) (req : HttpRequest) (s : Z) (v : Version) (len : Z)
    (connects : Z -> Result (Z * Version * P * list (Result bytes))) (p : P) (rs : list (list bytes * HeadParts * bytes))
    (rest : list (Result bytes)) :
  make_request url_str keep = Some req -> is_h1 v = true -> write_res (serialize_to_h1 req) = Ok len ->
  connects 1 = Ok (s, v, p, reads_of rs ++ rest) -> responses p rs -> length rs = kRequestCount ->
  exists n start, run_sequence label url_str keep connects = (n, start :: report label v s 1 false rs, Completed).
Proof.
  intros Hreq Hv Hw Hcon Hr Hlen. unfold run_sequence. rewrite <- Hlen.
  destruct Hr as [p|p p' chunks evss st spans hs b rs Hne Hp Hm Hl Hr]; [done|]. cbn [reads_of] in Hcon. rewrite <- app_assoc in Hcon.
  destruct (acquire_new (request_key req None) s v p ((Ok <$> chunks) ++ reads_of rs ++ rest) (MkNet (MkWorld [] ∅) ∅) eq_refl Hv)
    as (n1 & Ha & Hh1 & Hc1). rewrite <- Hcon in Ha.
  destruct (turn_runs req s v (connects 1) _ n1 p reset_state chunks (reads_of rs ++ rest) evss p' st spans hs b len Ha Hh1 Hv Hc1 Hw Hne Hp Hm Hl)
    as (resp & n2 & resp' & n3 & h' & E1 & E2 & E3 & E4 & E5 & Hh3 & Hc3).
  cbn [length run_turns]. rewrite Hreq, E1, E2, E3, E4, E5.
  set (log := (_ ++ _) ++ _ : lines).
  destruct (run_turns_reuse label url_str keep req s v len connects Hreq Hv Hw rs p' h' rest (1 + 1) n3 log Hr Hh3 Hc3) as [n' ->].
  eexists n', _. unfold log. cbn [report]. by rewrite <- !app_assoc.
Qed.
End KeepAlive.

(** Five times the response of [sample_events], in four chunks each; the parser keeps
    playing them back. *)
Definition sample_responses : list (list bytes * HeadParts * bytes) :=
  replicate 5 ([bs "1"; bs "2"; bs "3"; bs "4"], MkHead (MkStatus 200 (bs "K")) [MkHeader (bs "Server") (bs "x")], bs "ab").

Lemma sample_responses_ok : responses playback (fun _ => sample_events) [] sample_responses.
Proof.
  unfold sample_responses. generalize 5%nat as k. generalize (@nil (list Http1.event)) as p. intros p k. revert p.
  induction k as [|k IH]; intros p; [constructor|].
  apply (responses_cons _ _ p [] [bs "1"; bs "2"; bs "3"; bs "4"] sample_events (MkStatus 200 (bs "OK")) [bs "O"; bs "K"]); [by repeat constructor|done|exact sample_message|done|apply IH].
Qed.

(** Witness of C14. *)
Lemma keepalive_reuses_witness :
  exists n start, run_sequence playback (fun _ => sample_events) (fun _ => Ok 1) (fun _ _ => None) (fun _ => None) (fun _ => bs "p")
      (fun _ => []) (bs "h1") (bs "http://example.com/") true (fun _ => Ok (7, HTTP_11, [], reads_of sample_responses ++ [])) =
    (n, start :: report (fun _ => bs "p") (bs "h1") HTTP_11 7 1 false sample_responses, Completed).
Proof.
  destruct (make_request (bs "http://example.com/") true) as [req|] eqn:E; [|discriminate E].
  apply (keepalive_reuses playback (fun _ => sample_events) (fun _ => Ok 1) (fun _ _ => None) (fun _ => None) (fun _ => bs "p")
    (fun _ => []) (bs "h1") (bs "http://example.com/") true req 7 HTTP_11 1 (fun _ => Ok (7, HTTP_11, [], reads_of sample_responses ++ []))
    [] sample_responses []); [exact E|done|done|done|exact sample_responses_ok|done].
Defined.
