(* ===== verification/Server.v ===== *)
(** ppnt-http: an HTTP/1.x server session.

    [src/ppnt-http/src/server.ixx] ([Http1ServerSession]).  The parser llhttp and
    the connection are as for the client session; the callbacks that collect
    headers and body do what those of the client do, which the proofs use by
    mapping the state of one session to that of the other. *)

From S2P Require Import Prelude Util Url Binary HttpTypes Http1.
From stdpp Require Import strings.

Local Open Scope Z_scope.

Record Http1ServerSession := MkServer {
  request_ : HttpRequest;
  body_buffer_ : bytes;
  temp_header_name_ : bytes;
  temp_header_value_ : bytes;
  last_was_value_ : bool;
  headers_complete_ : bool;
  message_complete_ : bool
}.

Definition reset_state : Http1ServerSession := MkServer HttpRequest_default [] [] [] false false false.

Definition set_headers (hs : HttpHeaderList) (r : HttpRequest) : HttpRequest :=
  MkRequest (url r) (method r) hs (body r) (timeout r).

Definition commit_header (s : Http1ServerSession) : Http1ServerSession :=
  match temp_header_name_ s with
  | [] => s
  | n => MkServer (set_headers (add n (temp_header_value_ s) (headers (request_ s))) (request_ s)) (body_buffer_ s)
           [] [] (last_was_value_ s) (headers_complete_ s) (message_complete_ s)
  end.

Definition on_url (b : bytes) (s : Http1ServerSession) : Http1ServerSession :=
  let r := request_ s in
  MkServer (MkRequest (set_path b (url r)) (method r) (headers r) (body r) (timeout r)) (body_buffer_ s)
    (temp_header_name_ s) (temp_header_value_ s) (last_was_value_ s) (headers_complete_ s) (message_complete_ s).

Definition on_header_field (b : bytes) (s : Http1ServerSession) : Http1ServerSession :=
  let s := if last_was_value_ s then
             let s := commit_header s in
             MkServer (request_ s) (body_buffer_ s) (temp_header_name_ s) (temp_header_value_ s) false
               (headers_complete_ s) (message_complete_ s)
           else s in
  MkServer (request_ s) (body_buffer_ s) (temp_header_name_ s ++ b) (temp_header_value_ s) (last_was_value_ s)
    (headers_complete_ s) (message_complete_ s).

Definition on_header_value (b : bytes) (s : Http1ServerSession) : Http1ServerSession :=
  MkServer (request_ s) (body_buffer_ s) (temp_header_name_ s) (temp_header_value_ s ++ b) true
    (headers_complete_ s) (message_complete_ s).

Definition on_headers_complete (s : Http1ServerSession) : Http1ServerSession :=
  let s := if last_was_value_ s then commit_header s else s in
  MkServer (request_ s) (body_buffer_ s) (temp_header_name_ s) (temp_header_value_ s) (last_was_value_ s) true
    (message_complete_ s).

Definition on_body (b : bytes) (s : Http1ServerSession) : Http1ServerSession :=
  MkServer (request_ s) (body_buffer_ s ++ b) (temp_header_name_ s) (temp_header_value_ s) (last_was_value_ s)
    (headers_complete_ s) (message_complete_ s).

Definition on_message_complete (s : Http1ServerSession) : Http1ServerSession :=
  MkServer (request_ s) (body_buffer_ s) (temp_header_name_ s) (temp_header_value_ s) (last_was_value_ s)
    (headers_complete_ s) true.

(** The parser's callbacks; those without a function in [settings_] do nothing. *)
Inductive server_event := UrlSpan (at_ : bytes) | Ev (e : event).

Definition on_server_event (s : Http1ServerSession) (e : server_event) : Http1ServerSession :=
  match e with
  | UrlSpan b => on_url b s
  | Ev (HeaderField b) => on_header_field b s
  | Ev (HeaderValue b) => on_header_value b s
  | Ev HeadersComplete => on_headers_complete s
  | Ev (Body b) => on_body b s
  | Ev MessageComplete => on_message_complete s
  | Ev (Status _ _) | Ev MessageBegin => s
  end.

Section Server.
Context {P : Type} (execute : P -> bytes -> P * list server_event * bool) (parser_reset : P -> P).
(** [llhttp_method_name(parser_.method)], the name of the parser's error, and
    [llhttp_should_keep_alive]. *)
Context (method_name : P -> bytes) (errno_name : P -> string) (should_keep_alive : P -> bool).

Fixpoint read_request (reads : list (Result bytes)) (p : P) (s : Http1ServerSession)
    : ended (P * Http1ServerSession) () :=
  if headers_complete_ s then Ended (p, s) reads (Ok tt) else
  match reads with
  | [] => Blocked
  | Err e :: reads => Ended (p, s) reads (Err e)
  | Ok [] :: reads => Ended (p, s) reads (make_err_result connection_aborted "eof before headers complete")
  | Ok chunk :: reads =>
      let '(p, evs, ok) := execute p chunk in
      let s := fold_left on_server_event evs s in
      if ok then read_request reads p s else Ended (p, s) reads (make_err_result bad_message (errno_name p))
  end.

(** The request moves out of the session. *)
Definition receive_request (reads : list (Result bytes)) (p : P) : ended (P * Http1ServerSession) HttpRequest :=
  match read_request reads (parser_reset p) reset_state with
  | Blocked => Blocked
  | Ended (p, s) reads (Err e) => Ended (p, s) reads (Err e)
  | Ended (p, s) reads (Ok _) =>
      let r := request_ s in
      let r := MkRequest (url r) (method_name p) (headers r) (body r) (timeout r) in
      Ended (p, MkServer HttpRequest_default (body_buffer_ s) (temp_header_name_ s) (temp_header_value_ s)
                  (last_was_value_ s) (headers_complete_ s) (message_complete_ s)) reads (Ok (HttpRequest_move r))
  end.

Fixpoint receive_body (reads : list (Result bytes)) (p : P) (s : Http1ServerSession)
    : ended (P * Http1ServerSession) bytes :=
  let finish reads :=
    Ended (p, MkServer (request_ s) [] (temp_header_name_ s) (temp_header_value_ s) (last_was_value_ s)
                (headers_complete_ s) (message_complete_ s)) reads (Ok (body_buffer_ s)) in
  if message_complete_ s then finish reads else
  match reads with
  | [] => Blocked
  | Err e :: reads => Ended (p, s) reads (Err e)
  | Ok [] :: reads => finish reads
  | Ok chunk :: reads =>
      let '(p, evs, ok) := execute p chunk in
      let s := fold_left on_server_event evs s in
      if ok then receive_body reads p s else Ended (p, s) reads (make_err_result bad_message "http1 request body")
  end.

(** What is sent and whether the connection is closed afterwards. *)
Definition send_response (write_res : bytes -> Result Z) (payload : bytes) (p : P) : Result () * bool :=
  match write_res payload with
  | Err e => (Err e, false)
  | Ok _ => (Ok tt, negb (should_keep_alive p))
  end.

Fixpoint parse_request_chunks (p : P) (chunks : list bytes) : option (list (list server_event) * P) :=
  match chunks with
  | [] => Some ([], p)
  | c :: chunks =>
      let '(p, evs, ok) := execute p c in
      if ok : bool then '(r, p) ← parse_request_chunks p chunks; Some (evs :: r, p) else None
  end.
End Server.

(** ** The client session does the same *)

Definition to_h1 (s : Http1ServerSession) : Http1Session :=
  MkH1 (body_buffer_ s) (MkHead (MkStatus 0 []) (headers (request_ s))) (temp_header_name_ s) (temp_header_value_ s)
    (last_was_value_ s) (headers_complete_ s) (message_complete_ s).

(** Callbacks the server ignores, or that only concern the URL. *)
Definition strip (e : server_event) : event :=
  match e with UrlSpan _ | Ev (Status _ _) => MessageBegin | Ev e => e end.

Lemma server_simulates es s :
  to_h1 (fold_left on_server_event es s) = fold_left Http1.on_event (strip <$> es) (to_h1 s).
Proof.
  revert s. induction es as [|e es IH]; intros s; [done|]. cbn [fold_left fmap list_fmap]. rewrite IH. f_equal.
  assert (Hc : to_h1 (commit_header s) = Http1.commit_header (to_h1 s)).
  { unfold commit_header, Http1.commit_header. cbn. by destruct (temp_header_name_ s). }
  destruct e as [b|[|c m|b|b| |b|]]; try done; cbn [on_server_event strip Http1.on_event]; clear IH.
  - unfold on_header_field, Http1.on_header_field. change (Http1.last_was_value_ (to_h1 s)) with (last_was_value_ s).
    destruct (last_was_value_ s); [|done]. by rewrite <- Hc.
  - unfold on_headers_complete, Http1.on_headers_complete. change (Http1.last_was_value_ (to_h1 s)) with (last_was_value_ s).
    destruct (last_was_value_ s); [|done]. by rewrite <- Hc.
Qed.

Definition url_after (u : Url) (e : server_event) : Url := match e with UrlSpan b => set_path b u | _ => u end.

Lemma url_collected es s : url (request_ (fold_left on_server_event es s)) = fold_left url_after es (url (request_ s)).
Proof.
  revert s. induction es as [|e es IH]; intros s; [done|]. cbn [fold_left]. rewrite IH. f_equal.
  assert (Hc : url (request_ (commit_header s)) = url (request_ s)) by (unfold commit_header; by destruct (temp_header_name_ s)).
  destruct e as [b|[|c m|b|b| |b|]]; try done; cbn; unfold on_header_field, on_headers_complete; by destruct (last_was_value_ s).
Qed.

Lemma no_body_member es s : body (request_ (fold_left on_server_event es s)) = body (request_ s).
Proof.
  revert s. induction es as [|e es IH]; intros s; [done|]. cbn [fold_left]. rewrite IH.
  assert (Hc : body (request_ (commit_header s)) = body (request_ s)) by (unfold commit_header; by destruct (temp_header_name_ s)).
  destruct e as [b|[|c m|b|b| |b|]]; try done; cbn; unfold on_header_field, on_headers_complete; by destruct (last_was_value_ s).
Qed.

(** The callbacks for a whole request: its URL in one or more spans, its headers
    and its body. *)
Inductive request_events (us : list bytes) (hs : HttpHeaderList) (b : bytes) : list server_event -> Prop :=
| RequestEvents es1 es2 :
    header_events hs es1 -> body_events b es2 ->
    request_events us hs b ((UrlSpan <$> us) ++ (Ev <$> es1) ++ Ev HeadersComplete :: (Ev <$> es2) ++ [Ev MessageComplete]).

Lemma pieces_strip mk b es : (forall a, strip (Ev (mk a)) = mk a) -> pieces mk b es -> strip <$> (Ev <$> es) = es.
Proof. intros Hmk. induction 1 as [b|a b es _ IH]; by rewrite !fmap_cons, Hmk, ?IH. Qed.

Lemma header_events_strip hs es : header_events hs es -> strip <$> (Ev <$> es) = es.
Proof.
  induction 1 as [|h hs es1 es2 es3 _ H1 H2 _ IH]; [done|]. rewrite !fmap_app, IH.
  by rewrite (pieces_strip HeaderField _ _ ltac:(done) H1), (pieces_strip HeaderValue _ _ ltac:(done) H2).
Qed.

Lemma body_events_strip b es : body_events b es -> strip <$> (Ev <$> es) = es.
Proof. induction 1 as [|a b es _ IH]; [done|]. by rewrite !fmap_cons, IH. Qed.

Lemma urls_strip us s : fold_left Http1.on_event (strip <$> (UrlSpan <$> us)) s = s.
Proof. induction us as [|u us IH]; [done|]. exact IH. Qed.

Lemma no_urls es u : fold_left url_after (Ev <$> es) u = u.
Proof. induction es as [|e es IH]; [done|]. exact IH. Qed.

(** ** The loops *)

Section Loops.
Context {P : Type} (execute : P -> bytes -> P * list server_event * bool) (errno_name : P -> string).

Lemma read_request_chunks chunks p evss p' s :
  parse_request_chunks execute p chunks = Some (evss, p') -> Forall (fun c => c <> []) chunks ->
  headers_complete_ (fold_left on_server_event (concat evss) s) = true ->
  exists p1 c2 e1 e2, evss = e1 ++ e2 /\ parse_request_chunks execute p1 c2 = Some (e2, p') /\ Forall (fun c => c <> []) c2 /\
    headers_complete_ (fold_left on_server_event (concat e1) s) = true /\
    read_request execute errno_name (Ok <$> chunks) p s =
    Ended (p1, fold_left on_server_event (concat e1) s) (Ok <$> c2) (Ok tt).
Proof.
  revert p evss s. induction chunks as [|c chunks IH]; intros p evss s Hp Hne Hc.
  - injection Hp as <- <-. cbn in Hc. exists p, [], [], []. cbn. by rewrite Hc.
  - destruct (headers_complete_ s) eqn:Ehc.
    + exists p, (c :: chunks), [], evss. cbn [concat fold_left app fmap list_fmap read_request]. by rewrite Ehc.
    + cbn [parse_request_chunks] in Hp. destruct (execute p c) as [[p1 evs] ok] eqn:Ee. destruct ok; [|done].
      destruct (parse_request_chunks execute p1 chunks) as [[r p2]|] eqn:Er; [|done]. cbn in Hp. injection Hp as <- <-.
      apply Forall_cons in Hne as [Hc0 Hne]. cbn [concat] in Hc. rewrite fold_left_app in Hc.
      destruct (IH _ _ _ Er Hne Hc) as (q & c2 & e1 & e2 & -> & H1 & H2 & H3 & H4).
      exists q, c2, (evs :: e1), e2. cbn [concat fmap list_fmap read_request]. rewrite fold_left_app, Ehc, Ee.
      destruct c; [done|]. done.
Qed.

Lemma receive_body_chunks chunks p evss p' s :
  parse_request_chunks execute p chunks = Some (evss, p') -> Forall (fun c => c <> []) chunks ->
  message_complete_ (fold_left on_server_event (concat evss) s) = true ->
  exists st reads e1 e2, evss = e1 ++ e2 /\ message_complete_ (fold_left on_server_event (concat e1) s) = true /\
    receive_body execute (Ok <$> chunks) p s = Ended st reads (Ok (body_buffer_ (fold_left on_server_event (concat e1) s))).
Proof.
  revert p evss s. induction chunks as [|c chunks IH]; intros p evss s Hp Hne Hc.
  - injection Hp as <- <-. cbn in Hc. eexists _, _, [], []. cbn. by rewrite Hc.
  - destruct (message_complete_ s) eqn:Emc.
    + eexists _, _, [], evss. cbn [concat fold_left app fmap list_fmap receive_body]. by rewrite Emc.
    + cbn [parse_request_chunks] in Hp. destruct (execute p c) as [[p1 evs] ok] eqn:Ee. destruct ok; [|done].
      destruct (parse_request_chunks execute p1 chunks) as [[r p2]|] eqn:Er; [|done]. cbn in Hp. injection Hp as <- <-.
      apply Forall_cons in Hne as [Hc0 Hne]. cbn [concat] in Hc. rewrite fold_left_app in Hc.
      destruct (IH _ _ _ Er Hne Hc) as (st & reads & e1 & e2 & -> & H3 & H4).
      exists st, reads, (evs :: e1), e2. cbn [concat fmap list_fmap receive_body]. rewrite fold_left_app, Emc, Ee.
      destruct c; [done|]. done.
Qed.
End Loops.

Lemma server_effect es s :
  body_buffer_ (fold_left on_server_event es s) = body_buffer_ s ++ concat (body_of <$> (strip <$> es)) /\
  headers_complete_ (fold_left on_server_event es s) = headers_complete_ s || existsb is_hc (strip <$> es) /\
  message_complete_ (fold_left on_server_event es s) = message_complete_ s || existsb is_mc (strip <$> es).
Proof.
  pose proof (server_simulates es s) as E. destruct (events_effect (strip <$> es) (to_h1 s)) as (H1 & H2 & H3).
  rewrite <- E in H1, H2, H3. exact (conj H1 (conj H2 H3)).
Qed.

Lemma last_default {A} (x : A) l d d' : List.last (x :: l) d = List.last (x :: l) d'.
Proof. revert x. induction l as [|y l IH]; intros x; [done|]. exact (IH y). Qed.

(** The request at the end of its headers. *)
Lemma request_collected us hs es1 q :
  header_events hs es1 -> Forall body_phase q ->
  let s := fold_left on_server_event ((UrlSpan <$> us) ++ (Ev <$> es1) ++ Ev HeadersComplete :: (Ev <$> q)) reset_state in
  headers (request_ s) = hs /\ url (request_ s) = set_path (List.last us [47]) Url_default.
Proof.
  intros Hh Hq. cbv zeta. split.
  - set (es := (UrlSpan <$> us) ++ _). change (headers (request_ ?s)) with (head_headers (response_ (to_h1 s))).
    rewrite server_simulates. unfold es. rewrite !fmap_app, fmap_cons, fold_left_app, urls_strip, fold_left_app.
    rewrite (header_events_strip _ _ Hh). cbn [fold_left strip].
    assert (Hs : strip <$> (Ev <$> q) = q) by (clear -Hq; induction Hq as [|e q He _ IH]; [done|]; rewrite !fmap_cons, IH; by destruct e).
    rewrite Hs, body_phase_response by done. pose proof (header_run hs es1 (to_h1 reset_state) Hh eq_refl eq_refl) as E.
    transitivity (head_headers (response_ (settle (fold_left Http1.on_event es1 (to_h1 reset_state))))); [|by rewrite E].
    unfold settle. cbn [Http1.on_event]. unfold Http1.on_headers_complete. by destruct (Http1.last_was_value_ _).
  - rewrite url_collected, !fold_left_app. cbn [fold_left url_after]. rewrite !no_urls.
    change (url (request_ reset_state)) with Url_default. clear.
    assert (H : forall u, fold_left url_after (UrlSpan <$> us) u = set_path (List.last us (path_ u)) u); [|by apply H].
    induction us as [|x us IH]; intros u; [by destruct u|]. cbn [fmap list_fmap fold_left]. rewrite IH.
    destruct us as [|y us]; [done|]. cbn [url_after]. by rewrite (last_default y us _ (path_ u)).
Qed.

Lemma existsb_strip f es : existsb f (strip <$> es) = existsb (fun e => f (strip e)) es.
Proof. induction es as [|e es IH]; [done|]. cbn [fmap list_fmap existsb]. by rewrite <- IH. Qed.

Lemma ev_body_phase q r es2 :
  (Ev <$> es2) ++ [Ev MessageComplete] = q ++ r -> Forall body_phase es2 ->
  exists q', q = Ev <$> q' /\ Forall body_phase q'.
Proof.
  intros E Hb. assert (E' : Ev <$> (es2 ++ [MessageComplete]) = q ++ r) by (by rewrite fmap_app).
  apply fmap_app_inv in E' as (q' & r' & -> & -> & Es). exists q'. split; [done|].
  assert (H : Forall body_phase (q' ++ r')) by (rewrite <- Es; apply Forall_app; split; [done|by repeat constructor]).
  by apply Forall_app in H as [? _].
Qed.

Lemma urls_headers_plain us hs es1 :
  header_events hs es1 -> forall f, f MessageBegin = false -> existsb f es1 = false ->
  existsb (fun e => f (strip e)) ((UrlSpan <$> us) ++ (Ev <$> es1)) = false.
Proof.
  intros Hh f Hf He. rewrite <- existsb_strip, fmap_app, (header_events_strip _ _ Hh), existsb_app, He, orb_false_r. clear -Hf.
  induction us as [|u us IH]; [done|]. cbn. by rewrite Hf.
Qed.

Lemma urls_headers_no_body us hs es1 :
  header_events hs es1 -> concat (body_of <$> (strip <$> ((UrlSpan <$> us) ++ (Ev <$> es1)))) = [].
Proof.
  intros Hh. destruct (header_events_plain _ _ Hh) as (_ & _ & A3).
  rewrite fmap_app, (header_events_strip _ _ Hh), fmap_app, concat_app, A3, app_nil_r. clear. by induction us.
Qed.

(** C34 ([Http1ServerSession::receive_request] and [receive_body], functional):
    however the bytes of a request are cut into reads, and however the parser
    cuts header names, header values and the body into callbacks, the request
    has all headers in order, the parser's method and as path the last span of
    the URL: the whole URL if the parser reports it in one span, and only its last
    piece if it reports more, as it does when a read ends inside the URL.
    [receive_body] then returns the body. *)
Theorem server_request_collects {P} (execute : P -> bytes -> P * list server_event * bool) (parser_reset : P -> P)
    method_name errno_name chunks p evss p' us hs b :
  Forall (fun c => c <> []) chunks -> parse_request_chunks execute (parser_reset p) chunks = Some (evss, p') ->
  request_events us hs b (concat evss) ->
  exists p1 s1 reads st2 reads2,
    receive_request execute parser_reset method_name errno_name (Ok <$> chunks) p =
      Ended (p1, s1) reads
        (Ok (MkRequest (set_path (List.last us [47]) Url_default) (method_name p1) hs None HttpTimeout_default)) /\
    receive_body execute reads p1 s1 = Ended st2 reads2 (Ok b).
Proof.
  intros Hne Hp Hm. inversion Hm as [es1 es2 Hh Hb E]. destruct (body_events_plain _ _ Hb) as (B1 & B2 & B3).
  destruct (header_events_plain _ _ Hh) as (A1 & A2 & A3).
  pose proof (urls_headers_plain us hs es1 Hh) as Hpre.
  rewrite app_assoc in E. set (pre := (UrlSpan <$> us) ++ (Ev <$> es1)) in *.
  destruct (read_request_chunks execute errno_name chunks _ _ _ reset_state Hp Hne) as (p1 & c2 & e1 & e2 & -> & Hp2 & Hne2 & Hc & Er).
  { rewrite (proj1 (proj2 (server_effect _ _))), <- E, fmap_app, existsb_app. cbn. by rewrite orb_true_r. }
  rewrite concat_app in E. rewrite (proj1 (proj2 (server_effect _ _))), existsb_strip in Hc. cbn [headers_complete_ reset_state orb] in Hc.
  destruct (marked_prefix _ _ _ _ _ _ E (Hpre is_hc eq_refl A1) Hc) as (q & Eq & Epost).
  destruct (ev_body_phase _ _ _ Epost B3) as (q' & -> & Hq).
  set (s1 := fold_left on_server_event (concat e1) reset_state) in *.
  assert (Hreq : headers (request_ s1) = hs /\ url (request_ s1) = set_path (List.last us [47]) Url_default).
  { unfold s1. rewrite Eq. unfold pre. rewrite <- app_assoc. by apply request_collected. }
  assert (Hbody : body (request_ s1) = None) by apply no_body_member.
  unfold receive_request. rewrite Er. destruct Hreq as [-> ->]. rewrite Hbody.
  set (s2 := MkServer HttpRequest_default _ _ _ _ _ _).
  assert (Hs2 : body_buffer_ s2 = concat (body_of <$> (strip <$> (Ev <$> q'))) /\
                message_complete_ s2 = existsb (fun e => is_mc (strip e)) (Ev <$> q')).
  { cbn [s2 body_buffer_ message_complete_]. destruct (server_effect (concat e1) reset_state) as (E1 & _ & E3).
    fold s1 in E1, E3. rewrite E1, E3, existsb_strip, Eq, fmap_app, existsb_app, fmap_app, concat_app.
    rewrite (Hpre is_mc eq_refl A2). split; [|done]. unfold pre. by rewrite (urls_headers_no_body _ _ _ Hh). }
  destruct (receive_body_chunks execute c2 _ _ _ s2 Hp2 Hne2) as (st2 & reads2 & e21 & e22 & -> & Hmc & Eb).
  { destruct (server_effect (concat e2) s2) as (_ & _ & ->). rewrite (proj2 Hs2), existsb_strip, <- existsb_app, <- Epost, existsb_app.
    cbn. by rewrite orb_true_r. }
  exists p1, s2, (Ok <$> c2), st2, reads2. split; [done|]. rewrite Eb. do 2 f_equal.
  destruct (server_effect (concat e21) s2) as (Hbb & _ & Hmm). rewrite Hmm, (proj2 Hs2), existsb_strip, <- existsb_app in Hmc.
  rewrite concat_app, app_assoc in Epost. rewrite Hbb, (proj1 Hs2).
  assert (B1' : existsb (fun e => is_mc (strip e)) (Ev <$> es2) = false) by (by rewrite <- existsb_strip, (body_events_strip _ _ Hb)).
  destruct (marked_prefix _ _ _ _ _ _ Epost B1' Hmc) as (q2 & Eq2 & Enil).
  rewrite <- concat_app, <- !fmap_app, Eq2, !fmap_app, concat_app, (body_events_strip _ _ Hb), B2.
  destruct q2; [|done]. cbn. by rewrite app_nil_r.
Qed.

(** A parser that plays back callbacks, a list for each chunk. *)
Definition server_playback (p : list (list server_event)) (c : bytes) : list (list server_event) * list server_event * bool :=
  match p with [] => ([], [], false) | evs :: p => (p, evs, true) end.

Definition sample_request_events : list (list server_event) :=
  [[UrlSpan (bs "/i"); Ev (HeaderField (bs "Ho"))];
   [Ev (HeaderField (bs "st")); Ev (HeaderValue (bs "h")); Ev HeadersComplete; Ev (Body (bs "a"))];
   [Ev MessageComplete]].

(** Witness of C34. *)
Lemma server_request_collects_witness :
  exists p1 s1 reads st2 reads2,
    receive_request server_playback (fun p => p) (fun _ => bs "POST") (fun _ => EmptyString) (Ok <$> [bs "1"; bs "2"; bs "3"])
      sample_request_events =
      Ended (p1, s1) reads
        (Ok (MkRequest (set_path (bs "/i") Url_default) (bs "POST") [MkHeader (bs "Host") (bs "h")] None HttpTimeout_default)) /\
    receive_body server_playback reads p1 s1 = Ended st2 reads2 (Ok (bs "a")).
Proof.
  apply (server_request_collects server_playback (fun p => p) (fun _ => bs "POST") (fun _ => EmptyString) _ sample_request_events
    sample_request_events [] [bs "/i"]); [by repeat constructor|done|].
  apply (RequestEvents [bs "/i"] [MkHeader (bs "Host") (bs "h")] (bs "a")
    [HeaderField (bs "Ho"); HeaderField (bs "st"); HeaderValue (bs "h")] [Body (bs "a")]).
  - apply (header_events_cons (MkHeader (bs "Host") (bs "h")) [] [HeaderField (bs "Ho"); HeaderField (bs "st")]
      [HeaderValue (bs "h")] []); [done| |apply piece_last|constructor].
    apply (piece_more HeaderField (bs "Ho") (bs "st")), piece_last.
  - apply (body_events_cons (bs "a") []), body_events_nil.
Defined.
