(* ===== verification/Tls.v ===== *)
(** ppnt-io/net: rewriting a TLS ClientHello.

    [src/ppnt-io/src/net/pptls.ixx] (the specification types) and [pptls.cpp]
    ([ClientHelloRewriter::rewrite]): the hello BoringSSL produced is parsed
    with a [BinaryReader] and printed again with a [BinartWriter], with the
    cipher suites, compression methods and extension order of a
    [ClientHelloSpec].  An access outside a buffer is [Undefined]. *)

From S2P Require Import Prelude Binary.
From stdpp Require Import strings.

Local Open Scope Z_scope.

Inductive Strategy := Auto | ForceData | Drop.

Record TlsExtensionConfig := MkExtension { id : Z; strategy : Strategy; data : bytes }.

Record ClientHelloSpec := MkSpec {
  cipher_suites : list Z;
  compression_method : bytes;
  extensions : list TlsExtensionConfig
}.

(** The default member initialisers. *)
Definition ClientHelloSpec_default : ClientHelloSpec := MkSpec [] [0] [].

(** ** Reading *)

(** A read whose failure is only looked at later. *)
Definition attempt {A B} (m : rres A) (k : option A -> BinaryReader -> outcome B) : outcome B :=
  match m with
  | Got a r => k (Some a) r
  | Nullopt r => k None r
  | OutOfBounds => Undefined
  end.

(** [if (!x) return make_err_result(std::errc::bad_message, msg)]. *)
Definition require {A B} (x : option A) (msg : string) (k : A -> outcome B) : outcome B :=
  match x with Some a => k a | None => Returns (make_err_result bad_message msg) end.

(** A read checked at once. *)
Definition got {A B} (m : rres A) (msg : string) (k : A -> BinaryReader -> outcome B) : outcome B :=
  attempt m (fun x r => require x msg (fun a => k a r)).

(** The [while (ex_reader.remaining())] loop.  Every turn consumes at least
    four bytes, so the length of the block is enough fuel; running out of it
    is [Undefined] here, which [rewrite] never is. *)
Fixpoint parse_extensions (fuel : nat) (ex_reader : BinaryReader)
    (parsed_extensions : list (Z * bytes)) : outcome (list (Z * bytes)) :=
  if remaining ex_reader =? 0 then Returns (Ok parsed_extensions)
  else
    match fuel with
    | O => Undefined
    | S fuel =>
        attempt (read_u16 big ex_reader) (fun type ex_reader =>
        attempt (read_u16 big ex_reader) (fun len ex_reader =>
        require type "cannot read type or len" (fun type =>
        require len "cannot read type or len" (fun len =>
        got (read_bytes len ex_reader) "cannot read data" (fun data ex_reader =>
        parse_extensions fuel ex_reader (parsed_extensions ++ [(type, data)]))))))
    end.

(** ** Writing *)

Definition find_extension (parsed : list (Z * bytes)) (i : Z) : option bytes :=
  snd <$> List.find (fun p => fst p =? i) parsed.

Definition write_extension (i : Z) (payload buf : bytes) : bytes :=
  write_bytes payload (write_u16 (u16 (zsize payload)) big (write_u16 i big buf)).

(** One turn of the loop over [spec.extensions]: the handled ids and the
    buffer. *)
Definition write_spec_extension (parsed : list (Z * bytes))
    (st : list Z * bytes) (ext_cfg : TlsExtensionConfig) : list Z * bytes :=
  let '(handled_ext_ids, buf) := st in
  let handled_ext_ids := handled_ext_ids ++ [id ext_cfg] in
  match strategy ext_cfg with
  | Drop => (handled_ext_ids, buf)
  | ForceData => (handled_ext_ids, write_extension (id ext_cfg) (data ext_cfg) buf)
  | Auto =>
      match find_extension parsed (id ext_cfg) with
      | Some payload => (handled_ext_ids, write_extension (id ext_cfg) payload buf)
      | None => (handled_ext_ids, buf)
      end
  end.

(** One turn of the loop over the parsed extensions. *)
Definition write_remaining_extension (handled_ext_ids : list Z) (buf : bytes) (e : Z * bytes) : bytes :=
  if existsb (Z.eqb (fst e)) handled_ext_ids then buf
  else write_extension (fst e) (snd e) buf.

Definition write_extensions (spec : ClientHelloSpec) (parsed : list (Z * bytes)) (buf : bytes) : bytes :=
  let '(handled_ext_ids, buf) :=
    fold_left (write_spec_extension parsed) (extensions spec) ([], buf) in
  fold_left (write_remaining_extension handled_ext_ids) parsed buf.

Definition write_ciphers (spec : ClientHelloSpec) (buf : bytes) : bytes :=
  fold_left (fun buf cipher => write_u16 cipher big buf) (cipher_suites spec) buf.

(** Everything after the parse. *)
Definition write_hello (spec : ClientHelloSpec) (legacy_ver : Z) (random : bytes)
    (session_id_len : Z) (session_id : bytes) (parsed : list (Z * bytes)) : option bytes :=
  let w := write_u8 1 [] in
  let len_pos_idx := length w in
  let w := write_u8 0 (write_u8 0 (write_u8 0 w)) in
  let body_start_idx := zsize w in
  let w := write_bytes random (write_u16 legacy_ver big w) in
  let w := write_bytes session_id (write_u8 session_id_len w) in
  w ← write_u16_length_prefixed_block (write_ciphers spec) w;
  let w := write_u8 (u8 (zsize (compression_method spec))) w in
  let w := write_bytes (compression_method spec) w in
  w ← write_u16_length_prefixed_block (write_extensions spec parsed) w;
  let body_len := u64 (zsize w - body_start_idx) in
  w ← set_at len_pos_idx (u8 (Z.shiftr body_len 16)) w;
  w ← set_at (len_pos_idx + 1) (u8 (Z.shiftr body_len 8)) w;
  set_at (len_pos_idx + 2) (u8 body_len) w.

(** ** [ClientHelloRewriter::rewrite] *)

Definition rewrite (original : bytes) (spec : ClientHelloSpec) : outcome bytes :=
  let r := reader original in
  attempt (read_u8 r) (fun handshake_type r =>
  attempt (read_bytes 3 r) (fun handshake_len r =>
  require handshake_type "cannot read handshake type" (fun handshake_type =>
  if negb (handshake_type =? 1) then Returns (make_err_result bad_message "not a client hello")
  else
  require handshake_len "cannot read handshake len" (fun _ =>
  got (read_u16 big r) "cannot read legacy version" (fun legacy_ver r =>
  got (read_bytes 32 r) "cannot read random" (fun random r =>
  got (read_u8 r) "cannot read session id len" (fun session_id_len r =>
  got (read_bytes session_id_len r) "cannot read session id" (fun session_id r =>
  got (read_u16 big r) "cannot read ciphers len" (fun ciphers_len r =>
  got (read_bytes ciphers_len r) "cannot read ciphers" (fun _ r =>
  got (read_u8 r) "cannot read compress len" (fun comp_len r =>
  got (read_bytes comp_len r) "cannot read compress" (fun _ r =>
  got (read_u16 big r) "cannot read extension block len" (fun ext_block_len r =>
  got (read_bytes ext_block_len r) "cannot read ext_block_data" (fun ext_block_data r =>
  match parse_extensions (length ext_block_data) (reader ext_block_data) [] with
  | Returns (Ok parsed_extensions) =>
      match write_hello spec legacy_ver random session_id_len session_id parsed_extensions with
      | Some out => Returns (Ok out)
      | None => Undefined
      end
  | Returns (Err e) => Returns (Err e)
  | Undefined => Undefined
  end)))))))))))))).

(** ** Reference: a hello and its bytes *)

Record hello := MkHello {
  h_version : Z;
  h_random : bytes;
  h_session_id : bytes;
  h_ciphers : bytes;
  h_compression : bytes;
  h_extensions : list (Z * bytes)
}.

Definition extension_bytes (e : Z * bytes) : bytes :=
  field_bytes (FU16 big (fst e)) ++ field_bytes (FVec16 big (snd e)).

Definition body_fields (h : hello) : list field :=
  [FU16 big (h_version h); FBytes (h_random h); FVec8 (h_session_id h); FVec16 big (h_ciphers h);
   FVec8 (h_compression h); FVec16 big (concat (extension_bytes <$> h_extensions h))].

Definition body_bytes (h : hello) : bytes := concat (field_bytes <$> body_fields h).

Definition hello_bytes (h : hello) : bytes :=
  field_bytes (FU8 1) ++ field_bytes (FVec24 (body_bytes h)).

(** The extensions of the result: the configured ones in their order, then the
    others of the original in theirs. *)
Definition configured (es : list (Z * bytes)) (c : TlsExtensionConfig) : list (Z * bytes) :=
  match strategy c with
  | Drop => []
  | ForceData => [(id c, data c)]
  | Auto => match find_extension es (id c) with Some p => [(id c, p)] | None => [] end
  end.

Definition apply_extensions (cfgs : list TlsExtensionConfig) (es : list (Z * bytes)) : list (Z * bytes) :=
  concat (configured es <$> cfgs) ++ filter (fun e => fst e ∉ id <$> cfgs) es.

Definition apply_spec (spec : ClientHelloSpec) (h : hello) : hello :=
  MkHello (h_version h) (h_random h) (h_session_id h)
    (concat (int_bytes 2 big <$> cipher_suites spec)) (compression_method spec)
    (apply_extensions (extensions spec) (h_extensions h)).

(** The reference parser, over the unread bytes. *)
Definition p_bind {A B} (p : parser A) (q : A -> parser B) : parser B :=
  fun s => match p s with Some (a, s) => q a s | None => None end.

Definition p_ext : parser (Z * bytes) :=
  p_bind (p_int 2 big) (fun type => p_bind (p_int 2 big) (fun len =>
  p_bind (p_span len Datatypes.id) (fun data s => Some ((type, data), s)))).

Fixpoint p_exts (fuel : nat) (s : bytes) : option (list (Z * bytes)) :=
  match s, fuel with
  | [], _ => Some []
  | _, O => None
  | _, S fuel => match p_ext s with Some (e, s) => cons e <$> p_exts fuel s | None => None end
  end.

Definition p_vec (n : nat) : parser bytes :=
  p_bind (p_int n big) (fun len => p_span len Datatypes.id).

Definition parse_hello : parser hello :=
  p_bind (p_int 1 big) (fun type => p_bind (p_span 3 Datatypes.id) (fun _ =>
  p_bind (fun s => if type =? 1 then Some (tt, s) else None) (fun _ =>
  p_bind (p_int 2 big) (fun version => p_bind (p_span 32 Datatypes.id) (fun random =>
  p_bind (p_vec 1) (fun session => p_bind (p_vec 2) (fun ciphers =>
  p_bind (p_vec 1) (fun compression => p_bind (p_vec 2) (fun block s =>
  match p_exts (length block) block with
  | Some es => Some (MkHello version random session ciphers compression es, s)
  | None => None
  end))))))))).

(** ** The reader part refines the reference parser *)

(** [o] continues as [k] on what the parser found, or reports [bad_message]. *)
Definition follows {A B} (o : outcome B) (p : option (A * bytes)) (k : A -> outcome B) : Prop :=
  match p with
  | Some (a, _) => o = k a
  | None => exists msg, o = Returns (make_err_result bad_message msg)
  end.

Lemma got_follows {A B C} r (m : rres A) (p : parser A) msg f (q : A -> parser B) (k : B -> outcome C) :
  agrees r m (p (unread r)) ->
  (forall a r', reader_wf r' -> p (unread r) = Some (a, unread r') ->
                follows (f a r') (q a (unread r')) k) ->
  follows (got m msg f) (p_bind p q (unread r)) k.
Proof.
  intros Hm Hf. unfold p_bind, agrees in *.
  destruct (p (unread r)) as [[a s]|]; destruct Hm as (r' & -> & W & H); [|by exists msg].
  destruct H as [<- _]. by apply Hf.
Qed.

Lemma p_bind_assoc {A B C} (p : parser A) (q : A -> parser B) (k : B -> parser C) s :
  p_bind (p_bind p q) k s = p_bind p (fun a => p_bind (q a) k) s.
Proof. unfold p_bind. by destruct (p s) as [[a s']|]. Qed.

Lemma p_span_id n s x s' :
  0 <= n -> p_span n Datatypes.id s = Some (x, s') -> zsize x = n /\ s = x ++ s'.
Proof.
  intros Hn. unfold p_span. destruct (Z.leb_spec n (zsize s)); [|done]. intros [= <- <-].
  unfold Datatypes.id. rewrite take_drop. split; [|done]. unfold zsize in *. rewrite length_take. lia.
Qed.

(** A length read as an integer, then that many bytes. *)
Lemma vec_follows {B C} n r len msg1 msg2 f (q : bytes -> parser B) (k : B -> outcome C) :
  (n <= 3)%nat -> reader_wf r -> agrees r (len r) (p_int n big (unread r)) ->
  (forall x r', reader_wf r' -> p_vec n (unread r) = Some (x, unread r') ->
                zsize x < 256 ^ Z.of_nat n -> follows (f (zsize x) x r') (q x (unread r')) k) ->
  follows (got (len r) msg1 (fun l r => got (read_bytes l r) msg2 (f l))) (p_bind (p_vec n) q (unread r)) k.
Proof.
  intros Hn W Hl Hf. unfold p_vec at 1. rewrite p_bind_assoc. eapply got_follows; [exact Hl|].
  intros l r' W' E. pose proof (p_int_bound _ _ _ _ _ (unread_bytes r W) E) as Hb.
  assert (256 ^ Z.of_nat n <= 256 ^ 3) by (apply Z.pow_le_mono_r; lia).
  apply got_follows; [apply read_bytes_agrees; [done|lia]|].
  intros x r'' W'' E'. destruct (p_span_id l _ _ _ (proj1 Hb) E') as [<- _].
  apply Hf; [done| |lia]. unfold p_vec, p_bind. by rewrite E.
Qed.

Lemma remaining_unread r : reader_wf r -> (remaining r =? 0) = bool_decide (unread r = []).
Proof.
  intros W. pose proof (unread_size r W) as Hs. destruct W as [? ? _]. unfold remaining, u64.
  rewrite Z.mod_small by lia. rewrite <- Hs. destruct (unread r); [done|].
  rewrite bool_decide_eq_false_2 by done. apply Z.eqb_neq. unfold zsize. simpl. lia.
Qed.

(** One turn of the extension loop: both reads come before their checks. *)
Lemma extension_turn {B} r msg1 msg2 (f : Z -> bytes -> BinaryReader -> outcome B) :
  reader_wf r ->
  let turn :=
    attempt (read_u16 big r) (fun type r => attempt (read_u16 big r) (fun len r =>
    require type msg1 (fun type => require len msg1 (fun len =>
    got (read_bytes len r) msg2 (f type))))) in
  match p_ext (unread r) with
  | Some (e, s) => exists r', reader_wf r' /\ unread r' = s /\ turn = f (fst e) (snd e) r'
  | None => exists msg, turn = Returns (make_err_result bad_message msg)
  end.
Proof.
  intros W turn. subst turn. unfold p_ext, p_bind.
  pose proof (read_u16_agrees big r W) as H1. unfold agrees in H1.
  destruct (p_int 2 big (unread r)) as [[ty s1]|]; destruct H1 as (r1 & -> & W1 & H1); cbn [attempt];
    pose proof (read_u16_agrees big r1 W1) as H2; unfold agrees in H2.
  - destruct H1 as [<- _].
    destruct (p_int 2 big (unread r1)) as [[len s2]|] eqn:E2; destruct H2 as (r2 & -> & W2 & H2);
      cbn [attempt require]; [|by exists msg1].
    destruct H2 as [<- _]. pose proof (p_int_bound _ _ _ _ _ (unread_bytes r1 W1) E2) as Hb.
    pose proof (read_bytes_agrees len r2 W2 ltac:(lia)) as H3. unfold agrees in H3.
    destruct (p_span len Datatypes.id (unread r2)) as [[d s]|]; destruct H3 as (r3 & -> & W3 & H3).
    + exists r3. naive_solver.
    + by exists msg2.
  - destruct (p_int 2 big (unread r1)) as [[? ?]|]; destruct H2 as (r2 & -> & _); by exists msg1.
Qed.

Lemma p_ext_shrinks s e s' : p_ext s = Some (e, s') -> (length s' < length s)%nat.
Proof.
  unfold p_ext, p_bind, p_int, p_span at 1.
  destruct (Z.leb_spec (Z.of_nat 2) (zsize s)); [|done].
  unfold p_span at 1. destruct (Z.leb_spec (Z.of_nat 2) (zsize (drop (Z.to_nat (Z.of_nat 2)) s))); [|done].
  set (len := int_value _ _). unfold p_span. destruct (len <=? _); [|done].
  intros [= _ <-]. unfold zsize in *. rewrite !length_drop. lia.
Qed.

Lemma parse_extensions_follows fuel r acc :
  reader_wf r -> (length (unread r) <= fuel)%nat ->
  match p_exts fuel (unread r) with
  | Some es => parse_extensions fuel r acc = Returns (Ok (acc ++ es))
  | None => exists msg, parse_extensions fuel r acc = Returns (make_err_result bad_message msg)
  end.
Proof.
  revert r acc. induction fuel as [|fuel IH]; intros r acc W Hl.
  - assert (E : unread r = []) by (destruct (unread r); simpl in *; [done|lia]).
    rewrite E. cbn. rewrite remaining_unread, bool_decide_eq_true_2, app_nil_r; done.
  - cbn [parse_extensions p_exts]. rewrite remaining_unread by done.
    destruct (unread r) as [|c s] eqn:E; [by rewrite bool_decide_eq_true_2, app_nil_r|].
    rewrite bool_decide_eq_false_2 by done. rewrite <- E in *.
    pose proof (extension_turn r "cannot read type or len" "cannot read data"
      (fun t d r => parse_extensions fuel r (acc ++ [(t, d)])) W) as H. cbv zeta in H.
    destruct (p_ext (unread r)) as [[e s']|] eqn:Ee; [|exact H].
    destruct H as (r' & W' & <- & ->). apply p_ext_shrinks in Ee.
    specialize (IH r' (acc ++ [e]) W' ltac:(lia)). destruct e as [t d]. cbn [fst snd].
    destruct (p_exts fuel (unread r')); cbn; [by rewrite IH, <- app_assoc|exact IH].
Qed.

(** ** The writer part prints the reference hello *)

Lemma le_split_mod n : forall m v, (n <= m)%nat ->
  le_split n (v mod 256 ^ Z.of_nat m) = le_split n v.
Proof.
  induction n as [|n IH]; intros m v Hm; [done|]. destruct m as [|m]; [lia|].
  rewrite Nat2Z.inj_succ, Z.pow_succ_r by lia. rewrite Z.rem_mul_r by lia. cbn [le_split].
  rewrite <- (IH m (v / 256)) by lia. generalize ((v / 256) mod 256 ^ Z.of_nat m). intros x.
  f_equal; [zdiv_lia|]. f_equal. zdiv_lia.
Qed.

Lemma int_bytes_u16 v : int_bytes 2 big (u16 v) = int_bytes 2 big v.
Proof. unfold int_bytes, u16. f_equal. by apply (le_split_mod 2 2). Qed.

(** The bytes of a length stored from a [size_t], most significant first. *)
Lemma stored_length v :
  u8 (Z.shiftr (u64 v) 16) = v / 65536 mod 256 /\
  u8 (Z.shiftr (u64 v) 8) = v / 256 mod 256 /\ u8 (u64 v) = v mod 256.
Proof.
  pose proof (le_split_mod 3 8 v ltac:(lia)) as H. cbn [le_split] in H.
  change (256 ^ Z.of_nat 8) with (2 ^ 64) in H. fold (u64 v) in H.
  rewrite !Z.div_div in H by lia. injection H as H0 H1 H2.
  rewrite !Z.shiftr_div_pow2 by lia. done.
Qed.

Lemma set_at_app pre x post v i :
  i = length pre -> set_at i v (pre ++ x :: post) = Some (pre ++ v :: post).
Proof.
  intros ->. unfold set_at. rewrite (proj2 (Nat.ltb_lt _ _)) by (rewrite length_app; simpl; lia).
  f_equal. rewrite insert_app_r_alt, Nat.sub_diag by lia. done.
Qed.

Lemma write_u16_app v buf : write_u16 v big buf = buf ++ int_bytes 2 big v.
Proof. unfold write_u16, write_bytes. by rewrite byteswap_bytes. Qed.

Lemma write_block_app block buf d :
  (forall b, block b = b ++ d) ->
  write_u16_length_prefixed_block block buf = Some (buf ++ int_bytes 2 big (zsize d) ++ d).
Proof.
  intros Hb. unfold write_u16_length_prefixed_block. rewrite Hb, write_u16_app.
  change (int_bytes 2 big 0) with [0; 0].
  rewrite (zsize_app _ d), Z.add_simpl_l. destruct (stored_length (zsize d)) as (_ & -> & ->).
  rewrite <- app_assoc. cbn [app]. rewrite set_at_app by done. cbn.
  replace (buf ++ zsize d / 256 mod 256 :: 0 :: d) with ((buf ++ [zsize d / 256 mod 256]) ++ 0 :: d)
    by (rewrite <- app_assoc; done).
  rewrite set_at_app by (rewrite length_app; done). rewrite <- app_assoc. done.
Qed.

Lemma write_extension_app i p buf : write_extension i p buf = buf ++ extension_bytes (i, p).
Proof.
  unfold write_extension, extension_bytes, write_bytes. rewrite !write_u16_app, int_bytes_u16.
  cbn [fst snd field_bytes]. by rewrite <- !app_assoc.
Qed.

Lemma fold_spec_extensions parsed cfgs : forall hs buf,
  fold_left (write_spec_extension parsed) cfgs (hs, buf) =
  (hs ++ (id <$> cfgs), buf ++ concat (extension_bytes <$> concat (configured parsed <$> cfgs))).
Proof.
  induction cfgs as [|c cfgs IH]; intros hs buf; cbn [fold_left fmap list_fmap concat].
  - by rewrite !app_nil_r.
  - assert (E : write_spec_extension parsed (hs, buf) c =
      (hs ++ [id c], buf ++ concat (extension_bytes <$> configured parsed c))).
    { unfold write_spec_extension, configured.
      destruct (strategy c); [destruct (find_extension parsed (id c))|..];
        rewrite ?write_extension_app; cbn [fmap list_fmap concat]; by rewrite ?app_nil_r. }
    rewrite E, IH, <- app_assoc. cbn [app]. by rewrite fmap_app, concat_app, <- app_assoc.
Qed.

Lemma existsb_elem i (hs : list Z) : existsb (Z.eqb i) hs = bool_decide (i ∈ hs).
Proof.
  destruct (bool_decide_reflect (i ∈ hs)) as [H|H]; [by apply mem_byte_spec|].
  destruct (existsb (Z.eqb i) hs) eqn:E; [|done]. by apply mem_byte_spec in E.
Qed.

Lemma fold_remaining_extensions hs es : forall buf,
  fold_left (write_remaining_extension hs) es buf =
  buf ++ concat (extension_bytes <$> filter (fun e => fst e ∉ hs) es).
Proof.
  induction es as [|[i p] es IH]; intros buf; [by rewrite app_nil_r|].
  cbn [fold_left]. rewrite IH, filter_cons. unfold write_remaining_extension. cbn [fst snd].
  rewrite existsb_elem. destruct (decide (i ∉ hs)) as [H|H]; cbn [fst].
  - rewrite bool_decide_eq_false_2, write_extension_app by done.
    cbn [fmap list_fmap concat]. by rewrite <- app_assoc.
  - by rewrite bool_decide_eq_true_2 by (by apply dec_stable).
Qed.

Lemma write_extensions_app spec es buf :
  write_extensions spec es buf =
  buf ++ concat (extension_bytes <$> apply_extensions (extensions spec) es).
Proof.
  unfold write_extensions, apply_extensions. rewrite fold_spec_extensions, fold_remaining_extensions.
  by rewrite fmap_app, concat_app, <- app_assoc.
Qed.

Lemma write_ciphers_app spec buf :
  write_ciphers spec buf = buf ++ concat (int_bytes 2 big <$> cipher_suites spec).
Proof.
  unfold write_ciphers. revert buf. induction (cipher_suites spec) as [|c cs IH]; intros buf.
  - by rewrite app_nil_r.
  - cbn [fold_left fmap list_fmap concat]. by rewrite IH, write_u16_app, <- app_assoc.
Qed.

(** Patching the three bytes of the handshake length. *)
Lemma patch_length body :
  (let w := 1 :: 0 :: 0 :: 0 :: body in
   let body_len := u64 (zsize w - 4) in
   w ← set_at 1 (u8 (Z.shiftr body_len 16)) w;
   w ← set_at 2 (u8 (Z.shiftr body_len 8)) w;
   set_at 3 (u8 body_len) w) = Some (field_bytes (FU8 1) ++ field_bytes (FVec24 body)).
Proof.
  cbv zeta. change (1 :: 0 :: 0 :: 0 :: body) with ([1; 0; 0; 0] ++ body) at 1 2 3.
  rewrite (zsize_app _ body). change (zsize [1; 0; 0; 0]) with 4. rewrite Z.add_simpl_l.
  destruct (stored_length (zsize body)) as (-> & -> & ->). cbn [field_bytes].
  unfold int_bytes. cbn [le_split]. rewrite Z.div_div by lia. done.
Qed.

Lemma write_hello_app spec ver random sid ciphers comp es :
  zsize sid < 256 ->
  write_hello spec ver random (zsize sid) sid es =
  Some (hello_bytes (apply_spec spec (MkHello ver random sid ciphers comp es))).
Proof.
  intros Hs. unfold write_hello. cbv zeta.
  rewrite (write_block_app (write_ciphers spec) _ _ (write_ciphers_app spec)). cbn [mbind option_bind].
  rewrite (write_block_app (write_extensions spec es) _ _ (write_extensions_app spec es)).
  cbn [mbind option_bind].
  match goal with |- context [set_at _ _ ?w] => set (out := w) end.
  assert (E : out = 1 :: 0 :: 0 :: 0 ::
    body_bytes (apply_spec spec (MkHello ver random sid ciphers comp es))).
  { unfold out, body_bytes, apply_spec.
    cbn [body_fields fmap list_fmap concat field_bytes h_version h_random h_session_id h_ciphers
      h_compression h_extensions].
    unfold write_bytes. rewrite !write_u16_app, (write_u8_int (zsize sid)) by (split; [unfold zsize; lia|done]).
    unfold write_u8. rewrite app_nil_r. rewrite <- !app_assoc. done. }
  rewrite E. exact (patch_length _).
Qed.

(** ** Parsing back *)

Definition extension_wf (e : Z * bytes) : Prop :=
  0 <= fst e < 2 ^ 16 /\ zsize (snd e) < 2 ^ 16 /\ Forall is_byte (snd e).

(** Every field of the hello fits the width it is written with. *)
Record hello_wf (h : hello) : Prop := HelloWf {
  hw_version : 0 <= h_version h < 2 ^ 16;
  hw_random : zsize (h_random h) = 32;
  hw_session : zsize (h_session_id h) < 2 ^ 8;
  hw_ciphers : zsize (h_ciphers h) < 2 ^ 16;
  hw_compression : zsize (h_compression h) < 2 ^ 8;
  hw_extensions : Forall extension_wf (h_extensions h);
  hw_block : zsize (concat (extension_bytes <$> h_extensions h)) < 2 ^ 16;
  hw_bytes : Forall is_byte (h_random h ++ h_session_id h ++ h_ciphers h ++ h_compression h)
}.

Lemma p_vec_app n l s :
  zsize l < 256 ^ Z.of_nat n -> p_vec n ((int_bytes n big (zsize l) ++ l) ++ s) = Some (l, s).
Proof.
  intros Hl. unfold p_vec, p_bind. rewrite <- app_assoc, p_int_app by (unfold zsize in *; lia).
  apply p_span_app.
Qed.

Lemma p_ext_app e s : extension_wf e -> p_ext (extension_bytes e ++ s) = Some (e, s).
Proof.
  destruct e as [i d]. intros (Hi & Hd & _). unfold extension_bytes. cbn [fst snd field_bytes] in *.
  rewrite <- app_assoc. unfold p_ext, p_bind at 1. rewrite p_int_app by exact Hi.
  rewrite <- p_bind_assoc. fold (p_vec 2). unfold p_bind. by rewrite p_vec_app.
Qed.

Lemma p_exts_app es fuel :
  Forall extension_wf es -> (length (concat (extension_bytes <$> es)) <= fuel)%nat ->
  p_exts fuel (concat (extension_bytes <$> es)) = Some es.
Proof.
  intros He. revert fuel. induction He as [|e es He _ IH]; intros fuel Hf; [by destruct fuel|].
  cbn [fmap list_fmap concat] in *. rewrite length_app in Hf.
  assert (Hn : (0 < length (extension_bytes e))%nat)
    by (unfold extension_bytes; rewrite length_app; simpl; lia).
  destruct fuel as [|fuel]; [lia|]. cbn [p_exts].
  destruct (extension_bytes e ++ concat (extension_bytes <$> es)) as [|c s] eqn:E.
  - apply (f_equal length) in E. rewrite length_app in E. simpl in E. lia.
  - rewrite <- E, p_ext_app by done. rewrite IH by lia. done.
Qed.

Lemma p_bind_step {A B} (p : parser A) (q : A -> parser B) s a s' :
  p s = Some (a, s') -> p_bind p q s = q a s'.
Proof. intros E. unfold p_bind. by rewrite E. Qed.

(** The three length bytes of the header are not looked at. *)
Lemma parse_hello_body h len3 t :
  hello_wf h -> zsize len3 = 3 -> parse_hello (1 :: len3 ++ body_bytes h ++ t) = Some (h, t).
Proof.
  intros [] Hl. unfold parse_hello, body_bytes.
  cbn [body_fields fmap list_fmap concat field_bytes]. rewrite app_nil_r.
  erewrite p_bind_step by (apply (p_int_app 1 big 1); lia).
  erewrite p_bind_step by (rewrite <- Hl; apply p_span_app).
  erewrite p_bind_step by reflexivity. rewrite <- !app_assoc.
  erewrite p_bind_step by (apply p_int_app; done).
  erewrite p_bind_step by (rewrite <- hw_random0; apply p_span_app).
  do 4 (rewrite (app_assoc (int_bytes _ _ _)); erewrite p_bind_step by (apply p_vec_app; done)).
  rewrite p_exts_app by done. by destruct h.
Qed.

(** ** The whole function *)

(** Up to the checks of the handshake type and length. *)
Lemma header_follows {B C} original f (q : parser B) (k : B -> outcome C) :
  Forall is_byte original -> zsize original < 2 ^ 63 ->
  (forall r, reader_wf r -> follows (f r) (q (unread r)) k) ->
  follows
    (attempt (read_u8 (reader original)) (fun handshake_type r =>
     attempt (read_bytes 3 r) (fun handshake_len r =>
     require handshake_type "cannot read handshake type" (fun handshake_type =>
     if negb (handshake_type =? 1) then Returns (make_err_result bad_message "not a client hello")
     else require handshake_len "cannot read handshake len" (fun _ => f r)))))
    (p_bind (p_int 1 big) (fun type => p_bind (p_span 3 Datatypes.id) (fun _ =>
     p_bind (fun s => if type =? 1 then Some (tt, s) else None) (fun _ => q))) original) k.
Proof.
  intros Hb Hs Hf. pose proof (reader_wf_start original Hb Hs) as W.
  pose proof (read_u8_agrees _ W) as H1. change (unread (reader original)) with original in H1.
  unfold p_bind, agrees in *.
  destruct (p_int 1 big original) as [[ty s1]|]; destruct H1 as (r1 & -> & W1 & H1); cbn [attempt];
    pose proof (read_bytes_agrees 3 r1 W1 ltac:(lia)) as H2; unfold agrees in H2.
  - destruct H1 as [<- _].
    destruct (p_span 3 Datatypes.id (unread r1)) as [[l3 s2]|]; destruct H2 as (r2 & -> & W2 & H2);
      cbn [attempt require]; destruct (ty =? 1); cbn [negb]; try by eexists.
    destruct H2 as [<- _]. by apply Hf.
  - destruct (p_span 3 Datatypes.id (unread r1)) as [[l3 s2]|]; destruct H2 as (r2 & -> & _); by eexists.
Qed.

Lemma rewrite_follows original spec :
  Forall is_byte original -> zsize original < 2 ^ 63 ->
  follows (rewrite original spec) (parse_hello original)
    (fun h => Returns (Ok (hello_bytes (apply_spec spec h)))).
Proof.
  intros Hb Hs. unfold rewrite, parse_hello. apply header_follows; [done..|]. intros r W.
  apply got_follows; [by apply read_u16_agrees|]. intros ver r1 W1 _.
  apply got_follows; [by apply read_bytes_agrees|]. intros random r2 W2 _.
  apply vec_follows; [lia|done|by apply read_u8_agrees|]. intros sid r3 W3 _ Hsid.
  apply vec_follows; [lia|done|by apply read_u16_agrees|]. intros ciphers r4 W4 _ _.
  apply vec_follows; [lia|done|by apply read_u8_agrees|]. intros comp r5 W5 _ _.
  apply vec_follows; [lia|done|by apply read_u16_agrees|]. intros block r6 W6 Hv Hblock.
  assert (Wb : reader_wf (reader block)).
  { apply reader_wf_start; [|lia]. unfold p_vec, p_bind in Hv. pose proof (unread_bytes r5 W5) as Hu.
    destruct (p_int 2 big (unread r5)) as [[n s]|] eqn:E; [|done].
    pose proof (p_int_bound _ _ _ _ _ Hu E) as Hn. apply p_span_id in Hv as [_ ->]; [|lia].
    unfold p_int, p_span in E. destruct (_ <=? _); [|done]. injection E as _ E.
    apply (Forall_drop _ (Z.to_nat (Z.of_nat 2))) in Hu. rewrite E in Hu.
    by apply Forall_app in Hu as [? _]. }
  pose proof (parse_extensions_follows (length block) (reader block) [] Wb ltac:(done)) as He.
  change (unread (reader block)) with block in He.
  destruct (p_exts (length block) block) as [es|]; cbn [follows].
  - rewrite He. cbn [app]. by rewrite (write_hello_app spec ver random sid ciphers comp es).
  - destruct He as [msg ->]. by exists msg.
Qed.

(** ** What a successful parse says of its input *)

Lemma int_bytes_value n e s :
  Forall is_byte s -> length s = n -> int_bytes n e (int_value e s) = s.
Proof.
  intros Hs <-. unfold int_bytes, int_value. destruct e; [|by apply le_split_combine].
  rewrite <- (length_reverse s), le_split_combine by (by apply reverse_bytes).
  apply reverse_involutive.
Qed.

Lemma p_int_inv n s v s' :
  Forall is_byte s -> p_int n big s = Some (v, s') ->
  s = int_bytes n big v ++ s' /\ 0 <= v < 256 ^ Z.of_nat n /\ Forall is_byte s'.
Proof.
  intros Hb E. pose proof (p_int_bound _ _ _ _ _ Hb E) as Hv. unfold p_int, p_span in E.
  destruct (Z.leb_spec (Z.of_nat n) (zsize s)); [|done]. rewrite Nat2Z.id in E.
  assert (v = int_value big (take n s)) as -> by congruence.
  assert (s' = drop n s) as -> by congruence. rewrite int_bytes_value; [|by apply Forall_take|].
  - rewrite take_drop. split; [done|]. split; [done|]. by apply Forall_drop.
  - unfold zsize in *. rewrite length_take. lia.
Qed.

Lemma p_span_inv n s x s' :
  0 <= n -> Forall is_byte s -> p_span n Datatypes.id s = Some (x, s') ->
  s = x ++ s' /\ zsize x = n /\ Forall is_byte x /\ Forall is_byte s'.
Proof. intros Hn Hb E. destruct (p_span_id n s x s' Hn E) as [? ->]. apply Forall_app in Hb. tauto. Qed.

Lemma p_vec_inv n s x s' :
  Forall is_byte s -> p_vec n s = Some (x, s') ->
  s = (int_bytes n big (zsize x) ++ x) ++ s' /\ zsize x < 256 ^ Z.of_nat n /\
  Forall is_byte x /\ Forall is_byte s'.
Proof.
  intros Hb E. unfold p_vec, p_bind in E. destruct (p_int n big s) as [[v s1]|] eqn:E1; [|done].
  apply p_int_inv in E1 as (-> & Hv & Hb1); [|done].
  apply p_span_inv in E as (-> & <- & ? & ?); [|lia|done]. rewrite <- app_assoc. naive_solver lia.
Qed.

Lemma p_bind_inv {A B} (p : parser A) (q : A -> parser B) s x :
  p_bind p q s = Some x -> exists a s', p s = Some (a, s') /\ q a s' = Some x.
Proof. unfold p_bind. destruct (p s) as [[a s']|]; [eauto|done]. Qed.

Lemma p_ext_inv s e s' :
  Forall is_byte s -> p_ext s = Some (e, s') ->
  s = extension_bytes e ++ s' /\ extension_wf e /\ Forall is_byte s'.
Proof.
  intros Hb (ty & s1 & E1 & E)%p_bind_inv. apply p_int_inv in E1 as (-> & Hty & Hb1); [|done].
  rewrite <- p_bind_assoc in E. fold (p_vec 2) in E. apply p_bind_inv in E as (d & s2 & E2 & [= <- <-]).
  apply p_vec_inv in E2 as (-> & Hd & ? & ?); [|done].
  unfold extension_bytes. cbn [fst snd field_bytes]. rewrite <- app_assoc. done.
Qed.

Lemma p_exts_inv fuel : forall s es,
  Forall is_byte s -> p_exts fuel s = Some es ->
  s = concat (extension_bytes <$> es) /\ Forall extension_wf es.
Proof.
  induction fuel as [|fuel IH]; intros s es Hb; destruct s as [|c s]; cbn [p_exts];
    try (intros [= <-]; split; [done|constructor]); [done|].
  destruct (p_ext (c :: s)) as [[e s']|] eqn:E; [|done].
  apply p_ext_inv in E as (-> & He & Hb'); [|done].
  intros (es' & E' & ->)%fmap_Some. apply IH in E' as [-> ?]; [|done]. split; [done|by constructor].
Qed.

Lemma parse_hello_inv s h t :
  Forall is_byte s -> parse_hello s = Some (h, t) ->
  exists len3, s = 1 :: len3 ++ body_bytes h ++ t /\ zsize len3 = 3 /\ hello_wf h.
Proof.
  intros Hb (ty & s1 & E1 & E)%p_bind_inv. apply p_int_inv in E1 as (-> & _ & Hb1); [|done].
  apply p_bind_inv in E as (l3 & s2 & E2 & E). apply p_span_inv in E2 as (-> & Hl3 & _ & Hb2); [|lia|done].
  apply p_bind_inv in E as ([] & s3 & E3 & E). destruct (Z.eqb_spec ty 1) as [->|]; [|done].
  injection E3 as <-.
  apply p_bind_inv in E as (ver & s4 & E4 & E). apply p_int_inv in E4 as (-> & Hver & Hb4); [|done].
  apply p_bind_inv in E as (random & s5 & E5 & E). apply p_span_inv in E5 as (-> & Hr & Br & Hb5); [|lia|done].
  apply p_bind_inv in E as (sid & s6 & E6 & E). apply p_vec_inv in E6 as (-> & Hsid & Bs & Hb6); [|done].
  apply p_bind_inv in E as (ciphers & s7 & E7 & E). apply p_vec_inv in E7 as (-> & Hc & Bc & Hb7); [|done].
  apply p_bind_inv in E as (comp & s8 & E8 & E). apply p_vec_inv in E8 as (-> & Hcomp & Bcomp & Hb8); [|done].
  apply p_bind_inv in E as (block & s9 & E9 & E). apply p_vec_inv in E9 as (-> & Hbl & Hbb & _); [|done].
  destruct (p_exts (length block) block) as [es|] eqn:Ex; [|done]. injection E as <- <-.
  apply p_exts_inv in Ex as [-> Hes]; [|done]. exists l3.
  split; [|split; [done|constructor; try done; by repeat (apply Forall_app; split)]].
  unfold body_bytes. cbn [body_fields fmap list_fmap concat field_bytes]. cbn [h_version h_random h_session_id h_ciphers h_compression h_extensions].
  rewrite app_nil_r, <- !app_assoc. done.
Qed.

(** C5 ([ClientHelloRewriter::rewrite], refinement): the function accepts
    exactly the byte strings that start with a handshake header of type 1 and
    an encoded hello (the header's length and what follows the hello are not
    looked at), and returns the encoding of the hello with the specification
    applied; every other input gives a [bad_message] error.  It never accesses
    memory outside its buffers. *)
Theorem rewrite_characterised original spec :
  Forall is_byte original -> zsize original < 2 ^ 63 ->
  (exists h len3 t, hello_wf h /\ zsize len3 = 3 /\ original = 1 :: len3 ++ body_bytes h ++ t /\
     rewrite original spec = Returns (Ok (hello_bytes (apply_spec spec h)))) \/
  ((forall h len3 t, hello_wf h -> zsize len3 = 3 -> original <> 1 :: len3 ++ body_bytes h ++ t) /\
   exists msg, rewrite original spec = Returns (make_err_result bad_message msg)).
Proof.
  intros Hb Hs. pose proof (rewrite_follows original spec Hb Hs) as H. unfold follows in H.
  destruct (parse_hello original) as [[h t]|] eqn:E.
  - left. destruct (parse_hello_inv _ _ _ Hb E) as (len3 & ? & ? & ?). eauto 8.
  - right. split; [|done]. intros h len3 t Hw Hl ->. by rewrite parse_hello_body in E.
Qed.

Definition sample_hello : hello :=
  MkHello 771 (replicate 32 7) [1; 2] [19; 1] [0] [(10, [5; 6]); (0, [9]); (16, [])].

Definition sample_spec : ClientHelloSpec :=
  MkSpec [4865; 4866] [0] [MkExtension 16 Auto []; MkExtension 10 Drop []; MkExtension 99 ForceData [1; 2; 3]].

(** Witness of C5. *)
Lemma rewrite_characterised_witness :
  rewrite (hello_bytes sample_hello) sample_spec =
    Returns (Ok (hello_bytes (apply_spec sample_spec sample_hello))) /\
  h_extensions (apply_spec sample_spec sample_hello) = [(16, []); (99, [1; 2; 3]); (0, [9])].
Proof.
  split; [|reflexivity].
  destruct (rewrite_characterised (hello_bytes sample_hello) sample_spec) as [H|[_ [msg H]]].
  - vm_compute. repeat constructor; intros H; discriminate H.
  - reflexivity.
  - reflexivity.
  - vm_compute in H. discriminate H.
Defined.

(** ** Rewriting twice *)

Record spec_wf (spec : ClientHelloSpec) : Prop := SpecWf {
  sw_compression : zsize (compression_method spec) < 2 ^ 8;
  sw_compression_bytes : Forall is_byte (compression_method spec);
  sw_extensions : Forall (fun c => extension_wf (id c, data c)) (extensions spec)
}.

Lemma find_extension_app a b i :
  find_extension (a ++ b) i =
  match find_extension a i with Some x => Some x | None => find_extension b i end.
Proof.
  unfold find_extension. induction a as [|[j d] a IH]; [done|]. cbn [app List.find fst].
  by destruct (j =? i).
Qed.

Lemma find_extension_None es i : i ∉ fst <$> es -> find_extension es i = None.
Proof.
  unfold find_extension. induction es as [|[j d] es IH]; [done|].
  rewrite fmap_cons, not_elem_of_cons. cbn [List.find fst]. intros [H1 H2].
  rewrite (proj2 (Z.eqb_neq _ _)) by congruence. by apply IH.
Qed.

Lemma find_extension_Some es i x : find_extension es i = Some x -> (i, x) ∈ es.
Proof.
  unfold find_extension. intros ([j d] & E & ->)%fmap_Some. apply List.find_some in E as [E1 E2].
  cbn in *. apply Z.eqb_eq in E2 as ->. by apply list_elem_of_In.
Qed.

Lemma configured_ids es cfgs i :
  i ∈ fst <$> concat (configured es <$> cfgs) -> i ∈ id <$> cfgs.
Proof.
  induction cfgs as [|c cfgs IH]; cbn [fmap list_fmap concat]; [done|].
  rewrite fmap_app, elem_of_app, elem_of_cons. intros [H|H]; [left|right; by apply IH].
  unfold configured in H. destruct (strategy c); [destruct (find_extension es (id c))|..];
    set_solver.
Qed.

Lemma filter_configured es cfgs :
  filter (fun e => fst e ∉ id <$> cfgs) (concat (configured es <$> cfgs)) = [].
Proof.
  destruct (filter _ _) as [|e l] eqn:E; [done|].
  assert (He : e ∈ filter (fun e => fst e ∉ id <$> cfgs) (concat (configured es <$> cfgs)))
    by (rewrite E; left).
  apply list_elem_of_filter in He as [Hn He]. destruct Hn. apply (configured_ids es).
  by apply list_elem_of_fmap_2.
Qed.

Lemma configured_stable cfgs es c :
  NoDup (id <$> cfgs) -> c ∈ cfgs -> configured (apply_extensions cfgs es) c = configured es c.
Proof.
  intros Hn Hc. unfold configured at 1 2. destruct (strategy c) eqn:Es; [|done..].
  enough (find_extension (apply_extensions cfgs es) (id c) = find_extension es (id c)) as -> by done.
  apply list_elem_of_split in Hc as (l1 & l2 & ->). rewrite fmap_app, fmap_cons in Hn.
  apply NoDup_app in Hn as (_ & Hd & Hn). apply NoDup_cons in Hn as [Hn2 _].
  unfold apply_extensions.
  rewrite !(fmap_app _ l1), !fmap_cons, concat_app. cbn [concat]. rewrite <- !app_assoc.
  rewrite find_extension_app, find_extension_None.
  2: { intros H%configured_ids. apply (Hd _ H). left. }
  rewrite find_extension_app. unfold configured at 1. rewrite Es.
  destruct (find_extension es (id c)) as [x|] eqn:Ex.
  - unfold find_extension at 1. cbn [List.find fst]. by rewrite Z.eqb_refl.
  - cbn [find_extension]. change (find_extension [] (id c)) with (@None bytes).
    rewrite find_extension_app, find_extension_None by (by intros H%configured_ids).
    apply find_extension_None. intros ([j d] & Ej & Hin)%list_elem_of_fmap.
    apply list_elem_of_filter in Hin as [Hni _]. apply Hni. cbn in *. subst j. set_solver.
Qed.

Lemma apply_extensions_idemp cfgs es :
  NoDup (id <$> cfgs) ->
  apply_extensions cfgs (apply_extensions cfgs es) = apply_extensions cfgs es.
Proof.
  intros Hn. unfold apply_extensions at 1.
  rewrite (list_fmap_ext (configured (apply_extensions cfgs es)) (configured es) cfgs).
  - unfold apply_extensions. rewrite filter_app, filter_configured. cbn [app].
    by rewrite list_filter_filter_l by done.
  - intros i c Hc. apply configured_stable; [done|]. by apply list_elem_of_lookup_2 in Hc.
Qed.

Lemma hello_bytes_cons h :
  hello_bytes h = 1 :: int_bytes 3 big (zsize (body_bytes h)) ++ body_bytes h ++ [].
Proof. by rewrite app_nil_r. Qed.

(** The parts of a hello are no longer than the whole. *)
Lemma hello_bytes_size h :
  zsize (hello_bytes h) = 4 + zsize (body_bytes h) /\
  zsize (h_ciphers h) <= zsize (body_bytes h) /\
  zsize (concat (extension_bytes <$> h_extensions h)) <= zsize (body_bytes h).
Proof.
  unfold hello_bytes, body_bytes. cbn [body_fields fmap list_fmap concat field_bytes].
  rewrite !zsize_app. change (zsize []) with 0. unfold zsize at 1 2.
  rewrite !int_bytes_length. unfold zsize. lia.
Qed.

Lemma apply_extensions_wf cfgs es :
  Forall (fun c => extension_wf (id c, data c)) cfgs -> Forall extension_wf es ->
  Forall extension_wf (apply_extensions cfgs es).
Proof.
  intros Hc He. apply Forall_app. rewrite Forall_forall in He.
  split; [|apply Forall_forall; intros e [_ ?]%list_elem_of_filter; by apply He].
  apply Forall_concat, Forall_fmap. eapply Forall_impl; [exact Hc|]. intros c Hw.
  unfold configured, compose. destruct (strategy c); [|by apply Forall_singleton|constructor].
  destruct (find_extension es (id c)) as [x|] eqn:E; [|constructor].
  apply find_extension_Some in E. constructor; [by apply He|constructor].
Qed.

Lemma extension_bytes_bytes e : extension_wf e -> Forall is_byte (extension_bytes e).
Proof.
  intros (_ & _ & H). unfold extension_bytes. cbn [field_bytes].
  repeat (apply Forall_app; split); auto with ppnt.
Qed.

Lemma hello_bytes_bytes h : hello_wf h -> Forall is_byte (hello_bytes h).
Proof.
  intros W. pose proof (hw_bytes h W) as Hb. rewrite !Forall_app in Hb.
  assert (Forall is_byte (concat (extension_bytes <$> h_extensions h))).
  { apply Forall_concat, Forall_fmap. eapply Forall_impl; [apply (hw_extensions h W)|].
    apply extension_bytes_bytes. }
  unfold hello_bytes, body_bytes. cbn [body_fields fmap list_fmap concat field_bytes].
  destruct Hb as (? & ? & ? & ?). repeat (apply Forall_app; split); auto with ppnt.
Qed.

Lemma apply_spec_wf spec h :
  spec_wf spec -> hello_wf h -> zsize (hello_bytes (apply_spec spec h)) < 2 ^ 16 ->
  hello_wf (apply_spec spec h).
Proof.
  intros [] [] Hs. destruct (hello_bytes_size (apply_spec spec h)) as (E & H1 & H2).
  rewrite E in Hs. constructor; try done; try lia.
  - by apply apply_extensions_wf.
  - cbn. rewrite !Forall_app in *. split; [naive_solver|]. split; [naive_solver|]. split; [|done].
    apply Forall_concat, Forall_fmap, Forall_true. intros. apply int_bytes_bytes.
Qed.

(** ([ClientHelloRewriter::rewrite], functional): for a specification that
    names each extension at most once, a rewritten hello of less than 64 KiB
    is well formed again, and rewriting it with the same specification changes
    nothing. *)
Theorem rewrite_idempotent original spec out :
  Forall is_byte original -> zsize original < 2 ^ 63 ->
  spec_wf spec -> NoDup (id <$> extensions spec) ->
  rewrite original spec = Returns (Ok out) -> zsize out < 2 ^ 16 ->
  rewrite out spec = Returns (Ok out).
Proof.
  intros Hb Hs Wspec Hn E Hout. pose proof (rewrite_follows original spec Hb Hs) as H.
  unfold follows in H. destruct (parse_hello original) as [[h t]|] eqn:Ep;
    [|destruct H as [msg H]; rewrite E in H; done].
  rewrite E in H. injection H as ->. destruct (parse_hello_inv _ _ _ Hb Ep) as (len3 & _ & _ & Wh).
  pose proof (apply_spec_wf spec h Wspec Wh Hout) as W.
  pose proof (rewrite_follows (hello_bytes (apply_spec spec h)) spec (hello_bytes_bytes _ W) ltac:(lia)) as H.
  rewrite (hello_bytes_cons (apply_spec spec h)) in H at 2.
  rewrite (parse_hello_body (apply_spec spec h)) in H; [|done|unfold zsize; by rewrite int_bytes_length].
  cbn [follows] in H. rewrite H. do 3 f_equal. unfold apply_spec. cbn.
  by rewrite apply_extensions_idemp.
Qed.

(** An instance. *)
Lemma rewrite_idempotent_witness :
  rewrite (hello_bytes (apply_spec sample_spec sample_hello)) sample_spec =
  Returns (Ok (hello_bytes (apply_spec sample_spec sample_hello))).
Proof.
  apply (rewrite_idempotent (hello_bytes sample_hello) sample_spec).
  - vm_compute. repeat constructor; intros H; discriminate H.
  - reflexivity.
  - constructor; [reflexivity|repeat constructor; vm_compute; intros H; discriminate H|].
    repeat constructor; vm_compute; intros H; discriminate H.
  - apply NoDup_ListNoDup. repeat constructor; vm_compute; intuition discriminate.
  - reflexivity.
  - reflexivity.
Defined.
