(* ===== verification/Uring.v ===== *)
(** liburing: the submission queue, entry preparation and the buffer ring.

    The parts of [src/third-party/liburing/src/include/liburing.h] and
    [queue.c] the driver is built on.  Head and tail are free-running 32-bit
    counters (16-bit for the buffer ring) and a slot is the counter masked to
    the ring size, which is a power of two.  The kernel side moves [khead]. *)

From S2P Require Import Prelude.

Local Open Scope Z_scope.

(** ** Submission entries *)

Record sqe := MkSqe {
  opcode : Z;
  flags : Z;
  ioprio : Z;
  fd : Z;
  off : Z;
  addr : Z;
  len : Z;
  rw_flags : Z;
  user_data : Z;
  buf_index : Z;
  personality : Z;
  file_index : Z;
  addr3 : Z;
  pad2 : Z
}.

Definition IORING_OP_READ : Z := 22.
Definition IORING_OP_LINK_TIMEOUT : Z := 15.
Definition IORING_OP_PROVIDE_BUFFERS : Z := 31.
Definition IORING_OP_TIMEOUT : Z := 11.
Definition IORING_OP_ACCEPT : Z := 13.
Definition IORING_OP_CONNECT : Z := 16.
Definition IORING_OP_CLOSE : Z := 19.
Definition IORING_OP_WRITE : Z := 23.
Definition IORING_OP_RECV : Z := 27.
Definition IOSQE_IO_LINK : Z := 4.
Definition IOSQE_BUFFER_SELECT : Z := 32.
Definition IORING_ACCEPT_MULTISHOT : Z := 1.

Definition io_uring_initialize_sqe (s : sqe) : sqe :=
  MkSqe (opcode s) 0 0 (fd s) (off s) (addr s) (len s) 0 (user_data s) 0 0 0 0 0.

Definition io_uring_prep_rw (op f a l o : Z) (s : sqe) : sqe :=
  MkSqe (u8 op) (flags s) (ioprio s) f o a l (rw_flags s) (user_data s) (buf_index s)
    (personality s) (file_index s) (addr3 s) (pad2 s).

Definition io_uring_sqe_set_data (d : Z) (s : sqe) : sqe :=
  MkSqe (opcode s) (flags s) (ioprio s) (fd s) (off s) (addr s) (len s) (rw_flags s) d
    (buf_index s) (personality s) (file_index s) (addr3 s) (pad2 s).

(** [sqe->flags |= f]. *)
Definition sqe_or_flags (f : Z) (s : sqe) : sqe :=
  MkSqe (opcode s) (Z.lor (flags s) f) (ioprio s) (fd s) (off s) (addr s) (len s) (rw_flags s)
    (user_data s) (buf_index s) (personality s) (file_index s) (addr3 s) (pad2 s).

(** [timeout_flags] shares its word with [rw_flags], [buf_group] with
    [buf_index]. *)
Definition io_uring_prep_link_timeout (ts fl : Z) (s : sqe) : sqe :=
  let s := io_uring_prep_rw IORING_OP_LINK_TIMEOUT (-1) ts 1 0 s in
  MkSqe (opcode s) (flags s) (ioprio s) (fd s) (off s) (addr s) (len s) fl (user_data s)
    (buf_index s) (personality s) (file_index s) (addr3 s) (pad2 s).

Definition io_uring_prep_read (f buf nbytes offset : Z) : sqe -> sqe :=
  io_uring_prep_rw IORING_OP_READ f buf nbytes offset.

Definition io_uring_prep_provide_buffers (a l nr bgid bid : Z) (s : sqe) : sqe :=
  let s := io_uring_prep_rw IORING_OP_PROVIDE_BUFFERS nr a (u32 l) bid s in
  MkSqe (opcode s) (flags s) (ioprio s) (fd s) (off s) (addr s) (len s) (rw_flags s) (user_data s)
    (u16 bgid) (personality s) (file_index s) (addr3 s) (pad2 s).

(** The word [rw_flags] is also [msg_flags], [accept_flags] and [timeout_flags]. *)
Definition set_op_flags (fl : Z) (s : sqe) : sqe :=
  MkSqe (opcode s) (flags s) (ioprio s) (fd s) (off s) (addr s) (len s) (u32 fl) (user_data s)
    (buf_index s) (personality s) (file_index s) (addr3 s) (pad2 s).

Definition io_uring_prep_write (f buf nbytes offset : Z) : sqe -> sqe :=
  io_uring_prep_rw IORING_OP_WRITE f buf nbytes offset.

Definition io_uring_prep_recv (sockfd buf l fl : Z) (s : sqe) : sqe :=
  set_op_flags fl (io_uring_prep_rw IORING_OP_RECV sockfd buf (u32 l) 0 s).

Definition io_uring_prep_close (f : Z) : sqe -> sqe := io_uring_prep_rw IORING_OP_CLOSE f 0 0 0.

Definition io_uring_prep_connect (f a addrlen : Z) : sqe -> sqe := io_uring_prep_rw IORING_OP_CONNECT f a 0 addrlen.

Definition io_uring_prep_accept (f a addrlen fl : Z) (s : sqe) : sqe :=
  set_op_flags fl (io_uring_prep_rw IORING_OP_ACCEPT f a 0 addrlen s).

Definition io_uring_prep_multishot_accept (f a addrlen fl : Z) (s : sqe) : sqe :=
  let s := io_uring_prep_accept f a addrlen fl s in
  MkSqe (opcode s) (flags s) (Z.lor (ioprio s) IORING_ACCEPT_MULTISHOT) (fd s) (off s) (addr s) (len s) (rw_flags s)
    (user_data s) (buf_index s) (personality s) (file_index s) (addr3 s) (pad2 s).

Definition io_uring_prep_timeout (ts count fl : Z) (s : sqe) : sqe :=
  set_op_flags fl (io_uring_prep_rw IORING_OP_TIMEOUT (-1) ts 1 count s).

(** [sqe->buf_group = g]. *)
Definition sqe_set_buf_group (g : Z) (s : sqe) : sqe :=
  MkSqe (opcode s) (flags s) (ioprio s) (fd s) (off s) (addr s) (len s) (rw_flags s) (user_data s)
    (u16 g) (personality s) (file_index s) (addr3 s) (pad2 s).

(** ** The submission queue *)

Record io_uring_sq := MkSq {
  sqes : list sqe;
  ring_entries : Z;
  ring_mask : Z;
  sqe_head : Z;
  sqe_tail : Z;
  khead : Z
}.

Definition slot (counter mask : Z) : nat := Z.to_nat (Z.land counter mask).

(** A vacant entry, given by its index; [None] is [NULL]. *)
Definition io_uring_get_sqe (sq : io_uring_sq) : option (nat * io_uring_sq) :=
  let head := khead sq in
  let tail := sqe_tail sq in
  if ring_entries sq <=? u32 (tail - head) then None
  else
    let i := slot tail (ring_mask sq) in
    Some (i, MkSq (alter io_uring_initialize_sqe i (sqes sq)) (ring_entries sq) (ring_mask sq)
               (sqe_head sq) (u32 (tail + 1)) (khead sq)).

(** A write through the pointer [io_uring_get_sqe] returned. *)
Definition update_sqe (i : nat) (f : sqe -> sqe) (sq : io_uring_sq) : io_uring_sq :=
  MkSq (alter f i (sqes sq)) (ring_entries sq) (ring_mask sq) (sqe_head sq) (sqe_tail sq) (khead sq).

(** [__io_uring_flush_sq] without [SQ_REWIND] and [SQPOLL]: publish the tail;
    the number of entries the kernel has not taken. *)
Definition io_uring_flush_sq (sq : io_uring_sq) : Z * io_uring_sq :=
  (u32 (sqe_tail sq - khead sq),
   MkSq (sqes sq) (ring_entries sq) (ring_mask sq) (sqe_tail sq) (sqe_tail sq) (khead sq)).

(** The kernel takes [n] published entries. *)
Definition kernel_take (n : Z) (sq : io_uring_sq) : io_uring_sq :=
  MkSq (sqes sq) (ring_entries sq) (ring_mask sq) (sqe_head sq) (sqe_tail sq) (u32 (khead sq + n)).

(** ** The provided-buffer ring *)

Record io_uring_buf := MkBuf { baddr : Z; blen : Z; bid : Z }.

Record io_uring_buf_ring := MkBufRing { bufs : list io_uring_buf; btail : Z }.

Definition io_uring_buf_ring_mask (entries : Z) : Z := i32 (entries - 1).

Definition io_uring_buf_ring_init (br : io_uring_buf_ring) : io_uring_buf_ring :=
  MkBufRing (bufs br) 0.

Definition io_uring_buf_ring_add (a l b mask buf_offset : Z) (br : io_uring_buf_ring) : io_uring_buf_ring :=
  MkBufRing (<[slot (btail br + buf_offset) mask := MkBuf a l b]> (bufs br)) (btail br).

Definition io_uring_buf_ring_advance (count : Z) (br : io_uring_buf_ring) : io_uring_buf_ring :=
  MkBufRing (bufs br) (u16 (btail br + count)).

(** ** Masked counters

    The slots of [n] consecutive counters are distinct as long as [n] is at
    most the size of the ring, whatever the counters wrap to. *)

Section Window.
Context {A : Type} (k : Z) (Hk : 0 <= k).

Lemma slot_mod c : slot c (2 ^ k - 1) = Z.to_nat (c mod 2 ^ k).
Proof. unfold slot. by rewrite <- Z.land_ones, Z.ones_equiv, <- Z.sub_1_r. Qed.

Lemma slot_wrap c w : k <= w -> slot (c mod 2 ^ w) (2 ^ k - 1) = slot c (2 ^ k - 1).
Proof.
  intros Hw. rewrite !slot_mod. f_equal. apply Z.mod_mod_divide.
  exists (2 ^ (w - k)). rewrite <- Z.pow_add_r by lia. f_equal. lia.
Qed.

Lemma slot_bound c : (slot c (2 ^ k - 1) < Z.to_nat (2 ^ k))%nat.
Proof.
  rewrite slot_mod. pose proof (Z.mod_pos_bound c (2 ^ k)).
  pose proof (Z.pow_pos_nonneg 2 k). lia.
Qed.

Lemma slot_inj h i j :
  0 <= i < 2 ^ k -> 0 <= j < 2 ^ k ->
  slot (h + i) (2 ^ k - 1) = slot (h + j) (2 ^ k - 1) -> i = j.
Proof.
  intros Hi Hj. rewrite !slot_mod. intros E.
  pose proof (Z.pow_pos_nonneg 2 k ltac:(lia) Hk) as Hp.
  apply Z2Nat.inj in E; [|apply Z.mod_pos_bound; lia..]. revert E.
  rewrite !(Z.add_mod h), (Z.mod_small i), (Z.mod_small j) by lia.
  pose proof (Z.mod_pos_bound h (2 ^ k) Hp). generalize dependent (h mod 2 ^ k). intros m Hm E.
  pose proof (Z.div_mod (m + i) (2 ^ k)). pose proof (Z.div_mod (m + j) (2 ^ k)).
  assert ((m + i) / 2 ^ k = 0 \/ (m + i) / 2 ^ k = 1) as Hd1.
  { pose proof (Z.div_lt_upper_bound (m + i) (2 ^ k) 2).
    pose proof (Z.div_pos (m + i) (2 ^ k)). lia. }
  assert ((m + j) / 2 ^ k = 0 \/ (m + j) / 2 ^ k = 1) as Hd2.
  { pose proof (Z.div_lt_upper_bound (m + j) (2 ^ k) 2).
    pose proof (Z.div_pos (m + j) (2 ^ k)). lia. }
  pose proof (Z.mod_pos_bound (m + i) (2 ^ k) Hp).
  destruct Hd1 as [Hd1|Hd1], Hd2 as [Hd2|Hd2]; rewrite Hd1, Hd2 in *; lia.
Qed.

(** The entries at the counters [h], ..., [h + n - 1]. *)
Definition window (l : list A) (h : Z) (n : nat) : list A :=
  omap (fun i => l !! slot (h + Z.of_nat i) (2 ^ k - 1)) (seq 0 n).

Lemma window_S l h n x :
  l !! slot (h + Z.of_nat n) (2 ^ k - 1) = Some x -> window l h (S n) = window l h n ++ [x].
Proof. intros E. unfold window. rewrite seq_S, omap_app. simpl. by rewrite E. Qed.

Lemma window_ext l l' h h' n :
  (forall i, (i < n)%nat -> l !! slot (h + Z.of_nat i) (2 ^ k - 1) =
                            l' !! slot (h' + Z.of_nat i) (2 ^ k - 1)) ->
  window l h n = window l' h' n.
Proof.
  intros H. unfold window. induction n as [|n IH]; [done|].
  rewrite seq_S, !omap_app, IH by (intros; apply H; lia). simpl. rewrite H by lia. done.
Qed.

Lemma window_length l h n :
  length l = Z.to_nat (2 ^ k) -> length (window l h n) = n.
Proof.
  intros Hl. induction n as [|n IH]; [done|].
  destruct (lookup_lt_is_Some_2 l (slot (h + Z.of_nat n) (2 ^ k - 1))) as [x Hx].
  { rewrite Hl. apply slot_bound. }
  rewrite (window_S _ _ _ x Hx), length_app, IH. simpl. lia.
Qed.

(** Changing a slot outside the window. *)
Lemma window_alter_out l h n f :
  Z.of_nat n < 2 ^ k -> window (alter f (slot (h + Z.of_nat n) (2 ^ k - 1)) l) h n = window l h n.
Proof.
  intros Hn. apply window_ext. intros i Hi. apply list_lookup_alter_ne.
  intros E%slot_inj; lia.
Qed.

Lemma window_push l h n f x :
  Z.of_nat n < 2 ^ k -> l !! slot (h + Z.of_nat n) (2 ^ k - 1) = Some x ->
  window (alter f (slot (h + Z.of_nat n) (2 ^ k - 1)) l) h (S n) = window l h n ++ [f x].
Proof.
  intros Hn Hx. rewrite (window_S _ _ _ (f x)); [by rewrite window_alter_out|].
  by rewrite list_lookup_alter_eq, Hx.
Qed.

Lemma window_insert l h n x :
  Z.of_nat n < 2 ^ k -> length l = Z.to_nat (2 ^ k) ->
  window (<[slot (h + Z.of_nat n) (2 ^ k - 1) := x]> l) h (S n) = window l h n ++ [x].
Proof.
  intros Hn Hl. rewrite (window_S _ _ _ x).
  - f_equal. apply window_ext. intros i Hi. apply list_lookup_insert_ne. intros E%slot_inj; lia.
  - apply list_lookup_insert_eq. rewrite Hl. apply slot_bound.
Qed.

Lemma window_drop l h n m :
  (m <= n)%nat -> length l = Z.to_nat (2 ^ k) ->
  window l (h + Z.of_nat m) (n - m) = drop m (window l h n).
Proof.
  intros Hm Hl. unfold window. replace n with (m + (n - m))%nat at 2 by lia.
  rewrite seq_app, omap_app, drop_app_length'; [|symmetry; by apply window_length].
  rewrite Nat.add_0_l. generalize (n - m)%nat. intros j. clear Hm.
  induction j as [|j IH]; [done|]. rewrite !seq_S, !omap_app, IH. simpl.
  by replace (h + Z.of_nat m + Z.of_nat j) with (h + Z.of_nat (m + j)) by lia.
Qed.

End Window.

(** ** The submission queue is a bounded queue *)

Record sq_wf (sq : io_uring_sq) : Prop := SqWf {
  sq_size : exists k, 0 <= k <= 15 /\ ring_entries sq = 2 ^ k /\ ring_mask sq = 2 ^ k - 1;
  sq_slots : length (sqes sq) = Z.to_nat (ring_entries sq);
  sq_khead : 0 <= khead sq < 2 ^ 32;
  sq_tail : 0 <= sqe_tail sq < 2 ^ 32;
  sq_room : u32 (sqe_tail sq - khead sq) <= ring_entries sq
}.

(** The entries the kernel has not taken yet, oldest first. *)
Definition pending (sq : io_uring_sq) : list sqe :=
  window (Z.log2 (ring_entries sq)) (sqes sq) (khead sq) (Z.to_nat (u32 (sqe_tail sq - khead sq))).

Lemma u32_sub_add h n : 0 <= n < 2 ^ 32 -> u32 (u32 (h + n) - h) = n.
Proof.
  intros. unfold u32. rewrite Zminus_mod_idemp_l. replace (h + n - h) with n by lia.
  by apply Z.mod_small.
Qed.

(** The tail is the head plus the number of pending entries. *)
Lemma tail_of sq : sq_wf sq ->
  sqe_tail sq = u32 (khead sq + Z.of_nat (Z.to_nat (u32 (sqe_tail sq - khead sq)))).
Proof.
  intros W. pose proof (sq_tail sq W). unfold u32.
  rewrite Z2Nat.id by (apply Z.mod_pos_bound; lia). rewrite Zplus_mod_idemp_r.
  replace (khead sq + (sqe_tail sq - khead sq)) with (sqe_tail sq) by lia. by rewrite Z.mod_small.
Qed.

Lemma pending_length sq : sq_wf sq -> Z.of_nat (length (pending sq)) = u32 (sqe_tail sq - khead sq).
Proof.
  intros [(k & Hk & He & Hm) Hl _ _ _]. unfold pending.
  rewrite window_length; [|apply Z.log2_nonneg|by rewrite Hl, He, Z.log2_pow2 by lia].
  apply Z2Nat.id. apply Z.mod_pos_bound. lia.
Qed.

Lemma alter_twice {A} (f g : A -> A) i (l : list A) :
  alter f i (alter g i l) = alter (fun x => f (g x)) i l.
Proof.
  revert i. induction l as [|x l IH]; intros [|i]; [done..|]. simpl. f_equal. apply IH.
Qed.

(** A vacant entry behind the pending ones; writing it changes nothing else. *)
Lemma get_sqe_spec sq :
  sq_wf sq ->
  match io_uring_get_sqe sq with
  | None => Z.of_nat (length (pending sq)) = ring_entries sq
  | Some (i, sq') =>
      Z.of_nat (length (pending sq)) < ring_entries sq /\ sq_wf sq' /\
      ring_entries sq' = ring_entries sq /\
      exists s, sqes sq !! i = Some s /\
        forall f, pending (update_sqe i f sq') = pending sq ++ [f (io_uring_initialize_sqe s)]
  end.
Proof.
  intros W. pose proof (pending_length sq W) as Hlen. pose proof (tail_of sq W) as Ht.
  unfold io_uring_get_sqe. rewrite Hlen. destruct W as [(k & Hk & He & Hm) Hl Hh Hta Hr].
  destruct (Z.leb_spec (ring_entries sq) (u32 (sqe_tail sq - khead sq))) as [|Hlt]; [lia|].
  split; [done|]. set (n := u32 (sqe_tail sq - khead sq)) in *.
  assert (Hn : 0 <= n) by (apply Z.mod_pos_bound; lia).
  assert (Hp15 : 2 ^ k <= 2 ^ 15) by (apply Z.pow_le_mono_r; lia).
  assert (Hn1 : u32 (u32 (sqe_tail sq + 1) - khead sq) = n + 1).
  { rewrite Ht. unfold u32 at 2 3. rewrite Zplus_mod_idemp_l, Z2Nat.id by done.
    rewrite <- Z.add_assoc. apply u32_sub_add. lia. }
  split; [|split; [done|]].
  - constructor; simpl; [by exists k|by rewrite length_alter|done|apply Z.mod_pos_bound; lia|].
    rewrite Hn1. lia.
  - set (i := slot (sqe_tail sq) (ring_mask sq)).
    assert (Hi : i = slot (khead sq + Z.of_nat (Z.to_nat n)) (2 ^ k - 1)).
    { unfold i. rewrite Hm, Ht. unfold u32. apply slot_wrap; lia. }
    destruct (lookup_lt_is_Some_2 (sqes sq) i) as [s Hs].
    { rewrite Hl, He, Hi. apply slot_bound. lia. }
    exists s. split; [done|]. intros f. unfold pending, update_sqe. simpl. rewrite Hn1. fold n.
    rewrite alter_twice, He, Z.log2_pow2 by lia.
    replace (Z.to_nat (n + 1)) with (S (Z.to_nat n)) by lia.
    rewrite Hi. rewrite Hi in Hs.
    refine (window_push k (proj1 Hk) _ _ _ (fun x => f (io_uring_initialize_sqe x)) s _ Hs). lia.
Qed.

Lemma update_sqe_wf i f sq : sq_wf sq -> sq_wf (update_sqe i f sq).
Proof. intros []. constructor; simpl; try done. by rewrite length_alter. Qed.

Lemma kernel_take_spec n sq :
  sq_wf sq -> (n <= length (pending sq))%nat ->
  sq_wf (kernel_take (Z.of_nat n) sq) /\ pending (kernel_take (Z.of_nat n) sq) = drop n (pending sq).
Proof.
  intros W Hn. pose proof (pending_length sq W) as Hlen. pose proof (tail_of sq W) as Ht.
  destruct W as [(k & Hk & He & Hm) Hl Hh Hta Hr].
  assert (Hp15 : 2 ^ k <= 2 ^ 15) by (apply Z.pow_le_mono_r; lia).
  assert (Hn1 : u32 (sqe_tail sq - u32 (khead sq + Z.of_nat n)) = Z.of_nat (length (pending sq)) - Z.of_nat n).
  { rewrite Hlen. unfold u32 at 2. unfold u32 at 1. rewrite Zminus_mod_idemp_r.
    replace (sqe_tail sq - (khead sq + Z.of_nat n)) with (sqe_tail sq - khead sq - Z.of_nat n) by lia.
    rewrite <- Zminus_mod_idemp_l. fold (u32 (sqe_tail sq - khead sq)). apply Z.mod_small. lia. }
  split.
  - constructor; simpl; [by exists k|done|apply Z.mod_pos_bound; lia|done|]. rewrite Hn1. lia.
  - assert (Hw : pending sq = window k (sqes sq) (khead sq) (length (pending sq))).
    { unfold pending at 1. by rewrite <- Hlen, Nat2Z.id, He, Z.log2_pow2 by lia. }
    rewrite Hw, <- window_drop by (lia || by rewrite Hl, He).
    unfold pending at 1. simpl. rewrite Hn1, He, Z.log2_pow2 by lia.
    rewrite <- Nat2Z.inj_sub, Nat2Z.id by lia.
    apply window_ext. intros i Hi. f_equal. rewrite <- (slot_wrap k (proj1 Hk) (khead sq + Z.of_nat n + Z.of_nat i) 32) by lia.
    rewrite <- (slot_wrap k (proj1 Hk) (u32 (khead sq + Z.of_nat n) + Z.of_nat i) 32) by lia.
    f_equal. unfold u32. by rewrite Zplus_mod_idemp_l.
Qed.

(** (liburing submission queue, refinement): with free-running 32-bit
    counters masked to the slots, [io_uring_get_sqe] is the enqueue of a bounded
    queue: it fails exactly when [ring_entries] entries are pending, and
    otherwise hands out a slot behind the pending entries, so that filling it
    appends one entry and changes no other; what the kernel takes comes off
    the front. *)
Theorem submission_queue_refines sq :
  sq_wf sq ->
  (io_uring_get_sqe sq = None <-> Z.of_nat (length (pending sq)) = ring_entries sq) /\
  (forall i sq', io_uring_get_sqe sq = Some (i, sq') ->
     exists s, forall f, sq_wf (update_sqe i f sq') /\ pending (update_sqe i f sq') = pending sq ++ [f s]) /\
  (forall n, (n <= length (pending sq))%nat ->
     sq_wf (kernel_take (Z.of_nat n) sq) /\ pending (kernel_take (Z.of_nat n) sq) = drop n (pending sq)).
Proof.
  intros W. pose proof (get_sqe_spec sq W) as H.
  split; [|split; [|intros n Hn; by apply kernel_take_spec]].
  - destruct (io_uring_get_sqe sq) as [[i sq']|]; split; [done|lia|done|done].
  - intros i sq' E. rewrite E in H. destruct H as (_ & W' & _ & s & _ & Hf).
    exists (io_uring_initialize_sqe s). intros f. split; [by apply update_sqe_wf|apply Hf].
Qed.

Definition blank_sqe : sqe := MkSqe 0 0 0 0 0 0 0 0 0 0 0 0 0 0.

(** A queue of four entries whose counters are about to wrap, two pending. *)
Definition wrapping_sq : io_uring_sq :=
  MkSq (replicate 4 blank_sqe) 4 3 1 1 (2 ^ 32 - 1).

(** An instance. *)
Lemma submission_queue_refines_witness :
  sq_wf wrapping_sq /\ length (pending wrapping_sq) = 2%nat /\
  (io_uring_get_sqe wrapping_sq = None <->
   Z.of_nat (length (pending wrapping_sq)) = ring_entries wrapping_sq).
Proof.
  assert (W : sq_wf wrapping_sq).
  { constructor; [exists 2; by vm_compute|done|by vm_compute|by vm_compute|by vm_compute]. }
  split; [exact W|]. split; [reflexivity|]. apply (submission_queue_refines wrapping_sq W).
Defined.
