(* ===== verification/Ring.v ===== *)
(** ppnt-io: the io_uring driver.

    [src/ppnt-io/src/driver.ixx] and [driver.cpp]: [Operation] and [Ring].
    Operations live at addresses ([ops]); a completion carries the address of
    its operation, with the lowest bit set for the linked timeout.  Resuming a
    coroutine runs arbitrary code of the program and is the parameter
    [resume]; every resumption is recorded in [resumed] with the result the
    coroutine will read.  [std::terminate], a null dereference and the use of
    an address that holds no operation end the run. *)

From S2P Require Import Prelude Uring.
From stdpp Require Import gmap.

Local Open Scope Z_scope.

(** ** Outcomes *)

Inductive eff (A : Type) : Type :=
| Done (a : A)
| Terminated
| NullDeref
| Dangling.
Arguments Done {A} a.
Arguments Terminated {A}.
Arguments NullDeref {A}.
Arguments Dangling {A}.

#[export] Instance eff_ret : MRet eff := @Done.
#[export] Instance eff_bind : MBind eff := fun _ _ f m =>
  match m with
  | Done x => f x | Terminated => Terminated | NullDeref => NullDeref | Dangling => Dangling
  end.

(** ** [Operation] *)

(** The union of the timeout the user asked for and the timespec given to the
    kernel. *)
Inductive op_union := Timeout_ms (ms : Z) | Ts (tv_sec tv_nsec : Z).

Record Operation := MkOp {
  handle : option Z;
  result : Z;
  op_bid : Z;
  ref_count : Z;
  op_flags : Z;
  cqe_flags : Z;
  timeout : op_union
}.

Definition F_HAS_BUFFER : Z := 1.
Definition F_IS_LINKED : Z := 2.

(** The member initialisers, then [reset]; [cqe_flags] is not reset. *)
Definition Operation_reset (t_ms : Z) (op : Operation) : Operation :=
  MkOp None 0 0 1 0 (cqe_flags op) (Timeout_ms t_ms).

(** Reading [timeout_ms] while the timespec is active gives its low half. *)
Definition timeout_ms (op : Operation) : Z :=
  match timeout op with Timeout_ms ms => ms | Ts sec _ => u32 sec end.

(** ** [Ring] *)

Record Ring := MkRing {
  sq : io_uring_sq;
  submitted : list sqe;
  ops : gmap Z Operation;
  resumed : list (Z * Z);
  ev_count : Z;
  notified_ : bool;
  external_tasks_ : list (option Z);
  buffer_mem_ : Z;
  buf_ring_ : option io_uring_buf_ring;
  using_buf_ring_ : bool
}.

Definition set_sq (q : io_uring_sq) (R : Ring) : Ring :=
  MkRing q (submitted R) (ops R) (resumed R) (ev_count R) (notified_ R) (external_tasks_ R)
    (buffer_mem_ R) (buf_ring_ R) (using_buf_ring_ R).
Definition set_ops (m : gmap Z Operation) (R : Ring) : Ring :=
  MkRing (sq R) (submitted R) m (resumed R) (ev_count R) (notified_ R) (external_tasks_ R)
    (buffer_mem_ R) (buf_ring_ R) (using_buf_ring_ R).
Definition log_resume (h r : Z) (R : Ring) : Ring :=
  MkRing (sq R) (submitted R) (ops R) (resumed R ++ [(h, r)]) (ev_count R) (notified_ R)
    (external_tasks_ R) (buffer_mem_ R) (buf_ring_ R) (using_buf_ring_ R).
Definition set_ev_count (n : Z) (R : Ring) : Ring :=
  MkRing (sq R) (submitted R) (ops R) (resumed R) n (notified_ R) (external_tasks_ R)
    (buffer_mem_ R) (buf_ring_ R) (using_buf_ring_ R).
Definition set_notified (b : bool) (R : Ring) : Ring :=
  MkRing (sq R) (submitted R) (ops R) (resumed R) (ev_count R) b (external_tasks_ R)
    (buffer_mem_ R) (buf_ring_ R) (using_buf_ring_ R).
Definition set_external_tasks (l : list (option Z)) (R : Ring) : Ring :=
  MkRing (sq R) (submitted R) (ops R) (resumed R) (ev_count R) (notified_ R) l
    (buffer_mem_ R) (buf_ring_ R) (using_buf_ring_ R).
Definition set_buffers (m : Z) (br : option io_uring_buf_ring) (u : bool) (R : Ring) : Ring :=
  MkRing (sq R) (submitted R) (ops R) (resumed R) (ev_count R) (notified_ R) (external_tasks_ R) m br u.

Definition BGID : Z := 0.
Definition BUF_SIZE : Z := 4096.
Definition BUF_COUNT : Z := 512.

Definition e_time : Z := 62.
Definition e_canceled : Z := 125.
Definition ioring_cqe_f_buffer : Z := 1.

(** [thread_local Ring *current_ring] and its accessors. *)
Definition set_ring {A} (ring : option A) : option A := ring.
Definition current {A} (current_ring : option A) : eff A :=
  match current_ring with Some r => Done r | None => Terminated end.

Section Driver.

(** How many of the published entries one [io_uring_enter] takes. *)
Context (consume : Z -> Z).

(** The addresses of [ev_op_] and [ev_buf_], and the eventfd. *)
Context (ev_op ev_buf ev_fd : Z).

(** Running a coroutine until it suspends, and [handle.done()]. *)
Context (resume : Z -> Ring -> Ring).
Context (done : Z -> Ring -> bool).

(** [io_uring_submit]. *)
Definition io_uring_submit (R : Ring) : Ring :=
  let '(n, q) := io_uring_flush_sq (sq R) in
  let taken := Z.max 0 (Z.min n (consume n)) in
  MkRing (kernel_take taken q) (submitted R ++ take (Z.to_nat taken) (pending (sq R))) (ops R)
    (resumed R) (ev_count R) (notified_ R) (external_tasks_ R) (buffer_mem_ R) (buf_ring_ R)
    (using_buf_ring_ R).

Definition get_sqe (R : Ring) : option (nat * Ring) :=
  match io_uring_get_sqe (sq R) with Some (i, q) => Some (i, set_sq q R) | None => None end.

(** The pattern of the driver: ask for an entry, submit and ask again. *)
Definition get_sqe_retry (R : Ring) : option (nat * Ring) :=
  match get_sqe R with
  | Some r => Some r
  | None => get_sqe (io_uring_submit R)
  end.

Definition write_sqe (i : nat) (f : sqe -> sqe) (R : Ring) : Ring := set_sq (update_sqe i f (sq R)) R.

Definition arm_eventfd_read (R : Ring) : eff Ring :=
  match get_sqe_retry R with
  | None => Terminated
  | Some (i, R) =>
      let R := write_sqe i (io_uring_prep_read ev_fd ev_buf 8 0) R in
      Done (write_sqe i (io_uring_sqe_set_data ev_op) R)
  end.

(** [Ring::submit] of the operation at [a]; [prep] fills the entry and
    [ts_addr] is the address of its timespec. *)
Definition submit (a ts_addr : Z) (prep : sqe -> sqe) (R : Ring) : eff Ring :=
  match get_sqe_retry R with
  | None => Terminated
  | Some (i, R) =>
      let R := write_sqe i prep R in
      let R := write_sqe i (io_uring_sqe_set_data a) R in
      match ops R !! a with
      | None => Dangling
      | Some op =>
          if 0 <? timeout_ms op then
            let R := write_sqe i (sqe_or_flags IOSQE_IO_LINK) R in
            let ts_sqe := get_sqe R in
            let ms := timeout_ms op in
            let op' := MkOp (handle op) (result op) (op_bid op) 2 (Z.lor (op_flags op) F_IS_LINKED)
                         (cqe_flags op) (Ts (ms / 1000) (u32 (ms mod 1000 * 1000000))) in
            match ts_sqe with
            | None => NullDeref
            | Some (j, R) =>
                let R := set_ops (<[a := op']> (ops R)) R in
                let R := write_sqe j (io_uring_prep_link_timeout ts_addr 0) R in
                Done (write_sqe j (io_uring_sqe_set_data (Z.lor a 1)) R)
            end
          else Done R
      end
  end.

(** ** Completions *)

Record io_uring_cqe := MkCqe { cqe_user_data : Z; cqe_res : Z; cqe_fl : Z }.

Definition is_timeout_cqe (c : io_uring_cqe) : bool := negb (Z.land (cqe_user_data c) 1 =? 0).

(** [raw_data & ~1ULL]. *)
Definition cqe_op (c : io_uring_cqe) : Z := Z.land (cqe_user_data c) (2 ^ 64 - 2).

(** What a completion does to the data of its operation. *)
Definition complete (op : Operation) (c : io_uring_cqe) : Operation :=
  if is_timeout_cqe c then
    if cqe_res c =? - e_time
    then MkOp (handle op) (- e_time) (op_bid op) (ref_count op) (op_flags op) (cqe_flags op) (timeout op)
    else op
  else if negb (cqe_res c =? - e_canceled) then
    if negb (Z.land (cqe_fl c) ioring_cqe_f_buffer =? 0)
    then MkOp (handle op) (cqe_res c) (u16 (Z.shiftr (cqe_fl c) 16)) (ref_count op)
           (Z.lor (op_flags op) F_HAS_BUFFER) (cqe_fl c) (timeout op)
    else MkOp (handle op) (cqe_res c) (op_bid op) (ref_count op) (op_flags op) (cqe_fl c) (timeout op)
  else MkOp (handle op) (result op) (op_bid op) (ref_count op) (op_flags op) (cqe_fl c) (timeout op).

(** [--op->data.ref_count], an [uint8_t]. *)
Definition release_ref (op : Operation) : Operation :=
  MkOp (handle op) (result op) (op_bid op) (u8 (ref_count op - 1)) (op_flags op) (cqe_flags op) (timeout op).

Definition call_handle (op : Operation) (R : Ring) : Ring :=
  match handle op with
  | Some h => resume h (log_resume h (result op) R)
  | None => R
  end.

(** The body of the completion loop; the flag is [need_rearm]. *)
Definition process_cqe (st : Ring * bool) (c : io_uring_cqe) : eff (Ring * bool) :=
  let '(R, need_rearm) := st in
  let a := cqe_op c in
  if a =? ev_op then Done (R, true)
  else if a =? 0 then Done (R, need_rearm)
  else
    match ops R !! a with
    | None => Dangling
    | Some op =>
        let op := release_ref (complete op c) in
        let R := set_ops (<[a := op]> (ops R)) R in
        if ref_count op =? 0 then Done (call_handle op R, need_rearm)
        else Done (R, need_rearm)
    end.

Fixpoint process_cqes (cs : list io_uring_cqe) (st : Ring * bool) : eff (Ring * bool) :=
  match cs with
  | [] => Done st
  | c :: cs => st ← process_cqe st c; process_cqes cs st
  end.

(** ** External tasks *)

Definition run_task (R : Ring) (h : option Z) : Ring :=
  match h with
  | Some h => if negb (done h R) then resume h (log_resume h 0 R) else R
  | None => R
  end.

Definition run_external_tasks (R : Ring) : Ring :=
  let R := set_notified false R in
  let tasks := external_tasks_ R in
  let R := set_external_tasks [] R in
  fold_left run_task tasks R.

(** [Ring::post], by one thread without interruption. *)
Definition post_push (h : option Z) (R : Ring) : Ring :=
  set_external_tasks (external_tasks_ R ++ [h]) R.
Definition post_exchange (R : Ring) : bool * Ring := (notified_ R, set_notified true R).
Definition post_write (R : Ring) : Ring := set_ev_count (ev_count R + 1) R.

Definition post (h : option Z) (R : Ring) : Ring :=
  let R := post_push h R in
  let '(was, R) := post_exchange R in
  if negb was then post_write R else R.

(** [Ring::run_one]: [cqes] are the completions found after the wait. *)
Definition run_one (cqes : list io_uring_cqe) (R : Ring) : eff Ring :=
  let R := io_uring_submit R in
  process_cqes cqes (R, false) ≫= fun st : Ring * bool =>
  let '(R, need_rearm) := st in
  if need_rearm then arm_eventfd_read (run_external_tasks R) else Done R.

(** ** Provided buffers *)

Definition get_buffer (b : Z) (R : Ring) : Z := buffer_mem_ R + u32 (b * BUF_SIZE).

Definition recycle_buffer (b : Z) (R : Ring) : eff Ring :=
  let a := get_buffer b R in
  if using_buf_ring_ R then
    match buf_ring_ R with
    | None => NullDeref
    | Some br =>
        let br := io_uring_buf_ring_add a BUF_SIZE b (BUF_COUNT - 1) 0 br in
        let br := io_uring_buf_ring_advance 1 br in
        Done (set_buffers (buffer_mem_ R) (Some br) true R)
    end
  else
    match get_sqe_retry R with
    | None => NullDeref
    | Some (i, R) =>
        let R := write_sqe i (io_uring_sqe_set_data 0) R in
        Done (write_sqe i (io_uring_prep_provide_buffers a BUF_SIZE 1 BGID b) R)
    end.

(** The fill loop of [setup_buffers]. *)
Fixpoint fill_buf_ring (n : nat) (mem : Z) (br : io_uring_buf_ring) : io_uring_buf_ring :=
  match n with
  | O => br
  | S n' =>
      let br := fill_buf_ring n' mem br in
      let i := Z.of_nat n' in
      io_uring_buf_ring_add (mem + i * BUF_SIZE) BUF_SIZE i (BUF_COUNT - 1) i br
  end.

(** [alloc] is the result of [aligned_alloc], [ring_ptr] the ring memory
    [posix_memalign] gave, if it did, and [reg] the result of the
    registration. *)
Definition setup_buffers (alloc : option Z) (ring_ptr : option io_uring_buf_ring) (reg : Z)
    (R : Ring) : eff Ring :=
  match alloc with
  | None => Terminated
  | Some mem =>
      let fallback (R : Ring) : eff Ring :=
        match get_sqe_retry R with
        | None => NullDeref
        | Some (i, R) =>
            Done (io_uring_submit
              (write_sqe i (io_uring_prep_provide_buffers mem BUF_SIZE BUF_COUNT BGID 0) R))
        end in
      match ring_ptr with
      | Some br =>
          if reg =? 0 then
            let br := fill_buf_ring (Z.to_nat BUF_COUNT) mem (io_uring_buf_ring_init br) in
            Done (set_buffers mem (Some (io_uring_buf_ring_advance BUF_COUNT br)) true R)
          else fallback (set_buffers mem None false R)
      | None => fallback (set_buffers mem None false R)
      end
  end.

(** The constructor: [ret] is the result of [io_uring_queue_init], which sets
    up the submission queue [q]. *)
Definition Ring_new (ret : Z) (q : io_uring_sq) (alloc : option Z) (ring_ptr : option io_uring_buf_ring)
    (reg : Z) : eff Ring :=
  if ret <? 0 then Terminated
  else
    R ← setup_buffers alloc ring_ptr reg (MkRing q [] ∅ [] 0 false [] 0 None false);
    arm_eventfd_read R.

(** ** A batch of completions resumes each operation once *)

(** Running a coroutine touches no operation another coroutine waits for, and
    resumes nobody. *)
Record resume_frame : Prop := ResumeFrame {
  rf_ops : forall h R a op, ops R !! a = Some op -> handle op <> Some h -> ops (resume h R) !! a = Some op;
  rf_log : forall h R, resumed (resume h R) = resumed R
}.

Definition cqes_of (a : Z) (cs : list io_uring_cqe) : list io_uring_cqe :=
  filter (fun c => cqe_op c = a) cs.

(** Some completion of [cs] is for the operation at [a]. *)
Definition targeted (cs : list io_uring_cqe) (a : Z) : Prop :=
  a <> ev_op /\ a <> 0 /\ exists c, c ∈ cs /\ cqe_op c = a.

(** What the kernel hands over: completions of live operations, no more than
    each waits for, and each coroutine waits for one operation. *)
Record batch_wf (R : Ring) (cs : list io_uring_cqe) : Prop := BatchWf {
  bw_ops : forall a, targeted cs a -> exists op, ops R !! a = Some op /\
    Z.of_nat (length (cqes_of a cs)) <= ref_count op < 256;
  bw_handles : forall a b opa opb, targeted cs a -> targeted cs b ->
    ops R !! a = Some opa -> ops R !! b = Some opb -> handle opa = handle opb -> handle opa <> None -> a = b
}.

(** One completion of an operation. *)
Definition complete_ref (op : Operation) (c : io_uring_cqe) : Operation := release_ref (complete op c).

(** The results the coroutine [h] was resumed with. *)
Definition log_of (h : Z) (R : Ring) : list Z := snd <$> filter (fun p => fst p = h) (resumed R).

Lemma complete_handle op c : handle (complete_ref op c) = handle op.
Proof. unfold complete_ref, release_ref, complete. simpl. by repeat case_match. Qed.

Lemma complete_refs op c : ref_count (complete_ref op c) = u8 (ref_count op - 1).
Proof. unfold complete_ref, release_ref, complete. simpl. by repeat case_match. Qed.

Lemma cqes_of_cons a c cs :
  cqes_of a (c :: cs) = if decide (cqe_op c = a) then c :: cqes_of a cs else cqes_of a cs.
Proof. unfold cqes_of. by rewrite filter_cons. Qed.

Lemma cqes_of_le a c cs : (length (cqes_of a cs) <= length (cqes_of a (c :: cs)))%nat.
Proof. rewrite cqes_of_cons. case_decide; simpl; lia. Qed.

Lemma targeted_cons c cs a : targeted cs a -> targeted (c :: cs) a.
Proof. intros (? & ? & c' & ? & ?). split; [done|]. split; [done|]. exists c'. by split; [right|]. Qed.

Lemma targeted_count cs a : targeted cs a -> (0 < length (cqes_of a cs))%nat.
Proof.
  intros (_ & _ & c & Hc & Ha). assert (Hin : c ∈ cqes_of a cs) by (by apply list_elem_of_filter).
  destruct (cqes_of a cs); [by apply not_elem_of_nil in Hin|simpl; lia].
Qed.

Lemma not_targeted_count cs a : a <> ev_op -> a <> 0 -> ~ targeted cs a -> cqes_of a cs = [].
Proof.
  intros H1 H2 Ht. destruct (cqes_of a cs) as [|c l] eqn:E; [done|]. destruct Ht.
  assert (Hc : c ∈ cqes_of a cs) by (rewrite E; left).
  apply list_elem_of_filter in Hc as [? ?]. split; [done|]. split; [done|]. by exists c.
Qed.

(** What resuming after a completed operation adds to the record. *)
Definition completion_log (op : Operation) : list (Z * Z) :=
  if ref_count op =? 0 then match handle op with Some h => [(h, result op)] | None => [] end else [].

Section Batch.
Context (HF : resume_frame).

(** How the operations the rest of the batch is for change in one turn. *)
Definition after_cqe (c : io_uring_cqe) (cs : list io_uring_cqe) (R R1 : Ring) : Prop :=
  forall b op, targeted cs b -> ops R !! b = Some op ->
    ops R1 !! b = Some (if decide (cqe_op c = b) then complete_ref op c else op).

Lemma after_handle c cs R R1 b op op1 :
  after_cqe c cs R R1 -> targeted cs b -> ops R !! b = Some op -> ops R1 !! b = Some op1 ->
  handle op1 = handle op.
Proof.
  intros H Hb Hop Hop1. specialize (H b op Hb Hop). rewrite Hop1 in H. injection H as ->.
  case_decide; [apply complete_handle|done].
Qed.

Lemma batch_tail R R1 c cs : batch_wf R (c :: cs) -> after_cqe c cs R R1 -> batch_wf R1 cs.
Proof.
  intros [Hops Hh] Hafter. split.
  - intros b Hb. destruct (Hops b (targeted_cons c cs b Hb)) as (op & Hop & Hc).
    pose proof (targeted_count cs b Hb). specialize (Hafter b op Hb Hop).
    rewrite cqes_of_cons in Hc. destruct (decide (cqe_op c = b)) as [E|E].
    + exists (complete_ref op c). split; [done|]. simpl in Hc. rewrite complete_refs. unfold u8.
      rewrite Z.mod_small; lia.
    + exists op. split; [done|]. lia.
  - intros b1 b2 op1 op2 H1 H2 E1 E2 Eh Hn.
    destruct (Hops b1 (targeted_cons c cs b1 H1)) as (o1 & Ho1 & _).
    destruct (Hops b2 (targeted_cons c cs b2 H2)) as (o2 & Ho2 & _).
    pose proof (after_handle _ _ _ _ _ _ _ Hafter H1 Ho1 E1).
    pose proof (after_handle _ _ _ _ _ _ _ Hafter H2 Ho2 E2).
    apply (Hh b1 b2 o1 o2); [by apply targeted_cons..|done|done|congruence|congruence].
Qed.

(** What the turn adds to the record. *)
Definition turn_log (R : Ring) (c : io_uring_cqe) : list (Z * Z) :=
  if (cqe_op c =? ev_op) || (cqe_op c =? 0) then []
  else match ops R !! cqe_op c with Some op => completion_log (complete_ref op c) | None => [] end.

(** One turn of the loop, and what is left of the batch. *)
Lemma process_cqe_step R need c cs :
  batch_wf R (c :: cs) ->
  exists R1, process_cqe (R, need) c = Done (R1, need || (cqe_op c =? ev_op)) /\
    batch_wf R1 cs /\ after_cqe c cs R R1 /\ resumed R1 = resumed R ++ turn_log R c.
Proof.
  intros W. unfold process_cqe, turn_log. set (a := cqe_op c).
  destruct (Z.eqb_spec a ev_op) as [Hev|Hev]; [|destruct (Z.eqb_spec a 0) as [H0|H0]]; cbn [orb].
  1,2: exists R; rewrite ?orb_true_r, ?orb_false_r, app_nil_r;
    assert (Ha : after_cqe c cs R R) by (intros b op (? & ? & _) ?; case_decide; [unfold a in *; congruence|done]);
    eauto using batch_tail.
  assert (Ht : targeted (c :: cs) a) by (split; [done|]; split; [done|]; exists c; by split; [left|]).
  destruct (bw_ops _ _ W a Ht) as (op & Hop & Hc). rewrite Hop, orb_false_r. fold (complete_ref op c).
  assert (Hrc : ref_count (complete_ref op c) = ref_count op - 1).
  { rewrite complete_refs. apply Z.mod_small. rewrite cqes_of_cons, decide_True in Hc by done.
    simpl in Hc. lia. }
  set (R' := set_ops (<[a := complete_ref op c]> (ops R)) R). unfold completion_log.
  destruct (Z.eqb_spec (ref_count (complete_ref op c)) 0) as [Hz|Hz].
  - assert (Hlast : forall b, targeted cs b -> b <> a).
    { intros b Hb ->. pose proof (targeted_count cs a Hb).
      rewrite cqes_of_cons, decide_True in Hc by done. simpl in Hc. lia. }
    exists (call_handle (complete_ref op c) R'). split; [done|]. rewrite complete_handle.
    assert (Ha : after_cqe c cs R (call_handle (complete_ref op c) R')).
    { intros b opb Hb Hopb. pose proof (Hlast b Hb) as Hne. rewrite decide_False by done.
      unfold call_handle. rewrite complete_handle. destruct (handle op) as [h|] eqn:Eh.
      - apply (rf_ops HF); [by simpl; rewrite lookup_insert_ne|]. intros Eb. apply Hne.
        apply (bw_handles _ _ W b a opb op); [by apply targeted_cons|done..|congruence|congruence].
      - simpl. by rewrite lookup_insert_ne. }
    split; [by eapply batch_tail|]. split; [done|]. unfold call_handle. rewrite complete_handle.
    destruct (handle op) as [h|]; [by rewrite (rf_log HF)|by rewrite app_nil_r].
  - exists R'. split; [done|].
    assert (Ha : after_cqe c cs R R').
    { intros b opb Hb Hopb. simpl. case_decide as E.
      - change (cqe_op c) with a in E. subst b. rewrite lookup_insert_eq. congruence.
      - by rewrite lookup_insert_ne. }
    split; [by eapply batch_tail|]. split; [done|]. by rewrite app_nil_r.
Qed.

Lemma turn_log_other R c cs h :
  (forall op, targeted (c :: cs) (cqe_op c) -> ops R !! cqe_op c = Some op -> handle op <> Some h) ->
  filter (fun p => fst p = h) (turn_log R c) = [].
Proof.
  intros H. unfold turn_log. destruct (Z.eqb_spec (cqe_op c) ev_op) as [|H1]; [done|].
  destruct (Z.eqb_spec (cqe_op c) 0) as [|H0]; [done|]. cbn [orb].
  destruct (ops R !! cqe_op c) as [op|]; [|done].
  assert (Hne : handle op <> Some h).
  { apply H; [|done]. split; [done|]. split; [done|]. exists c. by split; [left|]. }
  unfold completion_log. rewrite complete_handle. destruct (_ =? 0); [|done].
  destruct (handle op) as [h'|]; [|done]. rewrite filter_cons_False; [done|]. simpl. congruence.
Qed.

Lemma log_of_turn R R1 c h :
  resumed R1 = resumed R ++ turn_log R c ->
  log_of h R1 = log_of h R ++ (snd <$> filter (fun p => fst p = h) (turn_log R c)).
Proof. unfold log_of. intros ->. by rewrite filter_app, fmap_app. Qed.

(** Whether the batch completes the operation, and with what result. *)
Definition batch_log (cs : list io_uring_cqe) (a : Z) (op : Operation) : list Z :=
  if Z.of_nat (length (cqes_of a cs)) =? ref_count op
  then [result (fold_left complete_ref (cqes_of a cs) op)] else [].

Lemma batch_log_cons c cs a op :
  targeted cs a -> cqe_op c = a -> Z.of_nat (length (cqes_of a (c :: cs))) <= ref_count op < 256 ->
  batch_log (c :: cs) a op = batch_log cs a (complete_ref op c) /\ completion_log (complete_ref op c) = [].
Proof.
  intros Ht E Hc. pose proof (targeted_count cs a Ht). unfold batch_log, completion_log.
  rewrite cqes_of_cons, decide_True in * by done. rewrite complete_refs.
  cbn [length fold_left] in *. unfold u8. rewrite Z.mod_small by lia.
  rewrite (proj2 (Z.eqb_neq (ref_count op - 1) 0)) by lia. split; [|done].
  destruct (Z.eqb_spec (Z.of_nat (S (length (cqes_of a cs)))) (ref_count op)),
    (Z.eqb_spec (Z.of_nat (length (cqes_of a cs))) (ref_count op - 1)); done || lia.
Qed.

(** The turn that is the last one for the operation at [a]. *)
Lemma batch_log_last R c cs a op h :
  targeted (c :: cs) a -> cqe_op c = a -> cqes_of a cs = [] -> ops R !! a = Some op ->
  handle op = Some h -> Z.of_nat (length (cqes_of a (c :: cs))) <= ref_count op < 256 ->
  snd <$> filter (fun p => fst p = h) (turn_log R c) = batch_log (c :: cs) a op.
Proof.
  intros (H1 & H2 & _) Ec En Hop Hh Hc. unfold turn_log, batch_log, completion_log.
  rewrite Ec, Hop, (proj2 (Z.eqb_neq _ _) H1), (proj2 (Z.eqb_neq _ _) H2). cbn [orb].
  rewrite cqes_of_cons, decide_True, En in * by done.
  rewrite complete_refs, complete_handle, Hh. cbn [length fold_left] in *. unfold u8.
  rewrite Z.mod_small by lia.
  destruct (Z.eqb_spec (ref_count op - 1) 0), (Z.eqb_spec (Z.of_nat 1) (ref_count op)); try lia; [|done].
  by rewrite filter_cons_True.
Qed.

(** A turn for [a] with more to come. *)
Lemma turn_log_more R c cs a op :
  targeted cs a -> cqe_op c = a -> ops R !! a = Some op ->
  completion_log (complete_ref op c) = [] -> turn_log R c = [].
Proof.
  intros (H1 & H2 & _) Ec Hop Hcl. unfold turn_log.
  by rewrite Ec, Hop, (proj2 (Z.eqb_neq _ _) H1), (proj2 (Z.eqb_neq _ _) H2).
Qed.

Lemma targeted_rest c cs a : targeted (c :: cs) a -> cqes_of a cs <> [] -> targeted cs a.
Proof.
  intros (H1 & H2 & _) Hn. destruct (cqes_of a cs) as [|c' l] eqn:E; [done|].
  split; [done|]. split; [done|]. exists c'.
  assert (Hin : c' ∈ cqes_of a cs) by (rewrite E; left). by apply list_elem_of_filter in Hin as [? ?].
Qed.

(** The record of [h] over a batch: what happens with a turn and the rest. *)
Lemma batch_log_step R R1 R' c cs h a op :
  batch_wf R (c :: cs) -> after_cqe c cs R R1 -> resumed R1 = resumed R ++ turn_log R c ->
  (forall op, targeted cs a -> ops R1 !! a = Some op -> handle op = Some h ->
     log_of h R' = log_of h R1 ++ batch_log cs a op) ->
  ((forall b op, targeted cs b -> ops R !! b = Some op -> handle op <> Some h) ->
     log_of h R' = log_of h R1) ->
  targeted (c :: cs) a -> ops R !! a = Some op -> handle op = Some h ->
  log_of h R' = log_of h R ++ batch_log (c :: cs) a op.
Proof.
  intros W Ha Hlog HA HB Ht Hop Hh. destruct (bw_ops _ _ W a Ht) as (op' & Hop' & Hc).
  assert (op' = op) as -> by congruence.
  assert (Huniq : forall b opb, targeted (c :: cs) b -> ops R !! b = Some opb -> handle opb = Some h -> b = a).
  { intros b opb Hb Hopb Ehb. apply (bw_handles _ _ W b a opb op); [done..|congruence|congruence]. }
  destruct (decide (cqes_of a cs = [])) as [En|En].
  - assert (Ec : cqe_op c = a).
    { pose proof (targeted_count _ _ Ht) as Hn. rewrite cqes_of_cons, En in Hn.
      case_decide; [done|]. simpl in Hn. lia. }
    rewrite HB, (log_of_turn _ _ _ _ Hlog), (batch_log_last R c cs a op h); try done.
    intros b opb Hb Hopb Ehb. pose proof (targeted_count cs b Hb) as Hn.
    rewrite (Huniq b opb (targeted_cons c cs b Hb) Hopb Ehb), En in Hn. simpl in Hn. lia.
  - pose proof (targeted_rest c cs a Ht En) as Hta. specialize (Ha a op Hta Hop).
    destruct (decide (cqe_op c = a)) as [Ec|Ec].
    + destruct (batch_log_cons c cs a op Hta Ec Hc) as [-> Hcl].
      rewrite (HA _ Hta Ha) by (by rewrite complete_handle).
      by rewrite (log_of_turn _ _ _ _ Hlog), (turn_log_more R c cs a op), app_nil_r.
    + rewrite (HA op Hta Ha Hh), (log_of_turn _ _ _ _ Hlog), (turn_log_other R c cs h).
      * rewrite app_nil_r. unfold batch_log. by rewrite cqes_of_cons, decide_False.
      * intros opc Htc Hopc Ehc. by apply Ec, (Huniq _ opc).
Qed.

Lemma process_cqes_spec cs : forall R need,
  batch_wf R cs ->
  exists R', process_cqes cs (R, need) = Done (R', need || existsb (fun c => cqe_op c =? ev_op) cs) /\
    (forall h a op, targeted cs a -> ops R !! a = Some op -> handle op = Some h ->
       log_of h R' = log_of h R ++ batch_log cs a op) /\
    (forall h, (forall b op, targeted cs b -> ops R !! b = Some op -> handle op <> Some h) ->
       log_of h R' = log_of h R).
Proof.
  induction cs as [|c cs IH]; intros R need W.
  - exists R. rewrite orb_false_r. split; [done|]. split; [|done].
    intros h a op (_ & _ & c & Hc & _). by apply not_elem_of_nil in Hc.
  - destruct (process_cqe_step R need c cs W) as (R1 & E1 & W1 & Ha & Hlog).
    destruct (IH R1 (need || (cqe_op c =? ev_op)) W1) as (R' & E & HA & HB).
    exists R'. split; [cbn [process_cqes]; rewrite E1; cbn [mbind eff_bind existsb]; by rewrite E, orb_assoc|].
    assert (Hother : forall h, (forall b op, targeted cs b -> ops R !! b = Some op -> handle op <> Some h) ->
      log_of h R' = log_of h R1).
    { intros h Hn. apply HB. intros b op1 Hb Hop1.
      destruct (bw_ops _ _ W b (targeted_cons c cs b Hb)) as (op & Hop & _).
      rewrite (after_handle _ _ _ _ _ _ _ Ha Hb Hop Hop1). by apply (Hn b). }
    split; [intros h a op; apply (batch_log_step R R1 R' c cs h a op); auto|].
    intros h Hn. rewrite Hother by (intros b op Hb; apply Hn, targeted_cons, Hb).
    rewrite (log_of_turn _ _ _ _ Hlog), (turn_log_other R c cs h); [by rewrite app_nil_r|].
    intros op Ht. by apply Hn.
Qed.

End Batch.

End Driver.

(** ** Submitting *)

Section Submitting.
Context (consume : Z -> Z).

Lemma write_sqe_twice i f g R : write_sqe i f (write_sqe i g R) = write_sqe i (fun s => f (g s)) R.
Proof.
  unfold write_sqe, set_sq, update_sqe. simpl. by rewrite alter_twice.
Qed.

Lemma get_sqe_room R :
  sq_wf (sq R) -> Z.of_nat (length (pending (sq R))) < ring_entries (sq R) ->
  exists i q s, get_sqe R = Some (i, set_sq q R) /\ sq_wf q /\ ring_entries q = ring_entries (sq R) /\
    forall f, pending (update_sqe i f q) = pending (sq R) ++ [f s].
Proof.
  intros W Hr. pose proof (get_sqe_spec _ W) as H. unfold get_sqe.
  destruct (io_uring_get_sqe (sq R)) as [[i q]|]; [|lia].
  destruct H as (_ & W' & He & s & _ & Hf). exists i, q, (io_uring_initialize_sqe s). naive_solver.
Qed.

Lemma get_sqe_retry_room R :
  sq_wf (sq R) -> Z.of_nat (length (pending (sq R))) < ring_entries (sq R) ->
  get_sqe_retry consume R = get_sqe R.
Proof. intros W Hr. unfold get_sqe_retry. by destruct (get_sqe_room R W Hr) as (i & q & s & -> & _). Qed.

(** The operation after a submission with a timeout. *)
Definition linked_op (op : Operation) : Operation :=
  MkOp (handle op) (result op) (op_bid op) 2 (Z.lor (op_flags op) F_IS_LINKED) (cqe_flags op)
    (Ts (timeout_ms op / 1000) (u32 (timeout_ms op mod 1000 * 1000000))).

Lemma submit_plain a ts_addr prep R op :
  sq_wf (sq R) -> Z.of_nat (length (pending (sq R))) < ring_entries (sq R) ->
  ops R !! a = Some op -> timeout_ms op = 0 ->
  exists R' s, submit consume a ts_addr prep R = Done R' /\ ops R' = ops R /\
    pending (sq R') = pending (sq R) ++ [io_uring_sqe_set_data a (prep s)].
Proof.
  intros W Hr Hop Ht. unfold submit. rewrite get_sqe_retry_room by done.
  destruct (get_sqe_room R W Hr) as (i & q & s & -> & W' & He & Hf).
  rewrite write_sqe_twice. unfold write_sqe at 1. simpl ops. rewrite Hop, Ht. simpl.
  eexists _, s. split; [done|]. split; [done|]. apply (Hf (fun s => io_uring_sqe_set_data a (prep s))).
Qed.

Lemma submit_linked a ts_addr prep R op :
  sq_wf (sq R) -> Z.of_nat (length (pending (sq R))) + 1 < ring_entries (sq R) ->
  ops R !! a = Some op -> 0 < timeout_ms op ->
  exists R' s t, submit consume a ts_addr prep R = Done R' /\ ops R' = <[a := linked_op op]> (ops R) /\
    pending (sq R') = pending (sq R) ++
      [sqe_or_flags IOSQE_IO_LINK (io_uring_sqe_set_data a (prep s));
       io_uring_sqe_set_data (Z.lor a 1) (io_uring_prep_link_timeout ts_addr 0 t)].
Proof.
  intros W Hr Hop Ht. unfold submit. rewrite get_sqe_retry_room by (done || lia).
  destruct (get_sqe_room R W ltac:(lia)) as (i & q & s & -> & W' & He & Hf).
  rewrite write_sqe_twice. unfold write_sqe at 1. simpl ops. rewrite Hop.
  rewrite (proj2 (Z.ltb_lt _ _) Ht), write_sqe_twice.
  set (f := fun s => sqe_or_flags IOSQE_IO_LINK (io_uring_sqe_set_data a (prep s))).
  set (R1 := write_sqe i _ (set_sq q R)).
  assert (E1 : pending (sq R1) = pending (sq R) ++ [f s]) by apply (Hf f).
  destruct (get_sqe_room R1) as (j & q2 & t & -> & W2 & He2 & Hf2).
  - by apply update_sqe_wf.
  - rewrite E1, length_app. simpl. lia.
  - rewrite write_sqe_twice. eexists _, s, t. split; [done|]. split; [done|].
    etransitivity; [apply (Hf2 (fun t => io_uring_sqe_set_data (Z.lor a 1) (io_uring_prep_link_timeout ts_addr 0 t)))|].
    by rewrite E1, <- app_assoc.
Qed.

(** Submitting resumes nobody. *)
Lemma submit_resumed a ts_addr prep R R' : submit consume a ts_addr prep R = Done R' -> resumed R' = resumed R.
Proof.
  unfold submit, get_sqe_retry, get_sqe, io_uring_submit. intros E.
  repeat (case_match; simplify_eq); reflexivity.
Qed.

(** With one vacant entry the timeout has none, and the null pointer is used. *)
Lemma submit_last_entry a ts_addr prep R op :
  sq_wf (sq R) -> Z.of_nat (length (pending (sq R))) + 1 = ring_entries (sq R) ->
  ops R !! a = Some op -> 0 < timeout_ms op -> submit consume a ts_addr prep R = NullDeref.
Proof.
  intros W Hr Hop Ht. unfold submit. rewrite get_sqe_retry_room by (done || lia).
  destruct (get_sqe_room R W ltac:(lia)) as (i & q & s & -> & W' & He & Hf).
  rewrite write_sqe_twice. unfold write_sqe at 1. simpl ops. rewrite Hop.
  rewrite (proj2 (Z.ltb_lt _ _) Ht), write_sqe_twice.
  set (f := fun s => sqe_or_flags IOSQE_IO_LINK (io_uring_sqe_set_data a (prep s))).
  set (R1 := write_sqe i _ (set_sq q R)).
  assert (E1 : pending (sq R1) = pending (sq R) ++ [f s]) by apply (Hf f).
  assert (W1 : sq_wf (sq R1)) by (by apply update_sqe_wf).
  pose proof (get_sqe_spec _ W1) as H. unfold get_sqe.
  destruct (io_uring_get_sqe (sq R1)) as [[j q2]|]; [|done].
  destruct H as [H _]. rewrite E1, length_app in H. simpl in H. lia.
Qed.

End Submitting.

(** ** Tagged addresses *)

Lemma cqe_op_even d r f : 0 <= d < 2 ^ 64 -> cqe_op (MkCqe d r f) = 2 * (d / 2).
Proof.
  intros Hd. unfold cqe_op. simpl cqe_user_data.
  change (2 ^ 64 - 2) with (Z.shiftl (Z.ones 63) 1).
  replace (2 * (d / 2)) with (Z.shiftl (Z.shiftr d 1) 1)
    by (rewrite Z.shiftl_mul_pow2, Z.shiftr_div_pow2 by lia; change (2 ^ 1) with 2; lia).
  apply Z.bits_inj'. intros i Hi. rewrite Z.land_spec.
  destruct (Z.eq_dec i 0) as [->|Hi0]; [by rewrite !Z.shiftl_spec_low, andb_false_r by lia|].
  rewrite !Z.shiftl_spec_high, Z.shiftr_spec by lia. replace (i - 1 + 1) with i by lia.
  destruct (Z.lt_ge_cases (i - 1) 63).
  - by rewrite Z.ones_spec_low, andb_true_r by lia.
  - rewrite Z.ones_spec_high, andb_false_r by lia. symmetry. apply Z.testbit_false; [lia|].
    rewrite Z.div_small; [done|]. split; [lia|].
    apply Z.lt_le_trans with (2 ^ 64); [lia|apply Z.pow_le_mono_r; lia].
Qed.

Lemma land_1 x : Z.land x 1 = x mod 2.
Proof. change 1 with (Z.ones 1). by rewrite Z.land_ones. Qed.

Lemma tagged_address a r f :
  0 <= a < 2 ^ 64 -> a mod 2 = 0 ->
  cqe_op (MkCqe a r f) = a /\ is_timeout_cqe (MkCqe a r f) = false /\
  cqe_op (MkCqe (Z.lor a 1) r f) = a /\ is_timeout_cqe (MkCqe (Z.lor a 1) r f) = true.
Proof.
  intros Ha He. assert (Hl : Z.lor a 1 = a + 1).
  { assert (Z.land a 1 = 0) by (by rewrite land_1).
    by rewrite <- Z.lxor_lor, <- Z.add_nocarry_lxor. }
  assert (Hm : (a + 1) mod 2 = 1) by zdiv_lia.
  unfold is_timeout_cqe. cbn [cqe_user_data].
  rewrite !cqe_op_even, Hl, !land_1, He, Hm by zdiv_lia.
  repeat split; zdiv_lia.
Qed.

(** C1 ([Ring::run_one], safety): processing a batch of completions succeeds
    and resumes the coroutine of an operation exactly when the batch holds as
    many completions of it as it still waits for, exactly once, with the
    result those completions give in their order; coroutines whose operation
    is not in the batch are not resumed; the eventfd completion is noticed.
    The completions of different operations may be interleaved in any way and
    resumed coroutines may submit new operations. *)
Theorem completions_resume_once ev_op resume cs R need :
  resume_frame resume -> batch_wf ev_op R cs ->
  exists R', process_cqes ev_op resume cs (R, need) =
               Done (R', need || existsb (fun c => cqe_op c =? ev_op) cs) /\
    (forall h a op, targeted ev_op cs a -> ops R !! a = Some op -> handle op = Some h ->
       log_of h R' = log_of h R ++
         (if Z.of_nat (length (cqes_of a cs)) =? ref_count op
          then [result (fold_left complete_ref (cqes_of a cs) op)] else [])) /\
    (forall h, (forall b op, targeted ev_op cs b -> ops R !! b = Some op -> handle op <> Some h) ->
       log_of h R' = log_of h R).
Proof. intros HF W. by apply process_cqes_spec. Qed.

Definition sample_sq : io_uring_sq := MkSq (replicate 4 blank_sqe) 4 3 0 0 0.

(** Coroutine 7 waits for an operation with a linked timeout at address 16. *)
Definition sample_ring : Ring :=
  MkRing sample_sq [] {[ 16 := MkOp (Some 7) 0 0 2 0 0 (Timeout_ms 1500) ]} [] 0 false [] 0 None false.

Definition drop_own (h : Z) (R : Ring) : Ring :=
  set_ops (filter (fun p => handle (snd p) <> Some h) (ops R)) R.

Definition timed_out_batch : list io_uring_cqe :=
  [MkCqe 16 (- e_canceled) 0; MkCqe 1024 8 0; MkCqe 17 (- e_time) 0].

Lemma drop_own_frame : resume_frame drop_own.
Proof.
  split; [|done]. intros h R a op Ha Hh. simpl. by apply map_lookup_filter_Some.
Qed.

Lemma timed_out_targets a : targeted 1024 timed_out_batch a -> a = 16.
Proof.
  intros (H1 & H2 & c & Hc & <-). unfold timed_out_batch in Hc. rewrite !elem_of_cons in Hc.
  destruct Hc as [->|[->|[->|Hc]]]; [done|by destruct H1|done|by apply not_elem_of_nil in Hc].
Qed.

(** Witness of C1. *)
Lemma completions_resume_once_witness :
  exists R', process_cqes 1024 drop_own timed_out_batch (sample_ring, false) = Done (R', true) /\
             log_of 7 R' = [- e_time].
Proof.
  destruct (completions_resume_once 1024 drop_own timed_out_batch sample_ring false drop_own_frame)
    as (R' & E & H & _).
  - split.
    + intros a ->%timed_out_targets. eexists. split; [reflexivity|]. vm_compute. split; [intros E; discriminate E|done].
    + intros a b opa opb ->%timed_out_targets ->%timed_out_targets. done.
  - exists R'. split; [exact E|]. rewrite (H 7 16 (MkOp (Some 7) 0 0 2 0 0 (Timeout_ms 1500))); [reflexivity| |reflexivity|reflexivity].
    split; [done|]. split; [done|]. eexists. split; [left|reflexivity].
Defined.

(** ([Ring::submit], functional): with room in the queue, an operation
    without a timeout queues its entry, carrying its address; one with a
    timeout queues its entry linked to a timeout entry right behind it, which
    carries the address with the lowest bit set, waits for two completions,
    and holds a valid timespec of the requested milliseconds. *)
Theorem submit_queues consume a ts_addr prep R op :
  sq_wf (sq R) -> Z.of_nat (length (pending (sq R))) + 1 < ring_entries (sq R) ->
  ops R !! a = Some op -> 0 <= timeout_ms op < 2 ^ 32 ->
  exists R', submit consume a ts_addr prep R = Done R' /\
    if timeout_ms op =? 0 then
      ops R' = ops R /\
      exists s, pending (sq R') = pending (sq R) ++ [io_uring_sqe_set_data a (prep s)]
    else
      (exists s t, pending (sq R') = pending (sq R) ++
        [sqe_or_flags IOSQE_IO_LINK (io_uring_sqe_set_data a (prep s));
         io_uring_sqe_set_data (Z.lor a 1) (io_uring_prep_link_timeout ts_addr 0 t)]) /\
      exists op' sec nsec, ops R' = <[a := op']> (ops R) /\ ref_count op' = 2 /\
        handle op' = handle op /\ timeout op' = Ts sec nsec /\
        0 <= nsec < 1000000000 /\ sec * 1000000000 + nsec = timeout_ms op * 1000000.
Proof.
  intros W Hr Hop Ht. destruct (Z.eqb_spec (timeout_ms op) 0) as [H0|H0].
  - destruct (submit_plain consume a ts_addr prep R op) as (R' & s & E & Ho & Hp); [done|lia|done|done|].
    eauto 6.
  - destruct (submit_linked consume a ts_addr prep R op) as (R' & s & t & E & Ho & Hp); [done|done|done|lia|].
    exists R'. split; [done|]. split; [eauto|]. exists (linked_op op). eexists _, _.
    split; [exact Ho|]. split; [done|]. split; [done|]. split; [reflexivity|].
    assert (Hm : 0 <= timeout_ms op mod 1000 * 1000000 < 2 ^ 32) by zdiv_lia.
    unfold u32. rewrite Z.mod_small by done. split; zdiv_lia.
Qed.

(** An instance. *)
Lemma submit_queues_witness :
  exists R', submit (fun n => n) 16 64 (io_uring_prep_read 5 4096 100 0) sample_ring = Done R' /\
    length (pending (sq R')) = 2%nat.
Proof.
  destruct (submit_queues (fun n => n) 16 64 (io_uring_prep_read 5 4096 100 0) sample_ring
    (MkOp (Some 7) 0 0 2 0 0 (Timeout_ms 1500))) as (R' & E & H).
  - constructor; [exists 2; by vm_compute|done|by vm_compute|by vm_compute|by vm_compute].
  - reflexivity.
  - reflexivity.
  - by vm_compute.
  - exists R'. split; [exact E|]. destruct H as [(s & t & ->) _]. reflexivity.
Defined.

(** ([Ring::submit], error): with a single vacant entry an operation with
    a timeout takes it, and the second request for an entry, which is not
    checked, is a null dereference. *)
Theorem submit_timeout_last_entry consume a ts_addr prep R op :
  sq_wf (sq R) -> Z.of_nat (length (pending (sq R))) + 1 = ring_entries (sq R) ->
  ops R !! a = Some op -> 0 < timeout_ms op -> submit consume a ts_addr prep R = NullDeref.
Proof. apply submit_last_entry. Qed.

(** An instance. *)
Lemma submit_timeout_last_entry_witness :
  submit (fun n => n) 16 64 (io_uring_prep_read 5 4096 100 0)
    (set_sq (MkSq (replicate 4 blank_sqe) 4 3 0 3 0) sample_ring) = NullDeref.
Proof.
  apply (submit_timeout_last_entry (fun n => n) 16 64 (io_uring_prep_read 5 4096 100 0)
    (set_sq (MkSq (replicate 4 blank_sqe) 4 3 0 3 0) sample_ring) (MkOp (Some 7) 0 0 2 0 0 (Timeout_ms 1500))).
  - constructor; [exists 2; by vm_compute|done|by vm_compute|by vm_compute|by vm_compute].
  - reflexivity.
  - reflexivity.
  - reflexivity.
Defined.

Lemma complete_io_result op c :
  is_timeout_cqe c = false ->
  result (complete_ref op c) = if cqe_res c =? - e_canceled then result op else cqe_res c.
Proof.
  intros E. unfold complete_ref, release_ref, complete. rewrite E. cbn [result].
  destruct (cqe_res c =? - e_canceled); cbn [negb]; [done|]. by destruct (negb _).
Qed.

Lemma complete_timeout_result op c :
  is_timeout_cqe c = true ->
  result (complete_ref op c) = if cqe_res c =? - e_time then - e_time else result op.
Proof.
  intros E. unfold complete_ref, release_ref, complete. rewrite E. cbn [result].
  by destruct (cqe_res c =? - e_time).
Qed.

(** ([Ring::run_one], functional): the result an operation with a linked
    timeout is resumed with, in both orders of its two completions.  A
    completed operation whose timer was cancelled gives its own result, a
    cancelled one whose timer fired gives the timeout error; but an operation
    cancelled for another reason, its timer cancelled too, gives 0, which
    reads as success. *)
Theorem linked_timeout_result a op io tm :
  0 <= a < 2 ^ 64 -> a mod 2 = 0 -> cqe_user_data io = a -> cqe_user_data tm = Z.lor a 1 ->
  ref_count op = 2 -> result op = 0 ->
  ref_count (fold_left complete_ref [io; tm] op) = 0 /\
  ref_count (fold_left complete_ref [tm; io] op) = 0 /\
  (cqe_res io <> - e_canceled -> cqe_res tm <> - e_time ->
     result (fold_left complete_ref [io; tm] op) = cqe_res io /\
     result (fold_left complete_ref [tm; io] op) = cqe_res io) /\
  (cqe_res io = - e_canceled -> cqe_res tm = - e_time ->
     result (fold_left complete_ref [io; tm] op) = - e_time /\
     result (fold_left complete_ref [tm; io] op) = - e_time) /\
  (cqe_res io = - e_canceled -> cqe_res tm <> - e_time ->
     result (fold_left complete_ref [io; tm] op) = 0 /\
     result (fold_left complete_ref [tm; io] op) = 0).
Proof.
  intros Ha He Hio Htm Hrc Hres. destruct io as [d1 r1 f1], tm as [d2 r2 f2].
  cbn [cqe_user_data] in *. subst d1 d2.
  destruct (tagged_address a r1 f1 Ha He) as (_ & E1 & _ & _).
  destruct (tagged_address a r2 f2 Ha He) as (_ & _ & _ & E2).
  cbn [fold_left]. rewrite !complete_refs, Hrc.
  repeat rewrite ?(complete_timeout_result _ _ E2), ?(complete_io_result _ _ E1).
  rewrite Hres. cbn [cqe_res].
  split; [reflexivity|]. split; [reflexivity|].
  destruct (Z.eqb_spec r1 (- e_canceled)), (Z.eqb_spec r2 (- e_time)); naive_solver.
Qed.

(** An instance. *)
Lemma linked_timeout_result_witness :
  result (fold_left complete_ref [MkCqe 16 (- e_canceled) 0; MkCqe 17 (- e_time) 0]
            (MkOp (Some 7) 0 0 2 2 0 (Ts 1 500000000))) = - e_time.
Proof.
  apply (linked_timeout_result 16 (MkOp (Some 7) 0 0 2 2 0 (Ts 1 500000000))
    (MkCqe 16 (- e_canceled) 0) (MkCqe 17 (- e_time) 0)); try reflexivity.
  by vm_compute.
Defined.

(** ** The buffer pool

    The kernel takes buffers from the front of the ring ([head] is its
    counter); a taken buffer is held until [recycle_buffer] puts it back. *)

Definition available (br : io_uring_buf_ring) (head : Z) : list io_uring_buf :=
  window 9 (bufs br) head (Z.to_nat (u16 (btail br - head))).

Definition buffer_entry (mem b : Z) : io_uring_buf := MkBuf (mem + b * BUF_SIZE) BUF_SIZE b.

Inductive pool_step : Ring * Z * list Z -> Ring * Z * list Z -> Prop :=
| kernel_pick R head held br e rest :
    buf_ring_ R = Some br -> available br head = e :: rest ->
    pool_step (R, head, held) (R, u16 (head + 1), bid e :: held)
| recycle R R' head h1 b h2 :
    recycle_buffer (fun n => n) b R = Done R' ->
    pool_step (R, head, h1 ++ b :: h2) (R', head, h1 ++ h2).

(** Every buffer is in the ring or held, and the ring gives each its own
    block of the buffer memory. *)
Definition pool_wf (mem : Z) (st : Ring * Z * list Z) : Prop :=
  let '(R, head, held) := st in
  exists br ids, buf_ring_ R = Some br /\ using_buf_ring_ R = true /\ buffer_mem_ R = mem /\
    length (bufs br) = 512%nat /\ 0 <= btail br < 2 ^ 16 /\ 0 <= head < 2 ^ 16 /\
    available br head = buffer_entry mem <$> ids /\ ids ++ held ≡ₚ seqZ 0 512.

Lemma pool_ids ids held b : ids ++ held ≡ₚ seqZ 0 512 -> b ∈ held -> 0 <= b < 512.
Proof.
  intros Hp Hb. assert (Hin : b ∈ seqZ 0 512) by (rewrite <- Hp; apply elem_of_app; by right).
  apply elem_of_seqZ in Hin. lia.
Qed.

Lemma available_length br head :
  length (bufs br) = 512%nat -> length (available br head) = Z.to_nat (u16 (btail br - head)).
Proof. intros H. unfold available. by rewrite window_length. Qed.

Lemma u16_sub_add h n : 0 <= n < 2 ^ 16 -> u16 (u16 (h + n) - h) = n.
Proof.
  intros. unfold u16. rewrite Zminus_mod_idemp_l. replace (h + n - h) with n by lia.
  by apply Z.mod_small.
Qed.

(** Adding a buffer while fewer than all are in the ring. *)
Lemma available_add br head a l b :
  length (bufs br) = 512%nat -> 0 <= btail br < 2 ^ 16 -> (length (available br head) < 512)%nat ->
  available (io_uring_buf_ring_advance 1 (io_uring_buf_ring_add a l b (BUF_COUNT - 1) 0 br)) head =
  available br head ++ [MkBuf a l b].
Proof.
  intros Hl Ht Hn. rewrite available_length in Hn by done. unfold available.
  unfold io_uring_buf_ring_advance, io_uring_buf_ring_add. cbn [bufs btail].
  set (n := Z.to_nat (u16 (btail br - head))) in *.
  assert (Hb : 0 <= u16 (btail br - head)) by (apply Z.mod_pos_bound; lia).
  assert (E : btail br = u16 (head + Z.of_nat n)).
  { unfold n, u16 in *. rewrite Z2Nat.id, Zplus_mod_idemp_r by done.
    replace (head + (btail br - head)) with (btail br) by lia. by rewrite Z.mod_small. }
  assert (E1 : u16 (u16 (btail br + 1) - head) = Z.of_nat n + 1).
  { rewrite E. unfold u16 at 2 3. rewrite Zplus_mod_idemp_l, <- Z.add_assoc. apply u16_sub_add. lia. }
  rewrite E1. replace (Z.to_nat (Z.of_nat n + 1)) with (S n) by lia.
  assert (Es : slot (btail br + 0) (BUF_COUNT - 1) = slot (head + Z.of_nat n) (2 ^ 9 - 1)).
  { change (BUF_COUNT - 1) with (2 ^ 9 - 1). rewrite Z.add_0_r, E. unfold u16. by apply slot_wrap. }
  rewrite Es. apply window_insert; [lia|lia|done].
Qed.

(** Taking the first buffer. *)
Lemma available_pick br head e rest :
  length (bufs br) = 512%nat -> available br head = e :: rest ->
  available br (u16 (head + 1)) = rest.
Proof.
  intros Hl Hav. pose proof (available_length br head Hl) as Hlen. rewrite Hav in Hlen. cbn in Hlen.
  assert (E : u16 (btail br - u16 (head + 1)) = u16 (btail br - head) - 1).
  { unfold u16 in *. rewrite Zminus_mod_idemp_r.
    replace (btail br - (head + 1)) with (btail br - head - 1) by lia.
    rewrite <- Zminus_mod_idemp_l. apply Z.mod_small.
    pose proof (Z.mod_pos_bound (btail br - head) (2 ^ 16)). lia. }
  unfold available in *. rewrite E.
  replace (Z.to_nat (u16 (btail br - head) - 1)) with (Z.to_nat (u16 (btail br - head)) - 1)%nat by lia.
  pose proof (window_drop 9 ltac:(lia) (bufs br) head (Z.to_nat (u16 (btail br - head))) 1
    ltac:(lia) Hl) as Hd. rewrite Hav in Hd. cbn [drop] in Hd.
  transitivity (window 9 (bufs br) (head + Z.of_nat 1) (Z.to_nat (u16 (btail br - head)) - 1)); [|exact Hd].
  apply window_ext. intros i' _. f_equal.
  rewrite <- (slot_wrap 9 ltac:(lia) (head + Z.of_nat 1 + Z.of_nat i') 16) by lia.
  rewrite <- (slot_wrap 9 ltac:(lia) (u16 (head + 1) + Z.of_nat i') 16) by lia.
  f_equal. unfold u16. by rewrite Zplus_mod_idemp_l.
Qed.

Lemma pool_step_wf mem st st' : pool_wf mem st -> pool_step st st' -> pool_wf mem st'.
Proof.
  intros W Hstep. destruct Hstep as [R head held br' e rest Hbr' Hpick|R R' head h1 b h2 Hrec];
    destruct W as (br & ids & Hbr & Hu & Hm & Hl & Ht & Hh & Hav & Hp).
  - assert (br' = br) as -> by congruence. pose proof (available_pick _ _ _ _ Hl Hpick) as Hr.
    rewrite Hav in Hpick. destruct ids as [|i ids]; [done|]. injection Hpick as <- <-.
    exists br, ids. repeat (split; [done|]). split; [apply Z.mod_pos_bound; lia|].
    split; [done|]. rewrite <- Hp. cbn. by rewrite Permutation_middle.
  - unfold recycle_buffer in Hrec. rewrite Hu, Hbr in Hrec. injection Hrec as <-.
    assert (Hb : 0 <= b < 512) by (eapply pool_ids; [exact Hp|set_solver]).
    assert (Hlen : (length (available br head) < 512)%nat).
    { rewrite Hav, length_fmap. apply Permutation_length in Hp.
      rewrite !length_app, length_seqZ in Hp. simpl in Hp. lia. }
    eexists _, (ids ++ [b]). split; [reflexivity|]. split; [done|]. split; [done|].
    split; [by simpl; rewrite length_insert|]. split; [apply Z.mod_pos_bound; lia|]. split; [done|].
    split.
    + rewrite available_add, Hav, fmap_app by done. do 2 f_equal. unfold buffer_entry, get_buffer, u32.
      cbn [fmap list_fmap]. rewrite Z.mod_small, Hm; [done|]. unfold BUF_SIZE. lia.
    + rewrite <- Hp, <- app_assoc. cbn. by rewrite Permutation_middle.
Qed.

Lemma fill_buf_ring_spec n mem br :
  (n <= 512)%nat -> length (bufs br) = 512%nat -> btail br = 0 ->
  let br' := fill_buf_ring n mem br in
  length (bufs br') = 512%nat /\ btail br' = 0 /\
  window 9 (bufs br') 0 n = buffer_entry mem <$> seqZ 0 (Z.of_nat n).
Proof.
  intros Hn Hl Ht. induction n as [|n IH]; [done|]. cbn [fill_buf_ring] in *.
  destruct (IH ltac:(lia)) as (IH1 & IH2 & IH3). cbn zeta. cbn [bufs btail io_uring_buf_ring_add].
  split; [by rewrite length_insert|]. split; [done|]. rewrite IH2.
  change (BUF_COUNT - 1) with (2 ^ 9 - 1).
  rewrite (window_insert 9 ltac:(lia) _ 0 n) by (lia || done). rewrite IH3.
  replace (Z.of_nat (S n)) with (Z.of_nat n + 1) by lia.
  rewrite seqZ_app, fmap_app by lia. done.
Qed.

(** The ring as [setup_buffers] leaves it. *)
Lemma setup_pool_wf consume mem br0 R R0 :
  length (bufs br0) = 512%nat -> setup_buffers consume (Some mem) (Some br0) 0 R = Done R0 ->
  pool_wf mem (R0, 0, []) /\ ops R0 = ops R.
Proof.
  intros Hl Hs. unfold setup_buffers in Hs. change (0 =? 0) with true in Hs. cbv iota zeta in Hs.
  destruct (fill_buf_ring_spec (Z.to_nat BUF_COUNT) mem (io_uring_buf_ring_init br0)
    ltac:(done) Hl eq_refl) as (H1 & H2 & H3).
  generalize dependent (fill_buf_ring (Z.to_nat BUF_COUNT) mem (io_uring_buf_ring_init br0)).
  intros br Hs H1 H2 H3. injection Hs as <-. split; [|done].
  exists (io_uring_buf_ring_advance BUF_COUNT br), (seqZ 0 512).
  unfold available, io_uring_buf_ring_advance. cbn [bufs btail]. rewrite H2.
  repeat (split; [done|]). by rewrite app_nil_r.
Qed.

(** (provided buffers, invariant): after [setup_buffers] registered the
    buffer ring, and whatever buffers the kernel takes and the program
    recycles afterwards, each of the 512 buffer ids is either in the ring,
    once, or held, once, and the ring describes it by its own 4096-byte block
    of the buffer memory, although the 16-bit tail wraps. *)
Theorem buffers_accounted consume mem br0 R R0 st :
  length (bufs br0) = 512%nat -> setup_buffers consume (Some mem) (Some br0) 0 R = Done R0 ->
  rtc pool_step (R0, 0, []) st -> pool_wf mem st.
Proof.
  intros Hl Hs Hsteps. destruct (setup_pool_wf consume mem br0 R R0 Hl Hs) as [W _].
  clear Hs. revert W. induction Hsteps as [|x y z Hxy _ IH]; [done|].
  intros W. apply IH. by eapply pool_step_wf.
Qed.

Definition pool_start : Ring :=
  MkRing sample_sq [] ∅ [] 0 false [] 0 None false.
Definition blank_bufs : io_uring_buf_ring := MkBufRing (replicate 512 (MkBuf 0 0 0)) 77.

(** An instance. *)
Lemma buffers_accounted_witness :
  exists R0, setup_buffers (fun n => n) (Some 8192) (Some blank_bufs) 0 pool_start = Done R0 /\
             pool_wf 8192 (R0, 0, []).
Proof.
  eexists. split; [reflexivity|].
  eapply (buffers_accounted (fun n => n) 8192 blank_bufs pool_start); [reflexivity|reflexivity|].
  apply rtc_refl.
Defined.
