(* ===== verification/Notify.v ===== *)
(** ppnt-io: posting tasks to a ring from other threads.

    [Ring::post] and [Ring::run_external_tasks] of
    [src/ppnt-io/src/driver.cpp] run in different threads.  Their atomic
    actions (the locked push, the exchange of [notified_], the write to the
    eventfd; the store to [notified_], the locked swap, each task) are the
    steps of a transition system in which any number of [post] calls and the
    ring thread interleave freely.  A task that posts while it runs is one more
    [post] call in progress. *)

From S2P Require Import Prelude Uring Ring.
From stdpp Require Import relations.

Local Open Scope Z_scope.

(** A [post] call in progress: it has pushed its task, or has also found
    [notified_] unset and must write the eventfd. *)
Inductive poster := Pushed | MustWrite.

(** Where the ring thread is: in the wait of [run_one]; before the store of
    [run_external_tasks]; before its swap; running the tasks it took. *)
Inductive ring_pc := Waiting | Clear | Swap | Running (tasks : list (option Z)).

(** The eventfd read: queued with the kernel, completed, or not queued. *)
Inductive read_state := Armed | CqeReady | Unarmed.

Record config := MkConfig {
  ring : Ring;
  posters : list poster;
  pc : ring_pc;
  read : read_state;
  posted : list (option Z);
  taken : list (option Z)
}.

Section Protocol.

(** Resuming a task, and [handle.done()]; what a task posts are separate
    steps. *)
Context (resume : Z -> Ring -> Ring) (done : Z -> Ring -> bool).

Class QuietResume : Prop := {
  quiet_tasks : forall h R, external_tasks_ (resume h R) = external_tasks_ R;
  quiet_notified : forall h R, notified_ (resume h R) = notified_ R;
  quiet_count : forall h R, ev_count (resume h R) = ev_count R
}.

(** The steps of [post] calls. *)
Inductive post_step : config -> config -> Prop :=
| step_push c h :
    post_step c (MkConfig (post_push h (ring c)) (Pushed :: posters c) (pc c) (read c)
                   (posted c ++ [h]) (taken c))
| step_exchange c p1 p2 was R' :
    posters c = p1 ++ Pushed :: p2 -> post_exchange (ring c) = (was, R') ->
    post_step c (MkConfig R' (if was then p1 ++ p2 else p1 ++ MustWrite :: p2) (pc c) (read c)
                   (posted c) (taken c))
| step_write c p1 p2 :
    posters c = p1 ++ MustWrite :: p2 ->
    post_step c (MkConfig (post_write (ring c)) (p1 ++ p2) (pc c) (read c) (posted c) (taken c)).

(** The steps of the kernel and the ring thread. *)
Inductive ring_step : config -> config -> Prop :=
| step_read c :
    read c = Armed -> 0 < ev_count (ring c) ->
    ring_step c (MkConfig (set_ev_count 0 (ring c)) (posters c) (pc c) CqeReady (posted c) (taken c))
| step_wake c :
    pc c = Waiting -> read c = CqeReady ->
    ring_step c (MkConfig (ring c) (posters c) Clear Unarmed (posted c) (taken c))
| step_clear c :
    pc c = Clear ->
    ring_step c (MkConfig (set_notified false (ring c)) (posters c) Swap (read c) (posted c) (taken c))
| step_swap c :
    pc c = Swap ->
    ring_step c (MkConfig (set_external_tasks [] (ring c)) (posters c)
                   (Running (external_tasks_ (ring c))) (read c) (posted c) (taken c))
| step_task c h tasks :
    pc c = Running (h :: tasks) ->
    ring_step c (MkConfig (run_task resume done (ring c) h) (posters c) (Running tasks) (read c)
                   (posted c) (taken c ++ [h]))
| step_arm c :
    pc c = Running [] ->
    ring_step c (MkConfig (ring c) (posters c) Waiting Armed (posted c) (taken c)).

Definition step (c c' : config) : Prop := post_step c c' \/ ring_step c c'.

(** A ring after its constructor: the eventfd read is armed. *)
Definition initial (c : config) : Prop :=
  external_tasks_ (ring c) = [] /\ notified_ (ring c) = false /\ ev_count (ring c) = 0 /\
  posters c = [] /\ pc c = Waiting /\ read c = Armed /\ posted c = [] /\ taken c = [].

Definition reachable (c : config) : Prop := exists c0, initial c0 /\ rtc step c0 c.

(** ** The invariant *)

Definition local_tasks (p : ring_pc) : list (option Z) :=
  match p with Running tasks => tasks | _ => [] end.

(** A wake-up is under way. *)
Definition signalled (c : config) : Prop :=
  MustWrite ∈ posters c \/ 0 < ev_count (ring c) \/ read c = CqeReady \/ pc c = Clear.

Record inv (c : config) : Prop := Inv {
  inv_fifo : posted c = taken c ++ local_tasks (pc c) ++ external_tasks_ (ring c);
  inv_notified : notified_ (ring c) = true -> signalled c;
  inv_tasks : external_tasks_ (ring c) <> [] ->
    notified_ (ring c) = true \/ Pushed ∈ posters c \/ pc c = Swap;
  inv_read : match pc c with Waiting => read c = Armed \/ read c = CqeReady | _ => read c = Unarmed end;
  inv_count : 0 <= ev_count (ring c)
}.

Lemma inv_initial c : initial c -> inv c.
Proof.
  intros (H1 & H2 & H3 & H4 & H5 & H6 & H7 & H8). constructor.
  - by rewrite H1, H5, H7, H8.
  - congruence.
  - congruence.
  - rewrite H5. by left.
  - lia.
Qed.

Lemma inv_post c c' : inv c -> post_step c c' -> inv c'.
Proof.
  intros [I1 I2 I3 I4 I5] Hs. destruct Hs as [c h|c p1 p2 was R' Hp He|c p1 p2 Hp].
  - constructor; simpl; try done.
    + by rewrite I1, <- !app_assoc.
    + intros Hn. destruct (I2 Hn) as [?|[?|[?|?]]]; unfold signalled; simpl; [left; by right|naive_solver..].
    + intros _. right; left. left.
  - injection He as <- <-. destruct (notified_ (ring c)) eqn:En; constructor; simpl; try done.
    + intros _. destruct (I2 eq_refl) as [Hm|[?|[?|?]]]; unfold signalled; simpl; [left|naive_solver..].
      rewrite Hp in Hm. set_solver.
    + intros _. by left.
    + intros _. left. set_solver.
    + intros _. by left.
  - constructor; simpl; try done; [|intros Ht|lia].
    + intros _. unfold signalled; simpl. right; left. lia.
    + destruct (I3 Ht) as [?|[Hq|?]]; [by left| |by right; right]. right; left.
      rewrite Hp in Hq. set_solver.
Qed.

Context {QR : QuietResume}.

Lemma run_task_quiet R h :
  external_tasks_ (run_task resume done R h) = external_tasks_ R /\
  notified_ (run_task resume done R h) = notified_ R /\
  ev_count (run_task resume done R h) = ev_count R.
Proof.
  destruct h as [h|]; [|done]. simpl. destruct (done h R); simpl; [done|].
  by rewrite quiet_tasks, quiet_notified, quiet_count.
Qed.

Lemma inv_ring c c' : inv c -> ring_step c c' -> inv c'.
Proof.
  intros [I1 I2 I3 I4 I5] Hs. unfold signalled in *.
  destruct Hs as [c Hr Hc|c Hp Hr|c Hp|c Hp|c h ts Hp|c Hp]; constructor; simpl;
    rewrite ?Hp in *; simpl in *; try done.
  - intros _. right; right; by left.
  - destruct (pc c); [by right|congruence..].
  - intros _. by right; right; right.
  - intros Ht. destruct (I3 Ht) as [?|[?|?]]; [by left|by right; left|done].
  - intros _. by right; right.
  - by rewrite I1, app_nil_r.
  - intros Hn. destruct (I2 Hn) as [?|[?|[?|?]]]; [by left|by right; left|congruence|done].
  - destruct (run_task_quiet (ring c) h) as (-> & _ & _). by rewrite I1, <- app_assoc.
  - unfold signalled. simpl. destruct (run_task_quiet (ring c) h) as (_ & -> & ->). intros Hn.
    destruct (I2 Hn) as [?|[?|[?|?]]]; [by left|by right; left|congruence|done].
  - destruct (run_task_quiet (ring c) h) as (-> & -> & _). intros Ht.
    destruct (I3 Ht) as [?|[?|?]]; [by left|by right; left|done].
  - destruct (run_task_quiet (ring c) h) as (_ & _ & ->). done.
  - intros Hn. destruct (I2 Hn) as [?|[?|[?|?]]]; [by left|by right; left|congruence|done].
  - intros Ht. destruct (I3 Ht) as [?|[?|?]]; [by left|by right; left|done].
  - by left.
Qed.

Lemma reachable_inv c : reachable c -> inv c.
Proof.
  intros (c0 & H0 & Hs). apply inv_initial in H0.
  induction Hs as [|x y z [Hp|Hr] _ IH]; [done|apply IH; by eapply inv_post|apply IH; by eapply inv_ring].
Qed.

(** ** The ring thread comes to rest, with everything done *)

Definition phase (c : config) : nat :=
  match pc c with
  | Waiting => if read c is CqeReady then 5 else 0
  | Clear => 4
  | Swap => 3
  | Running _ => 2
  end.

Definition measure (c : config) : nat :=
  (if 0 <? ev_count (ring c) then 7 else 0) + phase c +
  length (local_tasks (pc c)) + length (external_tasks_ (ring c)).

Lemma ring_step_measure c c' : inv c -> ring_step c c' -> (measure c' < measure c)%nat.
Proof.
  intros I Hs. pose proof (inv_read c I) as Hrd. unfold measure, phase.
  destruct Hs as [c Hr Hc|c Hp Hr|c Hp|c Hp|c h ts Hp|c Hp]; simpl; rewrite ?Hp in *; simpl.
  - rewrite (proj2 (Z.ltb_lt _ _) Hc), Hr in *. destruct (pc c); simpl in *; try done; lia.
  - rewrite Hr. lia.
  - lia.
  - lia.
  - destruct (run_task_quiet (ring c) h) as (-> & _ & ->). lia.
  - lia.
Qed.

Lemma ring_sn c : inv c -> sn ring_step c.
Proof.
  remember (measure c) as n eqn:E. revert c E. induction (lt_wf n) as [n _ IH]. intros c -> I.
  constructor. intros c' Hs. eapply IH; [by apply ring_step_measure|reflexivity|by eapply inv_ring].
Qed.

(** A ring thread with nothing to do waits, and no wake-up is under way. *)
Lemma ring_nf c :
  inv c -> posters c = [] -> nf ring_step c ->
  pc c = Waiting /\ external_tasks_ (ring c) = [] /\ taken c = posted c.
Proof.
  intros [I1 I2 I3 I4 I5] Hp Hnf. destruct (pc c) as [| | |[|h ts]] eqn:Epc.
  2-5: destruct Hnf; eexists; solve [by constructor|eapply step_task; eauto].
  destruct I4 as [Hr|Hr]; [|destruct Hnf; eexists; by apply step_wake].
  assert (Hc : ev_count (ring c) = 0).
  { destruct (Z.eq_dec (ev_count (ring c)) 0); [done|]. destruct Hnf. eexists. apply step_read; [done|lia]. }
  assert (Ht : external_tasks_ (ring c) = []).
  { destruct (external_tasks_ (ring c)) eqn:Et; [done|].
    destruct I3 as [Hn|[Hq|?]]; [done| | |congruence].
    - destruct (I2 Hn) as [Hm|[?|[?|?]]]; [|lia|congruence|congruence].
      rewrite Hp in Hm. by apply not_elem_of_nil in Hm.
    - rewrite Hp in Hq. by apply not_elem_of_nil in Hq. }
  split; [done|]. split; [done|]. by rewrite I1, Ht, !app_nil_r.
Qed.

Lemma ring_steps_inv c c' :
  inv c -> rtc ring_step c c' -> inv c' /\ posters c' = posters c /\ posted c' = posted c.
Proof.
  intros I Hs. revert I. induction Hs as [|x y z Hxy _ IH]; intros I; [done|].
  destruct (IH (inv_ring _ _ I Hxy)) as (? & -> & ->). split; [done|]. by destruct Hxy.
Qed.

End Protocol.

(** C3 ([Ring::post] and [run_external_tasks], safety): under every
    interleaving of any number of [post] calls with the ring thread, tasks are
    taken in the order of the pushes, each at most once; and no wake-up is
    lost: when no [post] call is in progress and the ring thread waits with no
    completed read and an empty eventfd, every posted task has been taken. *)
Theorem no_lost_wakeup resume done c :
  QuietResume resume -> reachable resume done c ->
  taken c `prefix_of` posted c /\
  (posters c = [] -> pc c = Waiting -> read c = Armed -> ev_count (ring c) = 0 ->
   external_tasks_ (ring c) = [] /\ taken c = posted c).
Proof.
  intros QR Hr. pose proof (reachable_inv resume done c Hr) as I. split.
  - rewrite (inv_fifo c I). by eexists.
  - intros Hp Hpc Hrd Hc. apply (ring_nf resume done c I Hp).
    intros [c' Hs]. inversion Hs; subst; congruence || lia.
Qed.

Definition idle_ring : Ring := MkRing sample_sq [] ∅ [] 0 false [] 0 None false.

(** One [post] call has finished and the ring thread has run its task. *)
Definition after_one : config :=
  MkConfig (log_resume 9 0 idle_ring) [] Waiting Armed [Some 9] [Some 9].

Lemma quiet_id : QuietResume (fun _ R => R).
Proof. by constructor. Qed.

(** The [post] call has finished, and the kernel has not read the eventfd yet. *)
Definition just_posted : config :=
  MkConfig (post_write (snd (post_exchange (post_push (Some 9) idle_ring)))) [] Waiting Armed [Some 9] [].

Lemma just_posted_reachable : reachable (fun _ R => R) (fun _ _ => false) just_posted.
Proof.
  exists (MkConfig idle_ring [] Waiting Armed [] []). split; [by repeat split|].
  eapply rtc_l; [left; apply (step_push _ (Some 9))|]; vm_compute.
  eapply rtc_l; [left; eapply (step_exchange _ [] []); reflexivity|]; vm_compute.
  eapply rtc_l; [left; eapply (step_write _ [] []); reflexivity|]; vm_compute.
  apply rtc_refl.
Qed.

Lemma just_posted_runs : rtc (ring_step (fun _ R => R) (fun _ _ => false)) just_posted after_one.
Proof.
  eapply rtc_l; [apply step_read; [reflexivity|reflexivity]|]; vm_compute.
  eapply rtc_l; [apply step_wake; reflexivity|]; vm_compute.
  eapply rtc_l; [apply step_clear; reflexivity|]; vm_compute.
  eapply rtc_l; [apply step_swap; reflexivity|]; vm_compute.
  eapply rtc_l; [eapply step_task; reflexivity|]; vm_compute.
  eapply rtc_l; [apply step_arm; reflexivity|]; vm_compute.
  apply rtc_refl.
Qed.

Lemma after_one_reachable : reachable (fun _ R => R) (fun _ _ => false) after_one.
Proof.
  destruct just_posted_reachable as (c0 & H0 & Hr). exists c0. split; [done|]. etrans; [exact Hr|].
  eapply (rtc_congruence id); [|exact just_posted_runs]. intros x y Hs. by right.
Qed.

(** Witness of C3. *)
Lemma no_lost_wakeup_witness :
  external_tasks_ (ring after_one) = [] /\ taken after_one = posted after_one.
Proof.
  apply (no_lost_wakeup (fun _ R => R) (fun _ _ => false) after_one quiet_id after_one_reachable);
    reflexivity.
Defined.

(** C18 ([Ring::post], liveness): once no [post] call is in progress, the
    kernel and the ring thread alone finish: they cannot run forever, and
    whenever they can do no more, every posted task has been taken. *)
Theorem posted_tasks_run resume done c :
  QuietResume resume -> reachable resume done c -> posters c = [] ->
  sn (ring_step resume done) c /\
  forall c', rtc (ring_step resume done) c c' -> nf (ring_step resume done) c' ->
    taken c' = posted c /\ external_tasks_ (ring c') = [].
Proof.
  intros QR Hr Hp. pose proof (reachable_inv resume done c Hr) as I. split; [by apply ring_sn|].
  intros c' Hs Hnf. destruct (ring_steps_inv resume done c c' I Hs) as (I' & Hp' & Hq).
  destruct (ring_nf resume done c' I') as (_ & ? & Ht); [congruence|done|]. by rewrite Ht.
Qed.

(** Witness of C18. *)
Lemma posted_tasks_run_witness :
  sn (ring_step (fun _ R => R) (fun _ _ => false)) just_posted /\ taken just_posted = [] /\ taken after_one = posted just_posted.
Proof.
  destruct (posted_tasks_run (fun _ R => R) (fun _ _ => false) just_posted quiet_id just_posted_reachable eq_refl) as [Hsn H].
  split; [exact Hsn|]. split; [reflexivity|]. apply (H after_one just_posted_runs).
  intros [c' Hs]. inversion Hs; subst; discriminate.
Defined.
