(* ===== verification/Pool.v ===== *)
(** ppnt-io: work in a thread pool, and callbacks.

    [src/ppnt-io/src/runtime.ixx]: [RunInPoolAwaiter] ([run_in_pool]) and
    [SuspendCoroutineAwaiter] ([suspend_coroutine]).  A coroutine that awaits one of
    them leaves its ring; a worker, or whoever holds the callback, stores a result in
    the awaiter and posts the coroutine back to the ring ([Notify.v]).  The steps of
    workers, callbacks, [post] calls and the ring thread interleave freely.  Whether and
    how often a callback is called is up to the function that got it. *)

From stdpp Require Import gmap relations strings.
From S2P Require Import Prelude Uring Ring Notify.

Local Open Scope Z_scope.

(** ** The awaiters *)

(** What a function given to the pool throws. *)
Inductive exn := StdException (what : bytes) | Unknown.

Inductive kind := RunInPool | SuspendCoroutine.

(** [enqueue_detach]ed or handed to [func_]; its result is stored; posted. *)
Inductive phase := Queued | Stored | Posted.

(** The members of an awaiter that change, and where its work is. *)
Record awaiter := MkAwaiter { aw_kind : kind; res_ : option Z; err_ : option exn; aw_phase : phase }.

(** What its coroutine gets from [co_await]. *)
Inductive resumption := FromPool (r : Result Z) | FromCallback (v : Z).

(** [await_suspend]. *)
Definition await_suspend (k : kind) : awaiter := MkAwaiter k None None Queued.

(** The lambda of [RunInPoolAwaiter::await_suspend] up to [post]: [out] is what
    [func_] returned or threw. *)
Definition run_func (out : Z + exn) (a : awaiter) : awaiter :=
  match out with
  | inl v => MkAwaiter (aw_kind a) (Some v) (err_ a) Stored
  | inr e => MkAwaiter (aw_kind a) (res_ a) (Some e) Stored
  end.

(** [resume_cb] up to [post]. *)
Definition resume_cb (v : Z) (a : awaiter) : awaiter := MkAwaiter (aw_kind a) (Some v) (err_ a) Stored.

(** [await_resume]; [None] is the dereference of an empty [std::optional]. *)
Definition await_resume (a : awaiter) : option resumption :=
  match aw_kind a with
  | RunInPool =>
      match err_ a with
      | Some (StdException what) => Some (FromPool (Err (MkError (make_error_code interrupted) what None)))
      | Some Unknown => Some (FromPool (make_err_result interrupted "run_in_pool unknown err"))
      | None => FromPool ∘ Ok <$> res_ a
      end
  | SuspendCoroutine => FromCallback <$> res_ a
  end.

(** What a coroutine must get for what its function returned or threw. *)
Definition pool_result (out : Z + exn) : resumption :=
  FromPool match out with
           | inl v => Ok v
           | inr (StdException what) => Err (MkError (make_error_code interrupted) what None)
           | inr Unknown => make_err_result interrupted "run_in_pool unknown err"
           end.

(** ** The system

    [awaiters] by the handle of the coroutine that awaits.  [awaited], [produced] and
    [given] record which coroutines awaited, what was produced for them and what they
    were resumed with, [None] being undefined behaviour. *)

Record system := MkSystem {
  net : config;
  awaiters : gmap Z awaiter;
  awaited : list Z;
  produced : list (Z * resumption);
  given : list (Z * option resumption)
}.

Section System.

(** What a coroutine does to the ring when it is resumed. *)
Context (resume : Z -> Ring -> Ring).

(** A coroutine that waits is not done. *)
Definition not_done (h : Z) (R : Ring) : bool := false.

(** The rest of a [post] call after its push. *)
Definition poster_step (c c' : config) : Prop := post_step c c' /\ posted c' = posted c.

(** Workers, [post] calls and the ring thread.  The functions given to the pool end. *)
Inductive pool_step : system -> system -> Prop :=
| pool_run s h a out :
    awaiters s !! h = Some a -> aw_kind a = RunInPool -> aw_phase a = Queued ->
    pool_step s (MkSystem (net s) (<[h := run_func out a]> (awaiters s)) (awaited s)
                   (produced s ++ [(h, pool_result out)]) (given s))
| pool_post s h a c' :
    awaiters s !! h = Some a -> aw_phase a = Stored ->
    post_step (net s) c' -> posted c' = posted (net s) ++ [Some h] ->
    pool_step s (MkSystem c' (<[h := MkAwaiter (aw_kind a) (res_ a) (err_ a) Posted]> (awaiters s)) (awaited s)
                   (produced s) (given s))
| pool_poster s c' :
    poster_step (net s) c' -> pool_step s (MkSystem c' (awaiters s) (awaited s) (produced s) (given s))
| pool_ring s c' :
    ring_step resume not_done (net s) c' -> taken c' = taken (net s) ->
    pool_step s (MkSystem c' (awaiters s) (awaited s) (produced s) (given s))
| pool_task s c' h a :
    ring_step resume not_done (net s) c' -> taken c' = taken (net s) ++ [Some h] -> awaiters s !! h = Some a ->
    pool_step s (MkSystem c' (delete h (awaiters s)) (awaited s) (produced s) (given s ++ [(h, await_resume a)])).

(** A callback is called while its awaiter exists; [may] tells when.  Two calls at the
    same time are a data race on [result_]. *)
Inductive callback_step (may : awaiter -> Prop) : system -> system -> Prop :=
| callback s h a v :
    awaiters s !! h = Some a -> aw_kind a = SuspendCoroutine -> aw_phase a <> Stored -> may a ->
    callback_step may s (MkSystem (net s) (<[h := resume_cb v a]> (awaiters s)) (awaited s)
                           (produced s ++ [(h, FromCallback v)]) (given s)).

Definition once (a : awaiter) : Prop := aw_phase a = Queued.
Definition any_time (a : awaiter) : Prop := True.

(** A coroutine of the ring that does not wait yet awaits. *)
Inductive await_step : system -> system -> Prop :=
| start_await s h k :
    awaiters s !! h = None ->
    await_step s (MkSystem (net s) (<[h := await_suspend k]> (awaiters s)) (awaited s ++ [h]) (produced s) (given s)).

Definition sys_step (may : awaiter -> Prop) (s s' : system) : Prop :=
  pool_step s s' \/ callback_step may s s' \/ await_step s s'.

Definition sys_initial (s : system) : Prop :=
  initial (net s) /\ awaiters s = ∅ /\ awaited s = [] /\ produced s = [] /\ given s = [].

Definition sys_reachable (may : awaiter -> Prop) (s : system) : Prop := exists s0, sys_initial s0 /\ rtc (sys_step may) s0 s.

(** ** Every result reaches its coroutine *)

(** The entries of a log that are for [h]. *)
Definition log_for {A} (h : Z) (l : list (Z * A)) : list A := snd <$> filter (fun p => fst p = h) l.

Lemma log_for_app {A} h (l : list (Z * A)) g x :
  log_for h (l ++ [(g, x)]) = log_for h l ++ (if decide (g = h) then [x] else []).
Proof. unfold log_for. rewrite filter_app, fmap_app. f_equal. rewrite filter_cons. cbn. by repeat case_decide. Qed.

(** The tasks that were posted and have not run. *)
Definition rest (c : config) : list (option Z) := local_tasks (pc c) ++ external_tasks_ (ring c).

(** What was produced for [h] and not yet given. *)
Definition outstanding (o : option awaiter) : list (option resumption) :=
  match o with
  | Some a => match aw_phase a with Queued => [] | _ => [await_resume a] end
  | None => []
  end.

Record sys_inv (s : system) : Prop := SysInv {
  si_net : inv (net s);
  si_nodup : NoDup (rest (net s));
  si_rest : forall t, t ∈ rest (net s) <->
    exists h a, t = Some h /\ awaiters s !! h = Some a /\ aw_phase a = Posted;
  si_queued : forall h a, awaiters s !! h = Some a -> aw_phase a = Queued -> err_ a = None;
  si_log : forall h, Some <$> log_for h (produced s) = log_for h (given s) ++ outstanding (awaiters s !! h);
  si_count : forall h, length (filter (eq h) (awaited s)) =
    (length (log_for h (given s)) + (if awaiters s !! h is Some _ then 1 else 0))%nat
}.

Lemma rest_posted c c' l l' :
  inv c -> inv c' -> taken c' = taken c ++ l' -> posted c' = posted c ++ l -> l' ++ rest c' = rest c ++ l.
Proof.
  intros I I' Ht Hp. pose proof (inv_fifo c I) as E. pose proof (inv_fifo c' I') as E'. fold (rest c) in E. fold (rest c') in E'.
  rewrite Ht, Hp, E, <- !app_assoc in E'. by apply app_inv_head in E'.
Qed.

Lemma post_step_taken c c' : post_step c c' -> taken c' = taken c.
Proof. by destruct 1. Qed.

Lemma ring_step_posted c c' : ring_step resume not_done c c' -> posted c' = posted c.
Proof. by destruct 1. Qed.

Lemma sys_inv_initial s : sys_initial s -> sys_inv s.
Proof.
  intros (Hi & Ha & Hw & Hp & Hg). assert (Hr : rest (net s) = []).
  { destruct Hi as (H1 & _ & _ & _ & H5 & _). unfold rest. by rewrite H1, H5. }
  constructor.
  - by apply inv_initial.
  - rewrite Hr. constructor.
  - intros t. rewrite Hr, Ha. split; [by intros ?%not_elem_of_nil|]. by intros (h & a & _ & ? & _).
  - by rewrite Ha.
  - intros h. by rewrite Hp, Hg, Ha.
  - intros h. by rewrite Hw, Hg, Ha.
Qed.

(** A result is stored. *)
Lemma sys_inv_store s h a a' r :
  sys_inv s -> awaiters s !! h = Some a -> aw_phase a = Queued ->
  aw_phase a' = Stored -> await_resume a' = Some r ->
  sys_inv (MkSystem (net s) (<[h := a']> (awaiters s)) (awaited s) (produced s ++ [(h, r)]) (given s)).
Proof.
  intros [I1 I2 I3 I4 I5 I6] Ha Hq Hs Hr. constructor; cbn [net awaiters awaited produced given]; try done.
  - intros t. rewrite I3. split; intros (g & b & -> & Hb & Hp); exists g, b; (split; [done|]); revert Hb.
    + intros Hb. rewrite lookup_insert_ne by (intros ->; congruence). done.
    + rewrite lookup_insert. case_decide; [intros [= <-]; congruence|done].
  - intros g b. rewrite lookup_insert. case_decide; [intros [= <-]; congruence|exact (I4 g b)].
  - intros g. rewrite log_for_app, fmap_app, I5, lookup_insert. case_decide; subst.
    + rewrite Ha. unfold outstanding. by rewrite Hq, Hs, Hr, app_nil_r.
    + by rewrite app_nil_r.
  - intros g. rewrite I6, lookup_insert. case_decide; subst; [|done]. by rewrite Ha.
Qed.

(** The coroutine is posted. *)
Lemma sys_inv_posted s h a c' :
  sys_inv s -> awaiters s !! h = Some a -> aw_phase a = Stored ->
  post_step (net s) c' -> posted c' = posted (net s) ++ [Some h] ->
  sys_inv (MkSystem c' (<[h := MkAwaiter (aw_kind a) (res_ a) (err_ a) Posted]> (awaiters s)) (awaited s)
             (produced s) (given s)).
Proof.
  intros [I1 I2 I3 I4 I5 I6] Ha Hq Hs Hp. assert (I1' : inv c') by (by eapply inv_post).
  assert (Hr : rest c' = rest (net s) ++ [Some h]).
  { apply (rest_posted (net s) c' _ []); [done|done| |done]. by rewrite app_nil_r, (post_step_taken _ _ Hs). }
  constructor; cbn [net awaiters awaited produced given]; try done.
  - rewrite Hr. apply NoDup_app. split; [done|]. split; [|apply NoDup_singleton].
    intros t (g & b & -> & Hb & Hph)%I3 [= ->]%list_elem_of_singleton. congruence.
  - intros t. rewrite Hr, elem_of_app, list_elem_of_singleton, I3. split.
    + intros [(g & b & -> & Hb & Hph)| ->].
      * exists g, b. rewrite lookup_insert_ne by (intros ->; congruence). done.
      * eexists h, _. by rewrite lookup_insert_eq.
    + intros (g & b & -> & Hb & Hph). revert Hb. rewrite lookup_insert. case_decide; [subst; by right|]. left. by exists g, b.
  - intros g b. rewrite lookup_insert. case_decide; [by intros [= <-]|exact (I4 g b)].
  - intros g. rewrite I5, lookup_insert. case_decide; subst; [|done]. rewrite Ha. unfold outstanding. by rewrite Hq.
  - intros g. rewrite I6, lookup_insert. case_decide; subst; [|done]. by rewrite Ha.
Qed.

(** A step that leaves the posted tasks as they are. *)
Lemma sys_inv_net s c' :
  sys_inv s -> inv c' -> rest c' = rest (net s) ->
  sys_inv (MkSystem c' (awaiters s) (awaited s) (produced s) (given s)).
Proof. intros [I1 I2 I3 I4 I5 I6] I' Hr. constructor; cbn [net awaiters awaited produced given]; rewrite ?Hr; done. Qed.

(** A coroutine is resumed. *)
Lemma sys_inv_task s h a c' :
  sys_inv s -> inv c' -> rest (net s) = Some h :: rest c' -> awaiters s !! h = Some a ->
  sys_inv (MkSystem c' (delete h (awaiters s)) (awaited s) (produced s) (given s ++ [(h, await_resume a)])).
Proof.
  intros [I1 I2 I3 I4 I5 I6] I' Hr Ha. rewrite Hr in I2. apply NoDup_cons in I2 as [Hnot Hnd].
  assert (Hph : aw_phase a = Posted).
  { destruct (proj1 (I3 (Some h))) as (g & b & [= <-] & Hb & Hp); [rewrite Hr; left|]. congruence. }
  constructor; cbn [net awaiters awaited produced given]; try done.
  - intros t. split.
    + intros Ht. destruct (proj1 (I3 t)) as (g & b & -> & Hb & Hp); [rewrite Hr; by right|].
      exists g, b. rewrite lookup_delete_ne; [done|]. by intros ->.
    + intros (g & b & -> & Hb & Hp). apply lookup_delete_Some in Hb as [Hne Hb].
      assert (Ht : Some g ∈ rest (net s)) by (apply I3; by exists g, b).
      rewrite Hr in Ht. apply elem_of_cons in Ht as [[= ->]|]; done.
  - intros g b Hb. apply lookup_delete_Some in Hb as [_ Hb]. by apply (I4 g).
  - intros g. rewrite I5, log_for_app, lookup_delete, <- app_assoc. f_equal. case_decide; subst; [|done].
    rewrite Ha. unfold outstanding. by rewrite Hph.
  - intros g. rewrite I6, log_for_app, lookup_delete, length_app. case_decide; subst; [|simpl; lia].
    rewrite Ha. simpl. lia.
Qed.

(** A coroutine awaits. *)
Lemma sys_inv_await s s' : sys_inv s -> await_step s s' -> sys_inv s'.
Proof.
  intros [I1 I2 I3 I4 I5 I6] Hs. destruct Hs as [s h k Hn]. constructor; cbn [net awaiters awaited produced given]; try done.
  - intros t. rewrite I3. split; intros (g & b & -> & Hb & Hp); exists g, b; (split; [done|]); revert Hb.
    + intros Hb. rewrite lookup_insert_ne by (intros ->; congruence). done.
    + rewrite lookup_insert. case_decide; [by intros [= <-]|done].
  - intros g b. rewrite lookup_insert. case_decide; [by intros [= <-]|exact (I4 g b)].
  - intros g. rewrite I5, lookup_insert. case_decide; subst; [|done]. by rewrite Hn.
  - intros g. rewrite filter_app, length_app, I6, lookup_insert, filter_cons, filter_nil.
    destruct (decide (h = g)) as [->|Hne]; [rewrite Hn, decide_True by done|rewrite decide_False by done]; simpl; lia.
Qed.

(** A callback is called for the first time. *)
Lemma sys_inv_callback s s' : sys_inv s -> callback_step once s s' -> sys_inv s'.
Proof.
  intros I Hs. destruct Hs as [s h a v Ha Hk _ Hq]. eapply sys_inv_store; [done..|]. unfold await_resume. cbn. by rewrite Hk.
Qed.

Context {QR : QuietResume resume}.

Lemma sys_inv_pool s s' : sys_inv s -> pool_step s s' -> sys_inv s'.
Proof.
  intros I Hs. pose proof (si_net s I) as I1.
  destruct Hs as [s h a out Ha Hk Hq|s h a c' Ha Hq Hs Hp|s c' [Hs Hp]|s c' Hs Ht|s c' h a Hs Ht Ha].
  - pose proof (si_queued s I h a Ha Hq) as He. eapply sys_inv_store; [done..|by destruct out|].
    unfold await_resume, pool_result. destruct out as [v|[w|]]; cbn; by rewrite Hk, ?He.
  - by eapply sys_inv_posted.
  - assert (I1' : inv c') by (by eapply inv_post). apply sys_inv_net; [done..|].
    rewrite <- (app_nil_r (rest (net s))). apply (rest_posted (net s) c' [] []); [done|done|..]; rewrite app_nil_r; [by apply post_step_taken|done].
  - assert (I1' : inv c') by (by eapply inv_ring). apply sys_inv_net; [done..|].
    rewrite <- (app_nil_r (rest (net s))). apply (rest_posted (net s) c' [] []); [done|done|..]; rewrite app_nil_r; [done|by apply ring_step_posted].
  - assert (I1' : inv c') by (by eapply inv_ring). apply sys_inv_task; [done|done| |done].
    rewrite <- (app_nil_r (rest (net s))). symmetry. apply (rest_posted (net s) c' [] [Some h]); [done..|]. rewrite app_nil_r. by apply ring_step_posted.
Qed.

Lemma sys_reachable_inv s : sys_reachable once s -> sys_inv s.
Proof.
  intros (s0 & H0 & Hs). apply sys_inv_initial in H0.
  induction Hs as [|x y z [Hp|[Hc|Ha]] _ IH]; [done|apply IH..];
    [by eapply sys_inv_pool|by eapply sys_inv_callback|by eapply sys_inv_await].
Qed.

(** ** Workers, callbacks and the ring come to rest, with everything given *)

Definition weight (a : awaiter) : nat := match aw_phase a with Queued => 12 | Stored => 11 | Posted => 0 end.

Definition poster_weight (p : poster) : nat := match p with Pushed => 9 | MustWrite => 8 end.

Definition total (m : gmap Z awaiter) : nat := map_fold (fun _ a n => (weight a + n)%nat) 0%nat m.

Definition sys_measure (s : system) : nat :=
  (total (awaiters s) + sum_list_with poster_weight (posters (net s)) + measure (net s))%nat.

Lemma total_delete m h a : m !! h = Some a -> total m = (weight a + total (delete h m))%nat.
Proof. intros Ha. unfold total. rewrite (map_fold_delete_L _ _ h a); [done|lia|done]. Qed.

Lemma total_insert m h a a' : m !! h = Some a -> (total (<[h := a']> m) + weight a = total m + weight a')%nat.
Proof.
  intros Ha. rewrite (total_delete m h a Ha), (total_delete (<[h := a']> m) h a') by apply lookup_insert_eq.
  rewrite delete_insert_eq. lia.
Qed.

Lemma poster_measure c c' :
  post_step c c' ->
  (sum_list_with poster_weight (posters c') + measure c' + length (posted c) <
   sum_list_with poster_weight (posters c) + measure c + 11 * length (posted c') - 10 * length (posted c))%nat.
Proof.
  intros Hs. unfold measure, Notify.phase. destruct Hs as [c h|c p1 p2 was R' Hp He|c p1 p2 Hp].
  - simpl. rewrite !length_app. simpl. lia.
  - injection He as <- <-. rewrite Hp. destruct (notified_ (ring c)); simpl; rewrite !sum_list_with_app; simpl; lia.
  - rewrite Hp. simpl. rewrite !sum_list_with_app. simpl. destruct (0 <? ev_count (ring c)); destruct (0 <? ev_count (ring c) + 1); simpl; lia.
Qed.

Lemma pool_step_measure s s' : sys_inv s -> pool_step s s' -> (sys_measure s' < sys_measure s)%nat.
Proof.
  intros I Hs. pose proof (si_net s I) as I1. unfold sys_measure.
  destruct Hs as [s h a out Ha Hk Hq|s h a c' Ha Hq Hs Hp|s c' [Hs Hp]|s c' Hs Ht|s c' h a Hs Ht Ha];
    cbn [net awaiters].
  - pose proof (total_insert _ _ _ (run_func out a) Ha) as E. unfold weight in E. rewrite Hq in E. destruct out; cbn [run_func aw_phase] in E |- *; lia.
  - pose proof (total_insert _ _ _ (MkAwaiter (aw_kind a) (res_ a) (err_ a) Posted) Ha) as E. unfold weight in E. rewrite Hq in E.
    pose proof (poster_measure _ _ Hs) as Em. rewrite Hp, length_app in Em. cbn [aw_phase length] in *. lia.
  - pose proof (poster_measure _ _ Hs) as Em. rewrite Hp in Em. lia.
  - pose proof (ring_step_measure resume not_done _ _ I1 Hs) as Em. assert (Ep : posters c' = posters (net s)) by (by destruct Hs). rewrite Ep. lia.
  - pose proof (ring_step_measure resume not_done _ _ I1 Hs) as Em. assert (Ep : posters c' = posters (net s)) by (by destruct Hs). rewrite Ep.
    pose proof (total_delete _ _ _ Ha). lia.
Qed.

Lemma pool_sn s : sys_inv s -> sn pool_step s.
Proof.
  remember (sys_measure s) as n eqn:E. revert s E. induction (lt_wf n) as [n _ IH]. intros s -> I.
  constructor. intros s' Hs. eapply IH; [by apply pool_step_measure|reflexivity|by eapply sys_inv_pool].
Qed.

(** Every step of the ring thread is one of the system. *)
Lemma ring_step_pool s c' : sys_inv s -> ring_step resume not_done (net s) c' -> exists s', pool_step s s'.
Proof.
  intros I Hs. destruct (decide (taken c' = taken (net s))) as [Ht|Ht]; [eexists; by apply (pool_ring s c')|].
  assert (Hx : exists t ts, pc (net s) = Running (t :: ts) /\ taken c' = taken (net s) ++ [t]).
  { destruct Hs as [| | | |c h ts Hp|]; try done. by exists h, ts. }
  destruct Hx as (t & ts & Hpc & Htk).
  destruct (proj1 (si_rest s I t)) as (h & a & -> & Ha & _); [unfold rest; rewrite Hpc; left|].
  eexists. by eapply pool_task.
Qed.

Lemma poster_steps c p ps : posters c = p :: ps -> exists c', poster_step c c'.
Proof.
  intros Hp. destruct p.
  - destruct (post_exchange (ring c)) as [was R'] eqn:E. eexists. split; [by eapply (step_exchange c [] ps was R')|done].
  - eexists. split; [by apply (step_write c [] ps)|done].
Qed.

(** What is left to wait for when nothing can run: a callback that was not called. *)
Lemma pool_nf s :
  sys_inv s -> nf pool_step s -> forall h a, awaiters s !! h = Some a -> aw_kind a = SuspendCoroutine /\ aw_phase a = Queued.
Proof.
  intros I Hnf. assert (Hpost : posters (net s) = []).
  { destruct (posters (net s)) as [|p ps] eqn:E; [done|]. destruct (poster_steps _ _ _ E) as [c' Hc].
    destruct Hnf. eexists. by apply pool_poster. }
  destruct (ring_nf resume not_done (net s) (si_net s I) Hpost) as (_ & Hext & Htk).
  { intros [c' Hc]. destruct (ring_step_pool s c' I Hc) as [s' Hs]. apply Hnf. by exists s'. }
  assert (Hrest : rest (net s) = []).
  { pose proof (inv_fifo _ (si_net s I)) as E. rewrite Htk in E. fold (rest (net s)) in E.
    apply (app_inv_head (posted (net s))). by rewrite app_nil_r. }
  intros h a Ha. destruct (aw_phase a) eqn:Hph.
  - destruct (aw_kind a) eqn:Hk; [|done]. exfalso. apply Hnf. eexists. by apply (pool_run s h a (inl 0)).
  - exfalso. apply Hnf. eexists. by apply (pool_post s h a _ Ha Hph (step_push _ (Some h))).
  - exfalso. assert (Hin : Some h ∈ rest (net s)) by (apply (si_rest s I); by exists h, a).
    rewrite Hrest in Hin. by apply not_elem_of_nil in Hin.
Qed.

Lemma pool_steps_inv s s' : sys_inv s -> rtc pool_step s s' -> sys_inv s' /\ awaited s' = awaited s.
Proof.
  intros I Hs. revert I. induction Hs as [|x y z Hxy _ IH]; intros I; [done|].
  destruct (IH (sys_inv_pool _ _ I Hxy)) as [? ->]. split; [done|]. by destruct Hxy.
Qed.

End System.

(** C9 ([run_in_pool] and [suspend_coroutine] on [Ring::post], liveness): if the pool's
    functions end and no callback of [suspend_coroutine] is called more than once, then
    however the workers, the callbacks, the [post] calls and the ring thread interleave, a
    coroutine is resumed with what was produced for it (a pool function's value, or
    its exception as an error, or the callback's argument), in order, at most once per
    [co_await], and never before it is there.  Without further [co_await]s and callback
    calls the system comes to rest, and then a coroutine has been resumed once for each
    time it awaited, except that it still waits in a [suspend_coroutine] whose callback
    was not called. *)
Theorem pool_results_delivered resume s :
  QuietResume resume -> sys_reachable resume once s ->
  (forall h, log_for h (given s) `prefix_of` (Some <$> log_for h (produced s))) /\
  sn (pool_step resume) s /\
  forall s', rtc (pool_step resume) s s' -> nf (pool_step resume) s' ->
    (forall h a, awaiters s' !! h = Some a -> aw_kind a = SuspendCoroutine /\ aw_phase a = Queued) /\
    forall h, log_for h (given s') = Some <$> log_for h (produced s') /\
      length (filter (eq h) (awaited s)) =
        (length (log_for h (given s')) + (if awaiters s' !! h is Some _ then 1 else 0))%nat.
Proof.
  intros QR Hr. pose proof (sys_reachable_inv resume s Hr) as I. split; [|split; [by apply pool_sn|]].
  - intros h. rewrite (si_log s I h). by apply prefix_app_r.
  - intros s' Hs Hnf. destruct (pool_steps_inv resume s s' I Hs) as [I' Ew].
    pose proof (pool_nf resume s' I' Hnf) as Ha. split; [done|]. intros h.
    rewrite <- Ew, (si_log s' I' h). split; [|exact (si_count s' I' h)].
    destruct (awaiters s' !! h) as [a|] eqn:E; cbn; [|by rewrite app_nil_r]. destruct (Ha h a E) as [_ ->]. by rewrite app_nil_r.
Qed.

(** A coroutine awaits a function of the pool, which returns 60; the ring's thread
    has resumed it. *)
Definition idle_config : config := MkConfig idle_ring [] Waiting Armed [] [].

Definition idle_system : system := MkSystem idle_config ∅ [] [] [].

Definition after_pool : system :=
  MkSystem after_one ∅ [9] [(9, FromPool (Ok 60))] [(9, Some (FromPool (Ok 60)))].

(** One step of a concrete schedule, with the state it leads to evaluated. *)
Ltac sys_go tac := eapply rtc_l; [tac; vm_compute; reflexivity|]; vm_compute.

Lemma after_pool_reachable : sys_reachable (fun _ R => R) once after_pool.
Proof.
  exists idle_system. split; [by repeat split|]. unfold idle_system, idle_config.
  sys_go ltac:(right; right; apply (start_await _ 9 RunInPool)).
  sys_go ltac:(left; apply (pool_run _ _ 9 (await_suspend RunInPool) (inl 60))).
  sys_go ltac:(left; eapply (pool_post _ _ 9 (MkAwaiter RunInPool (Some 60) None Stored)); [| |apply (step_push _ (Some 9))|]).
  sys_go ltac:(left; apply pool_poster; split; [eapply (step_exchange _ [] [])|]).
  sys_go ltac:(left; apply pool_poster; split; [apply (step_write _ [] [])|]).
  sys_go ltac:(left; apply pool_ring; [apply step_read|]).
  sys_go ltac:(left; apply pool_ring; [apply step_wake|]).
  sys_go ltac:(left; apply pool_ring; [apply step_clear|]).
  sys_go ltac:(left; apply pool_ring; [apply step_swap|]).
  sys_go ltac:(left; eapply (pool_task _ _ _ 9 (MkAwaiter RunInPool (Some 60) None Posted)); [apply (step_task _ _ _ (Some 9) [])| |]).
  sys_go ltac:(left; apply pool_ring; [apply step_arm|]).
  apply rtc_refl.
Qed.

(** Witness of C9. *)
Lemma pool_results_delivered_witness :
  log_for 9 (given after_pool) `prefix_of` (Some <$> log_for 9 (produced after_pool)) /\
  given after_pool = [(9, Some (FromPool (Ok 60)))].
Proof.
  split; [|reflexivity].
  apply (pool_results_delivered (fun _ R => R) after_pool quiet_id after_pool_reachable).
Defined.

(** The callback of a coroutine is called a second time after the first call has posted
    it and before the ring has taken it; the ring has then resumed it. *)
Definition called_twice (w v : Z) : system :=
  MkSystem (MkConfig (log_resume 9 0 idle_ring) [Pushed] (Running [Some 9]) Unarmed [Some 9; Some 9] [Some 9])
    ∅ [9] [(9, FromCallback w); (9, FromCallback v)] [(9, Some (FromCallback v))].

Lemma called_twice_reachable w v : sys_reachable (fun _ R => R) any_time (called_twice w v).
Proof.
  exists idle_system. split; [by repeat split|]. unfold idle_system, idle_config.
  sys_go ltac:(right; right; apply (start_await _ 9 SuspendCoroutine)).
  sys_go ltac:(right; left; apply (callback _ _ 9 (await_suspend SuspendCoroutine) w); [| |done|done]).
  sys_go ltac:(left; eapply (pool_post _ _ 9 (MkAwaiter SuspendCoroutine (Some w) None Stored)); [| |apply (step_push _ (Some 9))|]).
  sys_go ltac:(left; apply pool_poster; split; [eapply (step_exchange _ [] [])|]).
  sys_go ltac:(left; apply pool_poster; split; [apply (step_write _ [] [])|]).
  sys_go ltac:(left; apply pool_ring; [apply step_read|]).
  sys_go ltac:(left; apply pool_ring; [apply step_wake|]).
  sys_go ltac:(left; apply pool_ring; [apply step_clear|]).
  sys_go ltac:(right; left; apply (callback _ _ 9 (MkAwaiter SuspendCoroutine (Some w) None Posted) v); [| |done|done]).
  sys_go ltac:(left; eapply (pool_post _ _ 9 (MkAwaiter SuspendCoroutine (Some v) None Stored)); [| |apply (step_push _ (Some 9))|]).
  sys_go ltac:(left; apply pool_ring; [apply step_swap|]).
  sys_go ltac:(left; eapply (pool_task _ _ _ 9 (MkAwaiter SuspendCoroutine (Some v) None Posted)); [apply (step_task _ _ _ (Some 9) [Some 9])| |]).
  apply rtc_refl.
Qed.


(** ** The ring and the calls of [post]

    [block_on] ends its loop after a [run_one] when its task [root] is done, which it is
    not while it awaits, and destroys the ring, whatever other coroutines do.  A
    [post] call that has pushed its task still uses [notified_] and the eventfd, and a
    worker or a callback that has not posted yet will call [post]. *)

Inductive life := Alive (s : system) | Destroyed (s : system) | UseAfterFree.

Inductive life_step (resume : Z -> Ring -> Ring) (root : Z) : life -> life -> Prop :=
| life_run s s' : sys_step resume once s s' -> life_step resume root (Alive s) (Alive s')
| life_end s : awaiters s !! root = None -> pc (net s) = Waiting -> life_step resume root (Alive s) (Destroyed s)
| life_call s p : p ∈ posters (net s) -> life_step resume root (Destroyed s) UseAfterFree
| life_post s h a : awaiters s !! h = Some a -> aw_phase a <> Posted -> life_step resume root (Destroyed s) UseAfterFree.

(** With one coroutine that awaits, the ring thread cannot run before the [post] call
    has written the eventfd, its last use of the ring. *)
Definition quiet (c : config) : Prop :=
  ev_count (ring c) = 0 /\ read c <> CqeReady /\ (pc c = Waiting \/ pc c = Running []).

(** The wake-up is under way. *)
Definition waking (h : Z) (c : config) : Prop :=
  (0 < ev_count (ring c) /\ read c <> CqeReady /\ (pc c = Waiting \/ pc c = Running [])) \/
  (ev_count (ring c) = 0 /\ read c = CqeReady /\ pc c = Waiting) \/
  (ev_count (ring c) = 0 /\ read c <> CqeReady /\
   (pc c = Clear \/ notified_ (ring c) = false /\ (pc c = Swap \/ pc c = Running [Some h]))).

Definition one_at_a_time (h : Z) (c : config) : Prop :=
  match posters c with
  | [] => (quiet c /\ notified_ (ring c) = false /\ rest c = []) \/ (rest c = [Some h] /\ waking h c)
  | [Pushed] => quiet c /\ notified_ (ring c) = false /\ rest c = [Some h]
  | [MustWrite] => quiet c /\ rest c = [Some h]
  | _ => False
  end.

Section OneCoroutine.
Context (resume : Z -> Ring -> Ring) {QR : QuietResume resume}.

Lemma one_push h c :
  one_at_a_time h c -> rest c = [] -> one_at_a_time h (MkConfig (post_push (Some h) (ring c)) (Pushed :: posters c) (pc c) (read c)
    (posted c ++ [Some h]) (taken c)).
Proof.
  unfold one_at_a_time. intros H Hr. rewrite Hr in H.
  destruct (posters c) as [|[] [|]]; try (by destruct H as (_ & _ & ?) || by destruct H as [_ ?] || done).
  destruct H as [(Hq & Hn & _)|[? _]]; [|done]. unfold quiet, rest in *. cbn.
  apply app_eq_nil in Hr as [-> ->]. done.
Qed.

Lemma one_poster h c c' : one_at_a_time h c -> poster_step c c' -> one_at_a_time h c'.
Proof.
  intros H [Hs Hp]. destruct Hs as [c t|c p1 p2 was R' Hps He|c p1 p2 Hps].
  - exfalso. revert Hp. cbn. intros E%(f_equal length). rewrite length_app in E. simpl in E. lia.
  - injection He as <- <-. unfold one_at_a_time in H. rewrite Hps in H. destruct p1 as [|[] [|? ?]], p2; simpl in H; try done.
    destruct H as (Hq & Hn & Hr). rewrite Hn. by unfold one_at_a_time, quiet, rest in *.
  - unfold one_at_a_time in H. rewrite Hps in H. destruct p1 as [|[] [|? ?]], p2; simpl in H; try done.
    destruct H as ((Hc & Hrd & Hpc) & Hr). unfold one_at_a_time, rest in *. cbn. right. split; [done|]. left. cbn. split; [lia|done].
Qed.

Lemma ring_quiet c c' :
  quiet c -> ring_step resume not_done c c' ->
  quiet c' /\ notified_ (ring c') = notified_ (ring c) /\ rest c' = rest c.
Proof.
  unfold quiet, rest. intros (Hc & Hrd & Hpc) Hs.
  destruct Hs as [c Hr Hv|c Hp Hr|c Hp|c Hp|c t ts Hp|c Hp]; cbn; try lia.
  all: try (destruct Hpc; congruence). rewrite Hp. auto.
Qed.

Lemma ring_waking h c c' :
  inv c -> rest c = [Some h] -> waking h c -> ring_step resume not_done c c' ->
  (quiet c' /\ notified_ (ring c') = false /\ rest c' = []) \/ (rest c' = [Some h] /\ waking h c').
Proof.
  intros I. pose proof (inv_read c I) as Hrd. clear I. unfold waking, quiet, rest. intros Hrest Hw Hs.
  destruct Hs as [c Hr Hv|c Hp Hr|c Hp|c Hp|c t ts Hp|c Hp]; cbn.
  - right. split; [done|]. right; left. split; [done|]. split; [done|]. destruct (pc c); congruence.
  - rewrite Hp in *. right. split; [done|]. naive_solver.
  - rewrite Hp in *. right. split; [done|]. naive_solver.
  - rewrite Hp in *. cbn in Hrest. rewrite Hrest. naive_solver.
  - destruct (run_task_quiet resume not_done (ring c) t) as (-> & -> & ->). rewrite Hp in *. cbn in Hrest.
    assert (ts = []) as -> by naive_solver. injection Hrest as -> ->. left. naive_solver.
  - rewrite Hp in *. right. split; [done|]. naive_solver.
Qed.

Lemma one_ring h c c' : inv c -> one_at_a_time h c -> ring_step resume not_done c c' -> one_at_a_time h c'.
Proof.
  intros I H Hs. assert (Ep : posters c' = posters c) by (by destruct Hs). unfold one_at_a_time in *. rewrite Ep.
  destruct (posters c) as [|[] [|]]; try done.
  - destruct H as [(H & Hn & Hr)|[Hr H]]; [left; apply (ring_quiet c c') in H as (? & -> & ->); done|by apply (ring_waking h c)].
  - destruct H as (H & <- & <-). by apply (ring_quiet c c') in H.
  - destruct H as (H & <-). apply (ring_quiet c c') in H; tauto.
Qed.

(** The coroutines that wait have awaited. *)
Lemma awaiter_awaited s h a : sys_inv s -> awaiters s !! h = Some a -> h ∈ awaited s.
Proof.
  intros I Ha. pose proof (si_count s I h) as E. rewrite Ha in E.
  destruct (filter (eq h) (awaited s)) as [|g l] eqn:Ef; [simpl in E; lia|].
  assert (Hg : g ∈ filter (eq h) (awaited s)) by (rewrite Ef; left). apply list_elem_of_filter in Hg as [-> Hg]. done.
Qed.

Lemma one_pool h s s' :
  sys_inv s -> Forall (eq h) (awaited s) -> one_at_a_time h (net s) -> pool_step resume s s' -> one_at_a_time h (net s').
Proof.
  intros I Hall H Hs. pose proof (si_net s I) as I1.
  destruct Hs as [s g a out Ha Hk Hq|s g a c' Ha Hq Hs Hp|s c' Hs|s c' Hs Ht|s c' g a Hs Ht Ha]; cbn [net]; try done.
  - pose proof (awaiter_awaited s g a I Ha) as Hg. rewrite Forall_forall in Hall. apply Hall in Hg as <-.
    assert (Hr : rest (net s) = []).
    { destruct (rest (net s)) as [|t ts] eqn:Er; [done|]. exfalso.
      destruct (proj1 (si_rest s I t)) as (g & b & -> & Hb & Hph); [rewrite Er; left|].
      pose proof (awaiter_awaited s g b I Hb) as Hg. apply Hall in Hg as <-. congruence. }
    destruct Hs as [c t|c p1 p2 was R' Hps He|c p1 p2 Hps]; cbn in Hp.
    + apply app_inv_head in Hp as [= ->]. by apply one_push.
    + exfalso. apply (f_equal length) in Hp. rewrite length_app in Hp. simpl in Hp. lia.
    + exfalso. apply (f_equal length) in Hp. rewrite length_app in Hp. simpl in Hp. lia.
  - by eapply one_poster.
  - by eapply one_ring.
  - by eapply one_ring.
Qed.

Lemma one_reachable h s : sys_reachable resume once s -> Forall (eq h) (awaited s) -> one_at_a_time h (net s).
Proof.
  intros (s0 & H0 & Hs). revert s Hs. apply (rtc_ind_r (fun s => Forall (eq h) (awaited s) -> one_at_a_time h (net s))).
  - intros _. destruct H0 as ((H1 & H2 & H3 & H4 & H5 & H6 & _) & _). unfold one_at_a_time, quiet, rest. rewrite H4, H1, H2, H3, H5, H6. left. naive_solver.
  - intros s s' Hs Hstep IH Hall. assert (I : sys_inv s) by (apply (sys_reachable_inv resume); by exists s0).
    destruct Hstep as [Hp|[Hc|Ha]].
    + eapply one_pool; [done| |apply IH|done]; by destruct Hp.
    + destruct Hc as [s g a v]. by apply IH.
    + destruct Ha as [s g k Hn]. cbn in *. apply Forall_app in Hall as [? _]. by apply IH.
Qed.

End OneCoroutine.

(** Two coroutines await functions of the pool.  The second [post] call has pushed
    its task after the ring thread reset [notified_] and before it took the tasks. *)
Definition both_resumed : system :=
  MkSystem (MkConfig (log_resume 8 0 (log_resume 9 0 idle_ring)) [Pushed] Waiting Armed [Some 9; Some 8] [Some 9; Some 8])
    ∅ [9; 8] [(9, FromPool (Ok 1)); (8, FromPool (Ok 2))]
    [(9, Some (FromPool (Ok 1))); (8, Some (FromPool (Ok 2)))].

Lemma both_resumed_steps : rtc (sys_step (fun _ R => R) once) idle_system both_resumed.
Proof.
  unfold idle_system, idle_config.
  sys_go ltac:(right; right; apply (start_await _ 9 RunInPool)).
  sys_go ltac:(right; right; apply (start_await _ 8 RunInPool)).
  sys_go ltac:(left; apply (pool_run _ _ 9 (await_suspend RunInPool) (inl 1))).
  sys_go ltac:(left; apply (pool_run _ _ 8 (await_suspend RunInPool) (inl 2))).
  sys_go ltac:(left; eapply (pool_post _ _ 9 (MkAwaiter RunInPool (Some 1) None Stored)); [| |apply (step_push _ (Some 9))|]).
  sys_go ltac:(left; apply pool_poster; split; [eapply (step_exchange _ [] [])|]).
  sys_go ltac:(left; apply pool_poster; split; [apply (step_write _ [] [])|]).
  sys_go ltac:(left; apply pool_ring; [apply step_read|]).
  sys_go ltac:(left; apply pool_ring; [apply step_wake|]).
  sys_go ltac:(left; apply pool_ring; [apply step_clear|]).
  sys_go ltac:(left; eapply (pool_post _ _ 8 (MkAwaiter RunInPool (Some 2) None Stored)); [| |apply (step_push _ (Some 8))|]).
  sys_go ltac:(left; apply pool_ring; [apply step_swap|]).
  sys_go ltac:(left; eapply (pool_task _ _ _ 9 (MkAwaiter RunInPool (Some 1) None Posted)); [apply (step_task _ _ _ (Some 9) [Some 8])| |]).
  sys_go ltac:(left; eapply (pool_task _ _ _ 8 (MkAwaiter RunInPool (Some 2) None Posted)); [apply (step_task _ _ _ (Some 8) [])| |]).
  sys_go ltac:(left; apply pool_ring; [apply step_arm|]).
  apply rtc_refl.
Qed.

(** C24 ([block_on] and [Ring::post], safety): as long as only the coroutine that
    [block_on] runs has used [run_in_pool] or [suspend_coroutine], and callbacks are
    called once, nobody uses the ring after [block_on] has destroyed it.  With a second
    coroutine that does, the ring can be used after its end: when both have been
    resumed, but one [post] call is between its push and its use of [notified_]; and
    when the second one, which nobody joins, still awaits its result. *)
Theorem post_and_ring_lifetime :
  (forall resume root s l, QuietResume resume -> sys_reachable resume once s -> Forall (eq root) (awaited s) ->
     life_step resume root (Alive s) l -> ~ life_step resume root l UseAfterFree) /\
  (exists s, rtc (life_step (fun _ R => R) 9) (Alive idle_system) (Destroyed s) /\ awaiters s = ∅ /\
     life_step (fun _ R => R) 9 (Destroyed s) UseAfterFree) /\
  (exists s, rtc (life_step (fun _ R => R) 9) (Alive idle_system) (Destroyed s) /\ posters (net s) = [] /\
     life_step (fun _ R => R) 9 (Destroyed s) UseAfterFree).
Proof.
  split; [|split].
  - intros resume root s l QR Hr Hall Hs Hu. pose proof (sys_reachable_inv resume s Hr) as I.
    inversion Hs as [s1 s2 H|s1 Ha Hpc| |]; subst; [by inversion Hu|].
    assert (Hnone : forall h a, awaiters s !! h = Some a -> False).
    { intros h a Hh. pose proof (awaiter_awaited s h a I Hh) as Hin. rewrite Forall_forall in Hall. apply Hall in Hin as <-. congruence. }
    inversion Hu as [| |s1 p Hin|s1 h a Hh]; subst; [|by eapply Hnone].
    pose proof (one_reachable resume root s Hr Hall) as H. unfold one_at_a_time in H.
    assert (Hrest : rest (net s) <> [Some root]).
    { intros E. destruct (proj1 (si_rest s I (Some root))) as (g & a & _ & Hg & _); [rewrite E; left|]. by eapply Hnone. }
    destruct (posters (net s)) as [|[] [|]]; [by apply not_elem_of_nil in Hin|tauto..].
  - exists both_resumed. split; [|split; [done|eapply life_call; left]]. etrans.
    + eapply (rtc_congruence Alive); [|exact both_resumed_steps]. intros x y. apply life_run.
    + eapply rtc_l; [by apply life_end|apply rtc_refl].
  - exists (MkSystem idle_config (<[8 := await_suspend RunInPool]> ∅) [8] [] []).
    split; [|split; [done|by apply (life_post _ _ _ 8 (await_suspend RunInPool))]].
    eapply rtc_l; [apply life_run; right; right; by apply (start_await _ 8 RunInPool)|].
    eapply rtc_l; [by apply life_end|apply rtc_refl].
Qed.

(** Witness of C24. *)
Lemma post_and_ring_lifetime_witness :
  life_step (fun _ R => R) 9 (Alive after_pool) (Destroyed after_pool) /\
  ~ life_step (fun _ R => R) 9 (Destroyed after_pool) UseAfterFree.
Proof.
  assert (H : life_step (fun _ R => R) 9 (Alive after_pool) (Destroyed after_pool)) by (by apply life_end).
  split; [exact H|].
  refine (proj1 post_and_ring_lifetime _ 9 after_pool _ quiet_id after_pool_reachable _ H). repeat constructor.
Defined.
