(* ===== verification/H2Buf.v ===== *)
(** nghttp2: buffers and chains of buffers.

    [src/third-party/nghttp2/lib/nghttp2_buf.c] and [nghttp2_buf.h], with the
    big-endian accessors of [nghttp2_helper.c].  A buffer is its memory with
    offsets for the pointers into it; the chain of an [nghttp2_bufs] is split at
    the buffer [cur] points to.  An access outside the memory, or a failed
    assertion, is [None].  Memory comes from [malloc], a parameter that may
    fail. *)

From S2P Require Import Prelude Binary.

Local Open Scope Z_scope.

(** ** Error codes *)

Definition NGHTTP2_ERR_INVALID_ARGUMENT : Z := -501.
Definition NGHTTP2_ERR_BUFFER_ERROR : Z := -502.
Definition NGHTTP2_ERR_FRAME_SIZE_ERROR : Z := -522.
Definition NGHTTP2_ERR_HEADER_COMP : Z := -523.
Definition NGHTTP2_ERR_INSUFF_BUFSIZE : Z := -525.
Definition NGHTTP2_ERR_NOMEM : Z := -901.

(** ** Big-endian integers *)

Definition nghttp2_put_uint16be (n : Z) : bytes := [Z.land (Z.shiftr n 8) 255; Z.land n 255].

Definition nghttp2_put_uint32be (n : Z) : bytes :=
  [Z.land (Z.shiftr n 24) 255; Z.land (Z.shiftr n 16) 255; Z.land (Z.shiftr n 8) 255; Z.land n 255].

Definition be_value (l : bytes) : Z := fold_left (fun acc b => acc * 256 + b) l 0.

(** Reads of two and four bytes; [None] outside the memory. *)
Definition nghttp2_get_uint16 (data : bytes) : option Z :=
  match data with a :: b :: _ => Some (be_value [a; b]) | _ => None end.

Definition nghttp2_get_uint32 (data : bytes) : option Z :=
  match data with a :: b :: c :: d :: _ => Some (be_value [a; b; c; d]) | _ => None end.

(** ** A buffer *)

Record nghttp2_buf := MkBuf { cells : bytes; pos : nat; last : nat; mark : nat }.

Definition buf_len (b : nghttp2_buf) : nat := last b - pos b.
Definition buf_avail (b : nghttp2_buf) : nat := length (cells b) - last b.
Definition buf_cap (b : nghttp2_buf) : nat := length (cells b).

Definition nghttp2_buf_init : nghttp2_buf := MkBuf [] 0 0 0.

Definition buf_shift_right (amt : nat) (b : nghttp2_buf) : nghttp2_buf :=
  MkBuf (cells b) (pos b + amt) (last b + amt) (mark b).

Definition nghttp2_buf_reset (b : nghttp2_buf) : nghttp2_buf := MkBuf (cells b) 0 0 0.

Definition nghttp2_buf_wrap_init (m : bytes) : nghttp2_buf := MkBuf m 0 0 0.

(** [memcpy] to an offset of the memory. *)
Definition store (off : nat) (data m : bytes) : option bytes :=
  if decide (off + length data <= length m)%nat
  then Some (take off m ++ data ++ drop (off + length data) m) else None.

(** The bytes between [pos] and [last]. *)
Definition buf_data (b : nghttp2_buf) : bytes := take (buf_len b) (drop (pos b) (cells b)).

(** [buf->last = nghttp2_cpymem(buf->last, data, len)]. *)
Definition buf_append (data : bytes) (b : nghttp2_buf) : option nghttp2_buf :=
  m ← store (last b) data (cells b); Some (MkBuf m (pos b) (last b + length data) (mark b)).

(** A chain: the buffers before [cur], the one at [cur], those after it. *)
Record nghttp2_bufs := MkBufs {
  before : list nghttp2_buf;
  cur : nghttp2_buf;
  after : list nghttp2_buf;
  chunk_length : nat;
  max_chunk : nat;
  chunk_used : nat;
  chunk_keep : nat;
  offset : nat
}.

Definition chain (B : nghttp2_bufs) : list nghttp2_buf := before B ++ cur B :: after B.

Definition set_cur (b : nghttp2_buf) (B : nghttp2_bufs) : nghttp2_bufs :=
  MkBufs (before B) b (after B) (chunk_length B) (max_chunk B) (chunk_used B) (chunk_keep B) (offset B).

Section Alloc.
Context (malloc : nat -> option bytes).

Definition nghttp2_buf_reserve (new_cap : nat) (b : nghttp2_buf) : Z * nghttp2_buf :=
  let cap := buf_cap b in
  if decide (new_cap <= cap)%nat then (0, b) else
  let new_cap := Nat.max new_cap (cap * 2) in
  match malloc new_cap with
  | None => (NGHTTP2_ERR_NOMEM, b)
  | Some m => (0, MkBuf (cells b ++ drop cap m) (pos b) (last b) (mark b))
  end.

Definition nghttp2_buf_init2 (initial : nat) : Z * nghttp2_buf := nghttp2_buf_reserve initial nghttp2_buf_init.

Definition buf_chain_new (chunk_length : nat) : Z * nghttp2_buf :=
  let '(rv, b) := nghttp2_buf_init2 chunk_length in
  if rv =? 0 then (0, b) else (NGHTTP2_ERR_NOMEM, b).

Definition nghttp2_bufs_init3 (chunk_length max_chunk chunk_keep offset : nat) : Z * option nghttp2_bufs :=
  if (chunk_keep =? 0)%nat || (max_chunk <? chunk_keep)%nat || (chunk_length <? offset)%nat
  then (NGHTTP2_ERR_INVALID_ARGUMENT, None) else
  let '(rv, b) := buf_chain_new chunk_length in
  if negb (rv =? 0) then (rv, None) else
  (0, Some (MkBufs [] (buf_shift_right offset b) [] chunk_length max_chunk 1 chunk_keep offset)).

Definition nghttp2_bufs_init2 (chunk_length max_chunk offset : nat) : Z * option nghttp2_bufs :=
  nghttp2_bufs_init3 chunk_length max_chunk max_chunk offset.

Definition nghttp2_bufs_init (chunk_length max_chunk : nat) : Z * option nghttp2_bufs :=
  nghttp2_bufs_init2 chunk_length max_chunk 0.

Definition nghttp2_bufs_realloc (chunk_length : nat) (B : nghttp2_bufs) : Z * nghttp2_bufs :=
  if (chunk_length <? offset B)%nat then (NGHTTP2_ERR_INVALID_ARGUMENT, B) else
  let '(rv, b) := buf_chain_new chunk_length in
  if negb (rv =? 0) then (rv, B) else
  (0, MkBufs [] (buf_shift_right (offset B) b) [] chunk_length (max_chunk B) 1 (chunk_keep B) (offset B)).

Definition nghttp2_bufs_wrap_init (m : bytes) : nghttp2_bufs :=
  MkBufs [] (nghttp2_buf_wrap_init m) [] (length m) 1 1 1 0.

Definition nghttp2_bufs_wrap_init2 (vec : list bytes) : nghttp2_bufs :=
  match vec with
  | [] => nghttp2_bufs_wrap_init []
  | v :: vs =>
      MkBufs [] (nghttp2_buf_wrap_init v) (nghttp2_buf_wrap_init <$> vs) 0
        (length vec) (length vec) (length vec) 0
  end.

Definition nghttp2_bufs_len (B : nghttp2_bufs) : nat := sum_list_with buf_len (chain B).

Definition bufs_alloc_chain (B : nghttp2_bufs) : Z * nghttp2_bufs :=
  match after B with
  | b :: r =>
      (0, MkBufs (before B ++ [cur B]) b r (chunk_length B) (max_chunk B) (chunk_used B) (chunk_keep B) (offset B))
  | [] =>
      if (max_chunk B =? chunk_used B)%nat then (NGHTTP2_ERR_BUFFER_ERROR, B) else
      let '(rv, b) := buf_chain_new (chunk_length B) in
      if negb (rv =? 0) then (rv, B) else
      (0, MkBufs (before B ++ [cur B]) (buf_shift_right (offset B) b) [] (chunk_length B) (max_chunk B)
            (S (chunk_used B)) (chunk_keep B) (offset B))
  end.

(** The loop of [nghttp2_bufs_add]; [None] only if [fuel] runs out. *)
Fixpoint bufs_add_loop (fuel : nat) (data : bytes) (B : nghttp2_bufs) : option (Z * nghttp2_bufs) :=
  match data with
  | [] => Some (0, B)
  | _ =>
      match fuel with
      | O => None
      | S fuel =>
          let nwrite := Nat.min (buf_avail (cur B)) (length data) in
          match nwrite with
          | O =>
              let '(rv, B) := bufs_alloc_chain B in
              if negb (rv =? 0) then Some (rv, B) else bufs_add_loop fuel data B
          | _ =>
              b ← buf_append (take nwrite data) (cur B);
              bufs_add_loop fuel (drop nwrite data) (set_cur b B)
          end
      end
  end.

Definition nghttp2_bufs_add (data : bytes) (B : nghttp2_bufs) : option (Z * nghttp2_bufs) :=
  bufs_add_loop (length data + length (after B) + max_chunk B) data B.

Definition bufs_ensure_addb (B : nghttp2_bufs) : Z * nghttp2_bufs :=
  if decide (0 < buf_avail (cur B))%nat then (0, B) else bufs_alloc_chain B.

Definition nghttp2_bufs_addb (x : Z) (B : nghttp2_bufs) : option (Z * nghttp2_bufs) :=
  let '(rv, B) := bufs_ensure_addb B in
  if negb (rv =? 0) then Some (rv, B) else
  b ← buf_append [x] (cur B); Some (0, set_cur b B).

Definition nghttp2_bufs_addb_hold (x : Z) (B : nghttp2_bufs) : option (Z * nghttp2_bufs) :=
  let '(rv, B) := bufs_ensure_addb B in
  if negb (rv =? 0) then Some (rv, B) else
  b ← buf_append [x] (cur B); Some (0, set_cur (MkBuf (cells b) (pos b) (last (cur B)) (mark b)) B).

Definition nghttp2_bufs_orb (x : Z) (B : nghttp2_bufs) : option (Z * nghttp2_bufs) :=
  let '(rv, B) := bufs_ensure_addb B in
  if negb (rv =? 0) then Some (rv, B) else
  old ← cells (cur B) !! last (cur B);
  b ← buf_append [Z.lor old x] (cur B); Some (0, set_cur b B).

Definition nghttp2_bufs_orb_hold (x : Z) (B : nghttp2_bufs) : option (Z * nghttp2_bufs) :=
  let '(rv, B) := bufs_ensure_addb B in
  if negb (rv =? 0) then Some (rv, B) else
  old ← cells (cur B) !! last (cur B);
  b ← buf_append [Z.lor old x] (cur B); Some (0, set_cur (MkBuf (cells b) (pos b) (last (cur B)) (mark b)) B).

(** The bytes of the chain; [nghttp2_bufs_remove] gives no buffer when there
    are none. *)
Definition nghttp2_bufs_remove (B : nghttp2_bufs) : Z * option bytes :=
  let len := nghttp2_bufs_len B in
  if (len =? 0)%nat then (0, None) else
  match malloc len with
  | None => (NGHTTP2_ERR_NOMEM, None)
  | Some _ => (Z.of_nat len, Some (concat (buf_data <$> chain B)))
  end.

Definition nghttp2_bufs_remove_copy (B : nghttp2_bufs) : nat * bytes :=
  (nghttp2_bufs_len B, concat (buf_data <$> chain B)).

End Alloc.

(** The first [chunk_keep] buffers are kept and emptied, the others freed. *)
Definition nghttp2_bufs_reset (B : nghttp2_bufs) : option nghttp2_bufs :=
  let clear b := buf_shift_right (offset B) (nghttp2_buf_reset b) in
  let kept := clear <$> take (chunk_keep B) (chain B) in
  let used := if (chunk_keep B <=? length (chain B))%nat then chunk_keep B else chunk_used B in
  match kept with
  | [] => None
  | b :: r => Some (MkBufs [] b r (chunk_length B) (max_chunk B) used (chunk_keep B) (offset B))
  end.

Definition bufs_rewind (B : nghttp2_bufs) : option nghttp2_bufs :=
  match chain B with
  | [] => None
  | b :: r => Some (MkBufs [] b r (chunk_length B) (max_chunk B) (chunk_used B) (chunk_keep B) (offset B))
  end.

(** [cur] moves over the buffers that hold something. *)
Fixpoint seek_last (bf : list nghttp2_buf) (c : nghttp2_buf) (af : list nghttp2_buf)
    : list nghttp2_buf * nghttp2_buf * list nghttp2_buf :=
  match af with
  | b :: r => if (buf_len b =? 0)%nat then (bf, c, af) else seek_last (bf ++ [c]) b r
  | [] => (bf, c, af)
  end.

Definition nghttp2_bufs_seek_last_present (B : nghttp2_bufs) : nghttp2_bufs :=
  if (buf_len (cur B) =? 0)%nat then B else
  let '(bf, c, af) := seek_last (before B) (cur B) (after B) in
  MkBufs bf c af (chunk_length B) (max_chunk B) (chunk_used B) (chunk_keep B) (offset B).

Definition nghttp2_bufs_next_present (B : nghttp2_bufs) : bool :=
  match after B with b :: _ => negb (buf_len b =? 0)%nat | [] => false end.

(** ** Well-formed chains and what they hold *)

Definition buf_ok (b : nghttp2_buf) : Prop := (pos b <= last b <= length (cells b))%nat.

Record bufs_ok (B : nghttp2_bufs) : Prop := BufsOk {
  bo_bufs : Forall buf_ok (chain B);
  bo_after : Forall (fun b => buf_len b = 0%nat) (after B);
  bo_used : chunk_used B = length (chain B);
  bo_max : (chunk_used B <= max_chunk B)%nat;
  bo_offset : (offset B <= chunk_length B)%nat
}.

Definition contents (B : nghttp2_bufs) : bytes := concat (buf_data <$> chain B).

(** How much more fits. *)
Definition room (B : nghttp2_bufs) : nat :=
  buf_avail (cur B) + sum_list_with buf_avail (after B) + (max_chunk B - chunk_used B) * (chunk_length B - offset B).

Lemma store_ok off data m :
  (off + length data <= length m)%nat -> store off data m = Some (take off m ++ data ++ drop (off + length data) m).
Proof. intros H. unfold store. by rewrite decide_True. Qed.

Lemma store_length off data m m' : store off data m = Some m' -> length m' = length m.
Proof.
  unfold store. case_decide; [|done]. intros [= <-]. rewrite !length_app, length_take, length_drop. lia.
Qed.

Lemma be_value4 a b c d : be_value [a; b; c; d] = ((a * 256 + b) * 256 + c) * 256 + d.
Proof. unfold be_value. cbn. lia. Qed.

Lemma land_255 n : Z.land n 255 = n mod 256.
Proof. change 255 with (Z.ones 8). by rewrite Z.land_ones. Qed.

Lemma put_uint32be_eq n :
  nghttp2_put_uint32be n = [n / 2 ^ 24 mod 256; n / 2 ^ 16 mod 256; n / 2 ^ 8 mod 256; n mod 256].
Proof. unfold nghttp2_put_uint32be. by rewrite !land_255, !Z.shiftr_div_pow2. Qed.

Lemma put_uint16be_eq n : nghttp2_put_uint16be n = [n / 2 ^ 8 mod 256; n mod 256].
Proof. unfold nghttp2_put_uint16be. by rewrite !land_255, !Z.shiftr_div_pow2. Qed.

Lemma get_put_uint32 n r : 0 <= n < 2 ^ 32 -> nghttp2_get_uint32 (nghttp2_put_uint32be n ++ r) = Some n.
Proof.
  intros Hn. rewrite put_uint32be_eq. cbn [app nghttp2_get_uint32]. rewrite be_value4. f_equal. zdiv_lia.
Qed.

Lemma get_put_uint16 n r : 0 <= n < 2 ^ 16 -> nghttp2_get_uint16 (nghttp2_put_uint16be n ++ r) = Some n.
Proof.
  intros Hn. rewrite put_uint16be_eq. cbn [app nghttp2_get_uint16]. unfold be_value. cbn. f_equal. zdiv_lia.
Qed.

Lemma buf_append_spec b data :
  buf_ok b -> (length data <= buf_avail b)%nat ->
  exists b', buf_append data b = Some b' /\ buf_ok b' /\ buf_data b' = buf_data b ++ data /\
    buf_avail b' = (buf_avail b - length data)%nat /\ pos b' = pos b /\ last b' = (last b + length data)%nat /\
    length (cells b') = length (cells b).
Proof.
  unfold buf_ok, buf_avail. intros Hb Hd. unfold buf_append.
  destruct (store (last b) data (cells b)) as [m|] eqn:E.
  2: { rewrite store_ok in E by lia. done. }
  pose proof (store_length _ _ _ _ E) as El. rewrite store_ok in E by lia. injection E as <-.
  eexists. split; [done|]. cbn [pos last cells]. rewrite El.
  split; [lia|]. split; [|lia]. unfold buf_data, buf_len. cbn [pos last cells].
  rewrite drop_app_le by (rewrite length_take; lia). rewrite take_app_ge by (rewrite length_drop, length_take; lia).
  rewrite length_drop, length_take. replace (last b `min` length (cells b))%nat with (last b) by lia.
  replace (last b + length data - pos b - (last b - pos b))%nat with (length data) by lia.
  rewrite take_app_length. f_equal. by rewrite skipn_firstn_comm.
Qed.

Lemma buf_data_empty b : buf_len b = 0%nat -> buf_data b = [].
Proof. unfold buf_data. by intros ->. Qed.

Lemma contents_after B : bufs_ok B -> contents B = concat (buf_data <$> before B) ++ buf_data (cur B).
Proof.
  intros [_ Ha _ _ _]. unfold contents, chain. rewrite fmap_app, concat_app, fmap_cons. cbn [concat].
  f_equal. enough (E : concat (buf_data <$> after B) = []) by (by rewrite E, app_nil_r).
  induction Ha as [|b l Hb _ IH]; [done|]. cbn. by rewrite buf_data_empty, IH.
Qed.

Lemma set_cur_ok B b : bufs_ok B -> buf_ok b -> bufs_ok (set_cur b B).
Proof.
  intros [H1 H2 H3 H4 H5] Hb. unfold chain in *. split; cbn; try done.
  - apply Forall_app in H1 as [? H1]. inversion_clear H1. apply Forall_app. split; [done|by constructor].
  - by rewrite !length_app in *.
Qed.

Section AllocFacts.
Context (malloc : nat -> option bytes).
Hypothesis malloc_length : forall n m, malloc n = Some m -> length m = n.

Lemma chain_new_spec n :
  (exists b, buf_chain_new malloc n = (0, b) /\ length (cells b) = n /\ pos b = 0%nat /\ last b = 0%nat) \/
  (exists b, buf_chain_new malloc n = (NGHTTP2_ERR_NOMEM, b) /\ malloc n = None).
Proof.
  unfold buf_chain_new, nghttp2_buf_init2, nghttp2_buf_reserve. cbn [buf_cap cells nghttp2_buf_init length].
  case_decide as Hn; [left; exists nghttp2_buf_init; repeat split; cbn; lia|].
  replace (n `max` (0 * 2))%nat with n by lia. destruct (malloc n) as [m|] eqn:E.
  - left. eexists. split; [done|]. cbn. apply malloc_length in E. by rewrite drop_0.
  - right. by eexists.
Qed.

Lemma alloc_chain_spec B :
  bufs_ok B ->
  (exists B', bufs_alloc_chain malloc B = (0, B') /\ bufs_ok B' /\ contents B' = contents B /\
     (buf_avail (cur B) + room B' = room B)%nat /\ buf_len (cur B') = 0%nat /\
     chunk_length B' = chunk_length B /\ max_chunk B' = max_chunk B /\ offset B' = offset B /\ chunk_keep B' = chunk_keep B /\
     (length (after B') + (max_chunk B' - chunk_used B') < length (after B) + (max_chunk B - chunk_used B))%nat) \/
  (bufs_alloc_chain malloc B = (NGHTTP2_ERR_BUFFER_ERROR, B) /\ room B = buf_avail (cur B)) \/
  (bufs_alloc_chain malloc B = (NGHTTP2_ERR_NOMEM, B) /\ malloc (chunk_length B) = None).
Proof.
  intros HB. pose proof HB as [H1 H2 H3 H4 H5]. unfold bufs_alloc_chain.
  destruct (after B) as [|b r] eqn:Ea.
  - destruct (Nat.eqb_spec (max_chunk B) (chunk_used B)) as [Em|Hm].
    { right. left. split; [done|]. unfold room. rewrite Ea. simpl. lia. }
    destruct (chain_new_spec (chunk_length B)) as [(b & -> & Hc & Hp & Hl)|(b & -> & Hn)]; cbn [Z.eqb negb].
    2: { right. right. split; [|done]. done. }
    left. eexists. split; [done|]. unfold chain in *. rewrite Ea in *.
    assert (Hs : buf_ok (buf_shift_right (offset B) b)) by (unfold buf_ok; cbn; rewrite Hp, Hl, Hc; lia).
    split; [split; cbn; unfold chain; cbn|split; [|split; [|split; [|repeat split; cbn; lia]]]].
    + rewrite <- app_assoc. apply Forall_app in H1 as [A1 A2]. apply Forall_app. split; [done|].
      inversion_clear A2. constructor; [done|]. by apply Forall_singleton.
    + constructor.
    + rewrite !length_app in *. simpl in *. lia.
    + lia.
    + done.
    + unfold contents, chain. cbn [before cur after]. rewrite Ea, <- app_assoc, !fmap_app, !concat_app. f_equal.
      cbn [fmap list_fmap concat app]. rewrite (buf_data_empty (buf_shift_right _ _)); [by rewrite app_nil_r|]. unfold buf_len. cbn. lia.
    + assert (Ev : buf_avail (buf_shift_right (offset B) b) = (chunk_length B - offset B)%nat)
        by (unfold buf_avail; cbn; rewrite Hl, Hc; lia).
      unfold room. cbn [cur after max_chunk chunk_used chunk_length offset sum_list_with]. rewrite Ea, Ev.
      replace (max_chunk B - chunk_used B)%nat with (S (max_chunk B - S (chunk_used B))) by lia.
      rewrite Nat.mul_succ_l. cbn [sum_list_with]. lia.
    + unfold buf_len. cbn. lia.
  - left. eexists. split; [done|]. unfold chain in *. rewrite Ea in *. inversion_clear H2 as [|? ? Hb Hr].
    split; [split; cbn; unfold chain; cbn|split; [|split; [|split; [|repeat split; cbn; lia]]]].
    + by rewrite <- app_assoc.
    + done.
    + rewrite <- app_assoc. done.
    + done.
    + done.
    + unfold contents, chain. cbn. by rewrite Ea, <- app_assoc.
    + unfold room. rewrite Ea. cbn. lia.
    + done.
Qed.

Lemma set_cur_contents B b data :
  bufs_ok B -> buf_ok b -> buf_data b = buf_data (cur B) ++ data -> contents (set_cur b B) = contents B ++ data.
Proof.
  intros HB Hb Hd. rewrite !contents_after by (try apply set_cur_ok; done). cbn. by rewrite Hd, app_assoc.
Qed.

Lemma set_cur_room B b : (room (set_cur b B) + buf_avail (cur B) = room B + buf_avail b)%nat.
Proof. unfold room. cbn. lia. Qed.

(** How an addition ends. *)
Definition add_result (data : bytes) (B : nghttp2_bufs) (rv : Z) (B' : nghttp2_bufs) : Prop :=
  bufs_ok B' /\ exists n, contents B' = contents B ++ take n data /\
  ((rv = 0 /\ n = length data /\ (length data <= room B)%nat) \/
   (rv = NGHTTP2_ERR_BUFFER_ERROR /\ n = room B /\ (room B < length data)%nat) \/
   (rv = NGHTTP2_ERR_NOMEM /\ malloc (chunk_length B) = None)).

Lemma bufs_add_loop_spec fuel data B :
  bufs_ok B -> (length data + length (after B) + (max_chunk B - chunk_used B) <= fuel)%nat ->
  exists rv B', bufs_add_loop malloc fuel data B = Some (rv, B') /\ add_result data B rv B'.
Proof.
  revert data B. induction fuel as [|fuel IH]; intros data B HB Hf.
  - destruct data; [|simpl in Hf; lia]. exists 0, B. split; [done|]. split; [done|]. exists 0%nat.
    rewrite take_nil, app_nil_r. split; [done|]. left. simpl. lia.
  - destruct data as [|x data].
    { exists 0, B. split; [done|]. split; [done|]. exists 0%nat.
      rewrite take_nil, app_nil_r. split; [done|]. left. simpl. lia. }
    set (dat := x :: data) in *. assert (Hlen : (0 < length dat)%nat) by (simpl; lia).
    cbn [bufs_add_loop]. fold dat. destruct (buf_avail (cur B) `min` length dat)%nat as [|k] eqn:Ek.
    + assert (Eav : buf_avail (cur B) = 0%nat) by lia.
      destruct (alloc_chain_spec B HB)
        as [(B1 & -> & HB1 & Ec & Er & _ & El & _ & _ & _ & Hm)|[(-> & Er)|(-> & Hn)]]; cbn [Z.eqb negb].
      * destruct (IH dat B1 HB1 ltac:(lia)) as (rv & B' & E & HB' & n & Hc & Hr).
        exists rv, B'. split; [done|]. split; [done|]. exists n. rewrite Hc, Ec. split; [done|].
        rewrite Eav in Er. simpl in Er. rewrite <- Er, <- El. done.
      * exists NGHTTP2_ERR_BUFFER_ERROR, B. split; [done|]. split; [done|]. exists 0%nat.
        rewrite take_0, app_nil_r. split; [done|]. right. left. lia.
      * exists NGHTTP2_ERR_NOMEM, B. split; [done|]. split; [done|]. exists 0%nat.
        rewrite take_0, app_nil_r. auto.
    + rewrite <- Ek. set (w := (buf_avail (cur B) `min` length dat)%nat) in *.
      assert (Hw : (w <= length dat)%nat) by lia.
      destruct (buf_append_spec (cur B) (take w dat)) as (b & -> & Hb & Hd & Hav & _).
      { pose proof (bo_bufs _ HB) as H. unfold chain in H. apply Forall_app in H as [_ H]. by inversion_clear H. }
      { rewrite length_take. lia. }
      rewrite length_take in Hav. cbn [mbind option_bind].
      destruct (IH (drop w dat) (set_cur b B)) as (rv & B' & E & HB' & n & Hc & Hr).
      { by apply set_cur_ok. }
      { rewrite length_drop. cbn [after max_chunk chunk_used set_cur]. lia. }
      exists rv, B'. split; [exact E|]. split; [done|]. exists (w + n)%nat.
      rewrite Hc, (set_cur_contents B b (take w dat)) by done. rewrite <- app_assoc.
      split; [by rewrite take_take_drop|]. rewrite length_drop in Hr. pose proof (set_cur_room B b) as Hro.
      cbn [chunk_length set_cur] in Hr. destruct Hr as [(-> & -> & Hr)|[(-> & -> & Hr)|Hr]]; [left|right; left|by right; right];
        (split; [done|]); lia.
Qed.
End AllocFacts.

Lemma cur_ok B : bufs_ok B -> buf_ok (cur B).
Proof. intros HB. pose proof (bo_bufs _ HB) as H. unfold chain in H. apply Forall_app in H as [_ H]. by inversion_clear H. Qed.

(** Bytes that fit into the current buffer go there. *)
Lemma bufs_add_cur malloc data B :
  bufs_ok B -> (length data <= buf_avail (cur B))%nat ->
  exists b, nghttp2_bufs_add malloc data B = Some (0, set_cur b B) /\ buf_ok b /\
    buf_data b = buf_data (cur B) ++ data /\ buf_avail b = (buf_avail (cur B) - length data)%nat.
Proof.
  intros HB Hd. unfold nghttp2_bufs_add.
  assert (Hm : (0 < max_chunk B)%nat).
  { pose proof (bo_used _ HB). pose proof (bo_max _ HB). unfold chain in *. rewrite length_app in *. simpl in *. lia. }
  destruct (length data + length (after B) + max_chunk B)%nat as [|fuel] eqn:Ef; [lia|].
  destruct data as [|x data].
  - exists (cur B). rewrite app_nil_r. split; [by destruct B|]. split; [by apply cur_ok|]. split; [done|simpl; lia].
  - set (dat := x :: data) in *. cbn [bufs_add_loop]. fold dat.
    replace (buf_avail (cur B) `min` length dat)%nat with (length dat) by lia.
    assert (Hl : (0 < length dat)%nat) by (simpl; lia).
    destruct (length dat) as [|k] eqn:El; [lia|]. rewrite <- El, firstn_all, drop_all.
    destruct (buf_append_spec (cur B) dat) as (b & -> & Hb & Hdat & Hav & _); [by apply cur_ok|lia|].
    exists b. cbn [mbind option_bind]. split; [by destruct fuel|]. split; [done|]. split; [done|lia].
Qed.

(** A new chain. *)
Lemma bufs_init3_spec malloc cl mc ck off rv B :
  (forall n m, malloc n = Some m -> length m = n) ->
  nghttp2_bufs_init3 malloc cl mc ck off = (rv, Some B) ->
  rv = 0 /\ bufs_ok B /\ contents B = [] /\ before B = [] /\ after B = [] /\ pos (cur B) = off /\ last (cur B) = off /\
  length (cells (cur B)) = cl /\ room B = (mc * (cl - off))%nat.
Proof.
  intros Hm. unfold nghttp2_bufs_init3. destruct (_ || _ || _) eqn:E; [done|].
  apply orb_false_iff in E as [E E3]. apply orb_false_iff in E as [E1 E2].
  apply Nat.eqb_neq in E1. apply Nat.ltb_ge in E2. apply Nat.ltb_ge in E3.
  destruct (chain_new_spec malloc Hm cl) as [(b & -> & Hc & Hp & Hl)|(b & -> & _)]; [|done].
  cbn [Z.eqb negb]. intros [= <- <-]. split; [done|].
  assert (Hb : buf_ok (buf_shift_right off b)) by (unfold buf_ok; cbn; lia).
  split; [split; cbn; try done; [by apply Forall_singleton|lia]|].
  split; [unfold contents; cbn -[buf_shift_right]; rewrite buf_data_empty; [done|unfold buf_len; cbn; lia]|].
  cbn [before after cur buf_shift_right pos last cells]. rewrite Hp, Hl. repeat split; [done|].
  unfold room, buf_avail. cbn [cur after max_chunk chunk_used chunk_length offset buf_shift_right cells last sum_list_with].
  rewrite Hl, Hc. destruct mc as [|k]; [lia|]. rewrite Nat.mul_succ_l. cbn. rewrite Nat.sub_0_r. lia.
Qed.

(** After a reset the kept buffers are empty. *)
Lemma bufs_reset_spec B :
  bufs_ok B -> (1 <= chunk_keep B <= max_chunk B)%nat -> Forall (fun b => length (cells b) = chunk_length B) (chain B) ->
  exists B', nghttp2_bufs_reset B = Some B' /\ bufs_ok B' /\ contents B' = [] /\ before B' = [] /\ pos (cur B') = offset B.
Proof.
  intros [H1 H2 H3 H4 H5] Hk Hl. unfold nghttp2_bufs_reset.
  set (clear := fun b => buf_shift_right (offset B) (nghttp2_buf_reset b)).
  assert (Hc : Forall (fun b => buf_ok b /\ buf_len b = 0%nat /\ pos b = offset B) (clear <$> take (chunk_keep B) (chain B))).
  { apply Forall_fmap. apply Forall_take. eapply Forall_impl; [exact Hl|]. intros b Eb. unfold clear, buf_ok, buf_len. cbn in Eb |- *. lia. }
  assert (En : length (clear <$> take (chunk_keep B) (chain B)) = (chunk_keep B `min` length (chain B))%nat)
    by (by rewrite length_fmap, length_take).
  assert (Hch : (0 < length (chain B))%nat) by (unfold chain; rewrite length_app; simpl; lia).
  destruct (clear <$> take (chunk_keep B) (chain B)) as [|b r] eqn:E; [simpl in En; lia|].
  eexists. split; [done|]. apply Forall_cons in Hc as [(B1 & B2 & B3) Hr].
  split; [split; unfold chain; cbn [before cur after app chunk_used max_chunk offset chunk_length]; try fold (chain B)|].
  - constructor; [done|]. eapply Forall_impl; [exact Hr|]. by intros ? [? _].
  - eapply Forall_impl; [exact Hr|]. by intros ? (_ & ? & _).
  - transitivity (chunk_keep B `min` length (chain B))%nat; [|by rewrite <- En].
    destruct (Nat.leb_spec (chunk_keep B) (length (chain B))); lia.
  - destruct (Nat.leb_spec (chunk_keep B) (length (chain B))); lia.
  - done.
  - split; [|done]. unfold contents, chain. cbn. rewrite buf_data_empty by done. cbn.
    clear -Hr. induction Hr as [|x l (_ & Hx & _) _ IH]; [done|]. cbn. by rewrite buf_data_empty, IH.
Qed.

(** ([nghttp2_bufs_add], functional): adding bytes to a well-formed chain
    returns, keeps the chain well-formed and appends them to what it holds,
    across buffers: all of them if they fit into the chain and the buffers it may
    still allocate, and otherwise as many as fit, with [BUFFER_ERROR]; only a
    failed allocation ends it earlier. *)
Theorem bufs_add_appends malloc data B :
  (forall n m, malloc n = Some m -> length m = n) -> bufs_ok B ->
  exists rv B', nghttp2_bufs_add malloc data B = Some (rv, B') /\ bufs_ok B' /\
  ((rv = 0 /\ (length data <= room B)%nat /\ contents B' = contents B ++ data) \/
   (rv = NGHTTP2_ERR_BUFFER_ERROR /\ (room B < length data)%nat /\ contents B' = contents B ++ take (room B) data) \/
   (rv = NGHTTP2_ERR_NOMEM /\ malloc (chunk_length B) = None /\ exists n, contents B' = contents B ++ take n data)).
Proof.
  intros Hm HB. destruct (bufs_add_loop_spec malloc Hm (length data + length (after B) + max_chunk B) data B HB)
    as (rv & B' & E & HB' & n & Hc & Hr); [lia|].
  exists rv, B'. split; [exact E|]. split; [done|]. destruct Hr as [(-> & -> & Hr)|[(-> & -> & Hr)|(-> & Hr)]].
  - left. by rewrite firstn_all in Hc.
  - right. by left.
  - right. right. eauto.
Qed.

Definition sample_malloc (n : nat) : option bytes := Some (repeat 0 n).

Definition sample_bufs : nghttp2_bufs := MkBufs [] (MkBuf [0; 0; 0] 1 1 0) [] 3 2 1 1 1.

Lemma sample_bufs_ok : bufs_ok sample_bufs.
Proof. split; cbn; [apply Forall_singleton; unfold buf_ok; simpl; lia|constructor|done|lia|lia]. Qed.

(** An instance. *)
Lemma bufs_add_appends_witness :
  exists B', nghttp2_bufs_add sample_malloc [7; 8; 9] sample_bufs = Some (0, B') /\ contents B' = [7; 8; 9].
Proof.
  destruct (bufs_add_appends sample_malloc [7; 8; 9] sample_bufs) as (rv & B' & E & _ & H).
  - intros n m [= <-]. apply repeat_length.
  - apply sample_bufs_ok.
  - exists B'. assert (Erv : rv = 0) by (vm_compute in E; congruence). subst rv. split; [exact E|].
    destruct H as [(_ & _ & ->)|[(Hx & _)|(Hx & _)]]; [reflexivity|discriminate Hx..].
Defined.
