(* ===== verification/H2Helper.v ===== *)
(** nghttp2: character tables, flow-control windows, error texts.

    [src/third-party/nghttp2/lib/nghttp2_helper.c].  The tables are those of the
    source, byte by byte; the theorems say which strings the checks accept and
    that the window adjustments keep account of what the peer may send. *)

From S2P Require Import Prelude Util H2Buf.
From stdpp Require Import strings.

Local Open Scope Z_scope.

Definition NGHTTP2_ERR_FLOW_CONTROL : Z := -524.
Definition MAX_WINDOW_SIZE : Z := 2 ^ 31 - 1.

(** ** Tables, indexed by a byte *)

Definition DOWNCASE_TBL : list Z :=
  [0; 1; 2; 3; 4; 5; 6; 7; 8; 9; 10; 11; 12; 13; 14; 15; 16; 17; 18; 19; 20; 21; 22; 23; 24; 25; 26; 27; 28; 29; 30; 31;
   32; 33; 34; 35; 36; 37; 38; 39; 40; 41; 42; 43; 44; 45; 46; 47; 48; 49; 50; 51; 52; 53; 54; 55; 56; 57; 58; 59; 60; 61; 62; 63;
   64; 97; 98; 99; 100; 101; 102; 103; 104; 105; 106; 107; 108; 109; 110; 111; 112; 113; 114; 115; 116; 117; 118; 119; 120; 121; 122; 91; 92; 93; 94; 95;
   96; 97; 98; 99; 100; 101; 102; 103; 104; 105; 106; 107; 108; 109; 110; 111; 112; 113; 114; 115; 116; 117; 118; 119; 120; 121; 122; 123; 124; 125; 126; 127;
   128; 129; 130; 131; 132; 133; 134; 135; 136; 137; 138; 139; 140; 141; 142; 143; 144; 145; 146; 147; 148; 149; 150; 151; 152; 153; 154; 155; 156; 157; 158; 159;
   160; 161; 162; 163; 164; 165; 166; 167; 168; 169; 170; 171; 172; 173; 174; 175; 176; 177; 178; 179; 180; 181; 182; 183; 184; 185; 186; 187; 188; 189; 190; 191;
   192; 193; 194; 195; 196; 197; 198; 199; 200; 201; 202; 203; 204; 205; 206; 207; 208; 209; 210; 211; 212; 213; 214; 215; 216; 217; 218; 219; 220; 221; 222; 223;
   224; 225; 226; 227; 228; 229; 230; 231; 232; 233; 234; 235; 236; 237; 238; 239; 240; 241; 242; 243; 244; 245; 246; 247; 248; 249; 250; 251; 252; 253; 254; 255].

Definition VALID_HD_NAME_CHARS : list Z :=
  [0; 0; 0; 0; 0; 0; 0; 0; 0; 0; 0; 0; 0; 0; 0; 0; 0; 0; 0; 0; 0; 0; 0; 0; 0; 0; 0; 0; 0; 0; 0; 0;
   0; 1; 0; 1; 1; 1; 1; 1; 0; 0; 1; 1; 0; 1; 1; 0; 1; 1; 1; 1; 1; 1; 1; 1; 1; 1; 0; 0; 0; 0; 0; 0;
   0; 0; 0; 0; 0; 0; 0; 0; 0; 0; 0; 0; 0; 0; 0; 0; 0; 0; 0; 0; 0; 0; 0; 0; 0; 0; 0; 0; 0; 0; 1; 1;
   1; 1; 1; 1; 1; 1; 1; 1; 1; 1; 1; 1; 1; 1; 1; 1; 1; 1; 1; 1; 1; 1; 1; 1; 1; 1; 1; 0; 1; 0; 1; 0;
   0; 0; 0; 0; 0; 0; 0; 0; 0; 0; 0; 0; 0; 0; 0; 0; 0; 0; 0; 0; 0; 0; 0; 0; 0; 0; 0; 0; 0; 0; 0; 0;
   0; 0; 0; 0; 0; 0; 0; 0; 0; 0; 0; 0; 0; 0; 0; 0; 0; 0; 0; 0; 0; 0; 0; 0; 0; 0; 0; 0; 0; 0; 0; 0;
   0; 0; 0; 0; 0; 0; 0; 0; 0; 0; 0; 0; 0; 0; 0; 0; 0; 0; 0; 0; 0; 0; 0; 0; 0; 0; 0; 0; 0; 0; 0; 0;
   0; 0; 0; 0; 0; 0; 0; 0; 0; 0; 0; 0; 0; 0; 0; 0; 0; 0; 0; 0; 0; 0; 0; 0; 0; 0; 0; 0; 0; 0; 0; 0].

Definition VALID_HD_VALUE_CHARS : list Z :=
  [0; 0; 0; 0; 0; 0; 0; 0; 0; 1; 0; 0; 0; 0; 0; 0; 0; 0; 0; 0; 0; 0; 0; 0; 0; 0; 0; 0; 0; 0; 0; 0;
   1; 1; 1; 1; 1; 1; 1; 1; 1; 1; 1; 1; 1; 1; 1; 1; 1; 1; 1; 1; 1; 1; 1; 1; 1; 1; 1; 1; 1; 1; 1; 1;
   1; 1; 1; 1; 1; 1; 1; 1; 1; 1; 1; 1; 1; 1; 1; 1; 1; 1; 1; 1; 1; 1; 1; 1; 1; 1; 1; 1; 1; 1; 1; 1;
   1; 1; 1; 1; 1; 1; 1; 1; 1; 1; 1; 1; 1; 1; 1; 1; 1; 1; 1; 1; 1; 1; 1; 1; 1; 1; 1; 1; 1; 1; 1; 0;
   1; 1; 1; 1; 1; 1; 1; 1; 1; 1; 1; 1; 1; 1; 1; 1; 1; 1; 1; 1; 1; 1; 1; 1; 1; 1; 1; 1; 1; 1; 1; 1;
   1; 1; 1; 1; 1; 1; 1; 1; 1; 1; 1; 1; 1; 1; 1; 1; 1; 1; 1; 1; 1; 1; 1; 1; 1; 1; 1; 1; 1; 1; 1; 1;
   1; 1; 1; 1; 1; 1; 1; 1; 1; 1; 1; 1; 1; 1; 1; 1; 1; 1; 1; 1; 1; 1; 1; 1; 1; 1; 1; 1; 1; 1; 1; 1;
   1; 1; 1; 1; 1; 1; 1; 1; 1; 1; 1; 1; 1; 1; 1; 1; 1; 1; 1; 1; 1; 1; 1; 1; 1; 1; 1; 1; 1; 1; 1; 1].

Definition VALID_METHOD_CHARS : list Z :=
  [0; 0; 0; 0; 0; 0; 0; 0; 0; 0; 0; 0; 0; 0; 0; 0; 0; 0; 0; 0; 0; 0; 0; 0; 0; 0; 0; 0; 0; 0; 0; 0;
   0; 1; 0; 1; 1; 1; 1; 1; 0; 0; 1; 1; 0; 1; 1; 0; 1; 1; 1; 1; 1; 1; 1; 1; 1; 1; 0; 0; 0; 0; 0; 0;
   0; 1; 1; 1; 1; 1; 1; 1; 1; 1; 1; 1; 1; 1; 1; 1; 1; 1; 1; 1; 1; 1; 1; 1; 1; 1; 1; 0; 0; 0; 1; 1;
   1; 1; 1; 1; 1; 1; 1; 1; 1; 1; 1; 1; 1; 1; 1; 1; 1; 1; 1; 1; 1; 1; 1; 1; 1; 1; 1; 0; 1; 0; 1; 0;
   0; 0; 0; 0; 0; 0; 0; 0; 0; 0; 0; 0; 0; 0; 0; 0; 0; 0; 0; 0; 0; 0; 0; 0; 0; 0; 0; 0; 0; 0; 0; 0;
   0; 0; 0; 0; 0; 0; 0; 0; 0; 0; 0; 0; 0; 0; 0; 0; 0; 0; 0; 0; 0; 0; 0; 0; 0; 0; 0; 0; 0; 0; 0; 0;
   0; 0; 0; 0; 0; 0; 0; 0; 0; 0; 0; 0; 0; 0; 0; 0; 0; 0; 0; 0; 0; 0; 0; 0; 0; 0; 0; 0; 0; 0; 0; 0;
   0; 0; 0; 0; 0; 0; 0; 0; 0; 0; 0; 0; 0; 0; 0; 0; 0; 0; 0; 0; 0; 0; 0; 0; 0; 0; 0; 0; 0; 0; 0; 0].

Definition VALID_PATH_CHARS : list Z :=
  [0; 0; 0; 0; 0; 0; 0; 0; 0; 0; 0; 0; 0; 0; 0; 0; 0; 0; 0; 0; 0; 0; 0; 0; 0; 0; 0; 0; 0; 0; 0; 0;
   0; 1; 1; 1; 1; 1; 1; 1; 1; 1; 1; 1; 1; 1; 1; 1; 1; 1; 1; 1; 1; 1; 1; 1; 1; 1; 1; 1; 1; 1; 1; 1;
   1; 1; 1; 1; 1; 1; 1; 1; 1; 1; 1; 1; 1; 1; 1; 1; 1; 1; 1; 1; 1; 1; 1; 1; 1; 1; 1; 1; 1; 1; 1; 1;
   1; 1; 1; 1; 1; 1; 1; 1; 1; 1; 1; 1; 1; 1; 1; 1; 1; 1; 1; 1; 1; 1; 1; 1; 1; 1; 1; 1; 1; 1; 1; 0;
   1; 1; 1; 1; 1; 1; 1; 1; 1; 1; 1; 1; 1; 1; 1; 1; 1; 1; 1; 1; 1; 1; 1; 1; 1; 1; 1; 1; 1; 1; 1; 1;
   1; 1; 1; 1; 1; 1; 1; 1; 1; 1; 1; 1; 1; 1; 1; 1; 1; 1; 1; 1; 1; 1; 1; 1; 1; 1; 1; 1; 1; 1; 1; 1;
   1; 1; 1; 1; 1; 1; 1; 1; 1; 1; 1; 1; 1; 1; 1; 1; 1; 1; 1; 1; 1; 1; 1; 1; 1; 1; 1; 1; 1; 1; 1; 1;
   1; 1; 1; 1; 1; 1; 1; 1; 1; 1; 1; 1; 1; 1; 1; 1; 1; 1; 1; 1; 1; 1; 1; 1; 1; 1; 1; 1; 1; 1; 1; 1].

Definition VALID_AUTHORITY_CHARS : list Z :=
  [0; 0; 0; 0; 0; 0; 0; 0; 0; 0; 0; 0; 0; 0; 0; 0; 0; 0; 0; 0; 0; 0; 0; 0; 0; 0; 0; 0; 0; 0; 0; 0;
   0; 1; 0; 0; 1; 1; 1; 1; 1; 1; 1; 1; 1; 1; 1; 0; 1; 1; 1; 1; 1; 1; 1; 1; 1; 1; 1; 1; 0; 1; 0; 0;
   1; 1; 1; 1; 1; 1; 1; 1; 1; 1; 1; 1; 1; 1; 1; 1; 1; 1; 1; 1; 1; 1; 1; 1; 1; 1; 1; 1; 0; 1; 0; 1;
   0; 1; 1; 1; 1; 1; 1; 1; 1; 1; 1; 1; 1; 1; 1; 1; 1; 1; 1; 1; 1; 1; 1; 1; 1; 1; 1; 0; 0; 0; 1; 0;
   0; 0; 0; 0; 0; 0; 0; 0; 0; 0; 0; 0; 0; 0; 0; 0; 0; 0; 0; 0; 0; 0; 0; 0; 0; 0; 0; 0; 0; 0; 0; 0;
   0; 0; 0; 0; 0; 0; 0; 0; 0; 0; 0; 0; 0; 0; 0; 0; 0; 0; 0; 0; 0; 0; 0; 0; 0; 0; 0; 0; 0; 0; 0; 0;
   0; 0; 0; 0; 0; 0; 0; 0; 0; 0; 0; 0; 0; 0; 0; 0; 0; 0; 0; 0; 0; 0; 0; 0; 0; 0; 0; 0; 0; 0; 0; 0;
   0; 0; 0; 0; 0; 0; 0; 0; 0; 0; 0; 0; 0; 0; 0; 0; 0; 0; 0; 0; 0; 0; 0; 0; 0; 0; 0; 0; 0; 0; 0; 0].

Definition tbl (t : list Z) (c : Z) : Z := nth (Z.to_nat c) t 0.

Definition nghttp2_downcase (s : bytes) : bytes := tbl DOWNCASE_TBL <$> s.

(** A loop over a string that stops at the first character not in the table. *)
Fixpoint all_in (t : list Z) (s : bytes) : bool :=
  match s with [] => true | c :: s => if tbl t c =? 0 then false else all_in t s end.

Definition nghttp2_check_header_name (name : bytes) : bool :=
  match name with
  | [] => false
  | c :: r =>
      if c =? 58 then match r with [] => false | _ => all_in VALID_HD_NAME_CHARS r end
      else all_in VALID_HD_NAME_CHARS name
  end.

Definition nghttp2_check_header_value (value : bytes) : bool := all_in VALID_HD_VALUE_CHARS value.

Definition nghttp2_check_header_value_rfc9113 (value : bytes) : bool :=
  match value with
  | [] => true
  | c :: _ =>
      let e := List.last value 0 in
      if (c =? 32) || (c =? 9) || (e =? 32) || (e =? 9) then false else nghttp2_check_header_value value
  end.

Definition nghttp2_check_method (value : bytes) : bool :=
  match value with [] => false | _ => all_in VALID_METHOD_CHARS value end.

Definition nghttp2_check_path (value : bytes) : bool := all_in VALID_PATH_CHARS value.

Definition nghttp2_check_authority (value : bytes) : bool := all_in VALID_AUTHORITY_CHARS value.

(** ** Windows *)

(** The four integers the functions update through pointers. *)
Record windows := MkWindows {
  local_window_size : Z;
  recv_window_size : Z;
  recv_reduction : Z;
  delta : Z
}.

Definition nghttp2_adjust_local_window_size (w : windows) : Z * windows :=
  if delta w >? 0 then
    let new_recv_window_size := Z.max 0 (recv_window_size w) - delta w in
    if new_recv_window_size >=? 0
    then (0, MkWindows (local_window_size w) new_recv_window_size (recv_reduction w) (delta w)) else
    let d := - new_recv_window_size in
    if local_window_size w >? MAX_WINDOW_SIZE - d then (NGHTTP2_ERR_FLOW_CONTROL, w) else
    let recv_reduction_delta := Z.min (recv_reduction w) d in
    (0, MkWindows (local_window_size w + d)
          (if recv_window_size w <? 0 then recv_window_size w + recv_reduction_delta else recv_reduction_delta)
          (recv_reduction w - recv_reduction_delta) (delta w - recv_reduction_delta))
  else if (local_window_size w + delta w <? 0) || (recv_window_size w <? INT_MIN - delta w) ||
          (recv_reduction w >? INT_MAX + delta w)
  then (NGHTTP2_ERR_FLOW_CONTROL, w)
  else (0, MkWindows (local_window_size w + delta w) (recv_window_size w + delta w) (recv_reduction w - delta w) 0).

(** [None] is the failed assertion. *)
Definition nghttp2_increase_local_window_size (w : windows) : option (Z * windows) :=
  if delta w <? 0 then None else
  if local_window_size w >? MAX_WINDOW_SIZE - delta w then Some (NGHTTP2_ERR_FLOW_CONTROL, w) else
  let recv_reduction_delta := Z.min (recv_reduction w) (delta w) in
  Some (0, MkWindows (local_window_size w + delta w) (recv_window_size w + recv_reduction_delta)
             (recv_reduction w - recv_reduction_delta) (delta w - recv_reduction_delta)).

Definition nghttp2_should_send_window_update (local recv : Z) : bool :=
  (recv >? 0) && (recv >=? Z.quot local 2).

(** ** Error texts *)

Definition nghttp2_strerror (error_code : Z) : string :=
  if error_code =? 0 then "Success"
  else if error_code =? (-501) then "Invalid argument"
  else if error_code =? (-502) then "Out of buffer space"
  else if error_code =? (-503) then "Unsupported SPDY version"
  else if error_code =? (-504) then "Operation would block"
  else if error_code =? (-505) then "Protocol error"
  else if error_code =? (-506) then "Invalid frame octets"
  else if error_code =? (-507) then "EOF"
  else if error_code =? (-508) then "Data transfer deferred"
  else if error_code =? (-509) then "No more Stream ID available"
  else if error_code =? (-510) then "Stream was already closed or invalid"
  else if error_code =? (-511) then "Stream is closing"
  else if error_code =? (-512) then "The transmission is not allowed for this stream"
  else if error_code =? (-513) then "Stream ID is invalid"
  else if error_code =? (-514) then "Invalid stream state"
  else if error_code =? (-515) then "Another DATA frame has already been deferred"
  else if error_code =? (-516) then "request HEADERS is not allowed"
  else if error_code =? (-517) then "GOAWAY has already been sent"
  else if error_code =? (-518) then "Invalid header block"
  else if error_code =? (-519) then "Invalid state"
  else if error_code =? (-521) then "The user callback function failed due to the temporal error"
  else if error_code =? (-522) then "The length of the frame is invalid"
  else if error_code =? (-523) then "Header compression/decompression error"
  else if error_code =? (-524) then "Flow control error"
  else if error_code =? (-525) then "Insufficient buffer size given to function"
  else if error_code =? (-526) then "Callback was paused by the application"
  else if error_code =? (-527) then "Too many inflight SETTINGS"
  else if error_code =? (-528) then "Server push is disabled by peer"
  else if error_code =? (-529) then "DATA or HEADERS frame has already been submitted for the stream"
  else if error_code =? (-530) then "The current session is closing"
  else if error_code =? (-531) then "Invalid HTTP header field was received"
  else if error_code =? (-532) then "Violation in HTTP messaging rule"
  else if error_code =? (-533) then "Stream was refused"
  else if error_code =? (-534) then "Internal error"
  else if error_code =? (-535) then "Cancel"
  else if error_code =? (-536) then "When a local endpoint expects to receive SETTINGS frame, it receives an other type of frame"
  else if error_code =? (-901) then "Out of memory"
  else if error_code =? (-902) then "The user callback function failed"
  else if error_code =? (-903) then "Received bad client magic byte string"
  else if error_code =? (-904) then "Flooding was detected in this HTTP/2 session, and it must be closed"
  else if error_code =? (-537) then "SETTINGS frame contained more than the maximum allowed entries"
  else if error_code =? (-905) then "Too many CONTINUATION frames following a HEADER frame"
  else "Unknown error code".

Definition nghttp2_http2_strerror (error_code : Z) : string :=
  if error_code =? 0 then "NO_ERROR"
  else if error_code =? 1 then "PROTOCOL_ERROR"
  else if error_code =? 2 then "INTERNAL_ERROR"
  else if error_code =? 3 then "FLOW_CONTROL_ERROR"
  else if error_code =? 4 then "SETTINGS_TIMEOUT"
  else if error_code =? 5 then "STREAM_CLOSED"
  else if error_code =? 6 then "FRAME_SIZE_ERROR"
  else if error_code =? 7 then "REFUSED_STREAM"
  else if error_code =? 8 then "CANCEL"
  else if error_code =? 9 then "COMPRESSION_ERROR"
  else if error_code =? 10 then "CONNECT_ERROR"
  else if error_code =? 11 then "ENHANCE_YOUR_CALM"
  else if error_code =? 12 then "INADEQUATE_SECURITY"
  else if error_code =? 13 then "HTTP_1_1_REQUIRED"
  else "unknown".

(** ** What the checks accept *)

(** Token characters of RFC 9110, and the ones of header field names in HTTP/2. *)
Definition tchar (c : Z) : bool :=
  ((48 <=? c) && (c <=? 57)) || ((65 <=? c) && (c <=? 90)) || ((97 <=? c) && (c <=? 122)) ||
  mem_byte c (bs "!#$%&'*+-.^_`|~").

Definition name_char (c : Z) : bool := tchar c && negb ((65 <=? c) && (c <=? 90)).

(** Field values: visible characters, spaces, tabs and obs-text. *)
Definition value_char (c : Z) : bool := (c =? 9) || ((32 <=? c) && negb (c =? 127)).

Lemma tables_spec c :
  is_byte c ->
  negb (tbl VALID_HD_NAME_CHARS c =? 0) = name_char c /\ negb (tbl VALID_HD_VALUE_CHARS c =? 0) = value_char c /\
  negb (tbl VALID_METHOD_CHARS c =? 0) = tchar c /\
  tbl DOWNCASE_TBL c = (if (65 <=? c) && (c <=? 90) then c + 32 else c).
Proof.
  intros Hc.
  assert (H : eqb (negb (tbl VALID_HD_NAME_CHARS c =? 0)) (name_char c) && eqb (negb (tbl VALID_HD_VALUE_CHARS c =? 0)) (value_char c) &&
    eqb (negb (tbl VALID_METHOD_CHARS c =? 0)) (tchar c) &&
    (tbl DOWNCASE_TBL c =? (if (65 <=? c) && (c <=? 90) then c + 32 else c)) = true).
  { revert c Hc. unfold is_byte. apply (below_forall 256). vm_compute. reflexivity. }
  rewrite !andb_true_iff in H. destruct H as [[[H1 H2] H3] H4].
  apply eqb_prop in H1, H2, H3. apply Z.eqb_eq in H4. done.
Qed.

Lemma all_in_spec t p s :
  (forall c, is_byte c -> negb (tbl t c =? 0) = p c) -> Forall is_byte s -> all_in t s = forallb p s.
Proof.
  intros Hp. induction 1 as [|c s Hc _ IH]; [done|]. cbn [all_in forallb]. rewrite <- Hp by done.
  destruct (tbl t c =? 0); [done|]. exact IH.
Qed.

(** ([nghttp2_check_header_name] and the other checks, functional): a header
    name is accepted exactly if it is a non-empty lower-case token, after a colon
    for a pseudo-header; a method exactly if it is a token; a value exactly if it
    has no control characters but tabs, and in the RFC 9113 form also neither
    starts nor ends with a space or tab; [nghttp2_downcase] maps the ASCII
    letters. *)
Theorem checks_spec s :
  Forall is_byte s ->
  (nghttp2_check_header_name s = true <->
     exists r, (s = r \/ s = 58 :: r) /\ r <> [] /\ Forall (fun c => name_char c = true) r) /\
  (nghttp2_check_method s = true <-> s <> [] /\ Forall (fun c => tchar c = true) s) /\
  (nghttp2_check_header_value s = true <-> Forall (fun c => value_char c = true) s) /\
  (nghttp2_check_header_value_rfc9113 s = true <->
     Forall (fun c => value_char c = true) s /\
     forall c r, s = c :: r -> (c <> 32 /\ c <> 9) /\ (List.last s 0 <> 32 /\ List.last s 0 <> 9)) /\
  nghttp2_downcase s = (fun c => if (65 <=? c) && (c <=? 90) then c + 32 else c) <$> s.
Proof.
  intros Hs.
  assert (En : forall r, Forall is_byte r -> all_in VALID_HD_NAME_CHARS r = forallb name_char r).
  { intros r. apply all_in_spec. intros c Hc. exact (proj1 (tables_spec c Hc)). }
  assert (Ev : nghttp2_check_header_value s = forallb value_char s).
  { apply all_in_spec; [|done]. intros c Hc. exact (proj1 (proj2 (tables_spec c Hc))). }
  assert (Fa : forall (p : Z -> bool) r, forallb p r = true <-> Forall (fun c => p c = true) r).
  { intros p r. rewrite forallb_forall, Forall_forall. by setoid_rewrite list_elem_of_In. }
  split; [|split; [|split; [|split]]].
  - destruct s as [|c r]; [split; [done|intros (r & [E|E] & H & _); congruence]|].
    inversion_clear Hs as [|? ? Hc Hr]. unfold nghttp2_check_header_name.
    destruct (Z.eqb_spec c 58) as [->|Hne].
    + transitivity (r <> [] /\ Forall (fun c => name_char c = true) r).
      * destruct r as [|d r]; [naive_solver|]. rewrite En by done. rewrite Fa. naive_solver.
      * split; [intros [H1 H2]; eauto|]. intros (r' & [E|E] & H1 & H2); [|by injection E as <-].
        subst r'. inversion_clear H2. done.
    + rewrite En by (by constructor). rewrite Fa. split; [intros H; exists (c :: r); auto|].
      intros (r' & [E|E] & H1 & H2); [by subst r'|congruence].
  - destruct s as [|c r]; [naive_solver|]. unfold nghttp2_check_method.
    rewrite (all_in_spec _ tchar), Fa; [naive_solver| |done]. intros d Hd. exact (proj1 (proj2 (proj2 (tables_spec d Hd)))).
  - by rewrite Ev, Fa.
  - destruct s as [|c r]; [naive_solver|]. unfold nghttp2_check_header_value_rfc9113. rewrite Ev.
    set (e := List.last (c :: r) 0).
    destruct ((c =? 32) || (c =? 9) || (e =? 32) || (e =? 9)) eqn:Eb.
    + split; [done|]. intros [_ H]. destruct (H c r eq_refl) as [[A1 A2] [A3 A4]].
      apply Z.eqb_neq in A1, A2, A3, A4. fold e in A3, A4. by rewrite A1, A2, A3, A4 in Eb.
    + rewrite !orb_false_iff, !Z.eqb_neq in Eb. rewrite Fa. split; [|tauto]. intros H. split; [done|].
      intros c' r' [= <- <-]. fold e. tauto.
  - unfold nghttp2_downcase. apply list_fmap_ext. intros i c Hc.
    refine (proj2 (proj2 (proj2 (tables_spec c _)))). eapply Forall_lookup_1; [exact Hs|exact Hc].
Qed.

(** An instance. *)
Lemma checks_spec_witness :
  nghttp2_check_header_name (bs ":path") = true /\ nghttp2_check_header_name (bs "Host") = false /\
  (exists r, (bs ":path" = r \/ bs ":path" = 58 :: r) /\ r <> [] /\ Forall (fun c => name_char c = true) r).
Proof.
  split; [reflexivity|]. split; [reflexivity|].
  apply (proj1 (checks_spec (bs ":path") ltac:(vm_compute; repeat constructor; discriminate))). reflexivity.
Defined.

(** ** Accounts of a window

    [local_window_size - recv_window_size] is what the peer may still send; the
    peer learns of [delta] in a WINDOW_UPDATE. *)

Record windows_ok (w : windows) : Prop := WindowsOk {
  wo_local : 0 <= local_window_size w <= MAX_WINDOW_SIZE;
  wo_recv : INT_MIN <= recv_window_size w <= INT_MAX;
  wo_reduction : 0 <= recv_reduction w <= INT_MAX;
  wo_delta : INT_MIN <= delta w <= INT_MAX
}.

Ltac window_range := split; [done|]; split; [done|]; cbn; lia.

Definition peer_may_send (w : windows) : Z := local_window_size w - recv_window_size w.

(** ([nghttp2_adjust_local_window_size] and
    [nghttp2_increase_local_window_size], invariant): on success what the peer
    may send grows by exactly the increment left in [delta], which is what is
    announced to it, the values stay in the range of 32 bits, and a window that
    shrinks announces nothing; the window itself grows by what the increment
    exceeds the bytes received and not yet credited.  The error is returned, with
    nothing changed, exactly if a value would leave its range. *)
Theorem window_accounts w :
  windows_ok w ->
  (let '(rv, w') := nghttp2_adjust_local_window_size w in
   (rv = 0 /\ windows_ok w' /\ 0 <= delta w' /\ peer_may_send w' = peer_may_send w + delta w' /\
    (delta w <= 0 -> delta w' = 0 /\ local_window_size w' = local_window_size w + delta w) /\
    (0 < delta w -> local_window_size w' = local_window_size w + Z.max 0 (delta w - Z.max 0 (recv_window_size w)))) \/
   (rv = NGHTTP2_ERR_FLOW_CONTROL /\ w' = w /\
    (0 < delta w -> MAX_WINDOW_SIZE < local_window_size w + (delta w - Z.max 0 (recv_window_size w))) /\
    (delta w <= 0 -> local_window_size w + delta w < 0 \/ recv_window_size w + delta w < INT_MIN \/
                     INT_MAX < recv_reduction w - delta w))) /\
  (0 <= delta w -> recv_window_size w + Z.min (recv_reduction w) (delta w) <= INT_MAX ->
   exists rv w', nghttp2_increase_local_window_size w = Some (rv, w') /\
   ((rv = 0 /\ windows_ok w' /\ 0 <= delta w' /\ peer_may_send w' = peer_may_send w + delta w' /\
     local_window_size w' = local_window_size w + delta w) \/
    (rv = NGHTTP2_ERR_FLOW_CONTROL /\ w' = w /\ MAX_WINDOW_SIZE < local_window_size w + delta w))).
Proof.
  destruct w as [lw rw rr d]. intros [H1 H2 H3 H4]. unfold MAX_WINDOW_SIZE in *. cbn in H1, H2, H3, H4.
  unfold INT_MIN, INT_MAX in *. split.
  - unfold nghttp2_adjust_local_window_size, peer_may_send, MAX_WINDOW_SIZE, INT_MIN, INT_MAX.
    cbn [local_window_size recv_window_size recv_reduction delta].
    destruct (Z.gtb_spec d 0).
    + destruct (Z.geb_spec (Z.max 0 rw - d) 0).
      * left. split; [done|]. split; [split; unfold MAX_WINDOW_SIZE, INT_MIN, INT_MAX; cbn; lia|]. cbn. lia.
      * destruct (Z.gtb_spec lw (2 ^ 31 - 1 - - (Z.max 0 rw - d))); [right; window_range|].
        left. split; [done|]. destruct (Z.ltb_spec rw 0);
          (split; [split; unfold MAX_WINDOW_SIZE, INT_MIN, INT_MAX; cbn; lia|]); cbn; lia.
    + destruct (Z.ltb_spec (lw + d) 0); [right; window_range|]. destruct (Z.ltb_spec rw (- 2 ^ 31 - d)); [right; window_range|].
      destruct (Z.gtb_spec rr (2 ^ 31 - 1 + d)); [right; window_range|]. left. split; [done|].
      split; [split; unfold MAX_WINDOW_SIZE, INT_MIN, INT_MAX; cbn; lia|]. cbn. lia.
  - cbn [local_window_size recv_window_size recv_reduction delta]. intros Hd Hr.
    unfold nghttp2_increase_local_window_size, peer_may_send, MAX_WINDOW_SIZE.
    cbn [local_window_size recv_window_size recv_reduction delta].
    destruct (Z.ltb_spec d 0); [lia|].
    destruct (Z.gtb_spec lw (2 ^ 31 - 1 - d)); [eexists _, _; split; [done|right; window_range]|].
    eexists _, _. split; [done|]. left.
    split; [done|]. split; [split; unfold MAX_WINDOW_SIZE, INT_MIN, INT_MAX; cbn; lia|]. cbn. lia.
Qed.

(** An instance. *)
Lemma window_accounts_witness :
  let '(rv, w') := nghttp2_adjust_local_window_size (MkWindows 100 10 20 50) in
  rv = 0 /\ peer_may_send w' = peer_may_send (MkWindows 100 10 20 50) + delta w'.
Proof.
  pose proof (window_accounts (MkWindows 100 10 20 50)) as H.
  destruct H as [H _]; [split; vm_compute; split; discriminate|].
  destruct (nghttp2_adjust_local_window_size (MkWindows 100 10 20 50)) as [rv w'] eqn:E.
  destruct H as [(-> & _ & _ & Hp & _)|(-> & _)]; [done|]. vm_compute in E. discriminate E.
Defined.
