(* ===== verification/H2Frame.v ===== *)
(** nghttp2: HTTP/2 frames.

    [src/third-party/nghttp2/lib/nghttp2_frame.c] and
    [nghttp2_priority_spec.c].  A frame is packed into a chain of buffers
    ([H2Buf]) in front of whose data there is space for its header; it is
    unpacked from a list of bytes.  The header compressor is a parameter of the
    two functions that use it.  An access outside a buffer or a failed assertion
    is [None]. *)

From stdpp Require Import sorting.
From S2P Require Import Prelude Util Binary H2Buf H2Helper.

Local Open Scope Z_scope.

(** ** Constants *)

Definition NGHTTP2_FRAME_HDLEN : nat := 9.
Definition NGHTTP2_PRIORITY_SPECLEN : nat := 5.
Definition NGHTTP2_FRAME_SETTINGS_ENTRY_LENGTH : nat := 6.
Definition NGHTTP2_STREAM_ID_MASK : Z := 2 ^ 31 - 1.
Definition NGHTTP2_WINDOW_SIZE_INCREMENT_MASK : Z := 2 ^ 31 - 1.
Definition NGHTTP2_MAX_WINDOW_SIZE : Z := 2 ^ 31 - 1.
Definition NGHTTP2_MAX_FRAME_SIZE_MIN : Z := 2 ^ 14.
Definition NGHTTP2_MAX_FRAME_SIZE_MAX : Z := 2 ^ 24 - 1.
Definition NGHTTP2_FRAME_SIZE_ERROR : Z := 6.

Definition NGHTTP2_DATA : Z := 0.
Definition NGHTTP2_HEADERS : Z := 1.
Definition NGHTTP2_PRIORITY : Z := 2.
Definition NGHTTP2_RST_STREAM : Z := 3.
Definition NGHTTP2_SETTINGS : Z := 4.
Definition NGHTTP2_PUSH_PROMISE : Z := 5.
Definition NGHTTP2_PING : Z := 6.
Definition NGHTTP2_GOAWAY : Z := 7.
Definition NGHTTP2_WINDOW_UPDATE : Z := 8.
Definition NGHTTP2_CONTINUATION : Z := 9.
Definition NGHTTP2_ALTSVC : Z := 10.
Definition NGHTTP2_ORIGIN : Z := 12.
Definition NGHTTP2_PRIORITY_UPDATE : Z := 16.

Definition NGHTTP2_FLAG_NONE : Z := 0.
Definition NGHTTP2_FLAG_END_HEADERS : Z := 4.
Definition NGHTTP2_FLAG_PADDED : Z := 8.
Definition NGHTTP2_FLAG_PRIORITY : Z := 32.

Definition NGHTTP2_DEFAULT_WEIGHT : Z := 16.
Definition NGHTTP2_MIN_WEIGHT : Z := 1.
Definition NGHTTP2_MAX_WEIGHT : Z := 256.

(** ** Priority specifications *)

Record nghttp2_priority_spec := MkPri { pri_stream_id : Z; weight : Z; exclusive : bool }.

Definition nghttp2_priority_spec_init (stream_id w excl : Z) : nghttp2_priority_spec :=
  MkPri stream_id w (negb (excl =? 0)).

Definition nghttp2_priority_spec_default_init : nghttp2_priority_spec := MkPri 0 NGHTTP2_DEFAULT_WEIGHT false.

Definition nghttp2_priority_spec_check_default (p : nghttp2_priority_spec) : bool :=
  (pri_stream_id p =? 0) && (weight p =? NGHTTP2_DEFAULT_WEIGHT) && negb (exclusive p).

Definition nghttp2_priority_spec_normalize_weight (p : nghttp2_priority_spec) : nghttp2_priority_spec :=
  if weight p <? NGHTTP2_MIN_WEIGHT then MkPri (pri_stream_id p) NGHTTP2_MIN_WEIGHT (exclusive p)
  else if NGHTTP2_MAX_WEIGHT <? weight p then MkPri (pri_stream_id p) NGHTTP2_MAX_WEIGHT (exclusive p)
  else p.

(** ** Frames *)

Record nghttp2_frame_hd := MkHd { hd_length : Z; hd_type : Z; hd_flags : Z; hd_stream_id : Z; hd_reserved : Z }.

Record nghttp2_nv := MkNv { nv_name : bytes; nv_value : bytes; nv_flags : Z }.

Inductive nghttp2_headers_category := HCAT_REQUEST | HCAT_RESPONSE | HCAT_PUSH_RESPONSE | HCAT_HEADERS.

Record nghttp2_headers := MkHeaders {
  h_hd : nghttp2_frame_hd; h_padlen : nat; h_pri_spec : nghttp2_priority_spec; h_nva : list nghttp2_nv;
  h_cat : nghttp2_headers_category }.
Record nghttp2_priority := MkPriority { p_hd : nghttp2_frame_hd; p_pri_spec : nghttp2_priority_spec }.
Record nghttp2_rst_stream := MkRst { r_hd : nghttp2_frame_hd; r_error_code : Z }.
Record nghttp2_settings_entry := MkIv { settings_id : Z; iv_value : Z }.
Record nghttp2_settings := MkSettings { s_hd : nghttp2_frame_hd; s_iv : list nghttp2_settings_entry }.
Record nghttp2_push_promise := MkPush {
  pp_hd : nghttp2_frame_hd; pp_padlen : nat; pp_nva : list nghttp2_nv; promised_stream_id : Z }.
Record nghttp2_ping := MkPing { pi_hd : nghttp2_frame_hd; pi_opaque_data : bytes }.
Record nghttp2_goaway := MkGoaway {
  g_hd : nghttp2_frame_hd; last_stream_id : Z; g_error_code : Z; g_opaque_data : bytes }.
Record nghttp2_window_update := MkWindow { w_hd : nghttp2_frame_hd; window_size_increment : Z }.
Record nghttp2_data := MkDataFrame { d_hd : nghttp2_frame_hd; d_padlen : nat }.
Record nghttp2_altsvc := MkAltsvc { a_hd : nghttp2_frame_hd; a_origin : bytes; a_field_value : bytes }.
Record nghttp2_origin := MkOrigin { o_hd : nghttp2_frame_hd; o_ov : list bytes }.
Record nghttp2_priority_update := MkPriUpdate { pu_hd : nghttp2_frame_hd; pu_stream_id : Z; pu_field_value : bytes }.

Definition nghttp2_frame_hd_init (length type flags stream_id : Z) : nghttp2_frame_hd :=
  MkHd length type flags stream_id 0.

Definition nghttp2_frame_headers_init (flags stream_id : Z) (cat : nghttp2_headers_category)
    (pri_spec : option nghttp2_priority_spec) (nva : list nghttp2_nv) : nghttp2_headers :=
  MkHeaders (nghttp2_frame_hd_init 0 NGHTTP2_HEADERS flags stream_id) 0
    (default nghttp2_priority_spec_default_init pri_spec) nva cat.

Definition nghttp2_frame_priority_init (stream_id : Z) (pri_spec : nghttp2_priority_spec) : nghttp2_priority :=
  MkPriority (nghttp2_frame_hd_init (Z.of_nat NGHTTP2_PRIORITY_SPECLEN) NGHTTP2_PRIORITY NGHTTP2_FLAG_NONE stream_id)
    pri_spec.

Definition nghttp2_frame_rst_stream_init (stream_id error_code : Z) : nghttp2_rst_stream :=
  MkRst (nghttp2_frame_hd_init 4 NGHTTP2_RST_STREAM NGHTTP2_FLAG_NONE stream_id) error_code.

Definition nghttp2_frame_settings_init (flags : Z) (iv : list nghttp2_settings_entry) : nghttp2_settings :=
  MkSettings (nghttp2_frame_hd_init (Z.of_nat (length iv * NGHTTP2_FRAME_SETTINGS_ENTRY_LENGTH)) NGHTTP2_SETTINGS flags 0)
    iv.

Definition nghttp2_frame_push_promise_init (flags stream_id promised : Z) (nva : list nghttp2_nv) : nghttp2_push_promise :=
  MkPush (nghttp2_frame_hd_init 0 NGHTTP2_PUSH_PROMISE flags stream_id) 0 nva promised.

Definition nghttp2_frame_ping_init (flags : Z) (opaque_data : option bytes) : nghttp2_ping :=
  MkPing (nghttp2_frame_hd_init 8 NGHTTP2_PING flags 0)
    match opaque_data with Some d => take 8 d | None => repeat 0 8 end.

Definition nghttp2_frame_goaway_init (last_sid error_code : Z) (opaque_data : bytes) : nghttp2_goaway :=
  MkGoaway (nghttp2_frame_hd_init (8 + Z.of_nat (length opaque_data)) NGHTTP2_GOAWAY NGHTTP2_FLAG_NONE 0)
    last_sid error_code opaque_data.

Definition nghttp2_frame_window_update_init (flags stream_id increment : Z) : nghttp2_window_update :=
  MkWindow (nghttp2_frame_hd_init 4 NGHTTP2_WINDOW_UPDATE flags stream_id) increment.

Definition nghttp2_frame_trail_padlen (hd : nghttp2_frame_hd) (padlen : nat) : nat :=
  if (padlen =? 0)%nat then 0
  else padlen - (if Z.land (hd_flags hd) NGHTTP2_FLAG_PADDED >? 0 then 1 else 0).

Definition nghttp2_frame_data_init (flags stream_id : Z) : nghttp2_data :=
  MkDataFrame (nghttp2_frame_hd_init 0 NGHTTP2_DATA flags stream_id) 0.

Definition nghttp2_frame_altsvc_init (stream_id : Z) (origin field_value : bytes) : nghttp2_altsvc :=
  MkAltsvc (nghttp2_frame_hd_init (Z.of_nat (2 + length origin + length field_value)) NGHTTP2_ALTSVC NGHTTP2_FLAG_NONE
    stream_id) origin field_value.

Definition nghttp2_frame_origin_init (ov : list bytes) : nghttp2_origin :=
  MkOrigin (nghttp2_frame_hd_init (Z.of_nat (sum_list_with (fun o => 2 + length o)%nat ov)) NGHTTP2_ORIGIN
    NGHTTP2_FLAG_NONE 0) ov.

Definition nghttp2_frame_priority_update_init (stream_id : Z) (field_value : bytes) : nghttp2_priority_update :=
  MkPriUpdate (nghttp2_frame_hd_init (Z.of_nat (4 + length field_value)) NGHTTP2_PRIORITY_UPDATE NGHTTP2_FLAG_NONE 0)
    stream_id field_value.

Definition nghttp2_frame_priority_len (flags : Z) : nat :=
  if negb (Z.land flags NGHTTP2_FLAG_PRIORITY =? 0) then NGHTTP2_PRIORITY_SPECLEN else 0.

Definition nghttp2_frame_headers_payload_nv_offset (hd : nghttp2_frame_hd) : nat :=
  nghttp2_frame_priority_len (hd_flags hd).

(** ** Frame headers *)

Definition nghttp2_frame_pack_frame_hd (hd : nghttp2_frame_hd) : bytes :=
  take 3 (nghttp2_put_uint32be (u32 (Z.shiftl (hd_length hd) 8))) ++ [hd_type hd; hd_flags hd] ++
  nghttp2_put_uint32be (u32 (hd_stream_id hd)).

Definition nghttp2_frame_unpack_frame_hd (buf : bytes) : option nghttp2_frame_hd :=
  l ← nghttp2_get_uint32 buf; t ← buf !! 3%nat; f ← buf !! 4%nat; s ← nghttp2_get_uint32 (drop 5 buf);
  Some (MkHd (Z.shiftr l 8) t f (Z.land s NGHTTP2_STREAM_ID_MASK) 0).

(** [buf->pos -= NGHTTP2_FRAME_HDLEN; nghttp2_frame_pack_frame_hd(buf->pos, hd)]. *)
Definition pack_hd (hd : nghttp2_frame_hd) (b : nghttp2_buf) : option nghttp2_buf :=
  if decide (NGHTTP2_FRAME_HDLEN <= pos b)%nat then
    m ← store (pos b - NGHTTP2_FRAME_HDLEN) (nghttp2_frame_pack_frame_hd hd) (cells b);
    Some (MkBuf m (pos b - NGHTTP2_FRAME_HDLEN) (last b) (mark b))
  else None.

(** [bufs->head == bufs->cur], as an assertion. *)
Definition assert_head (B : nghttp2_bufs) : option () := match before B with [] => Some tt | _ => None end.

(** A change of [bufs->head->buf]. *)
Definition on_head (f : nghttp2_buf -> option nghttp2_buf) (B : nghttp2_bufs) : option nghttp2_bufs :=
  match before B with
  | [] => b ← f (cur B); Some (set_cur b B)
  | h :: r =>
      h' ← f h;
      Some (MkBufs (h' :: r) (cur B) (after B) (chunk_length B) (max_chunk B) (chunk_used B) (chunk_keep B) (offset B))
  end.

Definition head_buf (B : nghttp2_bufs) : nghttp2_buf := match before B with [] => cur B | h :: _ => h end.

Definition assert_avail (n : nat) (b : nghttp2_buf) : option () :=
  if decide (n <= buf_avail b)%nat then Some tt else None.

(** ** Priority *)

Definition nghttp2_frame_pack_priority_spec (p : nghttp2_priority_spec) : bytes :=
  match nghttp2_put_uint32be (u32 (pri_stream_id p)) with
  | b0 :: r => (if exclusive p then Z.lor b0 128 else b0) :: r ++ [u8 (weight p - 1)]
  | [] => []
  end.

Definition nghttp2_frame_unpack_priority_spec (payload : bytes) : option nghttp2_priority_spec :=
  s ← nghttp2_get_uint32 payload; b0 ← payload !! 0%nat; w ← payload !! 4%nat;
  Some (nghttp2_priority_spec_init (Z.land s NGHTTP2_STREAM_ID_MASK) (w + 1)
          (if Z.land b0 128 >? 0 then 1 else 0)).

Definition nghttp2_frame_pack_priority (frame : nghttp2_priority) (B : nghttp2_bufs) : option nghttp2_bufs :=
  _ ← assert_head B; _ ← assert_avail NGHTTP2_PRIORITY_SPECLEN (cur B);
  b ← pack_hd (p_hd frame) (cur B); b ← buf_append (nghttp2_frame_pack_priority_spec (p_pri_spec frame)) b;
  Some (set_cur b B).

Definition nghttp2_frame_unpack_priority_payload (frame : nghttp2_priority) (payload : bytes) : option nghttp2_priority :=
  p ← nghttp2_frame_unpack_priority_spec payload; Some (MkPriority (p_hd frame) p).

(** ** RST_STREAM, SETTINGS, PING, GOAWAY, WINDOW_UPDATE *)

Definition nghttp2_frame_pack_rst_stream (frame : nghttp2_rst_stream) (B : nghttp2_bufs) : option nghttp2_bufs :=
  _ ← assert_head B; _ ← assert_avail 4 (cur B);
  b ← pack_hd (r_hd frame) (cur B); b ← buf_append (nghttp2_put_uint32be (r_error_code frame)) b;
  Some (set_cur b B).

Definition nghttp2_frame_unpack_rst_stream_payload (frame : nghttp2_rst_stream) (payload : bytes) : option nghttp2_rst_stream :=
  e ← nghttp2_get_uint32 payload; Some (MkRst (r_hd frame) e).

Definition pack_settings_entry (iv : nghttp2_settings_entry) : bytes :=
  nghttp2_put_uint16be (u16 (settings_id iv)) ++ nghttp2_put_uint32be (iv_value iv).

Definition nghttp2_frame_pack_settings_payload (iv : list nghttp2_settings_entry) : bytes :=
  concat (pack_settings_entry <$> iv).

Definition nghttp2_frame_pack_settings (frame : nghttp2_settings) (B : nghttp2_bufs) : option (Z * nghttp2_bufs) :=
  _ ← assert_head B;
  if Z.of_nat (buf_avail (cur B)) <? hd_length (s_hd frame) then Some (NGHTTP2_ERR_FRAME_SIZE_ERROR, B) else
  b ← pack_hd (s_hd frame) (cur B); b ← buf_append (nghttp2_frame_pack_settings_payload (s_iv frame)) b;
  Some (0, set_cur b B).

Definition nghttp2_frame_unpack_settings_entry (payload : bytes) : option nghttp2_settings_entry :=
  i ← nghttp2_get_uint16 payload; v ← nghttp2_get_uint32 (drop 2 payload); Some (MkIv i v).

Fixpoint unpack_settings_entries (niv : nat) (payload : bytes) : option (list nghttp2_settings_entry) :=
  match niv with
  | O => Some []
  | S niv =>
      iv ← nghttp2_frame_unpack_settings_entry payload;
      r ← unpack_settings_entries niv (drop NGHTTP2_FRAME_SETTINGS_ENTRY_LENGTH payload); Some (iv :: r)
  end.

(** [alloc_ok] tells whether the allocation of the entries succeeds. *)
Definition nghttp2_frame_unpack_settings_payload2 (alloc_ok : bool) (payload : bytes)
    : option (Z * list nghttp2_settings_entry) :=
  let niv := (length payload / NGHTTP2_FRAME_SETTINGS_ENTRY_LENGTH)%nat in
  if (niv =? 0)%nat then Some (0, []) else
  if negb alloc_ok then Some (NGHTTP2_ERR_NOMEM, []) else
  iv ← unpack_settings_entries niv payload; Some (0, iv).

Definition nghttp2_frame_pack_ping (frame : nghttp2_ping) (B : nghttp2_bufs) : option nghttp2_bufs :=
  _ ← assert_head B; _ ← assert_avail 8 (cur B);
  b ← pack_hd (pi_hd frame) (cur B); b ← buf_append (pi_opaque_data frame) b; Some (set_cur b B).

Definition nghttp2_frame_unpack_ping_payload (frame : nghttp2_ping) (payload : bytes) : option nghttp2_ping :=
  if decide (8 <= length payload)%nat then Some (MkPing (pi_hd frame) (take 8 payload)) else None.

Section Packing.
Context (malloc : nat -> option bytes).

Definition nghttp2_frame_pack_goaway (frame : nghttp2_goaway) (B : nghttp2_bufs) : option (Z * nghttp2_bufs) :=
  _ ← assert_head B;
  b ← pack_hd (g_hd frame) (cur B);
  b ← buf_append (nghttp2_put_uint32be (u32 (last_stream_id frame))) b;
  b ← buf_append (nghttp2_put_uint32be (g_error_code frame)) b;
  '(rv, B) ← nghttp2_bufs_add malloc (g_opaque_data frame) (set_cur b B);
  if rv =? NGHTTP2_ERR_BUFFER_ERROR then Some (NGHTTP2_ERR_FRAME_SIZE_ERROR, B)
  else if negb (rv =? 0) then Some (rv, B) else Some (0, B).

Definition nghttp2_frame_unpack_goaway_payload (frame : nghttp2_goaway) (payload var_gift_payload : bytes)
    : option nghttp2_goaway :=
  s ← nghttp2_get_uint32 payload; e ← nghttp2_get_uint32 (drop 4 payload);
  Some (MkGoaway (g_hd frame) (Z.land s NGHTTP2_STREAM_ID_MASK) e var_gift_payload).

Definition nghttp2_frame_unpack_goaway_payload2 (alloc_ok : bool) (frame : nghttp2_goaway) (payload : bytes)
    : option (Z * nghttp2_goaway) :=
  let var_gift_payloadlen := if decide (8 < length payload)%nat then (length payload - 8)%nat else 0%nat in
  if negb (var_gift_payloadlen =? 0)%nat && negb alloc_ok then Some (NGHTTP2_ERR_NOMEM, frame) else
  g ← nghttp2_frame_unpack_goaway_payload frame payload (take var_gift_payloadlen (drop 8 payload));
  Some (0, g).

Definition nghttp2_frame_pack_window_update (frame : nghttp2_window_update) (B : nghttp2_bufs) : option nghttp2_bufs :=
  _ ← assert_head B; _ ← assert_avail 4 (cur B);
  b ← pack_hd (w_hd frame) (cur B);
  b ← buf_append (nghttp2_put_uint32be (u32 (window_size_increment frame))) b; Some (set_cur b B).

Definition nghttp2_frame_unpack_window_update_payload (frame : nghttp2_window_update) (payload : bytes)
    : option nghttp2_window_update :=
  w ← nghttp2_get_uint32 payload; Some (MkWindow (w_hd frame) (Z.land w NGHTTP2_WINDOW_SIZE_INCREMENT_MASK)).

(** ** ALTSVC, ORIGIN, PRIORITY_UPDATE *)

(** [nghttp2_bufs_add] where the code asserts success. *)
Definition add_asserted (data : bytes) (B : nghttp2_bufs) : option nghttp2_bufs :=
  '(rv, B) ← nghttp2_bufs_add malloc data B; if rv =? 0 then Some B else None.

Definition nghttp2_frame_pack_altsvc (frame : nghttp2_altsvc) (B : nghttp2_bufs) : option nghttp2_bufs :=
  _ ← assert_avail (2 + length (a_origin frame) + length (a_field_value frame)) (head_buf B);
  B ← on_head (fun b => b ← pack_hd (a_hd frame) b;
                        buf_append (nghttp2_put_uint16be (u16 (Z.of_nat (length (a_origin frame))))) b) B;
  B ← add_asserted (a_origin frame) B;
  add_asserted (a_field_value frame) B.

(** [None] where the origin would extend past the payload. *)
Definition nghttp2_frame_unpack_altsvc_payload (frame : nghttp2_altsvc) (origin_len : nat) (payload : bytes)
    : option nghttp2_altsvc :=
  if decide (origin_len <= length payload)%nat
  then Some (MkAltsvc (a_hd frame) (take origin_len payload) (drop origin_len payload)) else None.

Definition nghttp2_frame_unpack_altsvc_payload2 (alloc_ok : bool) (frame : nghttp2_altsvc) (payload : bytes)
    : option (Z * nghttp2_altsvc) :=
  if decide (length payload < 2)%nat then Some (NGHTTP2_FRAME_SIZE_ERROR, frame) else
  origin_len ← nghttp2_get_uint16 payload;
  if negb alloc_ok then Some (NGHTTP2_ERR_NOMEM, frame) else
  a ← nghttp2_frame_unpack_altsvc_payload frame (Z.to_nat origin_len) (drop 2 payload);
  Some (0, a).

Definition pack_origin_entry (o : bytes) : bytes := nghttp2_put_uint16be (u16 (Z.of_nat (length o))) ++ o.

Definition nghttp2_frame_pack_origin (frame : nghttp2_origin) (B : nghttp2_bufs) : option (Z * nghttp2_bufs) :=
  if Z.of_nat (buf_avail (head_buf B)) <? hd_length (o_hd frame) then Some (NGHTTP2_ERR_FRAME_SIZE_ERROR, B) else
  B ← on_head (fun b =>
        b ← pack_hd (o_hd frame) b; b ← buf_append (concat (pack_origin_entry <$> o_ov frame)) b;
        if Z.of_nat (buf_len b) =? Z.of_nat NGHTTP2_FRAME_HDLEN + hd_length (o_hd frame) then Some b else None) B;
  Some (0, B).

(** The first loop: the number of origins, or an error; [None] only if [fuel]
    runs out. *)
Fixpoint origin_scan (fuel : nat) (p : bytes) (nov : nat) : option (Z + nat) :=
  match fuel, p with
  | _, [] => Some (inr nov)
  | O, _ => None
  | S fuel, a :: b :: r =>
      let originlen := Z.to_nat (be_value [a; b]) in
      if (originlen =? 0)%nat then origin_scan fuel r nov
      else if decide (length r < originlen)%nat then Some (inl NGHTTP2_ERR_FRAME_SIZE_ERROR)
      else origin_scan fuel (drop originlen r) (S nov)
  | S _, [_] => Some (inl NGHTTP2_ERR_FRAME_SIZE_ERROR)
  end.

(** The second loop, which copies them. *)
Fixpoint origin_copy (fuel : nat) (p : bytes) : list bytes :=
  match fuel, p with
  | S fuel, a :: b :: r =>
      let originlen := Z.to_nat (be_value [a; b]) in
      if (originlen =? 0)%nat then origin_copy fuel r
      else take originlen r :: origin_copy fuel (drop originlen r)
  | _, _ => []
  end.

Definition nghttp2_frame_unpack_origin_payload (alloc_ok : bool) (frame : nghttp2_origin) (payload : bytes)
    : option (Z * nghttp2_origin) :=
  r ← origin_scan (length payload) payload 0;
  match r with
  | inl e => Some (e, frame)
  | inr nov =>
      if (nov =? 0)%nat then Some (0, MkOrigin (o_hd frame) []) else
      if negb alloc_ok then Some (NGHTTP2_ERR_NOMEM, frame) else
      Some (0, MkOrigin (o_hd frame) (origin_copy (length payload) payload))
  end.

Definition nghttp2_frame_pack_priority_update (frame : nghttp2_priority_update) (B : nghttp2_bufs) : option nghttp2_bufs :=
  _ ← assert_avail (4 + length (pu_field_value frame)) (head_buf B);
  B ← on_head (fun b => b ← pack_hd (pu_hd frame) b;
                        buf_append (nghttp2_put_uint32be (u32 (pu_stream_id frame))) b) B;
  add_asserted (pu_field_value frame) B.

Definition nghttp2_frame_unpack_priority_update_payload (frame : nghttp2_priority_update) (payload : bytes)
    : option nghttp2_priority_update :=
  if decide (4 <= length payload)%nat then
    s ← nghttp2_get_uint32 payload;
    Some (MkPriUpdate (pu_hd frame) (Z.land s NGHTTP2_STREAM_ID_MASK) (drop 4 payload))
  else None.

(** ** HEADERS and PUSH_PROMISE with their CONTINUATION frames *)

(** Headers for the buffers after the first one and before [cur]. *)
Fixpoint pack_continuations (hd : nghttp2_frame_hd) (l : list nghttp2_buf) : option (list nghttp2_buf) :=
  match l with
  | [] => Some []
  | b :: r =>
      b' ← pack_hd (MkHd (Z.of_nat (buf_len b)) (hd_type hd) (hd_flags hd) (hd_stream_id hd) (hd_reserved hd)) b;
      r' ← pack_continuations hd r; Some (b' :: r')
  end.

Definition frame_pack_headers_shared (frame_hd : nghttp2_frame_hd) (B : nghttp2_bufs) : option (Z * nghttp2_bufs) :=
  let with_len hd b := MkHd (Z.of_nat (buf_len b)) (hd_type hd) (hd_flags hd) (hd_stream_id hd) (hd_reserved hd) in
  match before B with
  | [] => b ← pack_hd (with_len frame_hd (cur B)) (cur B); Some (0, set_cur b B)
  | h :: r =>
      let hd := MkHd (hd_length frame_hd) (hd_type frame_hd)
                  (u8 (Z.land (hd_flags frame_hd) (Z.lnot NGHTTP2_FLAG_END_HEADERS)))
                  (hd_stream_id frame_hd) (hd_reserved frame_hd) in
      h' ← pack_hd (with_len hd h) h;
      let hd := MkHd (hd_length hd) NGHTTP2_CONTINUATION NGHTTP2_FLAG_NONE (hd_stream_id hd) (hd_reserved hd) in
      r' ← pack_continuations hd r;
      let hd := MkHd (hd_length hd) (hd_type hd) NGHTTP2_FLAG_END_HEADERS (hd_stream_id hd) (hd_reserved hd) in
      c' ← pack_hd (with_len hd (cur B)) (cur B);
      Some (0, MkBufs (h' :: r') c' (after B) (chunk_length B) (max_chunk B) (chunk_used B) (chunk_keep B) (offset B))
  end.

(** [deflate] is [nghttp2_hd_deflate_hd_bufs] with its deflater. *)
Context {D : Type} (deflate : D -> list nghttp2_nv -> nghttp2_bufs -> option (D * Z * nghttp2_bufs)).

(** The space for the part before the header block. *)
Definition skip_front (n : nat) (b : nghttp2_buf) : nghttp2_buf := MkBuf (cells b) (pos b + n) (pos b + n) (mark b).
Definition unskip_front (n : nat) (b : nghttp2_buf) : nghttp2_buf := MkBuf (cells b) (pos b - n) (last b) (mark b).

(** [memcpy] to [buf->pos]. *)
Definition store_at_pos (data : bytes) (b : nghttp2_buf) : option nghttp2_buf :=
  m ← store (pos b) data (cells b); Some (MkBuf m (pos b) (last b) (mark b)).

Definition nghttp2_frame_pack_headers (d : D) (frame : nghttp2_headers) (B : nghttp2_bufs)
    : option (D * Z * nghttp2_bufs * nghttp2_headers) :=
  _ ← assert_head B;
  let nv_offset := nghttp2_frame_headers_payload_nv_offset (h_hd frame) in
  '(d, rv, B) ← deflate d (h_nva frame) (set_cur (skip_front nv_offset (cur B)) B);
  let rv := if rv =? NGHTTP2_ERR_BUFFER_ERROR then NGHTTP2_ERR_HEADER_COMP else rv in
  B ← on_head (fun b => Some (unskip_front nv_offset b)) B;
  if negb (rv =? 0) then Some (d, rv, B, frame) else
  B ← (if negb (Z.land (hd_flags (h_hd frame)) NGHTTP2_FLAG_PRIORITY =? 0)
       then on_head (store_at_pos (nghttp2_frame_pack_priority_spec (h_pri_spec frame))) B else Some B);
  let hd := MkHd (Z.of_nat (nghttp2_bufs_len B)) (hd_type (h_hd frame)) (hd_flags (h_hd frame))
              (hd_stream_id (h_hd frame)) (hd_reserved (h_hd frame)) in
  '(rv, B) ← frame_pack_headers_shared hd B;
  Some (d, rv, B, MkHeaders hd 0 (h_pri_spec frame) (h_nva frame) (h_cat frame)).

Definition nghttp2_frame_unpack_headers_payload (frame : nghttp2_headers) (payload : bytes) : option nghttp2_headers :=
  p ← (if negb (Z.land (hd_flags (h_hd frame)) NGHTTP2_FLAG_PRIORITY =? 0)
       then nghttp2_frame_unpack_priority_spec payload else Some nghttp2_priority_spec_default_init);
  Some (MkHeaders (h_hd frame) (h_padlen frame) p [] (h_cat frame)).

Definition nghttp2_frame_pack_push_promise (d : D) (frame : nghttp2_push_promise) (B : nghttp2_bufs)
    : option (D * Z * nghttp2_bufs * nghttp2_push_promise) :=
  let nv_offset := 4%nat in
  _ ← assert_head B;
  '(d, rv, B) ← deflate d (pp_nva frame) (set_cur (skip_front nv_offset (cur B)) B);
  let rv := if rv =? NGHTTP2_ERR_BUFFER_ERROR then NGHTTP2_ERR_HEADER_COMP else rv in
  B ← on_head (fun b => Some (unskip_front nv_offset b)) B;
  if negb (rv =? 0) then Some (d, rv, B, frame) else
  B ← on_head (store_at_pos (nghttp2_put_uint32be (u32 (promised_stream_id frame)))) B;
  let hd := MkHd (Z.of_nat (nghttp2_bufs_len B)) (hd_type (pp_hd frame)) (hd_flags (pp_hd frame))
              (hd_stream_id (pp_hd frame)) (hd_reserved (pp_hd frame)) in
  '(rv, B) ← frame_pack_headers_shared hd B;
  Some (d, rv, B, MkPush hd 0 (pp_nva frame) (promised_stream_id frame)).

Definition nghttp2_frame_unpack_push_promise_payload (frame : nghttp2_push_promise) (payload : bytes)
    : option nghttp2_push_promise :=
  s ← nghttp2_get_uint32 payload;
  Some (MkPush (pp_hd frame) (pp_padlen frame) [] (Z.land s NGHTTP2_STREAM_ID_MASK)).
End Packing.

(** ** Settings and header lists *)

Definition nghttp2_frame_iv_copy (alloc_ok : bool) (iv : list nghttp2_settings_entry) : option (list nghttp2_settings_entry) :=
  match iv with [] => None | _ => if alloc_ok then Some iv else None end.

(** The sign of [memcmp] on the first [n] bytes. *)
Fixpoint memcmp (n : nat) (a b : bytes) : Z :=
  match n, a, b with
  | S n, x :: a, y :: b => if x <? y then -1 else if y <? x then 1 else memcmp n a b
  | _, _, _ => 0
  end.

Definition nghttp2_nv_equal (a b : nghttp2_nv) : bool :=
  if negb (length (nv_name a) =? length (nv_name b))%nat || negb (length (nv_value a) =? length (nv_value b))%nat
  then false
  else if negb (memcmp (length (nv_name a)) (nv_name a) (nv_name b) =? 0) then false
  else if negb (memcmp (length (nv_value a)) (nv_value a) (nv_value b) =? 0) then false
  else true.

Definition bytes_compar (a b : bytes) : Z :=
  if (length a =? length b)%nat then memcmp (length a) a b
  else if decide (length a < length b)%nat then
    let rv := memcmp (length a) a b in if rv =? 0 then -1 else rv
  else let rv := memcmp (length b) a b in if rv =? 0 then 1 else rv.

Definition nghttp2_nv_compare_name (lhs rhs : nghttp2_nv) : Z := bytes_compar (nv_name lhs) (nv_name rhs).

Definition nv_compar (a b : nghttp2_nv) : Z :=
  let rv := bytes_compar (nv_name a) (nv_name b) in
  if rv =? 0 then bytes_compar (nv_value a) (nv_value b) else rv.

Definition nv_le (a b : nghttp2_nv) : Prop := nv_compar a b <= 0.

#[export] Instance nv_le_dec : RelDecision nv_le.
Proof. intros a b. unfold nv_le. apply _. Defined.

(** [qsort] by [nv_compar]. *)
Definition nghttp2_nv_array_sort (nva : list nghttp2_nv) : list nghttp2_nv := merge_sort nv_le nva.

Definition NGHTTP2_NV_FLAG_NO_COPY_NAME : Z := 2.
Definition NGHTTP2_NV_FLAG_NO_COPY_VALUE : Z := 4.

Definition copy_nv (nv : nghttp2_nv) : nghttp2_nv :=
  MkNv (if negb (Z.land (nv_flags nv) NGHTTP2_NV_FLAG_NO_COPY_NAME =? 0) then nv_name nv
        else nghttp2_downcase (nv_name nv)) (nv_value nv) (nv_flags nv).

Definition nghttp2_nv_array_copy (alloc_ok : bool) (nva : list nghttp2_nv) : Z * list nghttp2_nv :=
  match nva with
  | [] => (0, [])
  | _ => if alloc_ok then (0, copy_nv <$> nva) else (NGHTTP2_ERR_NOMEM, [])
  end.

Definition iv_entry_ok (iv : nghttp2_settings_entry) : bool :=
  let v := iv_value iv in
  if settings_id iv =? 1 then true
  else if settings_id iv =? 3 then true
  else if settings_id iv =? 2 then negb (negb (v =? 0) && negb (v =? 1))
  else if settings_id iv =? 4 then negb (NGHTTP2_MAX_WINDOW_SIZE <? v)
  else if settings_id iv =? 5 then negb ((v <? NGHTTP2_MAX_FRAME_SIZE_MIN) || (NGHTTP2_MAX_FRAME_SIZE_MAX <? v))
  else if settings_id iv =? 6 then true
  else if settings_id iv =? 8 then negb (negb (v =? 0) && negb (v =? 1))
  else if settings_id iv =? 9 then negb (negb (v =? 0) && negb (v =? 1))
  else true.

Fixpoint nghttp2_iv_check (iv : list nghttp2_settings_entry) : bool :=
  match iv with [] => true | i :: r => if iv_entry_ok i then nghttp2_iv_check r else false end.

(** ** Padding *)

Definition frame_set_pad (padlen : nat) (framehd_only : bool) (b : nghttp2_buf) : option nghttp2_buf :=
  if decide (1 <= pos b)%nat then
    let hdr := take NGHTTP2_FRAME_HDLEN (drop (pos b) (cells b)) in
    if decide (length hdr = NGHTTP2_FRAME_HDLEN) then
      m ← store (pos b - 1) hdr (cells b);
      let pos := (pos b - 1)%nat in
      f ← m !! (pos + 4)%nat; m ← store (pos + 4) [u8 (Z.lor f NGHTTP2_FLAG_PADDED)] m;
      l ← nghttp2_get_uint32 (drop pos m); t ← m !! (pos + 3)%nat;
      let newlen := Z.shiftr l 8 + Z.of_nat padlen in
      m ← store pos (nghttp2_put_uint32be (u32 (Z.shiftl newlen 8 + t))) m;
      if framehd_only then Some (MkBuf m pos (last b) (mark b)) else
      let trail_padlen := (padlen - 1)%nat in
      m ← store (pos + NGHTTP2_FRAME_HDLEN) [u8 (Z.of_nat trail_padlen)] m;
      m ← store (last b) (repeat 0 trail_padlen) m;
      Some (MkBuf m pos (last b + trail_padlen) (mark b))
    else None
  else None.

Definition nghttp2_frame_add_pad (padlen : nat) (framehd_only : bool) (hd : nghttp2_frame_hd) (B : nghttp2_bufs)
    : option (nghttp2_bufs * nghttp2_frame_hd) :=
  if (padlen =? 0)%nat then Some (B, hd) else
  _ ← assert_avail (padlen - 1) (head_buf B);
  B ← on_head (frame_set_pad padlen framehd_only) B;
  Some (B, MkHd (hd_length hd + Z.of_nat padlen) (hd_type hd) (Z.lor (hd_flags hd) NGHTTP2_FLAG_PADDED)
             (hd_stream_id hd) (hd_reserved hd)).

(** ** Headers of frames *)

Lemma pack_frame_hd_length hd : length (nghttp2_frame_pack_frame_hd hd) = 9%nat.
Proof. done. Qed.

Definition hd_ok (hd : nghttp2_frame_hd) : Prop :=
  0 <= hd_length hd < 2 ^ 24 /\ is_byte (hd_type hd) /\ is_byte (hd_flags hd) /\ 0 <= hd_stream_id hd < 2 ^ 31 /\
  hd_reserved hd = 0.

Lemma land_mask31 n : 0 <= n < 2 ^ 31 -> Z.land n (2 ^ 31 - 1) = n.
Proof. intros Hn. change (2 ^ 31 - 1) with (Z.ones 31). rewrite Z.land_ones by lia. by apply Z.mod_small. Qed.

Lemma u32_small n : 0 <= n < 2 ^ 32 -> u32 n = n.
Proof. apply Z.mod_small. Qed.

Lemma unpack_pack_frame_hd hd r :
  hd_ok hd -> nghttp2_frame_unpack_frame_hd (nghttp2_frame_pack_frame_hd hd ++ r) = Some hd.
Proof.
  intros (Hl & Ht & Hf & Hs & Hr). unfold nghttp2_frame_pack_frame_hd. unfold is_byte in *.
  assert (Es : Z.shiftl (hd_length hd) 8 = hd_length hd * 256) by (by rewrite Z.shiftl_mul_pow2).
  rewrite (u32_small (Z.shiftl _ _)), (u32_small (hd_stream_id hd)) by lia.
  rewrite (put_uint32be_eq (Z.shiftl _ _)), Es. cbn [take app].
  unfold nghttp2_frame_unpack_frame_hd. cbn [nghttp2_get_uint32 mbind option_bind lookup list_lookup drop].
  rewrite be_value4, ?drop_0, get_put_uint32 by lia. cbn [mbind option_bind]. unfold NGHTTP2_STREAM_ID_MASK. rewrite land_mask31 by lia.
  destruct hd as [len ty fl sid rs]. cbn in *. subst rs. do 2 f_equal.
  rewrite Z.shiftr_div_pow2 by lia. change (2 ^ 8) with 256. zdiv_lia.
Qed.

Lemma pack_hd_spec hd b :
  buf_ok b -> (9 <= pos b)%nat ->
  exists b', pack_hd hd b = Some b' /\ buf_ok b' /\ buf_data b' = nghttp2_frame_pack_frame_hd hd ++ buf_data b /\
    buf_avail b' = buf_avail b /\ last b' = last b /\ pos b' = (pos b - 9)%nat.
Proof.
  intros Hb Hp. unfold pack_hd. unfold NGHTTP2_FRAME_HDLEN. rewrite decide_True by done.
  assert (Hl := pack_frame_hd_length hd). unfold buf_ok in Hb.
  rewrite store_ok by (rewrite Hl; lia). cbn [mbind option_bind]. eexists. split; [done|].
  set (h := nghttp2_frame_pack_frame_hd hd) in *. rewrite Hl.
  assert (En : length (take (pos b - 9) (cells b) ++ h ++ drop (pos b - 9 + 9) (cells b)) = length (cells b)).
  { rewrite !length_app, length_take, length_drop, Hl. lia. }
  unfold buf_ok, buf_avail, buf_data, buf_len. cbn [pos last cells]. rewrite En. split; [lia|].
  split; [|done]. rewrite drop_app_ge by (rewrite length_take; lia). rewrite length_take.
  replace (pos b - 9 - (pos b - 9) `min` length (cells b))%nat with 0%nat by lia. rewrite drop_0.
  rewrite take_app_ge by lia. rewrite Hl. f_equal.
  replace (pos b - 9 + 9)%nat with (pos b) by lia. f_equal. lia.
Qed.

(** A chain with an empty first buffer and room for a header before it. *)
Definition fresh_bufs (B : nghttp2_bufs) : Prop :=
  bufs_ok B /\ before B = [] /\ (9 <= pos (cur B))%nat /\ pos (cur B) = last (cur B).

Lemma fresh_data B : fresh_bufs B -> buf_data (cur B) = [] /\ contents B = [].
Proof.
  intros (HB & Hb & _ & E). assert (Ed : buf_data (cur B) = []) by (apply buf_data_empty; unfold buf_len; lia).
  split; [done|]. rewrite contents_after by done. by rewrite Hb, Ed.
Qed.

(** Header and payload written to a fresh chain. *)
Lemma pack_payload hd data B :
  fresh_bufs B -> (length data <= buf_avail (cur B))%nat ->
  exists b1 b2, pack_hd hd (cur B) = Some b1 /\ buf_append data b1 = Some b2 /\ bufs_ok (set_cur b2 B) /\
    contents (set_cur b2 B) = nghttp2_frame_pack_frame_hd hd ++ data /\
    buf_avail b2 = (buf_avail (cur B) - length data)%nat /\ buf_data b2 = nghttp2_frame_pack_frame_hd hd ++ data.
Proof.
  intros Hf Hd. pose proof (fresh_data B Hf) as [Ed _]. destruct Hf as (HB & Hb & Hp & E).
  destruct (pack_hd_spec hd (cur B)) as (b1 & E1 & Hb1 & Ed1 & Ea1 & _); [by apply cur_ok|done|].
  destruct (buf_append_spec b1 data) as (b2 & E2 & Hb2 & Ed2 & Ea2 & _); [done|lia|].
  exists b1, b2. split; [done|]. split; [done|]. pose proof (set_cur_ok B b2 HB Hb2) as HB2. split; [done|].
  assert (Ed2' : buf_data b2 = nghttp2_frame_pack_frame_hd hd ++ data) by (by rewrite Ed2, Ed1, Ed, app_nil_r).
  split; [|split; [lia|done]]. rewrite contents_after by done. cbn. by rewrite Hb, Ed2'.
Qed.

(** ** All frames but those with a header block *)

Inductive frame :=
| FPriority (f : nghttp2_priority)
| FRstStream (f : nghttp2_rst_stream)
| FSettings (f : nghttp2_settings)
| FPing (f : nghttp2_ping)
| FGoaway (f : nghttp2_goaway)
| FWindowUpdate (f : nghttp2_window_update)
| FAltsvc (f : nghttp2_altsvc)
| FOrigin (f : nghttp2_origin)
| FPriorityUpdate (f : nghttp2_priority_update).

Definition ok (B : option nghttp2_bufs) : option (Z * nghttp2_bufs) := B ← B; Some (0, B).

Definition pack_frame (malloc : nat -> option bytes) (f : frame) (B : nghttp2_bufs) : option (Z * nghttp2_bufs) :=
  match f with
  | FPriority f => ok (nghttp2_frame_pack_priority f B)
  | FRstStream f => ok (nghttp2_frame_pack_rst_stream f B)
  | FSettings f => nghttp2_frame_pack_settings f B
  | FPing f => ok (nghttp2_frame_pack_ping f B)
  | FGoaway f => nghttp2_frame_pack_goaway malloc f B
  | FWindowUpdate f => ok (nghttp2_frame_pack_window_update f B)
  | FAltsvc f => ok (nghttp2_frame_pack_altsvc malloc f B)
  | FOrigin f => nghttp2_frame_pack_origin f B
  | FPriorityUpdate f => ok (nghttp2_frame_pack_priority_update malloc f B)
  end.

(** The frame at the start of a stream of bytes. *)
Definition unpack_frame (data : bytes) : option frame :=
  hd ← nghttp2_frame_unpack_frame_hd data;
  let payload := take (Z.to_nat (hd_length hd)) (drop NGHTTP2_FRAME_HDLEN data) in
  let t := hd_type hd in
  if t =? NGHTTP2_PRIORITY then
    FPriority <$> nghttp2_frame_unpack_priority_payload (MkPriority hd nghttp2_priority_spec_default_init) payload
  else if t =? NGHTTP2_RST_STREAM then FRstStream <$> nghttp2_frame_unpack_rst_stream_payload (MkRst hd 0) payload
  else if t =? NGHTTP2_SETTINGS then
    '(_, iv) ← nghttp2_frame_unpack_settings_payload2 true payload; Some (FSettings (MkSettings hd iv))
  else if t =? NGHTTP2_PING then FPing <$> nghttp2_frame_unpack_ping_payload (MkPing hd []) payload
  else if t =? NGHTTP2_GOAWAY then
    '(_, g) ← nghttp2_frame_unpack_goaway_payload2 true (MkGoaway hd 0 0 []) payload; Some (FGoaway g)
  else if t =? NGHTTP2_WINDOW_UPDATE then
    FWindowUpdate <$> nghttp2_frame_unpack_window_update_payload (MkWindow hd 0) payload
  else if t =? NGHTTP2_ALTSVC then
    '(_, a) ← nghttp2_frame_unpack_altsvc_payload2 true (MkAltsvc hd [] []) payload; Some (FAltsvc a)
  else if t =? NGHTTP2_ORIGIN then
    '(_, o) ← nghttp2_frame_unpack_origin_payload true (MkOrigin hd []) payload; Some (FOrigin o)
  else if t =? NGHTTP2_PRIORITY_UPDATE then
    FPriorityUpdate <$> nghttp2_frame_unpack_priority_update_payload (MkPriUpdate hd 0 []) payload
  else None.

Definition frame_hd_of (f : frame) : nghttp2_frame_hd :=
  match f with
  | FPriority f => p_hd f | FRstStream f => r_hd f | FSettings f => s_hd f | FPing f => pi_hd f | FGoaway f => g_hd f
  | FWindowUpdate f => w_hd f | FAltsvc f => a_hd f | FOrigin f => o_hd f | FPriorityUpdate f => pu_hd f
  end.

Definition payload_of (f : frame) : bytes :=
  match f with
  | FPriority f => nghttp2_frame_pack_priority_spec (p_pri_spec f)
  | FRstStream f => nghttp2_put_uint32be (r_error_code f)
  | FSettings f => nghttp2_frame_pack_settings_payload (s_iv f)
  | FPing f => pi_opaque_data f
  | FGoaway f => nghttp2_put_uint32be (u32 (last_stream_id f)) ++ nghttp2_put_uint32be (g_error_code f) ++ g_opaque_data f
  | FWindowUpdate f => nghttp2_put_uint32be (u32 (window_size_increment f))
  | FAltsvc f => nghttp2_put_uint16be (u16 (Z.of_nat (length (a_origin f)))) ++ a_origin f ++ a_field_value f
  | FOrigin f => concat (pack_origin_entry <$> o_ov f)
  | FPriorityUpdate f => nghttp2_put_uint32be (u32 (pu_stream_id f)) ++ pu_field_value f
  end.

(** Frames as the [init] functions make them, with values in range. *)
Inductive frame_ok : frame -> Prop :=
| ok_priority sid p :
    0 <= sid < 2 ^ 31 -> 0 <= pri_stream_id p < 2 ^ 31 -> 1 <= weight p <= 256 ->
    frame_ok (FPriority (nghttp2_frame_priority_init sid p))
| ok_rst sid e : 0 <= sid < 2 ^ 31 -> 0 <= e < 2 ^ 32 -> frame_ok (FRstStream (nghttp2_frame_rst_stream_init sid e))
| ok_settings flags iv :
    is_byte flags -> Forall (fun i => 0 <= settings_id i < 2 ^ 16 /\ 0 <= iv_value i < 2 ^ 32) iv ->
    Z.of_nat (length iv * 6) < 2 ^ 24 -> frame_ok (FSettings (nghttp2_frame_settings_init flags iv))
| ok_ping flags d : is_byte flags -> length d = 8%nat -> frame_ok (FPing (nghttp2_frame_ping_init flags (Some d)))
| ok_goaway last_sid e d :
    0 <= last_sid < 2 ^ 31 -> 0 <= e < 2 ^ 32 -> 8 + Z.of_nat (length d) < 2 ^ 24 ->
    frame_ok (FGoaway (nghttp2_frame_goaway_init last_sid e d))
| ok_window flags sid inc :
    is_byte flags -> 0 <= sid < 2 ^ 31 -> 0 <= inc < 2 ^ 31 ->
    frame_ok (FWindowUpdate (nghttp2_frame_window_update_init flags sid inc))
| ok_altsvc sid origin fv :
    0 <= sid < 2 ^ 31 -> Z.of_nat (length origin) < 2 ^ 16 -> Z.of_nat (2 + length origin + length fv) < 2 ^ 24 ->
    frame_ok (FAltsvc (nghttp2_frame_altsvc_init sid origin fv))
| ok_origin ov :
    Forall (fun o => o <> [] /\ Z.of_nat (length o) < 2 ^ 16) ov ->
    Z.of_nat (sum_list_with (fun o => 2 + length o)%nat ov) < 2 ^ 24 -> frame_ok (FOrigin (nghttp2_frame_origin_init ov))
| ok_priority_update sid fv :
    0 <= sid < 2 ^ 31 -> Z.of_nat (4 + length fv) < 2 ^ 24 ->
    frame_ok (FPriorityUpdate (nghttp2_frame_priority_update_init sid fv)).

Lemma pack_priority_spec_length p : length (nghttp2_frame_pack_priority_spec p) = 5%nat.
Proof. done. Qed.

Lemma settings_payload_length iv : length (nghttp2_frame_pack_settings_payload iv) = (length iv * 6)%nat.
Proof. induction iv as [|i iv IH]; [done|]. unfold nghttp2_frame_pack_settings_payload in *. cbn in *. lia. Qed.

Lemma origin_payload_length ov :
  length (concat (pack_origin_entry <$> ov)) = sum_list_with (fun o => 2 + length o)%nat ov.
Proof.
  induction ov as [|o ov IH]; [done|]. cbn [fmap list_fmap concat sum_list_with]. rewrite length_app, IH.
  unfold pack_origin_entry. rewrite length_app. by change (length (nghttp2_put_uint16be _)) with 2%nat.
Qed.

Lemma payload_length f : frame_ok f -> Z.of_nat (length (payload_of f)) = hd_length (frame_hd_of f).
Proof.
  assert (L2 : forall n, length (nghttp2_put_uint16be n) = 2%nat) by done.
  assert (L4 : forall n, length (nghttp2_put_uint32be n) = 4%nat) by done.
  intros H; destruct H; cbn [payload_of frame_hd_of].
  - done.
  - done.
  - cbn [s_iv s_hd nghttp2_frame_settings_init nghttp2_frame_hd_init hd_length]. by rewrite settings_payload_length.
  - cbn [pi_opaque_data pi_hd nghttp2_frame_ping_init nghttp2_frame_hd_init hd_length]. rewrite take_ge by lia. lia.
  - cbn [g_hd g_opaque_data nghttp2_frame_goaway_init nghttp2_frame_hd_init hd_length]. rewrite !length_app, !L4. lia.
  - done.
  - cbn [a_hd a_origin a_field_value nghttp2_frame_altsvc_init nghttp2_frame_hd_init hd_length].
    rewrite !length_app, L2. lia.
  - cbn [o_ov o_hd nghttp2_frame_origin_init nghttp2_frame_hd_init hd_length]. by rewrite origin_payload_length.
  - cbn [pu_hd pu_field_value nghttp2_frame_priority_update_init nghttp2_frame_hd_init hd_length].
    rewrite !length_app, L4. lia.
Qed.

(** More bytes for a buffer just packed. *)
Lemma add_after malloc B b data1 data2 :
  bufs_ok (set_cur b B) -> contents (set_cur b B) = data1 -> (length data2 <= buf_avail b)%nat ->
  exists b', nghttp2_bufs_add malloc data2 (set_cur b B) = Some (0, set_cur b' B) /\ bufs_ok (set_cur b' B) /\
    contents (set_cur b' B) = data1 ++ data2 /\ buf_avail b' = (buf_avail b - length data2)%nat.
Proof.
  intros HB Hc Hd. destruct (bufs_add_cur malloc data2 (set_cur b B) HB Hd) as (b' & E & Hb & Hdat & Ha).
  exists b'. split; [exact E|]. split; [exact (set_cur_ok (set_cur b B) b' HB Hb)|].
  split; [|done]. rewrite <- Hc. exact (set_cur_contents (set_cur b B) b' data2 HB Hb Hdat).
Qed.

(** What packing a frame into a fresh chain gives. *)
Definition packs (hd : nghttp2_frame_hd) (data : bytes) (r : option (Z * nghttp2_bufs)) : Prop :=
  exists B', r = Some (0, B') /\ bufs_ok B' /\ contents B' = nghttp2_frame_pack_frame_hd hd ++ data.

Section Fresh.
Context (malloc : nat -> option bytes) (B : nghttp2_bufs) (HB : fresh_bufs B).

Lemma fresh_assert_head : assert_head B = Some tt.
Proof. destruct HB as (_ & Hb & _). unfold assert_head. by rewrite Hb. Qed.

Lemma fresh_head_buf : head_buf B = cur B.
Proof. destruct HB as (_ & Hb & _). unfold head_buf. by rewrite Hb. Qed.

Lemma fresh_on_head g : on_head g B = (b ← g (cur B); Some (set_cur b B)).
Proof. destruct HB as (_ & Hb & _). unfold on_head. by rewrite Hb. Qed.

Lemma fresh_assert_avail n : (n <= buf_avail (cur B))%nat -> assert_avail n (cur B) = Some tt.
Proof. intros Hn. unfold assert_avail. by rewrite decide_True. Qed.

Lemma pack_simple n hd data :
  (n <= length data)%nat -> (length data <= buf_avail (cur B))%nat ->
  packs hd data (ok (_ ← assert_head B; _ ← assert_avail n (cur B);
                     b ← pack_hd hd (cur B); b ← buf_append data b; Some (set_cur b B))).
Proof.
  intros Hn Hl. destruct (pack_payload hd data B HB Hl) as (b1 & b2 & E1 & E2 & Hok & Hc & _).
  rewrite fresh_assert_head, fresh_assert_avail by lia. cbn [mbind option_bind]. rewrite E1. cbn [mbind option_bind].
  rewrite E2. by eexists.
Qed.

Lemma pack_settings_fresh frame :
  let data := nghttp2_frame_pack_settings_payload (s_iv frame) in
  Z.of_nat (length data) = hd_length (s_hd frame) -> (length data <= buf_avail (cur B))%nat ->
  packs (s_hd frame) data (nghttp2_frame_pack_settings frame B).
Proof.
  intros data Hd Hl. destruct (pack_payload (s_hd frame) data B HB Hl) as (b1 & b2 & E1 & E2 & Hok & Hc & _).
  unfold nghttp2_frame_pack_settings. rewrite fresh_assert_head. cbn [mbind option_bind].
  destruct (Z.ltb_spec (Z.of_nat (buf_avail (cur B))) (hd_length (s_hd frame))); [lia|].
  rewrite E1. cbn [mbind option_bind]. fold data. rewrite E2. by eexists.
Qed.

Lemma pack_goaway_fresh frame :
  let data := nghttp2_put_uint32be (u32 (last_stream_id frame)) ++ nghttp2_put_uint32be (g_error_code frame) ++
              g_opaque_data frame in
  (length data <= buf_avail (cur B))%nat -> packs (g_hd frame) data (nghttp2_frame_pack_goaway malloc frame B).
Proof.
  intros data Hl. assert (Hn : length data = (8 + length (g_opaque_data frame))%nat) by done.
  destruct (pack_payload (g_hd frame) (nghttp2_put_uint32be (u32 (last_stream_id frame))) B HB)
    as (b1 & b2 & E1 & E2 & Hok & Hc & Ha & Hd); [simpl; lia|]. cbn [length nghttp2_put_uint32be] in Ha.
  destruct (buf_append_spec b2 (nghttp2_put_uint32be (g_error_code frame))) as (b3 & E3 & Hb3 & Hd3 & Ha3 & _);
    [exact (cur_ok _ Hok)|simpl; lia|]. cbn [length nghttp2_put_uint32be] in Ha3.
  pose proof (set_cur_ok (set_cur b2 B) b3 Hok Hb3) as Hok3.
  pose proof (set_cur_contents (set_cur b2 B) b3 _ Hok Hb3 Hd3) as Hc3. rewrite Hc in Hc3.
  destruct (add_after malloc B b3 _ (g_opaque_data frame) Hok3 Hc3 ltac:(lia)) as (b4 & E4 & Hok4 & Hc4 & _).
  unfold nghttp2_frame_pack_goaway. rewrite fresh_assert_head. cbn [mbind option_bind]. rewrite E1. cbn [mbind option_bind].
  rewrite E2. cbn [mbind option_bind]. rewrite E3. cbn [mbind option_bind]. rewrite E4. cbn.
  eexists. split; [done|]. split; [done|]. rewrite Hc4. unfold data. by rewrite <- !app_assoc.
Qed.

Lemma pack_altsvc_fresh frame :
  let data := nghttp2_put_uint16be (u16 (Z.of_nat (length (a_origin frame)))) ++ a_origin frame ++ a_field_value frame in
  (length data <= buf_avail (cur B))%nat -> packs (a_hd frame) data (ok (nghttp2_frame_pack_altsvc malloc frame B)).
Proof.
  intros data Hl. assert (Hn : length data = (2 + length (a_origin frame) + length (a_field_value frame))%nat)
    by (unfold data; rewrite !length_app; simpl; lia).
  destruct (pack_payload (a_hd frame) (nghttp2_put_uint16be (u16 (Z.of_nat (length (a_origin frame))))) B HB)
    as (b1 & b2 & E1 & E2 & Hok & Hc & Ha & _); [simpl; lia|]. cbn [length nghttp2_put_uint16be] in Ha.
  destruct (add_after malloc B b2 _ (a_origin frame) Hok Hc ltac:(lia)) as (b3 & E3 & Hok3 & Hc3 & Ha3).
  destruct (add_after malloc B b3 _ (a_field_value frame) Hok3 Hc3 ltac:(lia)) as (b4 & E4 & Hok4 & Hc4 & _).
  unfold nghttp2_frame_pack_altsvc, add_asserted. rewrite fresh_head_buf, fresh_assert_avail by lia. cbn [mbind option_bind].
  rewrite fresh_on_head, E1. cbn [mbind option_bind]. rewrite E2. cbn [mbind option_bind]. rewrite E3. cbn [mbind option_bind Z.eqb].
  rewrite E4. cbn. eexists. split; [done|]. split; [done|]. rewrite Hc4. unfold data. by rewrite <- !app_assoc.
Qed.

Lemma pack_priority_update_fresh frame :
  let data := nghttp2_put_uint32be (u32 (pu_stream_id frame)) ++ pu_field_value frame in
  (length data <= buf_avail (cur B))%nat ->
  packs (pu_hd frame) data (ok (nghttp2_frame_pack_priority_update malloc frame B)).
Proof.
  intros data Hl. assert (Hn : length data = (4 + length (pu_field_value frame))%nat) by done.
  destruct (pack_payload (pu_hd frame) (nghttp2_put_uint32be (u32 (pu_stream_id frame))) B HB)
    as (b1 & b2 & E1 & E2 & Hok & Hc & Ha & _); [simpl; lia|]. cbn [length nghttp2_put_uint32be] in Ha.
  destruct (add_after malloc B b2 _ (pu_field_value frame) Hok Hc ltac:(lia)) as (b3 & E3 & Hok3 & Hc3 & _).
  unfold nghttp2_frame_pack_priority_update, add_asserted. rewrite fresh_head_buf, fresh_assert_avail by lia.
  cbn [mbind option_bind]. rewrite fresh_on_head, E1. cbn [mbind option_bind]. rewrite E2. cbn [mbind option_bind].
  rewrite E3. cbn. eexists. split; [done|]. split; [done|]. rewrite Hc3. unfold data. by rewrite <- !app_assoc.
Qed.

Lemma pack_origin_fresh frame :
  let data := concat (pack_origin_entry <$> o_ov frame) in
  Z.of_nat (length data) = hd_length (o_hd frame) -> (length data <= buf_avail (cur B))%nat ->
  packs (o_hd frame) data (nghttp2_frame_pack_origin frame B).
Proof.
  intros data Hd Hl. destruct (pack_payload (o_hd frame) data B HB Hl) as (b1 & b2 & E1 & E2 & Hok & Hc & _ & Hdat).
  unfold nghttp2_frame_pack_origin. rewrite fresh_head_buf.
  destruct (Z.ltb_spec (Z.of_nat (buf_avail (cur B))) (hd_length (o_hd frame))); [lia|].
  rewrite fresh_on_head, E1. cbn [mbind option_bind]. fold data. rewrite E2. cbn [mbind option_bind].
  assert (Elen : buf_len b2 = (9 + length data)%nat).
  { assert (El : length (buf_data b2) = (9 + length data)%nat) by (rewrite Hdat, length_app; done).
    unfold buf_data in El. rewrite length_take, length_drop in El. pose proof (cur_ok _ Hok) as Hb. unfold buf_ok in Hb.
    cbn in Hb. unfold buf_len in *. lia. }
  rewrite (proj2 (Z.eqb_eq _ _)) by (rewrite Elen, <- Hd; unfold NGHTTP2_FRAME_HDLEN; lia).
  cbn. by eexists.
Qed.

Lemma pack_frame_fresh f :
  frame_ok f -> (length (payload_of f) <= buf_avail (cur B))%nat ->
  packs (frame_hd_of f) (payload_of f) (pack_frame malloc f B).
Proof.
  intros Hf Hl. pose proof (payload_length f Hf) as Hpl. destruct Hf; cbn [pack_frame frame_hd_of] in *.
  - by apply pack_simple.
  - by apply pack_simple.
  - by apply pack_settings_fresh.
  - apply pack_simple; [|done]. cbn. rewrite take_ge by lia. lia.
  - by apply pack_goaway_fresh.
  - by apply pack_simple.
  - by apply pack_altsvc_fresh.
  - by apply pack_origin_fresh.
  - by apply pack_priority_update_fresh.
Qed.
End Fresh.

(** ** Unpacking what was packed *)

Lemma exclusive_bit b0 :
  0 <= b0 < 128 -> Z.lor b0 128 = b0 + 128 /\ Z.land (b0 + 128) 128 = 128 /\ Z.land b0 128 = 0.
Proof.
  intros Hb.
  assert (H : (Z.lor b0 128 =? b0 + 128) && (Z.land (b0 + 128) 128 =? 128) && (Z.land b0 128 =? 0) = true).
  { revert b0 Hb. apply (below_forall 128). vm_compute. reflexivity. }
  rewrite !andb_true_iff, !Z.eqb_eq in H. tauto.
Qed.

Lemma unpack_priority_spec p r :
  0 <= pri_stream_id p < 2 ^ 31 -> 1 <= weight p <= 256 ->
  nghttp2_frame_unpack_priority_spec (nghttp2_frame_pack_priority_spec p ++ r) = Some p.
Proof.
  intros Hs Hw. destruct p as [s w ex]. cbn in Hs, Hw. unfold nghttp2_frame_pack_priority_spec. cbn [pri_stream_id exclusive weight].
  rewrite u32_small, put_uint32be_eq by lia.
  set (b0 := s / 2 ^ 24 mod 256). assert (Hb : 0 <= b0 < 128) by (unfold b0; zdiv_lia).
  destruct (exclusive_bit b0 Hb) as (E1 & E2 & E3). unfold nghttp2_frame_unpack_priority_spec, NGHTTP2_STREAM_ID_MASK.
  assert (Ew : u8 (w - 1) + 1 = w) by (rewrite u8_small; [lia|unfold is_byte; lia]).
  cbn [app nghttp2_get_uint32 mbind option_bind lookup list_lookup]. rewrite be_value4, Ew. unfold nghttp2_priority_spec_init.
  destruct ex.
  - rewrite E1, E2. cbn [negb Z.eqb Z.gtb]. do 2 f_equal.
    change (2 ^ 31 - 1) with (Z.ones 31). rewrite Z.land_ones by lia. unfold b0. zdiv_lia.
  - rewrite E3. cbn [negb Z.eqb Z.gtb Z.compare]. do 2 f_equal. rewrite land_mask31; unfold b0; zdiv_lia.
Qed.

Lemma unpack_settings iv :
  Forall (fun i => 0 <= settings_id i < 2 ^ 16 /\ 0 <= iv_value i < 2 ^ 32) iv ->
  unpack_settings_entries (length iv) (nghttp2_frame_pack_settings_payload iv) = Some iv.
Proof.
  induction 1 as [|i iv [Hi Hv] _ IH]; [done|]. unfold nghttp2_frame_pack_settings_payload in *.
  cbn [fmap list_fmap concat length unpack_settings_entries]. set (R := concat (pack_settings_entry <$> iv)) in *.
  assert (E : nghttp2_frame_unpack_settings_entry (pack_settings_entry i ++ R) = Some i).
  { unfold pack_settings_entry, nghttp2_frame_unpack_settings_entry. rewrite u16_small, <- app_assoc, get_put_uint16 by lia.
    cbn [mbind option_bind]. change (drop 2 (nghttp2_put_uint16be (settings_id i) ++ ?x)) with x.
    rewrite get_put_uint32 by lia. by destruct i. }
  rewrite E. cbn [mbind option_bind].
  change (drop NGHTTP2_FRAME_SETTINGS_ENTRY_LENGTH (pack_settings_entry i ++ R)) with R. by rewrite IH.
Qed.

Lemma origin_entry_length a b (o : bytes) : Z.of_nat (length o) < 2 ^ 16 -> [a; b] = nghttp2_put_uint16be (u16 (Z.of_nat (length o))) ->
  Z.to_nat (be_value [a; b]) = length o.
Proof.
  intros Ho E. pose proof (get_put_uint16 (u16 (Z.of_nat (length o))) []) as G. rewrite <- E in G. cbn in G.
  rewrite u16_small in G by lia. assert (G' := G ltac:(lia)). injection G' as G'. unfold be_value. cbn. rewrite G'. lia.
Qed.

Lemma unpack_origins ov fuel n :
  Forall (fun o => o <> [] /\ Z.of_nat (length o) < 2 ^ 16) ov -> (length ov <= fuel)%nat ->
  origin_scan fuel (concat (pack_origin_entry <$> ov)) n = Some (inr (n + length ov)%nat) /\
  origin_copy fuel (concat (pack_origin_entry <$> ov)) = ov.
Proof.
  intros Hov. revert fuel n. induction Hov as [|o ov [Hne Ho] _ IH]; intros fuel n Hf.
  - cbn. rewrite Nat.add_0_r. by destruct fuel.
  - destruct fuel as [|fuel]; [simpl in Hf; lia|]. cbn [fmap list_fmap concat]. unfold pack_origin_entry at 1 3.
    assert (E2 : exists a b, nghttp2_put_uint16be (u16 (Z.of_nat (length o))) = [a; b]) by (eexists _, _; reflexivity).
    destruct E2 as (a & b & E2). rewrite E2, <- app_assoc. cbn [app origin_scan origin_copy].
    rewrite (origin_entry_length a b o Ho) by done. destruct o as [|x o]; [done|]. set (oo := x :: o) in *.
    assert (Hl : (0 < length oo)%nat) by (simpl; lia).
    rewrite (proj2 (Nat.eqb_neq (length oo) 0)) by lia. rewrite decide_False by (rewrite length_app; lia).
    rewrite drop_app_length, take_app_length. destruct (IH fuel (S n)) as [-> ->]; [simpl in Hf; lia|].
    split; [|done]. do 2 f_equal. simpl. lia.
Qed.

Lemma unpack_goaway_packed hd ls e d :
  0 <= ls < 2 ^ 31 -> 0 <= e < 2 ^ 32 ->
  nghttp2_frame_unpack_goaway_payload2 true (MkGoaway hd 0 0 []) (nghttp2_put_uint32be (u32 ls) ++ nghttp2_put_uint32be e ++ d) =
  Some (0, MkGoaway hd ls e d).
Proof.
  intros H1 H2. assert (L4 : forall n, length (nghttp2_put_uint32be n) = 4%nat) by done.
  unfold nghttp2_frame_unpack_goaway_payload2. rewrite andb_false_r. unfold nghttp2_frame_unpack_goaway_payload.
  change (drop 8 (nghttp2_put_uint32be (u32 ls) ++ nghttp2_put_uint32be e ++ d)) with d.
  rewrite u32_small, get_put_uint32 by lia. cbn [mbind option_bind].
  change (drop 4 (nghttp2_put_uint32be ls ++ ?x)) with x. rewrite get_put_uint32 by lia. cbn [mbind option_bind].
  unfold NGHTTP2_STREAM_ID_MASK. rewrite land_mask31 by lia. rewrite !length_app, !L4.
  do 3 f_equal. case_decide; [by rewrite take_ge by lia|]. destruct d; [done|simpl in *; lia].
Qed.

Lemma unpack_altsvc_packed hd o fv :
  Z.of_nat (length o) < 2 ^ 16 ->
  nghttp2_frame_unpack_altsvc_payload2 true (MkAltsvc hd [] []) (nghttp2_put_uint16be (u16 (Z.of_nat (length o))) ++ o ++ fv) =
  Some (0, MkAltsvc hd o fv).
Proof.
  intros Ho. unfold nghttp2_frame_unpack_altsvc_payload2. rewrite decide_False by (rewrite length_app; simpl; lia).
  rewrite u16_small, get_put_uint16 by lia. cbn [mbind option_bind negb].
  change (drop 2 (nghttp2_put_uint16be (Z.of_nat (length o)) ++ ?x)) with x. rewrite Nat2Z.id.
  unfold nghttp2_frame_unpack_altsvc_payload. rewrite decide_True by (rewrite length_app; lia).
  by rewrite take_app_length, drop_app_length.
Qed.

Lemma frame_hd_ok f : frame_ok f -> hd_ok (frame_hd_of f).
Proof.
  unfold hd_ok, is_byte. intros H; destruct H; cbn [frame_hd_of]; unfold is_byte in *;
    unfold nghttp2_frame_priority_init, nghttp2_frame_rst_stream_init, nghttp2_frame_settings_init, nghttp2_frame_ping_init,
      nghttp2_frame_goaway_init, nghttp2_frame_window_update_init, nghttp2_frame_altsvc_init, nghttp2_frame_origin_init,
      nghttp2_frame_priority_update_init, nghttp2_frame_hd_init, NGHTTP2_FRAME_SETTINGS_ENTRY_LENGTH, NGHTTP2_PRIORITY,
      NGHTTP2_RST_STREAM, NGHTTP2_SETTINGS, NGHTTP2_PING, NGHTTP2_GOAWAY, NGHTTP2_WINDOW_UPDATE, NGHTTP2_ALTSVC,
      NGHTTP2_ORIGIN, NGHTTP2_PRIORITY_UPDATE, NGHTTP2_FLAG_NONE, NGHTTP2_PRIORITY_SPECLEN;
    cbn [p_hd r_hd s_hd pi_hd g_hd w_hd a_hd o_hd pu_hd hd_length hd_type hd_flags hd_stream_id hd_reserved]; lia.
Qed.

Lemma unpack_frame_packed f r :
  frame_ok f -> unpack_frame (nghttp2_frame_pack_frame_hd (frame_hd_of f) ++ payload_of f ++ r) = Some f.
Proof.
  intros Hf. unfold unpack_frame. rewrite unpack_pack_frame_hd by (by apply frame_hd_ok). cbn [mbind option_bind].
  change (drop NGHTTP2_FRAME_HDLEN (nghttp2_frame_pack_frame_hd (frame_hd_of f) ++ ?x)) with x.
  rewrite <- (payload_length f Hf), Nat2Z.id, take_app_length.
  assert (L4 : forall n, length (nghttp2_put_uint32be n) = 4%nat) by done.
  destruct Hf as [sid p H1 H2 H3|sid e H1 H2|flags iv H1 H2 H3|flags d H1 H2|ls e d H1 H2 H3|flags sid inc H1 H2 H3
    |sid o fv H1 H2 H3|ov H1 H2|sid fv H1 H2]; cbn [frame_hd_of payload_of].
  - change (FPriority <$> (p' ← nghttp2_frame_unpack_priority_spec (nghttp2_frame_pack_priority_spec p);
      Some (MkPriority (p_hd (nghttp2_frame_priority_init sid p)) p')) = Some (FPriority (nghttp2_frame_priority_init sid p))).
    by rewrite <- (app_nil_r (nghttp2_frame_pack_priority_spec p)), unpack_priority_spec.
  - change (FRstStream <$> (e' ← nghttp2_get_uint32 (nghttp2_put_uint32be e);
      Some (MkRst (r_hd (nghttp2_frame_rst_stream_init sid e)) e')) = Some (FRstStream (nghttp2_frame_rst_stream_init sid e))).
    by rewrite <- (app_nil_r (nghttp2_put_uint32be e)), get_put_uint32.
  - change (('(_, iv') ← nghttp2_frame_unpack_settings_payload2 true (nghttp2_frame_pack_settings_payload iv);
      Some (FSettings (MkSettings (s_hd (nghttp2_frame_settings_init flags iv)) iv'))) =
      Some (FSettings (nghttp2_frame_settings_init flags iv))).
    unfold nghttp2_frame_unpack_settings_payload2. rewrite settings_payload_length. unfold NGHTTP2_FRAME_SETTINGS_ENTRY_LENGTH.
    rewrite Nat.div_mul by lia. destruct iv as [|i iv]; [done|]. cbn [Nat.eqb length negb].
    change (S (length iv)) with (length (i :: iv)). by rewrite unpack_settings.
  - change (FPing <$> nghttp2_frame_unpack_ping_payload (MkPing (pi_hd (nghttp2_frame_ping_init flags (Some d))) []) (take 8 d) =
      Some (FPing (nghttp2_frame_ping_init flags (Some d)))).
    unfold nghttp2_frame_unpack_ping_payload. rewrite decide_True by (rewrite length_take; lia). by rewrite take_idemp.
  - change (('(_, g) ← nghttp2_frame_unpack_goaway_payload2 true (MkGoaway (g_hd (nghttp2_frame_goaway_init ls e d)) 0 0 [])
      (nghttp2_put_uint32be (u32 ls) ++ nghttp2_put_uint32be e ++ d); Some (FGoaway g)) = Some (FGoaway (nghttp2_frame_goaway_init ls e d))).
    by rewrite unpack_goaway_packed.
  - change (FWindowUpdate <$> (w ← nghttp2_get_uint32 (nghttp2_put_uint32be (u32 inc));
      Some (MkWindow (w_hd (nghttp2_frame_window_update_init flags sid inc)) (Z.land w NGHTTP2_WINDOW_SIZE_INCREMENT_MASK))) =
      Some (FWindowUpdate (nghttp2_frame_window_update_init flags sid inc))).
    rewrite u32_small, <- (app_nil_r (nghttp2_put_uint32be inc)), get_put_uint32 by lia.
    cbn [mbind option_bind fmap option_fmap option_map]. unfold NGHTTP2_WINDOW_SIZE_INCREMENT_MASK. by rewrite land_mask31 by lia.
  - change (('(_, a) ← nghttp2_frame_unpack_altsvc_payload2 true (MkAltsvc (a_hd (nghttp2_frame_altsvc_init sid o fv)) [] [])
      (nghttp2_put_uint16be (u16 (Z.of_nat (length o))) ++ o ++ fv); Some (FAltsvc a)) =
      Some (FAltsvc (nghttp2_frame_altsvc_init sid o fv))).
    by rewrite unpack_altsvc_packed.
  - change (('(_, o) ← nghttp2_frame_unpack_origin_payload true (MkOrigin (o_hd (nghttp2_frame_origin_init ov)) [])
      (concat (pack_origin_entry <$> ov)); Some (FOrigin o)) = Some (FOrigin (nghttp2_frame_origin_init ov))).
    unfold nghttp2_frame_unpack_origin_payload.
    destruct (unpack_origins ov (length (concat (pack_origin_entry <$> ov))) 0 H1) as [-> ->].
    { rewrite origin_payload_length. clear. induction ov; simpl in *; lia. }
    cbn [mbind option_bind Nat.add]. by destruct ov.
  - change (FPriorityUpdate <$> nghttp2_frame_unpack_priority_update_payload
      (MkPriUpdate (pu_hd (nghttp2_frame_priority_update_init sid fv)) 0 []) (nghttp2_put_uint32be (u32 sid) ++ fv) =
      Some (FPriorityUpdate (nghttp2_frame_priority_update_init sid fv))).
    unfold nghttp2_frame_unpack_priority_update_payload. rewrite decide_True by (rewrite length_app, L4; lia).
    rewrite u32_small, get_put_uint32 by lia. cbn [mbind option_bind fmap option_fmap option_map].
    change (drop 4 (nghttp2_put_uint32be sid ++ ?x)) with x. unfold NGHTTP2_STREAM_ID_MASK. by rewrite land_mask31 by lia.
Qed.

(** C27 (frames, round trip): a PRIORITY, RST_STREAM, SETTINGS, PING, GOAWAY,
    WINDOW_UPDATE, ALTSVC, ORIGIN or PRIORITY_UPDATE frame made by its [init]
    function with values in range is packed into a fresh chain with room for it
    without an error, as its nine-byte header and its payload, and unpacking
    these bytes, whatever follows them, gives the frame back. *)
Theorem frame_roundtrip malloc f B r :
  frame_ok f -> fresh_bufs B -> (length (payload_of f) <= buf_avail (cur B))%nat ->
  exists B', pack_frame malloc f B = Some (0, B') /\ bufs_ok B' /\
    Z.of_nat (length (contents B')) = 9 + hd_length (frame_hd_of f) /\ unpack_frame (contents B' ++ r) = Some f.
Proof.
  intros Hf HB Hl. destruct (pack_frame_fresh malloc B HB f Hf Hl) as (B' & E & Hok & Hc).
  exists B'. split; [exact E|]. split; [done|]. rewrite Hc. split.
  - rewrite length_app, pack_frame_hd_length, <- (payload_length f Hf). lia.
  - rewrite <- app_assoc. by apply unpack_frame_packed.
Qed.

Definition sample_frame : frame := FGoaway (nghttp2_frame_goaway_init 5 2 [104; 105]).

Definition sample_out : nghttp2_bufs := MkBufs [] (MkBuf (repeat 0 40) 10 10 0) [] 40 2 1 1 10.

Lemma sample_out_fresh : fresh_bufs sample_out.
Proof.
  split; [|cbn; split; [done|lia]].
  split; cbn; [apply Forall_singleton; unfold buf_ok; simpl; lia|constructor|done|lia|lia].
Qed.

(** Witness of C27. *)
Lemma frame_roundtrip_witness :
  exists B', pack_frame (fun _ => None) sample_frame sample_out = Some (0, B') /\
    unpack_frame (contents B' ++ [1; 2]) = Some sample_frame.
Proof.
  destruct (frame_roundtrip (fun _ => None) sample_frame sample_out [1; 2]) as (B' & E & _ & _ & Hu).
  - apply ok_goaway; vm_compute; split; congruence || done.
  - apply sample_out_fresh.
  - vm_compute. lia.
  - by exists B'.
Defined.

(** ** Header blocks

    A peer reads a block from a HEADERS or PUSH_PROMISE frame and the
    CONTINUATION frames of the same stream up to one with END_HEADERS. *)

Definition take_frame (data : bytes) : option (nghttp2_frame_hd * bytes * bytes) :=
  hd ← nghttp2_frame_unpack_frame_hd data;
  let n := Z.to_nat (hd_length hd) in
  let rest := drop NGHTTP2_FRAME_HDLEN data in
  if decide (n <= length rest)%nat then Some (hd, take n rest, drop n rest) else None.

Definition ends_headers (hd : nghttp2_frame_hd) : bool := negb (Z.land (hd_flags hd) NGHTTP2_FLAG_END_HEADERS =? 0).

Fixpoint read_continuations (fuel : nat) (sid : Z) (block data : bytes) : option (bytes * bytes) :=
  match fuel with
  | O => None
  | S fuel =>
      '(hd, p, rest) ← take_frame data;
      if (hd_type hd =? NGHTTP2_CONTINUATION) && (hd_stream_id hd =? sid) then
        if ends_headers hd then Some (block ++ p, rest) else read_continuations fuel sid (block ++ p) rest
      else None
  end.

Definition read_header_block (fuel : nat) (data : bytes) : option (nghttp2_frame_hd * bytes * bytes) :=
  '(hd, p, rest) ← take_frame data;
  if ends_headers hd then Some (hd, p, rest) else
  '(block, rest) ← read_continuations fuel (hd_stream_id hd) p rest; Some (hd, block, rest).

Definition with_len (hd : nghttp2_frame_hd) (n : nat) : nghttp2_frame_hd :=
  MkHd (Z.of_nat n) (hd_type hd) (hd_flags hd) (hd_stream_id hd) (hd_reserved hd).

Lemma buf_data_length b : buf_ok b -> length (buf_data b) = buf_len b.
Proof. unfold buf_ok, buf_data, buf_len. intros Hb. rewrite length_take, length_drop. lia. Qed.

Lemma take_frame_packed hd p r :
  hd_ok (with_len hd (length p)) ->
  take_frame (nghttp2_frame_pack_frame_hd (with_len hd (length p)) ++ p ++ r) = Some (with_len hd (length p), p, r).
Proof.
  intros Hok. unfold take_frame. rewrite unpack_pack_frame_hd by done. cbn [mbind option_bind].
  change (drop NGHTTP2_FRAME_HDLEN (nghttp2_frame_pack_frame_hd ?h ++ ?x)) with x.
  change (hd_length (with_len hd (length p))) with (Z.of_nat (length p)). rewrite Nat2Z.id.
  rewrite decide_True by (rewrite length_app; lia). by rewrite take_app_length, drop_app_length.
Qed.

(** A buffer with space for a header, holding less than a frame may. *)
Definition piece_ok (b : nghttp2_buf) : Prop := buf_ok b /\ (9 <= pos b)%nat /\ Z.of_nat (buf_len b) < 2 ^ 24.

Definition framed (hd : nghttp2_frame_hd) (b : nghttp2_buf) : bytes :=
  nghttp2_frame_pack_frame_hd (with_len hd (length (buf_data b))) ++ buf_data b.

Lemma pack_piece hd b :
  piece_ok b -> exists b', pack_hd (with_len hd (buf_len b)) b = Some b' /\ buf_ok b' /\ buf_data b' = framed hd b.
Proof.
  intros (Hb & Hp & _). destruct (pack_hd_spec (with_len hd (buf_len b)) b Hb Hp) as (b' & E & Hb' & Hd & _).
  exists b'. split; [done|]. split; [done|]. unfold framed. by rewrite buf_data_length.
Qed.

Lemma pack_continuations_spec hd l :
  Forall piece_ok l ->
  exists l', pack_continuations hd l = Some l' /\ buf_data <$> l' = framed hd <$> l.
Proof.
  induction 1 as [|b l Hb _ (l' & E & Hl)]; [by exists []|].
  destruct (pack_piece hd b Hb) as (b' & Eb & _ & Hd). exists (b' :: l'). cbn [pack_continuations].
  change (MkHd (Z.of_nat (buf_len b)) _ _ _ _) with (with_len hd (buf_len b)). rewrite Eb. cbn [mbind option_bind].
  rewrite E. split; [done|]. cbn. by rewrite Hd, Hl.
Qed.

Lemma piece_hd_ok hd b t f :
  hd_ok hd -> piece_ok b -> is_byte t -> is_byte f ->
  hd_ok (with_len (MkHd (hd_length hd) t f (hd_stream_id hd) (hd_reserved hd)) (length (buf_data b))).
Proof.
  intros (_ & _ & _ & Hs & Hr) (Hb & _ & Hl) Ht Hf. unfold hd_ok. cbn. rewrite buf_data_length by done.
  split; [split; [lia|exact Hl]|]. done.
Qed.

Definition cont_hd (hd : nghttp2_frame_hd) (f : Z) : nghttp2_frame_hd :=
  MkHd (hd_length hd) NGHTTP2_CONTINUATION f (hd_stream_id hd) (hd_reserved hd).

Lemma ends_none hd : hd_flags hd = 0 -> ends_headers hd = false.
Proof. unfold ends_headers. by intros ->. Qed.

Lemma read_continuations_packed hd l c block r :
  hd_ok hd -> Forall piece_ok l -> piece_ok c ->
  read_continuations (S (length l)) (hd_stream_id hd) block
    (concat (framed (cont_hd hd NGHTTP2_FLAG_NONE) <$> l) ++ framed (cont_hd hd NGHTTP2_FLAG_END_HEADERS) c ++ r) =
  Some (block ++ concat (buf_data <$> l) ++ buf_data c, r).
Proof.
  intros Hh Hl Hc. revert block. induction Hl as [|b l Hb _ IH]; intros block.
  - cbn [fmap list_fmap concat app length]. unfold framed. rewrite <- app_assoc. cbn [read_continuations].
    rewrite take_frame_packed by (by apply piece_hd_ok). cbn [mbind option_bind].
    cbn [with_len cont_hd hd_type hd_stream_id]. by rewrite !Z.eqb_refl.
  - cbn [fmap list_fmap concat length]. unfold framed at 1. rewrite <- !app_assoc.
    remember (S (length l)) as n eqn:En. cbn [read_continuations].
    rewrite take_frame_packed by (by apply piece_hd_ok). cbn [mbind option_bind].
    cbn [with_len cont_hd hd_type hd_stream_id]. rewrite !Z.eqb_refl. cbn [andb].
    rewrite ends_none by done. rewrite IH. by rewrite <- !app_assoc.
Qed.

Lemma clear_end_headers f :
  is_byte f -> is_byte (u8 (Z.land f (Z.lnot NGHTTP2_FLAG_END_HEADERS))) /\
  Z.land (u8 (Z.land f (Z.lnot NGHTTP2_FLAG_END_HEADERS))) NGHTTP2_FLAG_END_HEADERS = 0.
Proof.
  intros Hf. split; [apply u8_byte|]. apply Z.eqb_eq. revert f Hf. unfold is_byte.
  apply (below_forall 256 (fun f => Z.land (u8 (Z.land f (Z.lnot NGHTTP2_FLAG_END_HEADERS))) NGHTTP2_FLAG_END_HEADERS =? 0)).
  vm_compute. reflexivity.
Qed.

(** ([frame_pack_headers_shared], functional): a header block that a chain
    holds in one or more buffers is sent as one HEADERS or PUSH_PROMISE frame and
    CONTINUATION frames of the same stream, of which exactly the last carries
    END_HEADERS: a peer that reads these frames gets the whole block, and the
    type, stream and other flags of the frame. *)
Theorem header_block_framed hd B r :
  bufs_ok B -> Forall piece_ok (before B ++ [cur B]) -> hd_ok hd -> ends_headers hd = true ->
  exists B' hd', frame_pack_headers_shared hd B = Some (0, B') /\
    read_header_block (length (before B)) (contents B' ++ r) = Some (hd', contents B, r) /\
    hd_type hd' = hd_type hd /\ hd_stream_id hd' = hd_stream_id hd /\
    (before B = [] <-> ends_headers hd' = true).
Proof.
  intros HB Hp Hh He. apply Forall_app in Hp as [Hp Hc]. apply Forall_cons in Hc as [Hc _].
  assert (Eaft : concat (buf_data <$> after B) = []).
  { pose proof (bo_after _ HB) as Ha. clear -Ha. induction Ha as [|b l Hb _ IH]; [done|]. cbn. by rewrite buf_data_empty, IH. }
  rewrite (contents_after B HB). unfold frame_pack_headers_shared. pose proof Hh as (_ & Ht & Hf & _).
  destruct (before B) as [|h l] eqn:Eb.
  - destruct (pack_piece hd (cur B) Hc) as (b & E & _ & Hd).
    change (MkHd (Z.of_nat (buf_len (cur B))) _ _ _ _) with (with_len hd (buf_len (cur B))). rewrite E. cbn [mbind option_bind].
    exists (set_cur b B), (with_len hd (length (buf_data (cur B)))). split; [done|].
    unfold contents, chain. cbn [set_cur before cur after]. rewrite Eb. cbn [app fmap list_fmap concat].
    rewrite Hd, Eaft, app_nil_r. unfold framed, read_header_block. rewrite <- app_assoc.
    rewrite take_frame_packed by (exact (piece_hd_ok hd (cur B) _ _ Hh Hc Ht Hf)). cbn [mbind option_bind].
    change (ends_headers (with_len hd _)) with (ends_headers hd). rewrite He. done.
  - apply Forall_cons in Hp as [Hh1 Hl].
    set (f1 := u8 (Z.land (hd_flags hd) (Z.lnot NGHTTP2_FLAG_END_HEADERS))). destruct (clear_end_headers _ Hf) as [Hf1 Hf2].
    fold f1 in Hf1, Hf2. set (hd1 := MkHd (hd_length hd) (hd_type hd) f1 (hd_stream_id hd) (hd_reserved hd)).
    destruct (pack_piece hd1 h Hh1) as (h' & E1 & _ & Hd1).
    destruct (pack_continuations_spec (cont_hd hd NGHTTP2_FLAG_NONE) l Hl) as (l' & E2 & Hd2).
    destruct (pack_piece (cont_hd hd NGHTTP2_FLAG_END_HEADERS) (cur B) Hc) as (c' & E3 & _ & Hd3).
    cbn zeta. change (MkHd (Z.of_nat (buf_len h)) _ _ _ _) with (with_len hd1 (buf_len h)). rewrite E1. cbn [mbind option_bind].
    change (MkHd (hd_length _) NGHTTP2_CONTINUATION NGHTTP2_FLAG_NONE _ _) with (cont_hd hd NGHTTP2_FLAG_NONE).
    rewrite E2. cbn [mbind option_bind].
    change (MkHd (Z.of_nat (buf_len (cur B))) _ _ _ _) with (with_len (cont_hd hd NGHTTP2_FLAG_END_HEADERS) (buf_len (cur B))).
    rewrite E3. cbn [mbind option_bind]. eexists _, (with_len hd1 (length (buf_data h))). split; [done|].
    unfold contents, chain. cbn [before cur after app fmap list_fmap concat]. rewrite fmap_app, concat_app, fmap_cons, Hd1, Hd2.
    cbn [concat]. rewrite Hd3, Eaft, app_nil_r. unfold read_header_block, framed at 1. rewrite <- !app_assoc.
    rewrite take_frame_packed by (by apply piece_hd_ok). cbn [mbind option_bind].
    assert (En : ends_headers (with_len hd1 (length (buf_data h))) = false) by (unfold ends_headers; cbn -[Z.land]; by rewrite Hf2).
    rewrite En. cbn [length with_len hd_stream_id hd1]. rewrite (read_continuations_packed hd l (cur B)) by done.
    cbn [mbind option_bind]. split; [done|]. split; [done|]. split; [done|]. split; [done|].
    by intros X.
Qed.

Definition sample_block : nghttp2_bufs :=
  MkBufs [MkBuf (repeat 0 10 ++ [7; 8]) 10 12 0] (MkBuf (repeat 0 10 ++ [9; 0]) 10 11 0) [] 12 2 2 1 10.

Definition sample_headers_hd : nghttp2_frame_hd := MkHd 0 NGHTTP2_HEADERS 5 1 0.

(** An instance. *)
Lemma header_block_framed_witness :
  exists B' hd', frame_pack_headers_shared sample_headers_hd sample_block = Some (0, B') /\
    read_header_block 1 (contents B' ++ [1]) = Some (hd', [7; 8; 9], [1]) /\ ends_headers hd' = false.
Proof.
  destruct (header_block_framed sample_headers_hd sample_block [1]) as (B' & hd' & E & Hr & _ & _ & He).
  - split; cbn; [|constructor|done|lia|lia]. repeat (apply Forall_cons; split); [unfold buf_ok; simpl; lia..|constructor].
  - repeat (apply Forall_cons; split); [unfold piece_ok, buf_ok; vm_compute; repeat split; lia || done..|constructor].
  - unfold hd_ok, is_byte. vm_compute. repeat split; congruence || done.
  - reflexivity.
  - exists B', hd'. split; [exact E|]. split; [exact Hr|].
    destruct (ends_headers hd'); [|done]. exfalso. assert (before sample_block = []) by (by apply He). done.
Defined.

(** ** Padding *)

Lemma store_app off data a m r :
  off = length a -> length m = length data -> store off data (a ++ m ++ r) = Some (a ++ data ++ r).
Proof.
  intros -> Hm. rewrite store_ok by (rewrite !length_app; lia). rewrite take_app_length.
  rewrite drop_app_ge by lia. replace (length a + length data - length a)%nat with (length m) by lia.
  by rewrite drop_app_length.
Qed.

Lemma lookup_pre (a m : bytes) n k : n = (length a + k)%nat -> (a ++ m) !! n = m !! k.
Proof. intros ->. rewrite lookup_app_r by lia. f_equal. lia. Qed.

Lemma drop_pre (a m : bytes) n : n = length a -> drop n (a ++ m) = m.
Proof. intros ->. apply drop_app_length. Qed.

(** The memory of a buffer around its bytes. *)
Lemma buf_split b :
  buf_ok b -> exists pre post, cells b = pre ++ buf_data b ++ post /\ length pre = pos b /\ length post = buf_avail b.
Proof.
  intros Hb. exists (take (pos b) (cells b)), (drop (last b) (cells b)). unfold buf_ok in Hb.
  split; [|rewrite length_take, length_drop; unfold buf_avail; lia].
  unfold buf_data, buf_len. replace (drop (last b) (cells b)) with (drop (last b - pos b) (drop (pos b) (cells b))).
  - by rewrite !take_drop.
  - rewrite drop_drop. f_equal. lia.
Qed.

(** The length of a packed header grows in place, next to the type. *)
Lemma put_length_type len t n :
  0 <= len -> 0 <= n -> len + n < 2 ^ 24 -> is_byte t ->
  nghttp2_put_uint32be (u32 (Z.shiftl (len + n) 8 + t)) =
  take 3 (nghttp2_put_uint32be (u32 (Z.shiftl (len + n) 8))) ++ [t].
Proof.
  unfold is_byte. intros Hl Hn Hs Ht. rewrite !Z.shiftl_mul_pow2 by lia. rewrite !u32_small by lia.
  rewrite !put_uint32be_eq. cbn [take app].
  repeat (apply (f_equal2 cons); [zdiv_lia|]). done.
Qed.

Definition padded_hd (hd : nghttp2_frame_hd) (padlen : nat) : nghttp2_frame_hd :=
  MkHd (hd_length hd + Z.of_nat padlen) (hd_type hd) (Z.lor (hd_flags hd) NGHTTP2_FLAG_PADDED)
    (hd_stream_id hd) (hd_reserved hd).

Lemma padded_flags_byte f : is_byte f -> is_byte (Z.lor f NGHTTP2_FLAG_PADDED).
Proof.
  intros Hf. unfold is_byte in *. enough (E : (0 <=? Z.lor f 8) && (Z.lor f 8 <? 256) = true).
  { apply andb_true_iff in E as [E1 E2]. unfold NGHTTP2_FLAG_PADDED. lia. }
  revert f Hf. apply (below_forall 256 (fun f => (0 <=? Z.lor f 8) && (Z.lor f 8 <? 256))). vm_compute. reflexivity.
Qed.

(** The bytes of a packed header, and its length read back from the first four. *)
Lemma pack_frame_hd_bytes hd :
  hd_ok hd -> exists a b c s0 s1 s2 s3 l,
    nghttp2_frame_pack_frame_hd hd = [a; b; c; hd_type hd; hd_flags hd; s0; s1; s2; s3] /\
    nghttp2_put_uint32be (u32 (hd_stream_id hd)) = [s0; s1; s2; s3] /\
    (forall r, nghttp2_get_uint32 (a :: b :: c :: hd_type hd :: r) = Some l) /\ Z.shiftr l 8 = hd_length hd.
Proof.
  intros Hh. pose proof (unpack_pack_frame_hd hd [] Hh) as E. rewrite app_nil_r in E.
  unfold nghttp2_frame_pack_frame_hd in *. unfold nghttp2_put_uint32be in *. cbn [take app] in *.
  do 8 eexists. split; [done|]. split; [done|]. split; [done|].
  unfold nghttp2_frame_unpack_frame_hd in E. cbn [nghttp2_get_uint32 mbind option_bind lookup list_lookup drop] in E.
  injection E as E. by apply (f_equal hd_length) in E.
Qed.

(** The byte before the payload and the bytes after it are filled. *)
Lemma fill_pad b p n pre H payload pad post y :
  length H = 9%nat -> length pad = n -> p = length pre ->
  last b = (length pre + 10 + length payload)%nat ->
  exists b', (m ← store (p + 9) [Z.of_nat n] ((pre ++ H) ++ [y] ++ payload ++ pad ++ post);
              m ← store (last b) (repeat 0 n) m; Some (MkBuf m p (last b + n) (mark b))) = Some b' /\
    buf_ok b' /\ buf_data b' = H ++ Z.of_nat n :: payload ++ repeat 0 n.
Proof.
  intros HL <- -> ->. rewrite store_app by (rewrite ?length_app, ?HL; simpl; lia). cbn [mbind option_bind].
  replace ((pre ++ H) ++ [Z.of_nat (length pad)] ++ payload ++ pad ++ post)
    with ((pre ++ H ++ Z.of_nat (length pad) :: payload) ++ pad ++ post) by (by rewrite <- !app_assoc).
  rewrite store_app by (rewrite ?repeat_length, ?length_app; simpl; lia). cbn [mbind option_bind].
  eexists. split; [done|]. unfold buf_ok, buf_data, buf_len. cbn [cells pos last].
  rewrite <- !app_assoc. rewrite (drop_pre pre) by lia. split.
  - repeat (rewrite ?length_app, ?repeat_length; cbn [app length]). lia.
  - set (D := H ++ Z.of_nat (length pad) :: payload ++ repeat 0 (length pad)).
    replace (H ++ _) with (D ++ post) by (unfold D; rewrite <- !app_assoc; cbn [app]; by rewrite <- !app_assoc).
    apply take_app_length'. unfold D. rewrite length_app. cbn [length]. rewrite length_app, repeat_length. lia.
Qed.

(** The header of the buffer moves one byte down, and the byte it frees holds
    the length of the padding. *)
Lemma frame_set_pad_spec padlen hd payload b :
  buf_ok b -> (1 <= pos b)%nat -> buf_data b = nghttp2_frame_pack_frame_hd hd ++ payload -> hd_ok hd ->
  (1 <= padlen <= 256)%nat -> (padlen - 1 <= buf_avail b)%nat -> hd_length hd + Z.of_nat padlen < 2 ^ 24 ->
  exists b', frame_set_pad padlen false b = Some b' /\ buf_ok b' /\
    buf_data b' = nghttp2_frame_pack_frame_hd (padded_hd hd padlen) ++ Z.of_nat (padlen - 1) :: payload ++ repeat 0 (padlen - 1).
Proof.
  intros Hb Hp Hd Hh Hn Ha Hl. destruct (buf_split b Hb) as (pre0 & post0 & Ec & Epre & Epost).
  assert (exists pre x, pre0 = pre ++ [x]) as (pre & x & ->).
  { destruct pre0 as [|x pre _] using rev_ind; [simpl in Epre; lia|eauto]. }
  assert (exists pad post, post0 = pad ++ post /\ length pad = (padlen - 1)%nat) as (pad & post & -> & Epad).
  { exists (take (padlen - 1) post0), (drop (padlen - 1) post0). rewrite take_drop, length_take. split; [done|lia]. }
  clear Ha. rewrite length_app in Epre. cbn [length] in Epre. pose proof Hh as (H1 & H2 & H3 & _).
  destruct (pack_frame_hd_bytes hd Hh) as (a0 & a1 & a2 & s0 & s1 & s2 & s3 & l & Ep & Es & El & Er).
  unfold frame_set_pad. rewrite decide_True by done. rewrite Hd, Ep in Ec. rewrite Ec.
  rewrite (drop_pre (pre ++ [x])) by (rewrite length_app; simpl; lia). cbn [app take NGHTTP2_FRAME_HDLEN].
  rewrite decide_True by done. rewrite <- !app_assoc. cbn [app].
  set (rest := payload ++ pad ++ post). set (t := hd_type hd) in *. set (f := hd_flags hd) in *.
  rewrite (store_app _ _ pre [x; a0; a1; a2; t; f; s0; s1; s2] (s3 :: rest)) by (done || lia). cbn [mbind option_bind app].
  rewrite (lookup_pre pre _ _ 4) by lia. cbn [lookup list_lookup mbind option_bind].
  change (pre ++ a0 :: a1 :: a2 :: t :: ?m) with (pre ++ [a0; a1; a2; t] ++ m). rewrite app_assoc.
  rewrite (store_app _ _ _ [f] (s0 :: s1 :: s2 :: s3 :: s3 :: rest)) by (rewrite ?length_app; simpl; lia). rewrite <- app_assoc. cbn [mbind option_bind app].
  rewrite drop_pre by lia. rewrite El. cbn [mbind option_bind]. rewrite (lookup_pre pre _ _ 3) by lia.
  cbn [lookup list_lookup mbind option_bind]. rewrite Er, put_length_type by (done || lia).
  change (a0 :: a1 :: a2 :: t :: ?m) with ([a0; a1; a2; t] ++ m). rewrite (store_app _ _ pre [a0; a1; a2; t]) by (done || lia).
  cbn [mbind option_bind].
  set (H := nghttp2_frame_pack_frame_hd (padded_hd hd padlen)). rewrite (u8_small (Z.lor _ _)) by (by apply padded_flags_byte).
  assert (EH : H = take 3 (nghttp2_put_uint32be (u32 (Z.shiftl (hd_length hd + Z.of_nat padlen) 8))) ++
                   [t; Z.lor f NGHTTP2_FLAG_PADDED; s0; s1; s2; s3]).
  { unfold H, nghttp2_frame_pack_frame_hd. cbn [padded_hd hd_stream_id]. by rewrite Es. }
  assert (HL : length H = 9%nat) by done. rewrite u8_small by (unfold is_byte; lia).
  match goal with |- context [store _ [Z.of_nat _] ?m] =>
    replace m with ((pre ++ H) ++ [s3] ++ rest) by (rewrite EH; by rewrite <- !app_assoc) end.
  destruct (fill_pad b (pos b - 1) (padlen - 1) pre H payload pad post s3) as (b' & E & Hb' & Hd'); [done|done|lia| |].
  { pose proof (buf_data_length b Hb) as E. rewrite Hd, length_app, pack_frame_hd_length in E. unfold buf_len in E.
    unfold buf_ok in Hb. lia. }
  exists b'. split; [exact E|]. done.
Qed.

Lemma padded_flags hd padlen :
  is_byte (hd_flags hd) -> (1 <= padlen)%nat ->
  nghttp2_frame_trail_padlen (padded_hd hd padlen) padlen = (padlen - 1)%nat /\
  Z.testbit (hd_flags (padded_hd hd padlen)) 3 = true /\ ends_headers (padded_hd hd padlen) = ends_headers hd.
Proof.
  intros Hf Hn. unfold nghttp2_frame_trail_padlen, ends_headers. cbn [padded_hd hd_flags].
  rewrite (proj2 (Nat.eqb_neq padlen 0)) by lia. revert Hf. generalize (hd_flags hd).
  unfold NGHTTP2_FLAG_PADDED, NGHTTP2_FLAG_END_HEADERS. intros f Hf.
  assert (E : (Z.land (Z.lor f 8) 8 >? 0) && Z.testbit (Z.lor f 8) 3
                 && Bool.eqb (Z.land (Z.lor f 8) 4 =? 0) (Z.land f 4 =? 0) = true).
  { revert f Hf. apply (below_forall 256 (fun f => (Z.land (Z.lor f 8) 8 >? 0) && Z.testbit (Z.lor f 8) 3
      && Bool.eqb (Z.land (Z.lor f 8) 4 =? 0) (Z.land f 4 =? 0))). vm_compute. reflexivity. }
  apply andb_true_iff in E as [[-> ->]%andb_true_iff E%Bool.eqb_prop]. by rewrite E.
Qed.

(** ([nghttp2_frame_add_pad], [nghttp2_frame_trail_padlen], roundtrip): padding
    of up to 256 bytes added to a packed frame makes it a frame with the PADDED
    flag, whose payload is the length of the trailing padding, the former payload
    and that many zeros.  A peer that drops the first byte and as many bytes at
    the end as [nghttp2_frame_trail_padlen] says gets the former payload. *)
Theorem add_pad_strips padlen hd payload B r :
  bufs_ok B -> before B = [] -> (1 <= pos (cur B))%nat ->
  buf_data (cur B) = nghttp2_frame_pack_frame_hd hd ++ payload -> hd_ok hd -> hd_length hd = Z.of_nat (length payload) ->
  (1 <= padlen <= 256)%nat -> (padlen - 1 <= buf_avail (cur B))%nat -> hd_length hd + Z.of_nat padlen < 2 ^ 24 ->
  exists B' hd' p, nghttp2_frame_add_pad padlen false hd B = Some (B', hd') /\ bufs_ok B' /\
    take_frame (contents B' ++ r) = Some (hd', Z.of_nat (padlen - 1) :: p, r) /\
    hd_type hd' = hd_type hd /\ hd_stream_id hd' = hd_stream_id hd /\
    Z.testbit (hd_flags hd') 3 = true /\ ends_headers hd' = ends_headers hd /\
    take (length p - nghttp2_frame_trail_padlen hd' padlen) p = payload /\
    drop (length p - nghttp2_frame_trail_padlen hd' padlen) p = repeat 0 (padlen - 1).
Proof.
  intros HB Hb Hp Hd Hh El Hn Ha Hl.
  destruct (frame_set_pad_spec padlen hd payload (cur B)) as (b' & E & Hb' & Hd'); [by apply cur_ok|done..|].
  unfold nghttp2_frame_add_pad, head_buf, on_head. rewrite (proj2 (Nat.eqb_neq padlen 0)) by lia. rewrite Hb.
  unfold assert_avail. rewrite decide_True by done. cbn [mbind option_bind]. rewrite E. cbn [mbind option_bind].
  exists (set_cur b' B), (padded_hd hd padlen), (payload ++ repeat 0 (padlen - 1)). split; [done|].
  pose proof (set_cur_ok B b' HB Hb') as HB'. split; [done|].
  pose proof Hh as (Hh1 & Hh2 & Hh3 & Hh4). destruct (padded_flags hd padlen Hh3) as (Et & Ef & Ee); [lia|].
  rewrite Et, length_app, repeat_length.
  replace (length payload + (padlen - 1) - (padlen - 1))%nat with (length payload) by lia. split.
  - rewrite contents_after by done. cbn [set_cur before cur]. rewrite Hb. cbn [fmap list_fmap concat app]. rewrite Hd', <- app_assoc.
    set (p := Z.of_nat (padlen - 1) :: payload ++ repeat 0 (padlen - 1)).
    assert (Ep : padded_hd hd padlen = with_len (padded_hd hd padlen) (length p)).
    { unfold padded_hd, with_len. cbn. f_equal. rewrite El. unfold p. cbn [length]. rewrite length_app, repeat_length. lia. }
    rewrite Ep. apply take_frame_packed. rewrite <- Ep. unfold hd_ok. cbn [padded_hd hd_length hd_type hd_flags hd_stream_id hd_reserved].
    split; [lia|]. split; [done|]. split; [by apply padded_flags_byte|done].
  - do 4 (split; [done|]). by rewrite take_app_length, drop_app_length.
Qed.

(** An instance. *)
Lemma add_pad_strips_witness :
  let hd := MkHd 2 NGHTTP2_DATA 1 3 0 in
  let B := MkBufs [] (MkBuf ([0] ++ nghttp2_frame_pack_frame_hd hd ++ [7; 8] ++ repeat 255 4) 1 12 0) [] 16 2 1 1 1 in
  exists B' hd', nghttp2_frame_add_pad 4 false hd B = Some (B', hd') /\
    take_frame (contents B') = Some (hd', [3; 7; 8; 0; 0; 0], []) /\ nghttp2_frame_trail_padlen hd' 4 = 3%nat.
Proof.
  cbv zeta. match goal with |- exists _ _, nghttp2_frame_add_pad _ _ ?hd ?B = _ /\ _ =>
    destruct (add_pad_strips 4 hd [7; 8] B []) as (B' & hd' & p & E & _) end.
  - split; cbn; [|constructor|done|lia|lia]. repeat (apply Forall_cons; split); [unfold buf_ok; simpl; lia|constructor].
  - done.
  - simpl. lia.
  - reflexivity.
  - unfold hd_ok, is_byte. vm_compute. repeat split; congruence || done.
  - reflexivity.
  - lia.
  - vm_compute. lia.
  - vm_compute. done.
  - exists B', hd'. split; [exact E|]. vm_compute in E. injection E as <- <-. vm_compute. done.
Defined.
