(* ===== verification/Http2.v ===== *)
(** ppnt-http: an HTTP/2 client session.

    [src/ppnt-http/src/http2.ixx] ([Http2Session]).  The callbacks of nghttp2,
    the background driver and the coroutines of [request] and [body_full] run
    on one thread and change places at their [co_await]s: each stretch of code
    between two of them is one function on the state, and the steps interleave
    in any order.  nghttp2 itself is the environment: the list of callbacks a
    call of [nghttp2_session_mem_recv] makes and those of the calls of
    [nghttp2_session_mem_send] in [flush_writes], of which only documented
    behaviour is assumed (no callbacks for a stream after that of its close, sending
    makes only the callbacks of closed streams, and new streams have new ids). *)

From stdpp Require Import gmap strings.
From S2P Require Import Prelude Util Url Binary HttpTypes H2Buf H2Frame.

Local Open Scope Z_scope.

(** ** The header fields of a request *)

Definition add_nv (n v : bytes) (nva : list nghttp2_nv) : list nghttp2_nv := nva ++ [MkNv n v NGHTTP2_FLAG_NONE].

(** The headers that have no place in HTTP/2. *)
Definition skipped (k : bytes) : bool :=
  ignore_case_equal k (bs "host") || ignore_case_equal k (bs "connection") ||
  ignore_case_equal k (bs "keep-alive") || ignore_case_equal k (bs "upgrade").

Definition add_header_nv (nva : list nghttp2_nv) (h : HttpHeader) : list nghttp2_nv :=
  if skipped (name h) then nva else add_nv (to_lower_ascii_str (name h)) (value h) nva.

Definition request_nva (req : HttpRequest) : list nghttp2_nv :=
  let nva := add_nv (bs ":method") (method req) [] in
  let nva := add_nv (bs ":scheme") (scheme_ (url req)) nva in
  let nva := add_nv (bs ":path") (match path_ (url req) with [] => bs "/" | p => p end) nva in
  let nva := match get (bs "host") (HttpTypes.headers req) with
             | Some h => add_nv (bs ":authority") h nva
             | None => add_nv (bs ":authority") (host_ (url req)) nva
             end in
  fold_left add_header_nv (HttpTypes.headers req) nva.

(** ** Streams *)

(** The wakers are flags: the continuation of [request] or [body_full] for the
    stream is registered. *)
Record Http2StreamContext := MkCtx {
  status_code : Z;
  headers : HttpHeaderList;
  body_buffer : bytes;
  header_complete : bool;
  stream_closed : bool;
  header_waker : bool;
  body_waker : bool
}.

Definition Ctx_default : Http2StreamContext := MkCtx (-1) [] [] false false false false.

Definition response : Type := Z * HttpHeaderList.

(** Where the coroutine of a stream is. *)
Inductive phase :=
| Flushing
| WaitHeaders
| HeadersPosted (success : bool)
| HasResponse (r : response)
| WaitBody (r : response)
| BodyPosted (r : response) (data : bytes)
| HasBody (r : response) (data : bytes)
| Failed (e : Error).

(** The background driver: not spawned, at its read, at its write, finished. *)
Inductive driver := NotSpawned | Reading | Writing | Ended.

(** The callbacks of nghttp2. *)
Inductive h2_event :=
| EvHeader (type stream_id : Z) (n v : bytes)
| EvData (stream_id : Z) (data : bytes)
| EvClose (stream_id error_code : Z)
| EvFrame (type : Z) (cat : nghttp2_headers_category) (stream_id : Z).

(** The session, the contexts its coroutines share with [streams_], the
    coroutines themselves and, of nghttp2, the streams it reported closed and the
    callbacks it made. *)
Record world := MkWorld {
  streams_ : gset Z;
  should_close_ : bool;
  back_task_ : driver;
  contexts : gmap Z Http2StreamContext;
  tasks : gmap Z phase;
  closed : gset Z;
  log : list h2_event
}.

Definition set_streams (f : gset Z -> gset Z) (w : world) : world :=
  MkWorld (f (streams_ w)) (should_close_ w) (back_task_ w) (contexts w) (tasks w) (closed w) (log w).
Definition set_close (w : world) : world :=
  MkWorld (streams_ w) true (back_task_ w) (contexts w) (tasks w) (closed w) (log w).
Definition set_driver (d : driver) (w : world) : world :=
  MkWorld (streams_ w) (should_close_ w) d (contexts w) (tasks w) (closed w) (log w).
Definition set_ctx (id : Z) (c : Http2StreamContext) (w : world) : world :=
  MkWorld (streams_ w) (should_close_ w) (back_task_ w) (<[id := c]> (contexts w)) (tasks w) (closed w) (log w).
Definition set_task (id : Z) (p : phase) (w : world) : world :=
  MkWorld (streams_ w) (should_close_ w) (back_task_ w) (contexts w) (<[id := p]> (tasks w)) (closed w) (log w).
Definition set_log (e : h2_event) (w : world) : world :=
  MkWorld (streams_ w) (should_close_ w) (back_task_ w) (contexts w) (tasks w)
    (match e with EvClose id _ => {[id]} ∪ closed w | _ => closed w end) (log w ++ [e]).

(** The context of a stream of [streams_]. *)
Definition stream (w : world) (id : Z) : option Http2StreamContext :=
  if decide (id ∈ streams_ w) then contexts w !! id else None.

(** [if (ctx->header_waker) { ...; waker(success); }]: the continuation stores
    its value and posts the coroutine to the ring. *)
Definition wake_header (id : Z) (success : bool) (w : world) : world :=
  match contexts w !! id with
  | Some c =>
      if header_waker c then
        set_task id (HeadersPosted success)
          (set_ctx id (MkCtx (status_code c) (headers c) (body_buffer c) (header_complete c) (stream_closed c) false
                         (body_waker c)) w)
      else w
  | None => w
  end.

(** [if (ctx->body_waker) { ...; waker(std::move(ctx->body_buffer)); }]. *)
Definition wake_body (id : Z) (w : world) : world :=
  match contexts w !! id with
  | Some c =>
      if body_waker c then
        match tasks w !! id with
        | Some (WaitBody r) =>
            set_task id (BodyPosted r (body_buffer c))
              (set_ctx id (MkCtx (status_code c) (headers c) [] (header_complete c) (stream_closed c) (header_waker c) false) w)
        | _ => w
        end
      else w
  | None => w
  end.

(** ** Callbacks *)

Definition on_header_callback (type id : Z) (n v : bytes) (w : world) : world :=
  if negb (type =? NGHTTP2_HEADERS) then w else
  match stream w id with
  | None => w
  | Some c =>
      if bytes_eqb n (bs ":status") then
        let code := match from_chars_int v with CharsOk k => k | _ => status_code c end in
        set_ctx id (MkCtx code (headers c) (body_buffer c) (header_complete c) (stream_closed c) (header_waker c)
                      (body_waker c)) w
      else if starts_with n (bs ":") then w
      else set_ctx id (MkCtx (status_code c) (add n v (headers c)) (body_buffer c) (header_complete c) (stream_closed c)
                         (header_waker c) (body_waker c)) w
  end.

Definition on_data_chunk_recv_callback (id : Z) (data : bytes) (w : world) : world :=
  match stream w id with
  | None => w
  | Some c => set_ctx id (MkCtx (status_code c) (headers c) (body_buffer c ++ data) (header_complete c) (stream_closed c)
                            (header_waker c) (body_waker c)) w
  end.

Definition on_stream_close_callback (id error_code : Z) (w : world) : world :=
  match stream w id with
  | None => w
  | Some c =>
      wake_body id (wake_header id false
        (set_ctx id (MkCtx (status_code c) (headers c) (body_buffer c) true true (header_waker c) (body_waker c)) w))
  end.

Definition on_frame_recv_callback (type : Z) (cat : nghttp2_headers_category) (id : Z) (w : world) : world :=
  if type =? NGHTTP2_HEADERS then
    match cat with
    | HCAT_RESPONSE =>
        match stream w id with
        | None => w
        | Some c => wake_header id true
            (set_ctx id (MkCtx (status_code c) (headers c) (body_buffer c) true (stream_closed c) (header_waker c)
                           (body_waker c)) w)
        end
    | _ => w
    end
  else w.

Definition on_event (w : world) (e : h2_event) : world :=
  set_log e match e with
  | EvHeader t id n v => on_header_callback t id n v w
  | EvData id d => on_data_chunk_recv_callback id d w
  | EvClose id code => on_stream_close_callback id code w
  | EvFrame t cat id => on_frame_recv_callback t cat id w
  end.

(** ** The background driver *)

(** One turn of the loop over [streams_] after the driver's loop. *)
Definition drain_one (w : world) (id : Z) : world :=
  match contexts w !! id with
  | Some c =>
      wake_body id (wake_header id false
        (set_ctx id (MkCtx (status_code c) (headers c) (body_buffer c) (header_complete c) true (header_waker c)
                       (body_waker c)) w))
  | None => w
  end.

(** The code after the loop, which has no [co_await]. *)
Definition driver_end (w : world) : world :=
  set_streams (fun _ => ∅) (fold_left drain_one (elements (streams_ w)) (set_driver Ended w)).

(** The loop's condition, up to the next read. *)
Definition driver_loop (w : world) : world :=
  if should_close_ w then driver_end w else set_driver Reading w.

(** A read has completed: with an error or at the end of the stream ([None]), or
    with bytes for which nghttp2 makes the callbacks [evs] and returns an error or not. *)
Definition driver_read (res : option (list h2_event * bool)) (w : world) : world :=
  match res with
  | None => driver_end (set_close w)
  | Some (evs, ok) =>
      let w := fold_left on_event evs w in
      if ok then set_driver Writing w else driver_end (set_close w)
  end.

(** [flush_writes] has returned to the driver. *)
Definition driver_flushed (ok : bool) (w : world) : world :=
  if ok then driver_loop w else driver_end (set_close w).

Definition ensure_background_driver (w : world) : world :=
  match back_task_ w with NotSpawned => driver_loop w | _ => w end.

(** ** The coroutines *)

Definition fail_with (id : Z) (e : errc) (msg : string) (w : world) : world :=
  set_task id (Failed (MkError (make_error_code e) (bs msg) None)) w.

Definition erase (id : Z) : world -> world := set_streams (fun s => s ∖ {[id]}).

(** [request] up to [flush_writes]; [stream_id] is what
    [nghttp2_submit_request] returns.  A negative one is the error of the call. *)
Definition request_submit (stream_id : Z) (w : world) : world * Result () :=
  let w := ensure_background_driver w in
  if stream_id <? 0 then (w, make_err_result invalid_argument "nghttp2 submit failed") else
  (set_task stream_id Flushing (set_streams (fun s => {[stream_id]} ∪ s) (set_ctx stream_id Ctx_default w)), Ok tt).

(** [flush_writes] has returned to [request]. *)
Definition request_flushed (id : Z) (ok : bool) (w : world) : world :=
  if ok then
    match contexts w !! id with
    | Some c =>
        set_task id WaitHeaders
          (set_ctx id (MkCtx (status_code c) (headers c) (body_buffer c) (header_complete c) (stream_closed c) true
                         (body_waker c)) w)
    | None => w
    end
  else fail_with id io_error "Failed to send request" (erase id w).

(** [request] resumes with the value its continuation was called with; the
    headers move into the response. *)
Definition request_resumed (id : Z) (success : bool) (w : world) : world :=
  match contexts w !! id with
  | Some c =>
      if negb success || (stream_closed c && (status_code c =? -1))
      then fail_with id connection_aborted "Stream closed or failed" (erase id w)
      else set_task id (HasResponse (status_code c, headers c))
             (set_ctx id (MkCtx (status_code c) [] (body_buffer c) (header_complete c) (stream_closed c) (header_waker c)
                            (body_waker c)) w)
  | None => w
  end.

Definition body_full (id : Z) (r : response) (w : world) : world :=
  match stream w id with
  | None => fail_with id invalid_argument "Stream id not found" w
  | Some c =>
      if stream_closed c then
        erase id (set_task id (HasBody r (body_buffer c))
          (set_ctx id (MkCtx (status_code c) (headers c) [] (header_complete c) (stream_closed c) (header_waker c)
                         (body_waker c)) w))
      else
        set_task id (WaitBody r)
          (set_ctx id (MkCtx (status_code c) (headers c) (body_buffer c) (header_complete c) (stream_closed c)
                         (header_waker c) true) w)
  end.

(** [body_full] resumes. *)
Definition body_resumed (id : Z) (r : response) (data : bytes) (w : world) : world :=
  set_task id (HasBody r data) (erase id w).

(** [close], which also closes the connection. *)
Definition close (w : world) : world := set_close w.

(** ** Steps *)

Definition ev_stream (e : h2_event) : Z :=
  match e with EvHeader _ id _ _ | EvData id _ | EvClose id _ | EvFrame _ _ id => id end.

(** Callbacks that nghttp2 makes for streams that are not closed. *)
Definition about_stream (e : h2_event) : bool :=
  match e with EvHeader t _ _ _ | EvFrame t _ _ => t =? NGHTTP2_HEADERS | _ => true end.

Fixpoint evs_ok (cl : gset Z) (evs : list h2_event) : Prop :=
  match evs with
  | [] => True
  | e :: evs =>
      (about_stream e = true -> ev_stream e ∉ cl) /\
      evs_ok (match e with EvClose id _ => {[id]} ∪ cl | _ => cl end) evs
  end.

Definition fresh_id (id : Z) (w : world) : Prop :=
  tasks w !! id = None /\ (id ∉ closed w) /\ Forall (fun e => ev_stream e <> id) (log w).

(** The callbacks that [nghttp2_session_mem_send] can make; the others are for what
    is received. *)
Definition sending_event (e : h2_event) : bool := match e with EvClose _ _ => true | _ => false end.

(** Some coroutine is in [flush_writes]. *)
Definition in_flush_writes (w : world) : Prop := back_task_ w = Writing \/ exists id, tasks w !! id = Some Flushing.

Inductive step : world -> world -> Prop :=
| step_request w id : fresh_id id w -> step w (fst (request_submit id w))
| step_flushed w id ok : tasks w !! id = Some Flushing -> step w (request_flushed id ok w)
| step_resumed w id b : tasks w !! id = Some (HeadersPosted b) -> step w (request_resumed id b w)
| step_body w id r : tasks w !! id = Some (HasResponse r) -> step w (body_full id r w)
| step_body_resumed w id r d : tasks w !! id = Some (BodyPosted r d) -> step w (body_resumed id r d w)
| step_read w res :
    back_task_ w = Reading -> (forall evs ok, res = Some (evs, ok) -> evs_ok (closed w) evs) -> step w (driver_read res w)
| step_write w ok : back_task_ w = Writing -> step w (driver_flushed ok w)
| step_close w : step w (close w)
| step_send w evs :
    in_flush_writes w -> Forall (fun e => sending_event e = true) evs -> evs_ok (closed w) evs ->
    step w (fold_left on_event evs w).

Definition session_start : world := MkWorld ∅ false NotSpawned ∅ ∅ ∅ [].

(** ** What nghttp2 reported of a stream *)

Definition data_of (id : Z) (l : list h2_event) : bytes :=
  concat ((fun e => match e with EvData i d => if i =? id then d else [] | _ => [] end) <$> l).

Definition is_header (id : Z) (e : h2_event) : option (bytes * bytes) :=
  match e with
  | EvHeader t i n v => if (t =? NGHTTP2_HEADERS) && (i =? id) then Some (n, v) else None
  | _ => None
  end.

Definition header_pairs (id : Z) (l : list h2_event) : list (bytes * bytes) := omap (is_header id) l.

Definition headers_of (id : Z) (l : list h2_event) : HttpHeaderList :=
  (fun p => MkHeader p.1 p.2) <$> List.filter (fun p => negb (starts_with p.1 (bs ":"))) (header_pairs id l).

Definition status_of (id : Z) (l : list h2_event) : Z :=
  fold_left (fun code p => if bytes_eqb p.1 (bs ":status")
                           then match from_chars_int p.2 with CharsOk k => k | _ => code end else code)
    (header_pairs id l) (-1).

(** The callback that the response's header block is complete. *)
Definition is_response (id : Z) (e : h2_event) : bool :=
  match e with EvFrame t HCAT_RESPONSE i => (t =? NGHTTP2_HEADERS) && (i =? id) | _ => false end.

(** ** The invariant *)

(** No callback for the stream follows. *)
Definition done_ (w : world) (id : Z) : Prop := id ∈ closed w \/ back_task_ w = Ended.

(** Callbacks for the stream find its context. *)
Definition live (w : world) (id : Z) : Prop := id ∈ streams_ w \/ back_task_ w = Ended.

(** The response is what was reported up to some point after the end of its
    header block. *)
Definition response_ok (id : Z) (l : list h2_event) (r : response) : Prop :=
  exists l0 l1, l = l0 ++ l1 /\ existsb (is_response id) l0 = true /\ r = (status_of id l0, headers_of id l0).

Definition phase_inv (w : world) (id : Z) (c : Http2StreamContext) (p : phase) : Prop :=
  match p with
  | Flushing | WaitHeaders | HeadersPosted _ =>
      (p = HeadersPosted true -> existsb (is_response id) (log w) = true) /\
      status_code c = status_of id (log w) /\ headers c = headers_of id (log w) /\
      body_buffer c = data_of id (log w) /\ live w id
  | HasResponse r | WaitBody r => response_ok id (log w) r /\ body_buffer c = data_of id (log w) /\ live w id
  | BodyPosted r d | HasBody r d => response_ok id (log w) r /\ d = data_of id (log w) /\ done_ w id
  | Failed _ => True
  end.

Record ctx_inv (w : world) (id : Z) (c : Http2StreamContext) (p : phase) : Prop := CtxInv {
  ci_header : header_waker c = match p with WaitHeaders => true | _ => false end;
  ci_body : body_waker c = match p with WaitBody _ => true | _ => false end;
  ci_closed : stream_closed c = true -> done_ w id;
  ci_phase : phase_inv w id c p
}.

Record inv (w : world) : Prop := Inv {
  inv_tasks id p : tasks w !! id = Some p -> exists c, contexts w !! id = Some c /\ ctx_inv w id c p;
  inv_contexts id : is_Some (contexts w !! id) -> is_Some (tasks w !! id);
  inv_streams id : id ∈ streams_ w -> is_Some (tasks w !! id)
}.

(** Callbacks that change nothing for a stream. *)
Definition quiet (id : Z) (l : list h2_event) : Prop := data_of id l = [] /\ header_pairs id l = [].

(** A step that changes the context and coroutine of [id] only. *)
Record local_step (id : Z) (w w' : world) (l : list h2_event) : Prop := LocalStep {
  ls_contexts j : j <> id -> contexts w' !! j = contexts w !! j;
  ls_tasks j : j <> id -> tasks w' !! j = tasks w !! j;
  ls_streams j : j <> id -> j ∈ streams_ w -> live w' j;
  ls_added j : j ∈ streams_ w' -> j = id \/ j ∈ streams_ w;
  ls_ended : back_task_ w = Ended -> back_task_ w' = Ended;
  ls_closed : closed w ⊆ closed w';
  ls_log : log w' = log w ++ l;
  ls_quiet j : j <> id -> quiet j l
}.

Lemma data_of_app id a b : data_of id (a ++ b) = data_of id a ++ data_of id b.
Proof. unfold data_of. by rewrite fmap_app, concat_app. Qed.

Lemma header_pairs_app id a b : header_pairs id (a ++ b) = header_pairs id a ++ header_pairs id b.
Proof. unfold header_pairs. apply omap_app. Qed.

Lemma headers_of_app id a b : headers_of id (a ++ b) = headers_of id a ++ headers_of id b.
Proof. unfold headers_of. by rewrite header_pairs_app, List.filter_app, fmap_app. Qed.

Lemma status_of_quiet id a b : header_pairs id b = [] -> status_of id (a ++ b) = status_of id a.
Proof. unfold status_of. intros E. by rewrite header_pairs_app, E, app_nil_r. Qed.

Lemma headers_of_quiet id a b : header_pairs id b = [] -> headers_of id (a ++ b) = headers_of id a.
Proof. intros E. rewrite headers_of_app. unfold headers_of at 2. by rewrite E, app_nil_r. Qed.

Lemma response_ok_app id a b r : response_ok id a r -> response_ok id (a ++ b) r.
Proof. intros (l0 & l1 & -> & H). exists l0, (l1 ++ b). by rewrite app_assoc. Qed.

Lemma done_mono w w' id :
  (back_task_ w = Ended -> back_task_ w' = Ended) -> closed w ⊆ closed w' -> done_ w id -> done_ w' id.
Proof. unfold done_. set_solver. Qed.

Lemma ctx_inv_mono w w' id c p l :
  (id ∈ streams_ w -> live w' id) -> (back_task_ w = Ended -> back_task_ w' = Ended) -> closed w ⊆ closed w' ->
  log w' = log w ++ l -> (quiet id l \/ exists e, p = Failed e) -> ctx_inv w id c p -> ctx_inv w' id c p.
Proof.
  intros Hs He Hc Hl Hq [H1 H2 H3 H4]. split; [done|done|intros; eapply done_mono; eauto|].
  destruct Hq as [[Qd Qh]|[e ->]]; [|done].
  assert (Hlive : live w id -> live w' id) by (unfold live in *; tauto).
  assert (Hdone : done_ w id -> done_ w' id) by (by apply done_mono).
  assert (Ed : data_of id (log w') = data_of id (log w)) by (by rewrite Hl, data_of_app, Qd, app_nil_r).
  unfold phase_inv in *. rewrite Ed, Hl. rewrite status_of_quiet, headers_of_quiet, existsb_app by done.
  destruct p; intuition auto using response_ok_app.
  all: apply orb_true_iff; auto.
Qed.

Lemma inv_local id w w' l :
  inv w -> local_step id w w' l ->
  (exists p c, tasks w' !! id = Some p /\ contexts w' !! id = Some c /\ ctx_inv w' id c p) -> inv w'.
Proof.
  intros [I1 I2 I3] [L1 L2 L3 L4 L5 L6 L7 L8] (p & c & Hp & Hc & Hi). split.
  - intros j q Hq. destruct (decide (j = id)) as [->|Hne]; [rewrite Hp in Hq; injection Hq as <-; eauto|].
    rewrite L2 in Hq by done. destruct (I1 j q Hq) as (d & Hd & Hj). exists d. rewrite L1 by done.
    split; [done|]. eapply ctx_inv_mono; eauto.
  - intros j Hj. destruct (decide (j = id)) as [->|Hne]; [by rewrite Hp|]. rewrite L2 by done. apply I2. by rewrite <- L1.
  - intros j Hj. destruct (decide (j = id)) as [->|Hne]; [by rewrite Hp|]. rewrite L2 by done. apply I3.
    by destruct (L4 j Hj).
Qed.

(** A step that changes neither contexts nor coroutines. *)
Lemma inv_quiet w w' l :
  inv w -> contexts w' = contexts w -> tasks w' = tasks w -> (forall j, j ∈ streams_ w -> live w' j) ->
  streams_ w' ⊆ streams_ w -> (back_task_ w = Ended -> back_task_ w' = Ended) -> closed w ⊆ closed w' ->
  log w' = log w ++ l -> (forall j p, tasks w !! j = Some p -> quiet j l \/ exists e, p = Failed e) -> inv w'.
Proof.
  intros [I1 I2 I3] Ec Et Hs Hsub He Hc Hl Hq. split; rewrite ?Et, ?Ec; [|done|intros; by apply I3, Hsub].
  intros j p Hp. destruct (I1 j p Hp) as (c & Hj & Hi). exists c. split; [done|]. eapply ctx_inv_mono; eauto.
Qed.

Lemma quiet_nil id : quiet id [].
Proof. done. Qed.

Lemma quiet_other id e : ev_stream e <> id -> quiet id [e].
Proof.
  intros Hne. unfold quiet, data_of, header_pairs. destruct e; cbn in *; try done;
    rewrite (proj2 (Z.eqb_neq _ _) Hne), ?andb_false_r; done.
Qed.

Lemma quiet_not_about id e : about_stream e = false -> quiet id [e].
Proof. unfold quiet, data_of, header_pairs. destruct e; cbn; intros E; rewrite ?E; done. Qed.

(** Callbacks for a stream only come while its coroutine is not done with it. *)
Lemma live_stream w id p c :
  ctx_inv w id c p -> id ∉ closed w -> back_task_ w <> Ended -> (exists e, p = Failed e) \/
  (id ∈ streams_ w /\ match p with BodyPosted _ _ | HasBody _ _ => False | _ => True end).
Proof.
  intros [_ _ _ H] Hc He. unfold live, done_ in *. unfold phase_inv, live, done_ in H. destruct p; try tauto; eauto.
Qed.

Ltac wcbn :=
  cbn [set_log set_ctx set_task set_streams set_driver set_close erase fail_with streams_ should_close_ back_task_ contexts tasks
       closed log status_code headers body_buffer header_complete stream_closed header_waker body_waker] in *.

Ltac left_in :=
  match goal with
  | H : ?j <> _, H' : ?j ∈ _ |- _ => clear - H H'; set_solver
  | H : ?j ∈ _ |- _ => clear - H; set_solver
  | _ => clear; set_solver
  end.

Ltac local_tac :=
  split; wcbn; intros; rewrite ?lookup_insert_ne by done; unfold live in *; wcbn;
  try first [done | apply quiet_nil | by apply quiet_other; cbn; congruence | left_in].

(** A step without callbacks that changes the stream [id] only. *)
Ltac inv_at id w := eapply (inv_local id w _ []); [done|local_tac; by rewrite app_nil_r|].

Lemma stream_in w id : id ∈ streams_ w -> stream w id = contexts w !! id.
Proof. intros Hi. unfold stream. by rewrite decide_True. Qed.

(** A callback that only adds to what was reported. *)
Lemma ctx_inv_event w w' id c c' p l :
  ctx_inv w id c p -> header_waker c' = header_waker c -> body_waker c' = body_waker c -> stream_closed c' = stream_closed c ->
  (status_code c = status_of id (log w) -> status_code c' = status_of id (log w')) ->
  (headers c = headers_of id (log w) -> headers c' = headers_of id (log w')) ->
  (body_buffer c = data_of id (log w) -> body_buffer c' = data_of id (log w')) ->
  streams_ w' = streams_ w -> back_task_ w' = back_task_ w -> closed w ⊆ closed w' -> log w' = log w ++ l ->
  match p with BodyPosted _ _ | HasBody _ _ => False | _ => True end -> ctx_inv w' id c' p.
Proof.
  intros [H1 H2 H3 H4] Ew Eb Ec Es Eh Ed Est Ebk Hc Hl Hp. split; [congruence..| |].
  - rewrite Ec. intros E. apply (done_mono w); [by rewrite Ebk|done|auto].
  - unfold phase_inv, live in *. rewrite Est, Ebk. rewrite Hl in *. rewrite existsb_app.
    destruct p; intuition auto using response_ok_app. all: apply orb_true_iff; auto.
Qed.

Lemma on_header_inv w id n v :
  inv w -> id ∈ streams_ w -> id ∉ closed w -> back_task_ w <> Ended -> inv (on_event w (EvHeader NGHTTP2_HEADERS id n v)).
Proof.
  intros HI Hin Hc He. destruct (inv_streams _ HI id Hin) as [p Hp]. destruct (inv_tasks _ HI id p Hp) as (c & Hcx & Hi).
  pose proof (live_stream _ _ _ _ Hi Hc He) as Hph. set (e := EvHeader NGHTTP2_HEADERS id n v).
  assert (Ep : header_pairs id [e] = [(n, v)]) by (unfold header_pairs; cbn; by rewrite Z.eqb_refl).
  assert (Es : status_of id (log w ++ [e]) =
               if bytes_eqb n (bs ":status") then match from_chars_int v with CharsOk k => k | _ => status_of id (log w) end
               else status_of id (log w)).
  { unfold status_of. by rewrite header_pairs_app, Ep, fold_left_app. }
  assert (Eh : headers_of id (log w ++ [e]) =
               if starts_with n (bs ":") then headers_of id (log w) else add n v (headers_of id (log w))).
  { rewrite headers_of_app. unfold headers_of at 2. rewrite Ep. cbn [List.filter fst].
    destruct (starts_with n (bs ":")); [apply app_nil_r|done]. }
  assert (Ed : data_of id (log w ++ [e]) = data_of id (log w)) by (rewrite data_of_app; apply app_nil_r).
  assert (Hp' : match p with BodyPosted _ _ | HasBody _ _ => False | _ => True end) by (destruct Hph as [[? ->]|[_ ?]]; done).
  unfold on_event, e, on_header_callback. rewrite Z.eqb_refl. cbn [negb]. rewrite stream_in, Hcx by done.
  fold e. destruct (bytes_eqb n (bs ":status")) eqn:En.
  - apply bytes_eqb_eq in En as ->. cbn [starts_with] in Eh.
    eapply (inv_local id w); [done|local_tac|]. eexists p, _. split; [done|]. split; [apply lookup_insert_eq|].
    eapply (ctx_inv_event w _ id c _ p [e]); wcbn; rewrite ?Es, ?Eh, ?Ed; try done. by intros ->.
  - destruct (starts_with n (bs ":")) eqn:Ens.
    + eapply (inv_local id w); [done|local_tac|]. exists p, c. split; [done|]. split; [done|].
      eapply (ctx_inv_event w _ id c _ p [e]); wcbn; rewrite ?Es, ?Eh, ?Ed; done.
    + eapply (inv_local id w); [done|local_tac|]. eexists p, _. split; [done|]. split; [apply lookup_insert_eq|].
      eapply (ctx_inv_event w _ id c _ p [e]); wcbn; rewrite ?Es, ?Eh, ?Ed; try done. by intros ->.
Qed.

Lemma on_data_inv w id d :
  inv w -> id ∈ streams_ w -> id ∉ closed w -> back_task_ w <> Ended -> inv (on_event w (EvData id d)).
Proof.
  intros HI Hin Hc He. destruct (inv_streams _ HI id Hin) as [p Hp]. destruct (inv_tasks _ HI id p Hp) as (c & Hcx & Hi).
  pose proof (live_stream _ _ _ _ Hi Hc He) as Hph.
  assert (Ed : data_of id (log w ++ [EvData id d]) = data_of id (log w) ++ d).
  { rewrite data_of_app. unfold data_of at 2. cbn. by rewrite Z.eqb_refl, app_nil_r. }
  unfold on_event, on_data_chunk_recv_callback. rewrite stream_in, Hcx by done.
  eapply (inv_local id w); [done|local_tac|]. eexists p, _. split; [done|]. split; [apply lookup_insert_eq|].
  eapply (ctx_inv_event w _ id c _ p [EvData id d]); wcbn; rewrite ?Ed; try done.
  - by rewrite status_of_quiet.
  - by rewrite headers_of_quiet.
  - by intros ->.
  - destruct Hph as [[? ->]|[_ ?]]; done.
Qed.

(** Where a coroutine is after its stream was closed. *)
Definition after_close (p : phase) (c : Http2StreamContext) : phase :=
  match p with
  | WaitHeaders => HeadersPosted false
  | WaitBody r => BodyPosted r (body_buffer c)
  | p => p
  end.

Definition close_wakes (id : Z) (hc : bool) (c : Http2StreamContext) (w : world) : world :=
  wake_body id (wake_header id false
    (set_ctx id (MkCtx (status_code c) (headers c) (body_buffer c) hc true (header_waker c) (body_waker c)) w)).

Lemma close_wakes_spec w id hc c p :
  tasks w !! id = Some p -> ctx_inv w id c p ->
  exists c', close_wakes id hc c w = set_task id (after_close p c) (set_ctx id c' w) /\
    header_waker c' = false /\ body_waker c' = false /\ stream_closed c' = true /\ status_code c' = status_code c /\
    headers c' = headers c /\ (match p with WaitBody _ => True | _ => body_buffer c' = body_buffer c end).
Proof.
  intros Hp [Hh Hb _ _]. unfold close_wakes, wake_header. wcbn. rewrite lookup_insert_eq. wcbn. rewrite Hh, Hb.
  destruct p; unfold wake_body; wcbn; rewrite ?lookup_insert_eq; wcbn; rewrite ?Hp; eexists;
    (split; [unfold set_task, set_ctx; wcbn; rewrite ?insert_insert_eq; cbn [after_close];
      first [done | rewrite (insert_id (tasks w) id) by done; done]|done]).
Qed.

Lemma close_wakes_ctx w w' id c p l :
  ctx_inv w id c p -> (live w id -> live w' id) -> done_ w' id -> log w' = log w ++ l -> quiet id l ->
  forall c', header_waker c' = false -> body_waker c' = false -> stream_closed c' = true ->
  status_code c' = status_code c -> headers c' = headers c ->
  (match p with WaitBody _ => True | _ => body_buffer c' = body_buffer c end) ->
  ctx_inv w' id c' (after_close p c).
Proof.
  intros [H1 H2 H3 H4] Hlive Hdone Hl [Qd Qh] c' E1 E2 E3 E4 E5 E6.
  assert (Ed : data_of id (log w') = data_of id (log w)) by (by rewrite Hl, data_of_app, Qd, app_nil_r).
  split; [by destruct p|by destruct p|done|]. unfold phase_inv in *. rewrite Ed, Hl, E4, E5.
  rewrite status_of_quiet, headers_of_quiet, existsb_app by done.
  destruct p; cbn [after_close] in *; rewrite ?E6; intuition (try congruence; auto using response_ok_app).
  all: apply orb_true_iff; auto.
Qed.

Lemma on_close_inv w id code :
  inv w -> id ∈ streams_ w -> inv (on_event w (EvClose id code)).
Proof.
  intros HI Hin. destruct (inv_streams _ HI id Hin) as [p Hp]. destruct (inv_tasks _ HI id p Hp) as (c & Hcx & Hi).
  unfold on_event, on_stream_close_callback. rewrite stream_in, Hcx by done.
  destruct (close_wakes_spec w id true c p Hp Hi) as (c' & E & E1 & E2 & E3 & E4 & E5 & E6).
  unfold close_wakes in E. rewrite E. eapply (inv_local id w); [done|local_tac|].
  exists (after_close p c), c'. wcbn. rewrite !lookup_insert_eq. split; [done|]. split; [done|].
  apply (close_wakes_ctx w _ id c p [EvClose id code]); try done. left. wcbn. set_solver.
Qed.

Lemma drain_inv w id : inv w -> back_task_ w = Ended -> inv (drain_one w id) /\ back_task_ (drain_one w id) = Ended.
Proof.
  intros HI He. unfold drain_one. destruct (contexts w !! id) as [c|] eqn:Hcx; [|done].
  destruct (inv_contexts _ HI id) as [p Hp]; [by rewrite Hcx|]. destruct (inv_tasks _ HI id p Hp) as (c0 & Hc0 & Hi).
  rewrite Hcx in Hc0. injection Hc0 as <-.
  destruct (close_wakes_spec w id (header_complete c) c p Hp Hi) as (c' & E & E1 & E2 & E3 & E4 & E5 & E6).
  unfold close_wakes in E. rewrite E. split; [|done]. inv_at id w.
  exists (after_close p c), c'. wcbn. rewrite !lookup_insert_eq. split; [done|]. split; [done|].
  apply (close_wakes_ctx w _ id c p []); try done; [by right|wcbn; by rewrite app_nil_r].
Qed.

Lemma drain_all_inv l w :
  inv w -> back_task_ w = Ended -> inv (fold_left drain_one l w) /\ back_task_ (fold_left drain_one l w) = Ended.
Proof.
  revert w. induction l as [|id l IH]; intros w HI He; [done|]. cbn [fold_left]. by apply IH; apply drain_inv.
Qed.

(** Changes of the driver and of the flag. *)
Lemma driver_inv w w' :
  inv w -> contexts w' = contexts w -> tasks w' = tasks w -> streams_ w' = streams_ w ->
  (back_task_ w = Ended -> back_task_ w' = Ended) -> closed w' = closed w -> log w' = log w -> inv w'.
Proof.
  intros HI Ec Et Es Eb Ecl El. apply (inv_quiet w w' []); try done.
  - intros j Hj. left. by rewrite Es.
  - by rewrite Es.
  - by rewrite Ecl.
  - by rewrite El, app_nil_r.
  - intros. left. apply quiet_nil.
Qed.

Lemma driver_end_inv w : inv w -> inv (driver_end w).
Proof.
  intros HI. unfold driver_end.
  destruct (drain_all_inv (elements (streams_ w)) (set_driver Ended w)) as [H E]; [by apply (driver_inv w)|done|].
  eapply (inv_quiet _ _ []); [exact H|done|done|intros; by right|set_solver|done|done|wcbn; by rewrite app_nil_r|].
  intros. left. apply quiet_nil.
Qed.

Lemma driver_loop_inv w : inv w -> back_task_ w <> Ended -> inv (driver_loop w).
Proof.
  intros HI Hb. unfold driver_loop. destruct (should_close_ w); [by apply driver_end_inv|]. by apply (driver_inv w).
Qed.

Lemma on_frame_inv w cat id :
  inv w -> id ∈ streams_ w -> id ∉ closed w -> back_task_ w <> Ended -> inv (on_event w (EvFrame NGHTTP2_HEADERS cat id)).
Proof.
  intros HI Hin Hc He. destruct (inv_streams _ HI id Hin) as [p Hp]. destruct (inv_tasks _ HI id p Hp) as (c & Hcx & Hi).
  pose proof (live_stream _ _ _ _ Hi Hc He) as Hph.
  assert (Hp' : match p with BodyPosted _ _ | HasBody _ _ => False | _ => True end) by (destruct Hph as [[? ->]|[_ ?]]; done).
  set (e := EvFrame NGHTTP2_HEADERS cat id). assert (Q : forall j, quiet j [e]) by done.
  unfold on_event, e, on_frame_recv_callback. rewrite Z.eqb_refl, stream_in, Hcx by done. fold e.
  assert (Hn : inv (set_log e w)).
  { apply (inv_quiet w _ [e]); try done. intros j Hj. by left. intros. by left. }
  destruct cat; try exact Hn. clear Hn. assert (Hw : p = WaitHeaders \/ header_waker c = false).
  { rewrite (ci_header _ _ _ _ Hi). destruct p; auto. }
  destruct Hw as [->|Hw].
  - unfold wake_header. wcbn. rewrite lookup_insert_eq. wcbn. rewrite (ci_header _ _ _ _ Hi).
    eapply (inv_local id w _ [e]); [done|local_tac|]. eexists (HeadersPosted true), _. wcbn. rewrite !lookup_insert_eq.
    split; [done|]. split; [done|]. destruct Hi as [H1 H2 H3 H4].
    split; [done|exact H2|exact H3|]. unfold phase_inv in *. wcbn.
    rewrite status_of_quiet, headers_of_quiet, data_of_app, existsb_app by done. cbn. rewrite Z.eqb_refl, orb_true_r, app_nil_r.
    split; [done|]. by destruct H4.
  - replace (wake_header id true _) with
      (set_ctx id (MkCtx (status_code c) (headers c) (body_buffer c) true (stream_closed c) (header_waker c) (body_waker c)) w).
    2: { unfold wake_header. wcbn. rewrite lookup_insert_eq. wcbn. by rewrite Hw. }
    eapply (inv_local id w _ [e]); [done|local_tac|]. eexists p, _. split; [done|]. split; [apply lookup_insert_eq|].
    eapply (ctx_inv_event w _ id c _ p [e]); wcbn; try done.
    + by rewrite status_of_quiet.
    + by rewrite headers_of_quiet.
    + by rewrite data_of_app, app_nil_r.
Qed.

Lemma on_event_inv w e :
  inv w -> (about_stream e = true -> ev_stream e ∉ closed w) -> back_task_ w <> Ended -> inv (on_event w e).
Proof.
  intros HI Hc He. destruct (about_stream e) eqn:Ea.
  - specialize (Hc eq_refl). destruct (decide (ev_stream e ∈ streams_ w)) as [Hin|Hout].
    + destruct e as [t id n v|id d|id code|t cat id]; cbn in *; try apply Z.eqb_eq in Ea as ->.
      * by apply on_header_inv.
      * by apply on_data_inv.
      * by apply on_close_inv.
      * by apply on_frame_inv.
    + assert (E : on_event w e = set_log e w).
      { assert (Es : stream w (ev_stream e) = None) by (unfold stream; by rewrite decide_False).
        destruct e as [t id n v|id d|id code|t cat id]; cbn [ev_stream] in Es; unfold on_event, on_header_callback, on_data_chunk_recv_callback,
          on_stream_close_callback, on_frame_recv_callback; rewrite Es; try done; [by destruct (negb _)|].
        by destruct (t =? _), cat. }
      rewrite E. apply (inv_quiet w _ [e]); try done; [intros; by left|destruct e; set_solver|].
      intros j p Hp. destruct (decide (ev_stream e = j)) as [<-|Hne]; [|left; by apply quiet_other].
      destruct (inv_tasks _ HI _ p Hp) as (c & _ & Hi).
      destruct (live_stream _ _ _ _ Hi Hc He) as [Hf|[Hin _]]; [by right|done].
  - assert (E : on_event w e = set_log e w).
    { destruct e; cbn [about_stream] in Ea; try done; unfold on_event, on_header_callback, on_frame_recv_callback; by rewrite Ea. }
    rewrite E. apply (inv_quiet w _ [e]); try done; [intros; by left|destruct e; set_solver|].
    intros. left. by apply quiet_not_about.
Qed.

Lemma on_event_frame w e :
  back_task_ (on_event w e) = back_task_ w /\
  closed (on_event w e) = match e with EvClose id _ => {[id]} ∪ closed w | _ => closed w end /\ log (on_event w e) = log w ++ [e].
Proof.
  unfold on_event. destruct e; unfold on_header_callback, on_data_chunk_recv_callback, on_stream_close_callback,
    on_frame_recv_callback, wake_body, wake_header; repeat (case_match; try done).
Qed.

Lemma on_events_inv evs w :
  inv w -> evs_ok (closed w) evs -> back_task_ w <> Ended ->
  inv (fold_left on_event evs w) /\ back_task_ (fold_left on_event evs w) <> Ended.
Proof.
  revert w. induction evs as [|e evs IH]; intros w HI Hok Hb; [done|]. destruct Hok as [He Hok]. cbn [fold_left].
  destruct (on_event_frame w e) as (Eb & Ec & _). apply IH; [by apply on_event_inv|by rewrite Ec|by rewrite Eb].
Qed.

Lemma on_sending_inv evs w :
  inv w -> Forall (fun e => sending_event e = true) evs -> inv (fold_left on_event evs w).
Proof.
  intros HI He. revert w HI. induction He as [|e evs He _ IH]; intros w HI; [done|]. cbn [fold_left]. apply IH.
  destruct e as [| |id code|]; try done. destruct (decide (id ∈ streams_ w)) as [Hin|Hout]; [by apply on_close_inv|].
  assert (E : on_event w (EvClose id code) = set_log (EvClose id code) w).
  { unfold on_event, on_stream_close_callback, stream. by rewrite decide_False. }
  rewrite E. apply (inv_quiet w _ [EvClose id code]); try done; [intros; by left|wcbn; set_solver|]. intros. by left.
Qed.

Lemma drain_one_frame w id :
  closed (drain_one w id) = closed w /\ log (drain_one w id) = log w /\ should_close_ (drain_one w id) = should_close_ w.
Proof. unfold drain_one, wake_body, wake_header. repeat (case_match; try done). Qed.

Lemma driver_end_frame w :
  closed (driver_end w) = closed w /\ log (driver_end w) = log w /\ back_task_ (driver_end w) = Ended.
Proof.
  unfold driver_end. wcbn. assert (H : forall l u, back_task_ u = Ended ->
    closed (fold_left drain_one l u) = closed u /\ log (fold_left drain_one l u) = log u /\
    back_task_ (fold_left drain_one l u) = Ended); [|exact (H (elements (streams_ w)) (set_driver Ended w) eq_refl)].
  induction l as [|id l IH]; intros u Hu; [done|]. cbn [fold_left]. destruct (drain_one_frame u id) as (E1 & E2 & _).
  rewrite <- E1, <- E2. apply IH. unfold drain_one, wake_body, wake_header. repeat (case_match; try done).
Qed.

Lemma log_quiet id l : Forall (fun e => ev_stream e <> id) l -> quiet id l.
Proof.
  induction 1 as [|e l He _ [IH1 IH2]]; [done|]. change (e :: l) with ([e] ++ l). destruct (quiet_other _ _ He) as [Q1 Q2].
  split; [by rewrite data_of_app, Q1, IH1|by rewrite header_pairs_app, Q2, IH2].
Qed.

Lemma ensure_inv w : inv w -> inv (ensure_background_driver w) /\ log (ensure_background_driver w) = log w.
Proof.
  intros HI. unfold ensure_background_driver. destruct (back_task_ w) eqn:Eb; try done.
  split; [apply driver_loop_inv; [done|by rewrite Eb]|]. unfold driver_loop. destruct (should_close_ w); [|done].
  apply driver_end_frame.
Qed.

Lemma request_submit_inv w id : inv w -> fresh_id id w -> inv (fst (request_submit id w)).
Proof.
  intros HI (_ & _ & Hl). destruct (ensure_inv w HI) as [HI' El]. unfold request_submit.
  destruct (id <? 0); [done|]. cbn [fst]. set (u := ensure_background_driver w) in *.
  inv_at id u.
  eexists _, _. wcbn. rewrite !lookup_insert_eq. split; [done|]. split; [done|].
  destruct (log_quiet _ _ Hl) as [Q1 Q2]. split; [done..|]. unfold phase_inv, live. wcbn. rewrite El.
  unfold status_of, headers_of. rewrite Q1, Q2. split; [done|]. split; [done|]. split; [done|]. split; [done|]. left. set_solver.
Qed.

Lemma request_flushed_inv w id ok : inv w -> tasks w !! id = Some Flushing -> inv (request_flushed id ok w).
Proof.
  intros HI Hp. destruct (inv_tasks _ HI id _ Hp) as (c & Hcx & [H1 H2 H3 H4]). unfold request_flushed. destruct ok.
  - rewrite Hcx. inv_at id w.
    eexists _, _. wcbn. rewrite !lookup_insert_eq. split; [done|]. split; [done|].
    split; [done|exact H2|exact H3|]. unfold phase_inv in *. wcbn. by destruct H4 as (_ & H4).
  - inv_at id w.
    eexists _, c. wcbn. rewrite !lookup_insert_eq. split; [done|]. split; [done|].
    split; [by rewrite H1|by rewrite H2|exact H3|done].
Qed.

Lemma request_resumed_inv w id b : inv w -> tasks w !! id = Some (HeadersPosted b) -> inv (request_resumed id b w).
Proof.
  intros HI Hp. destruct (inv_tasks _ HI id _ Hp) as (c & Hcx & [H1 H2 H3 H4]). unfold request_resumed. rewrite Hcx.
  destruct (negb b || _) eqn:Eb.
  - inv_at id w.
    eexists _, c. wcbn. rewrite !lookup_insert_eq. split; [done|]. split; [done|].
    split; [by rewrite H1|by rewrite H2|exact H3|done].
  - apply orb_false_iff in Eb as [Eb%negb_false_iff _]. subst b. destruct H4 as (Hr & Hs & Hh & Hb & Hl).
    inv_at id w.
    eexists _, _. wcbn. rewrite !lookup_insert_eq. split; [done|]. split; [done|].
    split; [exact H1|exact H2|exact H3|]. split; [|done].
    exists (log w), []. rewrite app_nil_r. wcbn. rewrite Hs, Hh. auto.
Qed.

Lemma body_full_inv w id r : inv w -> tasks w !! id = Some (HasResponse r) -> inv (body_full id r w).
Proof.
  intros HI Hp. destruct (inv_tasks _ HI id _ Hp) as (c & Hcx & [H1 H2 H3 H4]). unfold body_full, stream. rewrite Hcx.
  case_decide; [destruct (stream_closed c) eqn:Ec|]; (inv_at id w).
  - eexists _, _. wcbn. rewrite !lookup_insert_eq. split; [done|]. split; [done|].
    split; [exact H1|exact H2|intros _; by apply H3|]. destruct H4 as (Hr & Hb & _). split; [done|]. split; [done|by apply H3].
  - eexists _, _. wcbn. rewrite !lookup_insert_eq. split; [done|]. split; [done|]. split; [exact H1|done|done|done].
  - eexists _, c. wcbn. rewrite !lookup_insert_eq. split; [done|]. split; [done|].
    split; [by rewrite H1|by rewrite H2|exact H3|done].
Qed.

Lemma body_resumed_inv w id r d : inv w -> tasks w !! id = Some (BodyPosted r d) -> inv (body_resumed id r d w).
Proof.
  intros HI Hp. destruct (inv_tasks _ HI id _ Hp) as (c & Hcx & [H1 H2 H3 H4]). unfold body_resumed.
  inv_at id w.
  eexists _, c. wcbn. rewrite !lookup_insert_eq. split; [done|]. split; [done|]. split; [by rewrite H1|by rewrite H2|exact H3|done].
Qed.

Lemma set_close_inv w : inv w -> inv (set_close w).
Proof. intros HI. by apply (driver_inv w). Qed.

Lemma step_inv w w' : step w w' -> inv w -> inv w'.
Proof.
  intros Hs HI. destruct Hs as [w id Hf|w id ok Hp|w id b Hp|w id r Hp|w id r d Hp|w res Hb Hok|w ok Hb|w|w evs _ He _].
  - by apply request_submit_inv.
  - by apply request_flushed_inv.
  - by apply request_resumed_inv.
  - by apply body_full_inv.
  - by apply body_resumed_inv.
  - destruct res as [[evs ok]|]; cbn [driver_read]; [|by apply driver_end_inv, set_close_inv].
    destruct (on_events_inv evs w HI) as [HI' Hb']; [by eapply Hok|by rewrite Hb|].
    destruct ok; [by apply (driver_inv (fold_left on_event evs w))|by apply driver_end_inv, set_close_inv].
  - unfold driver_flushed. destruct ok; [apply driver_loop_inv; [done|by rewrite Hb]|by apply driver_end_inv, set_close_inv].
  - by apply set_close_inv.
  - by apply on_sending_inv.
Qed.

Lemma h2_reachable_inv w : rtc step session_start w -> inv w.
Proof.
  intros Hr. assert (H0 : inv session_start) by (split; intros; cbn in *; [done|by destruct H|done]).
  revert H0. induction Hr as [|x y z Hxy _ IH]; [done|]. intros H0. apply IH. by eapply step_inv.
Qed.

(** C6 ([Http2Session], safety): however requests, bodies, the driver and the
    callbacks of several streams interleave, the status and headers that a
    request returns are those nghttp2 reported for its own stream up to some
    point after the end of the response's header block, and the body that
    [body_full] returns is all the data reported for its own stream, which is
    closed or whose connection ended. *)
Theorem h2_exchange_exact w id :
  rtc step session_start w ->
  (forall r, tasks w !! id = Some (HasResponse r) -> response_ok id (log w) r) /\
  (forall r d, tasks w !! id = Some (HasBody r d) ->
     response_ok id (log w) r /\ d = data_of id (log w) /\ (id ∈ closed w \/ back_task_ w = Ended)).
Proof.
  intros Hr%h2_reachable_inv. split.
  - intros r Hp. destruct (inv_tasks _ Hr id _ Hp) as (c & _ & [_ _ _ H]). apply H.
  - intros r d Hp. destruct (inv_tasks _ Hr id _ Hp) as (c & _ & [_ _ _ H]). exact H.
Qed.

Definition sample_events : list h2_event :=
  [EvHeader NGHTTP2_HEADERS 1 (bs ":status") (bs "200"); EvHeader NGHTTP2_HEADERS 1 (bs "server") (bs "x");
   EvFrame NGHTTP2_HEADERS HCAT_RESPONSE 1; EvData 3 [9]; EvData 1 [1; 2]; EvData 1 [3]; EvClose 1 0].

(** A request whose response arrives in one read. *)
Definition sample_run : world :=
  let w := fst (request_submit 1 session_start) in
  let w := request_flushed 1 true w in
  let w := driver_read (Some (sample_events, true)) w in
  let w := request_resumed 1 true w in
  body_full 1 (200, [MkHeader (bs "server") (bs "x")]) w.

Lemma sample_run_reachable : rtc step session_start sample_run.
Proof.
  unfold sample_run. eapply rtc_l; [apply (step_request _ 1); split; [done|split; [set_solver|constructor]]|].
  eapply rtc_l; [apply (step_flushed _ 1 true); reflexivity|].
  eapply rtc_l; [apply (step_read _ (Some (sample_events, true))); [reflexivity|]|].
  { intros evs ok [= <- <-]. cbn. set_solver. }
  eapply rtc_l; [apply (step_resumed _ 1 true); vm_compute; reflexivity|].
  eapply rtc_l; [apply (step_body _ 1 (200, [MkHeader (bs "server") (bs "x")])); vm_compute; reflexivity|].
  apply rtc_refl.
Qed.

(** Witness of C6. *)
Lemma h2_exchange_exact_witness :
  tasks sample_run !! 1 = Some (HasBody (200, [MkHeader (bs "server") (bs "x")]) [1; 2; 3]) /\
  data_of 1 (log sample_run) = [1; 2; 3].
Proof.
  assert (E : tasks sample_run !! 1 = Some (HasBody (200, [MkHeader (bs "server") (bs "x")]) [1; 2; 3]))
    by (vm_compute; reflexivity).
  split; [exact E|]. destruct (h2_exchange_exact sample_run 1 sample_run_reachable) as [_ H].
  destruct (H _ _ E) as (_ & Hd & _). by rewrite <- Hd.
Defined.

(** ** Wake-ups *)

Lemma drain_one_tasks w id j : j <> id -> tasks (drain_one w id) !! j = tasks w !! j /\ contexts (drain_one w id) !! j = contexts w !! j.
Proof.
  intros Hne. unfold drain_one, wake_body, wake_header.
  repeat (case_match; wcbn; rewrite ?lookup_insert_ne by done; try done).
Qed.

Definition waiting (p : phase) : bool := match p with WaitHeaders | WaitBody _ => true | _ => false end.

Lemma drain_one_wakes w id p : inv w -> tasks w !! id = Some p -> exists p', tasks (drain_one w id) !! id = Some p' /\ waiting p' = false.
Proof.
  intros HI Hp. destruct (inv_tasks _ HI id p Hp) as (c & Hcx & Hi). unfold drain_one. rewrite Hcx.
  destruct (close_wakes_spec w id (header_complete c) c p Hp Hi) as (c' & E & _). unfold close_wakes in E. rewrite E.
  wcbn. rewrite lookup_insert_eq. eexists. split; [done|]. by destruct p.
Qed.

Lemma drain_keeps_awake l w j p :
  inv w -> back_task_ w = Ended -> tasks w !! j = Some p -> (waiting p = false \/ j ∈ l) ->
  exists p', tasks (fold_left drain_one l w) !! j = Some p' /\ waiting p' = false.
Proof.
  revert w p. induction l as [|id l IH]; intros w p HI He Hp Hw; [destruct Hw as [Hw|Hw]; [eauto|by apply not_elem_of_nil in Hw]|].
  cbn [fold_left]. destruct (drain_inv w id HI He) as [HI' He'].
  destruct (decide (j = id)) as [->|Hne].
  - destruct (drain_one_wakes w id p HI Hp) as (p' & Hp' & Hw'). apply (IH _ p'); auto.
  - apply (IH _ p); [done|done|by rewrite (proj1 (drain_one_tasks w id j Hne))|].
    destruct Hw as [Hw|Hw]; [by left|right]. by apply elem_of_cons in Hw as [?|?].
Qed.

Lemma driver_end_wakes w : inv w -> back_task_ w <> Ended ->
  forall id p, tasks w !! id = Some p -> exists p', tasks (driver_end w) !! id = Some p' /\ waiting p' = false.
Proof.
  intros HI Hb id p Hp. unfold driver_end. wcbn. assert (HE : inv (set_driver Ended w)) by (by apply (driver_inv w)).
  apply (drain_keeps_awake _ _ _ p); [done|done|done|]. destruct (waiting p) eqn:Ew; [right|by left].
  apply elem_of_elements. destruct (inv_tasks _ HI id p Hp) as (c & _ & [_ _ _ H]).
  destruct p; try done; cbn in H; unfold live in H; tauto.
Qed.

Lemma insert_some {A} (m : gmap Z A) i j x : is_Some (m !! j) -> is_Some (<[i := x]> m !! j).
Proof. intros [y Hy]. destruct (decide (i = j)) as [->|Hne]; [by rewrite lookup_insert_eq|]. rewrite lookup_insert_ne by done. eauto. Qed.

Lemma on_event_some w e j : is_Some (tasks w !! j) -> is_Some (tasks (on_event w e) !! j).
Proof.
  unfold on_event. destruct e; unfold on_header_callback, on_data_chunk_recv_callback, on_stream_close_callback,
    on_frame_recv_callback, wake_body, wake_header; repeat (case_match; wcbn; auto using insert_some).
Qed.

Lemma on_events_some evs w j : is_Some (tasks w !! j) -> is_Some (tasks (fold_left on_event evs w) !! j).
Proof. revert w. induction evs as [|e evs IH]; intros w Hj; [done|]. by apply IH, on_event_some. Qed.

Lemma on_events_frame evs w : back_task_ (fold_left on_event evs w) = back_task_ w.
Proof. revert w. induction evs as [|e evs IH]; intros w; [done|]. cbn [fold_left]. rewrite IH. apply on_event_frame. Qed.

(** C35 ([Http2Session::background_driver], liveness): when the driver ends, for
    whatever reason, no coroutine of [request] or [body_full] that the session
    has is left waiting for it. *)
Theorem h2_driver_end_wakes w w' id p :
  rtc step session_start w -> step w w' -> back_task_ w <> Ended -> back_task_ w' = Ended -> tasks w !! id = Some p ->
  exists p', tasks w' !! id = Some p' /\ waiting p' = false.
Proof.
  intros HI%h2_reachable_inv Hs Hb Hb' Hp. destruct Hs as [w j Hf|w j ok Hj|w j b Hj|w j r Hj|w j r d Hj|w res Hr Hok|w ok Hr|w|w evs _ _ _].
  - revert Hb'. unfold request_submit, ensure_background_driver, driver_loop.
    assert (Hne : id <> j) by (intros ->; destruct Hf as [Hf _]; congruence).
    destruct (back_task_ w) eqn:Eb, (should_close_ w), (j <? 0); wcbn; cbn [fst]; wcbn; try congruence; intros _;
      rewrite ?lookup_insert_ne by done; apply (driver_end_wakes w HI) with p; congruence.
  - exfalso. revert Hb'. unfold request_flushed. by repeat (case_match; wcbn).
  - exfalso. revert Hb'. unfold request_resumed. by repeat (case_match; wcbn).
  - exfalso. revert Hb'. unfold body_full. by repeat (case_match; wcbn).
  - done.
  - destruct res as [[evs ok]|]; cbn [driver_read] in *; [|by apply (driver_end_wakes (set_close w)) with p; [apply set_close_inv|..]].
    destruct (on_events_inv evs w HI) as [HI' Hb2]; [by eapply Hok|done|].
    destruct (on_events_some evs w id) as [q Hq]; [by rewrite Hp|].
    destruct ok; [done|]. by apply (driver_end_wakes (set_close (fold_left on_event evs w))) with q; [apply set_close_inv|..].
  - revert Hb'. unfold driver_flushed, driver_loop. destruct ok; [destruct (should_close_ w)|]; intros Hb'; [|done|].
    + by apply (driver_end_wakes w) with p.
    + by apply (driver_end_wakes (set_close w)) with p; [apply set_close_inv|..].
  - done.
  - by rewrite on_events_frame in Hb'.
Qed.

(** Witness of C35. *)
Lemma h2_driver_end_wakes_witness :
  let w := request_flushed 1 true (fst (request_submit 1 session_start)) in
  exists p', tasks (driver_read None w) !! 1 = Some p' /\ waiting p' = false.
Proof.
  cbv zeta. eapply (h2_driver_end_wakes (request_flushed 1 true (fst (request_submit 1 session_start))) _ 1 WaitHeaders).
  - eapply rtc_l; [apply (step_request _ 1); split; [done|split; [set_solver|constructor]]|].
    eapply rtc_l; [apply (step_flushed _ 1 true); reflexivity|]. apply rtc_refl.
  - apply (step_read _ None); [reflexivity|done].
  - vm_compute. discriminate.
  - reflexivity.
  - reflexivity.
Defined.

Lemma driver_end_ended w : back_task_ (driver_end w) = Ended.
Proof. apply driver_end_frame. Qed.

Lemma step_ended w w' : step w w' -> back_task_ w = Ended -> back_task_ w' = Ended.
Proof.
  intros Hs Hb. destruct Hs as [w j Hf|w j ok Hj|w j b Hj|w j r Hj|w j r d Hj|w res Hr Hok|w ok Hr|w|w evs _ _ _]; try congruence.
  - unfold request_submit, ensure_background_driver. rewrite Hb. by destruct (j <? 0).
  - unfold request_flushed. by repeat (case_match; wcbn).
  - unfold request_resumed. by repeat (case_match; wcbn).
  - unfold body_full. by repeat (case_match; wcbn).
  - done.
  - done.
  - by rewrite on_events_frame.
Qed.

(** Callbacks leave the coroutine of a closed stream alone. *)
Lemma on_event_closed w e id :
  id ∈ closed w -> (about_stream e = true -> ev_stream e ∉ closed w) ->
  tasks (on_event w e) !! id = tasks w !! id /\ id ∈ closed (on_event w e).
Proof.
  intros Hid He. split; [|rewrite (proj1 (proj2 (on_event_frame w e))); destruct e; set_solver].
  destruct (about_stream e) eqn:Ea.
  - assert (Hne : id <> ev_stream e) by (intros ->; by apply He). revert Hne. clear.
    unfold on_event. destruct e; cbn [ev_stream]; intros Hne; unfold on_header_callback, on_data_chunk_recv_callback,
      on_stream_close_callback, on_frame_recv_callback, wake_body, wake_header;
      repeat (case_match; wcbn; rewrite ?lookup_insert_ne by done; try done).
  - destruct e; cbn [about_stream] in Ea; try done; unfold on_event, on_header_callback, on_frame_recv_callback; by rewrite Ea.
Qed.

Lemma on_events_closed evs w id :
  id ∈ closed w -> evs_ok (closed w) evs ->
  tasks (fold_left on_event evs w) !! id = tasks w !! id /\ id ∈ closed (fold_left on_event evs w).
Proof.
  revert w. induction evs as [|e evs IH]; intros w Hid Hok; [done|]. destruct Hok as [He Hok]. cbn [fold_left].
  destruct (on_event_closed w e id Hid He) as [Et Hid']. rewrite <- Et. apply IH; [done|].
  by rewrite (proj1 (proj2 (on_event_frame w e))).
Qed.

Lemma step_keeps_waiting w w' id :
  step w w' -> tasks w !! id = Some WaitHeaders -> id ∈ closed w -> (back_task_ w = Ended \/ back_task_ w' <> Ended) ->
  tasks w' !! id = Some WaitHeaders /\ id ∈ closed w'.
Proof.
  intros Hs Hp Hc Hb. destruct Hs as [w j Hf|w j ok Hj|w j b Hj|w j r Hj|w j r d Hj|w res Hr Hok|w ok Hr|w|w evs _ _ Hok].
  - assert (Hne : id <> j) by (intros ->; destruct Hf as [Hf _]; congruence).
    revert Hb. unfold request_submit, ensure_background_driver, driver_loop.
    destruct (back_task_ w) eqn:Eb, (should_close_ w), (j <? 0); wcbn; cbn [fst]; wcbn; rewrite ?lookup_insert_ne by done;
      rewrite ?driver_end_ended; intros [?|?]; done.
  - assert (Hne : id <> j) by congruence. unfold request_flushed. repeat (case_match; wcbn); by rewrite ?lookup_insert_ne by done.
  - assert (Hne : id <> j) by congruence. unfold request_resumed. repeat (case_match; wcbn); by rewrite ?lookup_insert_ne by done.
  - assert (Hne : id <> j) by congruence. unfold body_full. repeat (case_match; wcbn); by rewrite ?lookup_insert_ne by done.
  - assert (Hne : id <> j) by congruence. unfold body_resumed. wcbn. by rewrite lookup_insert_ne by done.
  - destruct Hb as [Hb|Hb]; [congruence|]. destruct res as [[evs ok]|]; cbn [driver_read] in *; [|by rewrite driver_end_ended in Hb].
    destruct ok; [|by rewrite driver_end_ended in Hb].
    destruct (on_events_closed evs w id Hc) as [Et Hc']; [by eapply Hok|]. wcbn. by rewrite Et.
  - destruct Hb as [Hb|Hb]; [congruence|]. revert Hb. unfold driver_flushed, driver_loop.
    destruct ok; [destruct (should_close_ w)|]; rewrite ?driver_end_ended; intros Hb; done.
  - done.
  - destruct (on_events_closed evs w id Hc Hok) as [-> Hc']. done.
Qed.

(** C39 ([Http2Session::request], error): a stream that closes while its request
    is still being flushed, with or without a response, loses the wake-up, since
    the continuation is registered without looking at the context first.  The
    request stays suspended as long as the driver runs, and for ever if the
    driver has ended. *)
Theorem h2_wakeup_lost w w' id :
  rtc step session_start w -> tasks w !! id = Some Flushing -> id ∈ closed w ->
  rtc step (request_flushed id true w) w' -> (back_task_ w = Ended \/ back_task_ w' <> Ended) ->
  tasks w' !! id = Some WaitHeaders.
Proof.
  intros HI%h2_reachable_inv Hp Hc Hr Hb. destruct (inv_tasks _ HI id _ Hp) as (c & Hcx & _).
  assert (H0 : tasks (request_flushed id true w) !! id = Some WaitHeaders /\ id ∈ closed (request_flushed id true w) /\
               back_task_ (request_flushed id true w) = back_task_ w).
  { unfold request_flushed. rewrite Hcx. wcbn. by rewrite lookup_insert_eq. }
  destruct H0 as (Ht & Hc0 & Eb). rewrite <- Eb in Hb. clear Hp Hc HI Hcx Eb.
  induction Hr as [u|u v z Huv Hvz IH]; [done|].
  assert (Hv : back_task_ u = Ended \/ back_task_ v <> Ended).
  { destruct Hb as [Hb|Hb]; [by left|right]. intros Ev. apply Hb. clear -Hvz Ev. induction Hvz; [done|]. eauto using step_ended. }
  destruct (step_keeps_waiting u v id Huv Ht Hc0 Hv) as [Ht' Hc']. apply IH; try done.
  destruct Hb as [Hb|Hb]; [left; by eapply step_ended|by right].
Qed.

(** Witness of C39. *)
Lemma h2_wakeup_lost_witness :
  let w := driver_read (Some (sample_events, true)) (fst (request_submit 1 session_start)) in
  tasks (driver_flushed true (request_flushed 1 true w)) !! 1 = Some WaitHeaders.
Proof.
  cbv zeta. eapply (h2_wakeup_lost (driver_read (Some (sample_events, true)) (fst (request_submit 1 session_start)))).
  - eapply rtc_l; [apply (step_request _ 1); split; [done|split; [set_solver|constructor]]|].
    eapply rtc_l; [apply (step_read _ (Some (sample_events, true))); [reflexivity|]|apply rtc_refl].
    intros evs ok [= <- <-]. cbn. set_solver.
  - vm_compute. reflexivity.
  - cbn. set_solver.
  - eapply rtc_l; [apply (step_write _ true); vm_compute; reflexivity|apply rtc_refl].
  - right. vm_compute. discriminate.
Defined.

(** ** Header fields *)

Definition nv_is (n : bytes) (f : nghttp2_nv) : bool := bytes_eqb (nv_name f) n.

Lemma fold_add_header l nva :
  fold_left add_header_nv l nva =
  nva ++ ((fun h => MkNv (to_lower_ascii_str (name h)) (value h) NGHTTP2_FLAG_NONE) <$> List.filter (fun h => negb (skipped (name h))) l).
Proof.
  revert nva. induction l as [|h l IH]; intros nva; [by rewrite app_nil_r|]. cbn [fold_left List.filter]. rewrite IH.
  unfold add_header_nv, add_nv. destruct (skipped (name h)); [done|]. cbn [negb fmap list_fmap]. by rewrite <- app_assoc.
Qed.

Lemma nv_is_lower k n v f : nv_is (to_lower_ascii_str k) (MkNv (to_lower_ascii_str n) v f) = ignore_case_equal n k.
Proof.
  unfold nv_is. cbn [nv_name]. apply Bool.eq_true_iff_eq.
  by rewrite bytes_eqb_eq, ignore_case_equal_spec, !to_lower_ascii_str_map.
Qed.

Lemma to_lower_ascii_idemp c : to_lower_ascii (to_lower_ascii c) = to_lower_ascii c.
Proof. unfold to_lower_ascii. destruct ((65 <=? c) && (c <=? 90)) eqn:E; [|by rewrite E]. case_match; lia. Qed.

(** Whether a header is skipped does not depend on the case of its name. *)
Lemma skipped_case a b : ignore_case_equal a b = true -> skipped a = skipped b.
Proof.
  intros E%ignore_case_equal_spec. unfold skipped.
  assert (H : forall k, ignore_case_equal a k = ignore_case_equal b k)
    by (intros k; apply Bool.eq_true_iff_eq; by rewrite !ignore_case_equal_spec, E).
  by rewrite !H.
Qed.

Lemma lower_ignore_case n : ignore_case_equal (to_lower_ascii_str n) n = true.
Proof.
  apply ignore_case_equal_spec. rewrite to_lower_ascii_str_map, <- list_fmap_compose. apply list_fmap_ext. intros.
  apply to_lower_ascii_idemp.
Qed.

(** ([Http2Session::request], functional): the fields of a request are its
    pseudo-headers, with the Host header or else the URL's host as authority,
    followed by its headers without the connection-specific ones: under each
    other name, whatever its case, the peer finds the values of the request in
    their order, the names are lower-case, and none of them is one of the four
    that are skipped. *)
Theorem request_nva_spec req :
  exists fields, request_nva req =
    [MkNv (bs ":method") (method req) 0; MkNv (bs ":scheme") (scheme_ (url req)) 0;
     MkNv (bs ":path") (match path_ (url req) with [] => bs "/" | p => p end) 0;
     MkNv (bs ":authority") (default (host_ (url req)) (get (bs "host") (HttpTypes.headers req))) 0] ++ fields /\
  Forall (fun f => to_lower_ascii_str (nv_name f) = nv_name f /\ skipped (nv_name f) = false) fields /\
  forall k, skipped k = false ->
    nv_value <$> List.filter (nv_is (to_lower_ascii_str k)) fields =
    value <$> List.filter (fun h => ignore_case_equal (name h) k) (HttpTypes.headers req).
Proof.
  unfold request_nva. rewrite fold_add_header. eexists. split.
  { by destruct (get (bs "host") (HttpTypes.headers req)). }
  split.
  - apply Forall_fmap, List.Forall_forall. intros h [_ Hs%negb_true_iff]%filter_In. cbn [compose nv_name].
    split; [|by rewrite (skipped_case _ _ (lower_ignore_case _))].
    pose proof (lower_ignore_case (name h)) as E%ignore_case_equal_spec. by rewrite <- !to_lower_ascii_str_map in E.
  - intros k Hk. induction (HttpTypes.headers req) as [|h l IH]; [done|]. cbn [List.filter].
    destruct (skipped (name h)) eqn:Es; cbn [negb].
    + destruct (ignore_case_equal (name h) k) eqn:E; [|done]. apply skipped_case in E. congruence.
    + cbn [fmap list_fmap List.filter]. rewrite nv_is_lower. destruct (ignore_case_equal (name h) k); cbn [fmap list_fmap]; [|done].
      by f_equal.
Qed.
