(* ===== verification/Addr.v ===== *)
(** ppnt-io/net: socket addresses.

    [src/ppnt-io/src/net/addr.ixx] [SocketAddress]: the 128 bytes of a
    [sockaddr_storage], which the members read and write as a [sockaddr_in] or a
    [sockaddr_in6].  The machine is little-endian, so [htons] and [ntohs] swap the two
    bytes of their 16-bit argument.  [inet_pton] and [inet_ntop] are parameters. *)

From stdpp Require Import strings.
From S2P Require Import Prelude Binary.

Local Open Scope Z_scope.

Definition AF_UNSPEC : Z := 0.
Definition AF_INET : Z := 2.
Definition AF_INET6 : Z := 10.

(** The layout: both structures have the family at 0 and the port at 2. *)
Definition SS_SIZE : nat := 128.
Definition SIN_ADDR : nat := 4.
Definition SIN6_ADDR : nat := 8.
Definition SIN_SIZE : Z := 16.
Definition SIN6_SIZE : Z := 28.

Definition get_bytes (off n : nat) (m : bytes) : bytes := take n (drop off m).
Definition put_bytes (off : nat) (l m : bytes) : bytes := take off m ++ l ++ drop (off + length l) m.

Definition htons (v : Z) : Z := byteswap 2 (u16 v).
Definition ntohs (v : Z) : Z := byteswap 2 (u16 v).

(** The text of a C string. *)
Fixpoint c_str (l : bytes) : bytes :=
  match l with [] => [] | c :: r => if c =? 0 then [] else c :: c_str r end.

(** ** [SocketAddress] *)

Definition family (s : bytes) : Z := le_combine (get_bytes 0 2 s).

(** The default constructor. *)
Definition SocketAddress_default : bytes :=
  put_bytes 0 (le_split 2 AF_UNSPEC) (replicate SS_SIZE 0).

(** The constructor from a [sockaddr] of [len] bytes; [memcpy] past the storage is
    undefined, and what it does not cover is not initialised. *)
Definition SocketAddress_copy (uninit : bytes) (addr : bytes) : option bytes :=
  if (SS_SIZE <? length addr)%nat then None else Some (put_bytes 0 addr uninit).

Definition is_v4 (s : bytes) : bool := family s =? AF_INET.
Definition is_v6 (s : bytes) : bool := family s =? AF_INET6.

Definition socklen (s : bytes) : Z :=
  if is_v4 s then SIN_SIZE else if is_v6 s then SIN6_SIZE else 0.

Definition port (s : bytes) : Z :=
  if is_v4 s then ntohs (le_combine (get_bytes 2 2 s))
  else if is_v6 s then ntohs (le_combine (get_bytes 2 2 s))
  else 0.

Definition set_port (p : Z) (s : bytes) : bytes :=
  if is_v4 s then put_bytes 2 (le_split 2 (htons p)) s
  else if is_v6 s then put_bytes 2 (le_split 2 (htons p)) s
  else s.

Section Inet.
Context (inet_pton : Z -> bytes -> option bytes) (inet_ntop : Z -> bytes -> option bytes).

(** [ip] is a view; [after] are the bytes behind it, which [ip.data()] runs into. *)
Definition from_ip_port (ip after : bytes) (p : Z) : Result bytes :=
  let addr := SocketAddress_default in
  let p := htons p in
  match inet_pton AF_INET (c_str (ip ++ after)) with
  | Some a =>
      let addr := put_bytes SIN_ADDR a addr in
      let addr := put_bytes 0 (le_split 2 AF_INET) addr in
      Ok (put_bytes 2 (le_split 2 (u16 p)) addr)
  | None =>
      match inet_pton AF_INET6 (c_str (ip ++ after)) with
      | Some a =>
          let addr := put_bytes SIN6_ADDR a addr in
          let addr := put_bytes 0 (le_split 2 AF_INET6) addr in
          Ok (put_bytes 2 (le_split 2 (u16 p)) addr)
      | None => Err (MkError (make_error_code invalid_argument) (bs "invalid ip: " ++ ip) None)
      end
  end.

Definition to_ip_string (s : bytes) : bytes :=
  let src := if is_v4 s then get_bytes SIN_ADDR 4 s
             else if is_v6 s then get_bytes SIN6_ADDR 16 s
             else bs "unknown" in
  default (bs "invalid") (inet_ntop (family s) src).

Definition to_string (s : bytes) : bytes :=
  if is_v6 s then bs "[" ++ to_ip_string s ++ bs "]:" ++ to_string_int (port s)
  else to_ip_string s ++ bs ":" ++ to_string_int (port s).

(** What the functions of the C library promise. *)
Record inet_laws : Prop := InetLaws {
  pton_v4 : forall t a, inet_pton AF_INET t = Some a -> length a = 4%nat;
  pton_v6 : forall t a, inet_pton AF_INET6 t = Some a -> length a = 16%nat;
  ntop_family : forall af a, af <> AF_INET -> af <> AF_INET6 -> inet_ntop af a = None
}.

(** ** Reading back what was written *)

Lemma put_length off l m : (off + length l <= length m)%nat -> length (put_bytes off l m) = length m.
Proof. intros H. unfold put_bytes. rewrite !length_app, length_take, length_drop. lia. Qed.

Lemma get_put off n l m :
  length l = n -> (off + n <= length m)%nat -> get_bytes off n (put_bytes off l m) = l.
Proof.
  intros <- H. unfold get_bytes, put_bytes. rewrite drop_app_ge by (rewrite length_take; lia).
  rewrite length_take, Nat.min_l, Nat.sub_diag, drop_0 by lia. by rewrite take_app_length.
Qed.

Lemma get_put_ne off n off' l m :
  (off + n <= off' \/ off' + length l <= off)%nat -> (off' + length l <= length m)%nat ->
  get_bytes off n (put_bytes off' l m) = get_bytes off n m.
Proof.
  intros Hd Hl. unfold get_bytes, put_bytes. apply list_eq. intros i.
  destruct (decide (i < n)%nat); [|by rewrite !lookup_take_ge by lia].
  rewrite !lookup_take_lt, !lookup_drop by lia. destruct Hd.
  - rewrite lookup_app_l by (rewrite length_take; lia). by rewrite lookup_take_lt by lia.
  - rewrite lookup_app_r by (rewrite length_take; lia). rewrite length_take, Nat.min_l by lia.
    rewrite lookup_app_r, lookup_drop by lia. f_equal. lia.
Qed.

Lemma byteswap_2_bound v : 0 <= byteswap 2 v < 2 ^ 16.
Proof.
  unfold byteswap. pose proof (le_combine_bound (reverse (le_split 2 v)) (reverse_bytes _ (le_split_bytes 2 v))) as H.
  by rewrite length_reverse, le_split_length in H.
Qed.

Lemma byteswap_2_twice v : 0 <= v < 2 ^ 16 -> byteswap 2 (byteswap 2 v) = v.
Proof.
  intros Hv. unfold byteswap at 1. assert (E : le_split 2 (byteswap 2 v) = reverse (le_split 2 v)).
  { unfold byteswap. pose proof (le_split_combine (reverse (le_split 2 v)) (reverse_bytes _ (le_split_bytes 2 v))) as H.
    by rewrite length_reverse, le_split_length in H. }
  rewrite E, reverse_involutive. by apply le_combine_split.
Qed.

Lemma u16_bound v : 0 <= u16 v < 2 ^ 16.
Proof. apply Z.mod_pos_bound. lia. Qed.

Lemma ntohs_htons v : ntohs (le_combine (le_split 2 (htons v))) = u16 v.
Proof.
  unfold ntohs, htons. pose proof (byteswap_2_bound (u16 v)). rewrite le_combine_split by done.
  rewrite (u16_small (byteswap 2 (u16 v))) by done. apply byteswap_2_twice, u16_bound.
Qed.

(** An address of the family [af] with the address bytes [a] at [off]. *)
Record holds (af p : Z) (off : nat) (a : bytes) (s : bytes) : Prop := Holds {
  h_length : length s = SS_SIZE;
  h_family : family s = af;
  h_port : port s = u16 p;
  h_addr : get_bytes off (length a) s = a
}.

Lemma put_port_holds af p p' off a s :
  holds af p off a s -> (af = AF_INET \/ af = AF_INET6) -> (4 <= off)%nat ->
  holds af p' off a (put_bytes 2 (le_split 2 (htons p')) s).
Proof.
  intros [Hl Hf _ Ha] Haf Ho. unfold SS_SIZE in *. assert (E2 : length (le_split 2 (htons p')) = 2%nat) by apply le_split_length.
  assert (Ef : family (put_bytes 2 (le_split 2 (htons p')) s) = af) by (unfold family; by rewrite get_put_ne by lia).
  constructor; [by rewrite put_length by lia|done| |by rewrite get_put_ne by lia].
  unfold port, is_v4, is_v6. rewrite Ef, get_put, ntohs_htons by (done || lia). by destruct Haf as [-> | ->].
Qed.

Lemma written_holds af p off a :
  (af = AF_INET \/ af = AF_INET6) -> (4 <= off)%nat -> (off + length a <= SS_SIZE)%nat ->
  holds af p off a (put_bytes 2 (le_split 2 (u16 (htons p))) (put_bytes 0 (le_split 2 af) (put_bytes off a SocketAddress_default))).
Proof.
  intros Haf Ho Hl. rewrite (u16_small (htons p)) by apply byteswap_2_bound.
  set (s := put_bytes 0 _ _).
  assert (E2 : length (le_split 2 af) = 2%nat) by apply le_split_length.
  assert (E0 : length SocketAddress_default = SS_SIZE) by done.
  assert (E1 : length (put_bytes off a SocketAddress_default) = SS_SIZE) by (by rewrite put_length by lia).
  unfold SS_SIZE in *. apply (put_port_holds af (port s) p off a s); [|done|done].
  assert (Ef : family s = af).
  { unfold family, s. rewrite get_put by lia. by destruct Haf as [-> | ->]. }
  constructor; [unfold s; by rewrite put_length by lia|done| |].
  - rewrite u16_small; [done|]. unfold port, is_v4, is_v6. rewrite Ef. destruct Haf as [-> | ->]; apply byteswap_2_bound.
  - unfold s. rewrite get_put_ne by lia. by rewrite get_put by lia.
Qed.

(** The two families. *)
Inductive layout : Z -> nat -> nat -> Z -> Prop :=
| layout_v4 : layout AF_INET SIN_ADDR 4 SIN_SIZE
| layout_v6 : layout AF_INET6 SIN6_ADDR 16 SIN6_SIZE.

Lemma layout_spec af off n len :
  layout af off n len -> (af = AF_INET \/ af = AF_INET6) /\ (4 <= off)%nat /\ (off + n <= SS_SIZE)%nat.
Proof. unfold SS_SIZE. destruct 1; unfold SIN_ADDR, SIN6_ADDR; split; try split; auto; lia. Qed.

Lemma holds_reads af off n len p p' a s :
  layout af off n len -> length a = n -> holds af p off a s ->
  socklen s = len /\ holds af p' off a (set_port p' s) /\
  to_string s = let text := default (bs "invalid") (inet_ntop af a) in
    (if af =? AF_INET6 then bs "[" ++ text ++ bs "]" else text) ++ bs ":" ++ to_string_int (u16 p).
Proof.
  intros Hlay Hn H. destruct (layout_spec _ _ _ _ Hlay) as (Haf & Ho & _).
  pose proof (put_port_holds af p p' off a s H Haf Ho) as H'. pose proof H as [_ Hf Hp Ha]. rewrite Hn in Ha.
  unfold socklen, to_string, set_port, to_ip_string, is_v4, is_v6. rewrite Hf, Hp.
  destruct Hlay; (split; [done|]; split; [exact H'|]); cbn [Z.eqb Pos.eqb AF_INET AF_INET6]; rewrite Ha; [done|by rewrite <- !app_assoc].
Qed.

End Inet.

(** ([SocketAddress], roundtrip): an address made from a text and a port has the
    family of the text, the length of its structure, and the port reduced to 16 bits,
    which is the port itself if it is one; [set_port] changes the port and nothing
    else; the address is printed with its port, an IPv6 address in brackets.  A text
    that is no address is an error. *)
Theorem address_reads_back inet_pton inet_ntop ip after p p' :
  inet_laws inet_pton inet_ntop ->
  match from_ip_port inet_pton ip after p with
  | Ok s =>
      exists af off a, inet_pton af (c_str (ip ++ after)) = Some a /\
        (af = AF_INET /\ off = SIN_ADDR /\ socklen s = 16 \/ af = AF_INET6 /\ off = SIN6_ADDR /\ socklen s = 28) /\
        holds af p off a s /\ holds af p' off a (set_port p' s) /\
        let text := default (bs "invalid") (inet_ntop af a) in
        to_string inet_ntop s =
          (if af =? AF_INET6 then bs "[" ++ text ++ bs "]" else text) ++ bs ":" ++ to_string_int (u16 p)
  | Err e =>
      inet_pton AF_INET (c_str (ip ++ after)) = None /\ inet_pton AF_INET6 (c_str (ip ++ after)) = None /\
      e = MkError (make_error_code invalid_argument) (bs "invalid ip: " ++ ip) None
  end.
Proof.
  intros L. unfold from_ip_port. destruct (inet_pton AF_INET (c_str (ip ++ after))) as [a|] eqn:E4;
    [|destruct (inet_pton AF_INET6 (c_str (ip ++ after))) as [a|] eqn:E6; [|done]].
  - pose proof (pton_v4 _ _ L _ _ E4) as Hl. destruct (layout_spec _ _ _ _ layout_v4) as (Haf & Ho & Hs). rewrite <- Hl in Hs.
    pose proof (written_holds AF_INET p SIN_ADDR a Haf Ho Hs) as H.
    destruct (holds_reads inet_ntop _ _ _ _ p p' a _ layout_v4 Hl H) as (H1 & H2 & H3).
    exists AF_INET, SIN_ADDR, a. split; [done|]. split; [by left|]. by split.
  - pose proof (pton_v6 _ _ L _ _ E6) as Hl. destruct (layout_spec _ _ _ _ layout_v6) as (Haf & Ho & Hs). rewrite <- Hl in Hs.
    pose proof (written_holds AF_INET6 p SIN6_ADDR a Haf Ho Hs) as H.
    destruct (holds_reads inet_ntop _ _ _ _ p p' a _ layout_v6 Hl H) as (H1 & H2 & H3).
    exists AF_INET6, SIN6_ADDR, a. split; [done|]. split; [by right|]. by split.
Qed.

(** One IPv4 and one IPv6 address. *)
Definition sample_pton (af : Z) (t : bytes) : option bytes :=
  if af =? AF_INET then if bytes_eqb t (bs "127.0.0.1") then Some [127; 0; 0; 1] else None
  else if af =? AF_INET6 then if bytes_eqb t (bs "::1") then Some (replicate 15 0 ++ [1]) else None
  else None.

Definition sample_ntop (af : Z) (a : bytes) : option bytes :=
  if af =? AF_INET then Some (bs "127.0.0.1") else if af =? AF_INET6 then Some (bs "::1") else None.

Lemma sample_inet : inet_laws sample_pton sample_ntop.
Proof.
  constructor.
  - intros t a. unfold sample_pton. cbn [Z.eqb AF_INET Pos.eqb]. case_match; [by intros [= <-]|done].
  - intros t a. unfold sample_pton. cbn [Z.eqb AF_INET AF_INET6 Pos.eqb]. case_match; [by intros [= <-]|done].
  - intros af a H4%Z.eqb_neq H6%Z.eqb_neq. unfold sample_ntop. by rewrite H4, H6.
Qed.

(** An instance. *)
Lemma address_reads_back_witness :
  exists s, from_ip_port sample_pton (bs "::1") [0] 65616 = Ok s /\ socklen s = 28 /\ to_string sample_ntop s = bs "[::1]:80".
Proof.
  pose proof (address_reads_back sample_pton sample_ntop (bs "::1") [0] 65616 443 sample_inet) as H.
  eexists. split; [reflexivity|].
  destruct H as (af & off & a & Ea & Haf & _ & _ & Et). destruct Haf as [(-> & _ & _)|(-> & _ & Hs)]; [discriminate Ea|].
  split; [exact Hs|]. injection Ea as <-. exact Et.
Defined.
