(* ===== verification/Net.v ===== *)
(** ppnt-io: results of system calls, name resolution, listening and accepting.

    [src/ppnt-io/src/ops.cpp] with the timer of [ops.ixx], [net/addr.cpp] and
    [resolve_first] of [net/addr.ixx], [net/accept.cpp] with the accept loop of
    [net/accept.ixx], alone and on the ring, and [net/ssl.cpp].  The system calls are
    parameters and leave a trace. *)

From S2P Require Import Prelude Uring Ring.
From stdpp Require Import gmap strings.

Local Open Scope Z_scope.

(** ** Results of operations *)

Definition common_async_int_mapper (result : Z) : Result Z :=
  if 0 <=? result then Ok result else Err (MkError (EC generic_category (- result)) [] None).

Definition common_async_unit_mapper (result : Z) : Result () :=
  if 0 <=? result then Ok tt else Err (MkError (EC generic_category (- result)) [] None).

Definition map_async_read_result (result : Z) : Result Z := common_async_int_mapper result.
Definition map_async_write_result (result : Z) : Result Z := common_async_int_mapper result.
Definition map_async_connect_result (result : Z) : Result () := common_async_unit_mapper result.

(** [delay(long)]: the timespec, and what its completion means. *)
Definition delay_timespec (ms : Z) : Z * Z := (Z.quot ms 1000, Z.rem ms 1000 * 1000000).

Definition map_delay_result (ret : Z) : Result () :=
  if ret =? - e_time then Ok tt
  else if ret =? - e_canceled then make_err_result operation_canceled "delay canceled"
  else Err (MkError (make_error_code no_message) (bs "delay failed: " ++ to_string_int ret) None).

(** ** Name resolution *)

Definition EAI_SYSTEM : Z := -11.
Definition EAI_NONAME : Z := -2.
Definition EAI_SERVICE : Z := -8.
Definition EAI_NODATA : Z := -5.
Definition EAI_AGAIN : Z := -3.
Definition EAI_MEMORY : Z := -10.

(** [errno] is the thread's error number at the call. *)
Definition map_getaddrinfo_err (errno err : Z) (msg : bytes) : Error :=
  if err =? EAI_SYSTEM then MkError (EC generic_category errno) [] None
  else
    let code :=
      if (err =? EAI_NONAME) || (err =? EAI_SERVICE) || (err =? EAI_NODATA) then address_not_available
      else if err =? EAI_AGAIN then resource_unavailable_try_again
      else if err =? EAI_MEMORY then not_enough_memory
      else invalid_argument in
    MkError (make_error_code code) msg None.

(** [getaddrinfo] gives an error number or the list of addresses. *)
Definition resolve {A} (getaddrinfo : bytes -> bytes -> Z + list A) (errno : Z) (host : bytes) (port : Z)
    : Result (list A) :=
  match getaddrinfo host (to_string_int port) with
  | inl err => Err (map_getaddrinfo_err errno err host)
  | inr addrs => Ok addrs
  end.

Definition resolve_first {A} (getaddrinfo : bytes -> bytes -> Z + list A) (errno : Z) (host : bytes) (port : Z)
    : Result A :=
  res ← resolve getaddrinfo errno host port;
  match res with
  | [] => Err (MkError (make_error_code destination_address_required) [] None)
  | a :: _ => Ok a
  end.

(** ** Negotiated protocol and release of a TLS connection *)

(** [alpn] are the bytes [SSL_get0_alpn_selected] gives. *)
Definition is_h2_negotiated (alpn : bytes) : bool :=
  (Z.of_nat (length alpn) =? 2) && bytes_eqb alpn (bs "h2").

Inductive ssl_action := SetExData (slot : Z) | DeleteSpec (spec : Z) | FreeSsl (ssl : Z).

(** [spec] is the ClientHello specification kept in the connection's slot. *)
Definition SslFree (slot : Z) (ptr : option Z) (spec : option Z) : list ssl_action :=
  match ptr with
  | None => []
  | Some p => match spec with Some s => [SetExData slot; DeleteSpec s] | None => [] end ++ [FreeSsl p]
  end.

(** ** Listening *)

Inductive libc_call :=
| Socket (fd : Z)
| SetReuseAddr (fd : Z)
| Bind (fd : Z) (res : Z)
| Listen (fd : Z) (res : Z)
| Close (fd : Z).

Section Accept.
(** The results of the calls. *)
Context (socket_res : Z) (bind_res listen_res : Z -> Z).

Definition init_accept_socket : list libc_call * Z :=
  let socket := socket_res in
  if socket <? 0 then ([Socket socket], socket) else
  let tr := [Socket socket; SetReuseAddr socket] in
  let res := bind_res socket in
  if res <? 0 then (tr ++ [Bind socket res; Close socket], res) else
  let tr := tr ++ [Bind socket res] in
  let res := listen_res socket in
  if res <? 0 then (tr ++ [Listen socket res; Close socket], res) else
  (tr ++ [Listen socket res], socket).

Definition is_close (fd : Z) (c : libc_call) : Prop := c = Close fd.

(** ([init_accept_socket], safety): the descriptor is kept open exactly when
    it is returned, bound and listening; on every error after it was opened it
    is closed, as the last call. *)
Theorem init_accept_socket_no_leak tr r :
  init_accept_socket = (tr, r) ->
  (0 <= r -> r = socket_res /\ 0 <= bind_res r /\ 0 <= listen_res r /\ (forall fd, Close fd ∉ tr) /\
     last tr = Some (Listen r (listen_res r))) /\
  (r < 0 -> (tr = [Socket socket_res] /\ socket_res < 0) \/
     (0 <= socket_res /\ exists pre, tr = pre ++ [Close socket_res] /\ forall fd, Close fd ∉ pre)).
Proof.
  unfold init_accept_socket. intros E.
  destruct (Z.ltb_spec socket_res 0); [injection E as <- <-; split; [lia|auto]|].
  destruct (Z.ltb_spec (bind_res socket_res) 0).
  { injection E as <- <-. split; [lia|]. intros _. right. split; [done|].
    exists [Socket socket_res; SetReuseAddr socket_res; Bind socket_res (bind_res socket_res)].
    split; [done|]. set_solver. }
  destruct (Z.ltb_spec (listen_res socket_res) 0); injection E as <- <-.
  { split; [lia|]. intros _. right. split; [done|].
    exists [Socket socket_res; SetReuseAddr socket_res; Bind socket_res (bind_res socket_res);
            Listen socket_res (listen_res socket_res)].
    split; [done|]. set_solver. }
  split; [|lia]. intros _. split; [done|]. split; [done|]. split; [done|]. split; [set_solver|done].
Qed.
End Accept.

(** An instance. *)
(** An instance. *)
Lemma init_accept_socket_no_leak_witness :
  exists pre, fst (init_accept_socket 7 (fun _ => -98) (fun _ => 0)) = pre ++ [Close 7].
Proof.
  destruct (init_accept_socket_no_leak 7 (fun _ => -98) (fun _ => 0) _ _ eq_refl) as [_ H].
  destruct (H eq_refl) as [[E _]|(_ & pre & E & _)]; [discriminate E|]. exists pre. exact E.
Defined.

(** ** The accept loop

    One request stays in the kernel and completes once per connection.  The
    coroutine runs on each completion that brings [ref_count] to 0 and resets
    the operation for the next one. *)

Definition ioring_cqe_f_more : Z := 2.

Inductive acceptor := Serving (op : Operation) (spawned : list Z) | Terminated (spawned : list Z).

(** The body of the loop in [run_accept_loop]; [h] is its own handle. *)
Definition accept_body (h : Z) (op : Operation) (spawned : list Z) : acceptor :=
  if Z.land (cqe_flags op) ioring_cqe_f_more =? 0 then Terminated spawned
  else if 0 <=? result op then
    let op' := Operation_reset 0 op in
    Serving (MkOp (Some h) (result op') (op_bid op') (ref_count op') (op_flags op') (cqe_flags op') (Ring.timeout op'))
      (spawned ++ [result op])
  else Terminated spawned.

Definition accept_cqe (h : Z) (st : acceptor) (c : io_uring_cqe) : acceptor :=
  match st with
  | Terminated spawned => Terminated spawned
  | Serving op spawned =>
      let op := release_ref (complete op c) in
      if ref_count op =? 0 then accept_body h op spawned else Serving op spawned
  end.

Lemma complete_flags op c : is_timeout_cqe c = false -> cqe_flags (complete_ref op c) = cqe_fl c.
Proof. intros Ht. unfold complete_ref, release_ref, complete. rewrite Ht. by repeat case_match. Qed.

Lemma accept_cqe_serves h op spawned c :
  ref_count op = 1 -> is_timeout_cqe c = false -> Z.land (cqe_fl c) ioring_cqe_f_more <> 0 -> 0 <= cqe_res c ->
  exists op', accept_cqe h (Serving op spawned) c = Serving op' (spawned ++ [cqe_res c]) /\ ref_count op' = 1.
Proof.
  intros Hr Ht Hm Hres. unfold accept_cqe.
  assert (E : ref_count (release_ref (complete op c)) = 0).
  { change (ref_count (complete_ref op c) = 0). rewrite complete_refs, Hr. done. }
  assert (Ef : cqe_flags (release_ref (complete op c)) = cqe_fl c /\ result (release_ref (complete op c)) = cqe_res c).
  { split; [by apply complete_flags|]. unfold complete. rewrite Ht. destruct (Z.eqb_spec (cqe_res c) (- e_canceled)) as [Ec|]; [unfold e_canceled in Ec; lia|].
    cbn. by case_match. }
  rewrite E. cbn. unfold accept_body. destruct Ef as [-> ->].
  rewrite (proj2 (Z.eqb_neq _ _) Hm), (proj2 (Z.leb_le _ _) Hres). by eexists.
Qed.

(** ([run_accept_loop], functional): completions of the multishot request
    that announce more each start exactly one handler, for the accepted
    descriptor and in order, also when several are in one batch; the first
    completion that does not announce more ends the program. *)
Theorem accept_loop_serves h op spawned cs :
  ref_count op = 1 ->
  Forall (fun c => is_timeout_cqe c = false /\ Z.land (cqe_fl c) ioring_cqe_f_more <> 0 /\ 0 <= cqe_res c) cs ->
  (exists op', fold_left (accept_cqe h) cs (Serving op spawned) = Serving op' (spawned ++ (cqe_res <$> cs)) /\
     ref_count op' = 1) /\
  (forall c cs', is_timeout_cqe c = false -> Z.land (cqe_fl c) ioring_cqe_f_more = 0 ->
     fold_left (accept_cqe h) (cs ++ c :: cs') (Serving op spawned) = Terminated (spawned ++ (cqe_res <$> cs))).
Proof.
  intros Hr Hcs. revert op spawned Hr.
  induction Hcs as [|c cs (Ht & Hm & Hres) _ IH]; intros op spawned Hr; cbn [fold_left app fmap list_fmap].
  - rewrite app_nil_r. split; [by exists op|]. intros c cs' Ht Hm.
    assert (E : accept_cqe h (Serving op spawned) c = Terminated spawned).
    { unfold accept_cqe. change (release_ref (complete op c)) with (complete_ref op c).
      rewrite complete_refs, Hr. change (u8 (1 - 1) =? 0) with true. unfold accept_body.
      by rewrite complete_flags, Hm. }
    rewrite E. clear. induction cs' as [|c' cs' IH]; done.
  - destruct (accept_cqe_serves h op spawned c Hr Ht Hm Hres) as (op' & -> & Hr').
    destruct (IH op' (spawned ++ [cqe_res c]) Hr') as [H1 H2]. rewrite <- app_assoc in H1, H2. done.
Qed.

Definition sample_accept : Operation := MkOp (Some 1) 0 0 1 0 0 (Timeout_ms 0).

(** An instance. *)
Lemma accept_loop_serves_witness :
  exists op', fold_left (accept_cqe 1) [MkCqe 16 8 2; MkCqe 16 9 2] (Serving sample_accept []) = Serving op' [8; 9].
Proof.
  destruct (accept_loop_serves 1 sample_accept [] [MkCqe 16 8 2; MkCqe 16 9 2] eq_refl) as [(op' & E & _) _].
  - repeat (apply Forall_cons; split); [by vm_compute..|]. constructor.
  - exists op'. exact E.
Defined.

(** ** The acceptor on the ring *)

(** The operation of an [AcceptorPromise], with the handle the coroutine sets. *)
Definition AcceptorPromise (h : Z) : Operation := MkOp (Some h) 0 0 1 0 0 (Timeout_ms 0).

(** [prep_accept]: the operation is at [a]. *)
Definition prep_accept (consume : Z -> Z) (a ts_addr fd : Z) (current_ring : option Ring) : eff Ring :=
  ring ← current current_ring; submit consume a ts_addr (io_uring_prep_multishot_accept fd 0 0 0) ring.

(** [run_accept_loop] up to the first suspension of its loop.  The frame of the
    coroutine, with the promise's operation, has come into being. *)
Definition run_accept_loop (consume : Z -> Z) (socket_res : Z) (bind_res listen_res : Z -> Z) (a ts_addr h : Z)
    (current_ring : option Ring) : list libc_call * eff Ring :=
  let current_ring := (fun R => set_ops (<[a := AcceptorPromise h]> (ops R)) R) <$> current_ring in
  let '(tr, socket_fd) := init_accept_socket socket_res bind_res listen_res in
  if socket_fd <? 0 then (tr, Ring.Terminated) else (tr, prep_accept consume a ts_addr socket_fd current_ring).

(** What the ring sees of the coroutine [h] of an acceptor with its operation at
    [a]: resuming it runs the body of its loop, and the handlers it starts leave its
    operation alone.  [started] are the descriptors whose handlers were started, as they
    show in the state; completing an operation does not change them. *)
Record accept_coroutine (resume : Z -> Ring -> Ring) (started : Ring -> list Z) (a h : Z) : Prop := AcceptCoroutine {
  ac_body : forall R op op' fds, ops R !! a = Some op -> accept_body h op [] = Serving op' fds ->
    ops (resume h R) !! a = Some op' /\ started (resume h R) = started R ++ fds;
  ac_log : forall R, resumed (resume h R) = resumed R;
  ac_started : forall R m g r, started (log_resume g r (set_ops m R)) = started R
}.

(** The completions of a multishot accept that stays armed. *)
Definition accepted (a : Z) (c : io_uring_cqe) : Prop :=
  cqe_user_data c = a /\ Z.land (cqe_fl c) ioring_cqe_f_more <> 0 /\ 0 <= cqe_res c.

Section Serving.
Context (ev_op : Z) (resume : Z -> Ring -> Ring) (started : Ring -> list Z) (a h : Z).
Context (HC : accept_coroutine resume started a h).
Context (Ha : 0 < a < 2 ^ 64) (He : a mod 2 = 0) (Hev : a <> ev_op).

Lemma accepted_op c : accepted a c -> cqe_op c = a.
Proof. destruct c as [d r f]. intros [Hd _]. cbn in Hd. subst d. by destruct (tagged_address a r f ltac:(lia) He) as (-> & _). Qed.

Lemma accepted_body op c :
  ref_count op = 1 -> handle op = Some h -> accepted a c ->
  ref_count (complete_ref op c) = 0 /\ handle (complete_ref op c) = Some h /\ result (complete_ref op c) = cqe_res c /\
  exists op', accept_body h (complete_ref op c) [] = Serving op' [cqe_res c] /\ ref_count op' = 1 /\ handle op' = Some h.
Proof.
  intros Hr Hh (Hd & Hm & Hres). destruct c as [d r f]. cbn in Hd, Hm, Hres. subst d.
  destruct (tagged_address a r f ltac:(lia) He) as (_ & Ht & _ & _).
  assert (Er : result (complete_ref op (MkCqe a r f)) = r).
  { rewrite complete_io_result by done. cbn [cqe_res]. destruct (Z.eqb_spec r (- e_canceled)) as [Ec|]; [unfold e_canceled in Ec; lia|done]. }
  rewrite complete_refs, Hr, complete_handle, Hh, Er. split; [done|]. split; [done|]. split; [done|].
  unfold accept_body. rewrite Er, complete_flags by done. cbn [cqe_fl cqe_res].
  rewrite (proj2 (Z.eqb_neq _ _) Hm), (proj2 (Z.leb_le _ _) Hres). by eexists.
Qed.

Lemma accepted_cqe R need op c :
  ops R !! a = Some op -> ref_count op = 1 -> handle op = Some h -> accepted a c ->
  exists R' op', process_cqe ev_op resume (R, need) c = Done (R', need) /\ ops R' !! a = Some op' /\
    ref_count op' = 1 /\ handle op' = Some h /\ resumed R' = resumed R ++ [(h, cqe_res c)] /\
    started R' = started R ++ [cqe_res c].
Proof.
  intros Hop Hr Hh Hc. destruct (accepted_body op c Hr Hh Hc) as (E0 & Eh & Er & op' & Eb & Hr' & Hh').
  unfold process_cqe. rewrite (accepted_op c Hc), (proj2 (Z.eqb_neq _ _) Hev), (proj2 (Z.eqb_neq a 0)), Hop by lia.
  change (release_ref (complete op c)) with (complete_ref op c). rewrite E0. cbn [Z.eqb]. unfold call_handle. rewrite Eh.
  match goal with |- context [resume h ?X] => destruct (ac_body _ _ _ _ HC X _ _ _ (lookup_insert_eq _ _ _) Eb) as [E1 E2] end.
  eexists _, op'. split; [done|]. split; [done|]. do 2 (split; [done|]). split; [by rewrite (ac_log _ _ _ _ HC), Er|].
  by rewrite E2, (ac_started _ _ _ _ HC).
Qed.

Lemma accepted_cqes cs : forall R need op,
  ops R !! a = Some op -> ref_count op = 1 -> handle op = Some h ->
  Forall (fun c => accepted a c \/ cqe_op c = ev_op) cs ->
  exists R' need' op', process_cqes ev_op resume cs (R, need) = Done (R', need') /\ ops R' !! a = Some op' /\
    ref_count op' = 1 /\ handle op' = Some h /\
    resumed R' = resumed R ++ ((fun c => (h, cqe_res c)) <$> cqes_of a cs) /\
    started R' = started R ++ (cqe_res <$> cqes_of a cs).
Proof.
  induction cs as [|c cs IH]; intros R need op Hop Hr Hh Hcs.
  { eexists R, need, op. cbn. by rewrite !app_nil_r. }
  apply Forall_cons in Hcs as [[Hc|Hc] Hcs]; cbn [process_cqes].
  - destruct (accepted_cqe R need op c Hop Hr Hh Hc) as (R1 & op1 & -> & Hop1 & Hr1 & Hh1 & Hl & Hst). cbn [mbind eff_bind].
    destruct (IH R1 need op1 Hop1 Hr1 Hh1 Hcs) as (R' & need' & op' & -> & ? & ? & ? & Hl' & Hst').
    eexists R', need', op'. rewrite Hl', Hl, Hst', Hst, <- !app_assoc. unfold cqes_of. rewrite filter_cons_True by (by apply accepted_op). done.
  - unfold process_cqe. rewrite Hc, Z.eqb_refl. cbn [mbind eff_bind].
    destruct (IH R true op Hop Hr Hh Hcs) as (R' & need' & op' & -> & ? & ? & ? & Hl' & Hst').
    eexists R', need', op'. rewrite Hl', Hst'. unfold cqes_of. rewrite filter_cons_False by congruence. done.
Qed.

(** Any other completion ends the program. *)
Lemma refused_body op c :
  ref_count op = 1 -> cqe_user_data c = a ->
  Z.land (cqe_fl c) ioring_cqe_f_more = 0 \/ (cqe_res c < 0 /\ cqe_res c <> - e_canceled) ->
  handle (complete_ref op c) = handle op /\ ref_count (complete_ref op c) = 0 /\
  accept_body h (complete_ref op c) [] = Terminated [].
Proof.
  intros Hr Hd Hbad. destruct c as [d r f]. cbn in Hd, Hbad. subst d.
  destruct (tagged_address a r f ltac:(lia) He) as (_ & Ht & _ & _).
  rewrite complete_handle, complete_refs, Hr. split; [done|]. split; [done|].
  unfold accept_body. rewrite complete_flags by done. cbn [cqe_fl].
  destruct (Z.eqb_spec (Z.land f ioring_cqe_f_more) 0) as [|Hm]; [done|]. destruct Hbad as [|[Hneg Hc]]; [done|].
  rewrite complete_io_result by done. cbn [cqe_res]. rewrite (proj2 (Z.eqb_neq _ _) Hc), (proj2 (Z.leb_gt _ _)); [done|lia].
Qed.
End Serving.


(** A coroutine whose handlers post themselves to the ring, the one of the descriptor
    [fd] being the coroutine [fd]. *)
Definition posting_handlers (a h h' : Z) (R : Ring) : Ring :=
  if h' =? h then
    match ops R !! a with
    | Some op => match accept_body h op [] with
                 | Serving op' fds => set_external_tasks (external_tasks_ R ++ (Some <$> fds)) (set_ops (<[a := op']> (ops R)) R)
                 | Terminated _ => R
                 end
    | None => R
    end
  else R.

Definition posted_handlers (R : Ring) : list Z := omap id (external_tasks_ R).

Lemma posting_handlers_accept a h : accept_coroutine (posting_handlers a h) posted_handlers a h.
Proof.
  split; unfold posting_handlers, posted_handlers; rewrite ?Z.eqb_refl.
  - intros R op op' fds -> ->. split; [apply lookup_insert_eq|]. cbn. rewrite omap_app. f_equal.
    clear. induction fds as [|fd fds IH]; [done|]. cbn. by rewrite IH.
  - intros R. by repeat case_match.
  - done.
Qed.

