(* ===== verification/Ops.v ===== *)
(** ppnt-io: awaitable operations and leased buffers.

    [src/ppnt-io/src/ops.ixx]: the awaiters [AsyncOp] and [AsyncBufferOp] around
    [Ring::submit], the operations that are built from them, and [IOResult], which
    owns a buffer of the ring until it is destroyed.  An awaiter lives at an address
    of a coroutine frame, which is where its [Operation] is in the ring's [ops]. *)

From stdpp Require Import gmap relations strings.
From S2P Require Import Prelude Uring Ring Net.

Local Open Scope Z_scope.

(** ** [AsyncOp] *)

(** The constructor: the member initialisers, then [reset]. *)
Definition AsyncOp (timeout_ms : Z) : Operation :=
  Operation_reset timeout_ms (MkOp None 0 0 1 0 0 (Timeout_ms 0)).

Definition with_handle (h : Z) (op : Operation) : Operation :=
  MkOp (Some h) (result op) (op_bid op) (ref_count op) (op_flags op) (cqe_flags op) (timeout op).

(** [await_suspend] of the awaiter at [a]. *)
Definition await_suspend (consume : Z -> Z) (a ts_addr h : Z) (prep : sqe -> sqe) (R : Ring) : eff Ring :=
  match ops R !! a with
  | None => Dangling
  | Some op => submit consume a ts_addr prep (set_ops (<[a := with_handle h op]> (ops R)) R)
  end.

Definition await_resume (op : Operation) : Z := result op.

(** [DelegateOpAwaiter::await_resume]. *)
Definition delegate_resume {A} (f : Z -> A) (op : Operation) : A := f (await_resume op).

(** ** The operations

    What each writes to its submission entry. *)

Definition async_read_raw (fd buf nbytes offset : Z) : sqe -> sqe := io_uring_prep_read fd buf nbytes offset.
Definition async_write_raw (fd buf nbytes offset : Z) : sqe -> sqe := io_uring_prep_write fd buf nbytes offset.
Definition async_close_raw (fd : Z) : sqe -> sqe := io_uring_prep_close fd.
Definition async_connect_raw (fd addr addrlen : Z) : sqe -> sqe := io_uring_prep_connect fd addr addrlen.
Definition async_accept (fd addr addrlen flags : Z) : sqe -> sqe := io_uring_prep_accept fd addr addrlen flags.
Definition async_timeout_raw (ts count flags : Z) : sqe -> sqe := io_uring_prep_timeout ts count flags.

(** [async_recv_bs]: the kernel chooses a buffer of the group. *)
Definition async_recv_bs (fd nbytes flags : Z) (s : sqe) : sqe :=
  sqe_set_buf_group BGID (sqe_or_flags IOSQE_BUFFER_SELECT (io_uring_prep_recv fd 0 nbytes flags s)).

Definition async_read : Operation -> Result Z := delegate_resume map_async_read_result.
Definition async_write : Operation -> Result Z := delegate_resume map_async_write_result.
Definition async_connect : Operation -> Result () := delegate_resume map_async_connect_result.
Definition delay : Operation -> Result () := delegate_resume map_delay_result.

(** ** From the awaiter to its result *)

(** The completions of an operation with the timeout [t], in the order in which they
    come: one, or that of the operation and that of its timer, which fires only if
    it cancels the operation. *)
Definition completions (a t : Z) (io : io_uring_cqe) (cs : list io_uring_cqe) : Prop :=
  cqe_user_data io = a /\
  if t =? 0 then cs = [io]
  else exists tm, cqe_user_data tm = Z.lor a 1 /\ (cs = [io; tm] \/ cs = [tm; io]) /\
    (cqe_res tm = - e_time -> cqe_res io = - e_canceled).

(** The timer of the operation fired. *)
Definition timed_out (cs : list io_uring_cqe) : bool :=
  existsb (fun c => is_timeout_cqe c && (cqe_res c =? - e_time)) cs.

(** The number the coroutine reads. *)
Definition awaited_value (io : io_uring_cqe) (cs : list io_uring_cqe) : Z :=
  if cqe_res io =? - e_canceled then if timed_out cs then - e_time else 0 else cqe_res io.

Lemma completions_result a t io cs op :
  0 <= a < 2 ^ 64 -> a mod 2 = 0 -> completions a t io cs -> result op = 0 ->
  result (fold_left complete_ref cs op) = awaited_value io cs.
Proof.
  intros Ha He [Hio Hcs] Hr. destruct io as [d r f]. cbn in Hio. subst d.
  destruct (tagged_address a r f Ha He) as (_ & E1 & _ & _). unfold awaited_value, timed_out.
  destruct (t =? 0).
  - subst cs. cbn [fold_left existsb cqe_res]. rewrite complete_io_result, Hr, E1 by done. cbn. by destruct (r =? - e_canceled).
  - destruct Hcs as ([d' r' f'] & Htm & [-> | ->] & Hfire); cbn in Htm; subst d';
      destruct (tagged_address a r' f' Ha He) as (_ & _ & _ & E2); cbn [fold_left existsb cqe_res] in *;
      repeat rewrite ?(complete_timeout_result _ _ E2), ?(complete_io_result _ _ E1); rewrite Hr, E1, E2; cbn [cqe_res andb orb];
      destruct (Z.eqb_spec r (- e_canceled)), (Z.eqb_spec r' (- e_time)); try done; by destruct n; auto.
Qed.

Lemma completions_length a t io cs : completions a t io cs -> length cs = if t =? 0 then 1%nat else 2%nat.
Proof. intros [_ H]. destruct (t =? 0); [by subst|]. by destruct H as (tm & _ & [-> | ->] & _). Qed.

Lemma complete_refs_fold cs op :
  Z.of_nat (length cs) <= ref_count op < 256 ->
  ref_count (fold_left complete_ref cs op) = ref_count op - Z.of_nat (length cs).
Proof.
  revert op. induction cs as [|c cs IH]; intros op Hl; cbn [fold_left length] in *; [lia|].
  assert (E : ref_count (complete_ref op c) = ref_count op - 1) by (rewrite complete_refs; unfold u8; rewrite Z.mod_small; lia).
  rewrite IH; lia.
Qed.

Lemma complete_handle_fold cs op : handle (fold_left complete_ref cs op) = handle op.
Proof. revert op. induction cs as [|c cs IH]; intros op; cbn [fold_left]; [done|]. by rewrite IH, complete_handle. Qed.

Section Await.
Context (consume : Z -> Z) (ev_op : Z) (resume : Z -> Ring -> Ring) (HF : resume_frame resume).
Context (a ts_addr : Z) (Ha : 0 < a < 2 ^ 64) (He : a mod 2 = 0) (Hev : a <> ev_op).

(** The operation once it is queued. *)
Definition queued_op (h t : Z) : Operation :=
  let op := with_handle h (AsyncOp t) in if t =? 0 then op else linked_op op.

(** The entries it puts into the submission queue. *)
Definition queued_entries (t : Z) (e : sqe) (link : sqe) : list sqe :=
  if t =? 0 then [io_uring_sqe_set_data a e]
  else [sqe_or_flags IOSQE_IO_LINK (io_uring_sqe_set_data a e);
        io_uring_sqe_set_data (Z.lor a 1) (io_uring_prep_link_timeout ts_addr 0 link)].

Lemma await_suspend_queues h t prep R :
  0 <= t < 2 ^ 32 -> sq_wf (sq R) -> Z.of_nat (length (pending (sq R))) + 1 < ring_entries (sq R) ->
  ops R !! a = Some (AsyncOp t) ->
  exists R1 s link, await_suspend consume a ts_addr h prep R = Done R1 /\
    pending (sq R1) = pending (sq R) ++ queued_entries t (prep s) link /\
    ops R1 = <[a := queued_op h t]> (ops R).
Proof.
  intros Ht W Hroom Hop. unfold await_suspend, queued_entries, queued_op. rewrite Hop.
  set (R0 := set_ops _ R). assert (Hop0 : ops R0 !! a = Some (with_handle h (AsyncOp t))) by apply lookup_insert_eq.
  destruct (Z.eqb_spec t 0) as [->|Hne].
  - destruct (submit_plain consume a ts_addr prep R0 _ W ltac:(cbn; lia) Hop0 eq_refl) as (R1 & s & -> & Ho & Hp).
    exists R1, s, s. by rewrite Ho, Hp.
  - destruct (submit_linked consume a ts_addr prep R0 _ W ltac:(cbn; lia) Hop0 ltac:(cbn; lia)) as (R1 & s & l & -> & Ho & Hp).
    exists R1, s, l. rewrite Ho, Hp. unfold R0. cbn [ops set_ops]. by rewrite insert_insert_eq.
Qed.

(** The last completions of the operation come, those in [pre] have come before. *)
Lemma await_completes h t io pre cs R :
  completions a t io (pre ++ cqes_of a cs) -> cqes_of a cs <> [] -> batch_wf ev_op R cs ->
  ops R !! a = Some (fold_left complete_ref pre (queued_op h t)) ->
  exists R' need, process_cqes ev_op resume cs (R, false) = Done (R', need) /\
    log_of h R' = log_of h R ++ [awaited_value io (pre ++ cqes_of a cs)].
Proof.
  intros Hc Hne W Hop. destruct (process_cqes_spec ev_op resume HF cs R false W) as (R' & E & HA & _).
  assert (Hrc : ref_count (queued_op h t) = Z.of_nat (length (pre ++ cqes_of a cs))).
  { rewrite (completions_length a t io _ Hc). unfold queued_op. by destruct (t =? 0). }
  assert (Hres : result (queued_op h t) = 0) by (unfold queued_op; by destruct (t =? 0)).
  assert (Hh : handle (queued_op h t) = Some h) by (unfold queued_op; by destruct (t =? 0)).
  assert (Hlen : (length (pre ++ cqes_of a cs) <= 2)%nat) by (rewrite (completions_length a t io _ Hc); case_match; lia).
  exists R', (false || existsb (fun c => cqe_op c =? ev_op) cs). split; [exact E|].
  assert (Ht : targeted ev_op cs a).
  { split; [done|]. split; [lia|]. destruct (cqes_of a cs) as [|c l] eqn:Ec; [done|]. exists c.
    assert (Hin : c ∈ cqes_of a cs) by (rewrite Ec; left). unfold cqes_of in Hin. apply list_elem_of_filter in Hin as [? ?]. done. }
  rewrite (HA h a _ Ht Hop) by (by rewrite complete_handle_fold). f_equal. unfold batch_log.
  rewrite complete_refs_fold, Hrc by (rewrite Hrc; rewrite length_app; rewrite length_app in Hlen; lia).
  rewrite length_app, (proj2 (Z.eqb_eq _ _)) by lia. rewrite <- fold_left_app. f_equal.
  apply (completions_result a t); [lia|done|done|done].
Qed.

End Await.

(** What [co_await async_read(...)] is, in terms of the completions. *)
Definition read_outcome (io : io_uring_cqe) (cs : list io_uring_cqe) : Result Z :=
  if cqe_res io =? - e_canceled then
    if timed_out cs then Err (MkError (EC generic_category e_time) [] None) else Ok 0
  else if 0 <=? cqe_res io then Ok (cqe_res io)
  else Err (MkError (EC generic_category (- cqe_res io)) [] None).

Lemma read_outcome_awaited io cs : map_async_read_result (awaited_value io cs) = read_outcome io cs.
Proof.
  unfold map_async_read_result, common_async_int_mapper, awaited_value, read_outcome.
  destruct (cqe_res io =? - e_canceled); [by destruct (timed_out cs)|done].
Qed.

(** C11 ([AsyncOp], [DelegateOpAwaiter] and [Ring], functional): an operation that is
    awaited, with or without a timeout, is queued with its data and, if it has a
    timeout, linked to a timer; once all its completions have come, in whatever order
    and batches, its coroutine is resumed once, and [co_await] gives the number the
    kernel reported, its error, or the timeout error.  An operation that is cancelled
    while its timer did not fire gives a successful 0.  Two entries of the submission
    queue have to be free: with a single one the entry of the timer is a null
    pointer that [Ring::submit] (driver.ixx:73) writes through. *)
Theorem operation_result consume ev_op resume a ts_addr h t prep R :
  resume_frame resume -> 0 < a < 2 ^ 64 -> a mod 2 = 0 -> a <> ev_op -> 0 <= t < 2 ^ 32 ->
  sq_wf (sq R) -> Z.of_nat (length (pending (sq R))) + 1 < ring_entries (sq R) -> ops R !! a = Some (AsyncOp t) ->
  (exists R1 s link, await_suspend consume a ts_addr h prep R = Done R1 /\
     pending (sq R1) = pending (sq R) ++ queued_entries a ts_addr t (prep s) link /\
     ops R1 = <[a := queued_op h t]> (ops R)) /\
  (forall io pre cs R2,
     completions a t io (pre ++ cqes_of a cs) -> cqes_of a cs <> [] -> batch_wf ev_op R2 cs ->
     ops R2 !! a = Some (fold_left complete_ref pre (queued_op h t)) ->
     exists R3 need v, process_cqes ev_op resume cs (R2, false) = Done (R3, need) /\
       log_of h R3 = log_of h R2 ++ [v] /\ map_async_read_result v = read_outcome io (pre ++ cqes_of a cs)).
Proof.
  intros HF Ha He Hev Ht W Hroom Hop. split; [by apply await_suspend_queues|].
  intros io pre cs R2 Hc Hne Wb Hop2.
  destruct (await_completes ev_op resume HF a Ha He Hev h t io pre cs R2 Hc Hne Wb Hop2) as (R3 & need & E & Hlog).
  exists R3, need, (awaited_value io (pre ++ cqes_of a cs)). split; [done|]. split; [done|]. apply read_outcome_awaited.
Qed.

(** A read with a timeout of 1500 ms whose timer fires. *)
Definition reading_ring (op : Operation) : Ring := MkRing sample_sq [] {[16 := op]} [] 0 false [] 0 None false.

Lemma reading_batch : batch_wf 1024 (reading_ring (queued_op 7 1500)) timed_out_batch.
Proof.
  split.
  - intros a ->%timed_out_targets. exists (queued_op 7 1500). by vm_compute.
  - intros a b opa opb ->%timed_out_targets ->%timed_out_targets. done.
Qed.

(** Witness of C11. *)
Lemma operation_result_witness :
  exists R3 need v,
    process_cqes 1024 drop_own timed_out_batch (reading_ring (queued_op 7 1500), false) = Done (R3, need) /\
    log_of 7 R3 = [v] /\ map_async_read_result v = Err (MkError (EC generic_category e_time) [] None).
Proof.
  destruct (operation_result (fun n => n) 1024 drop_own 16 24 7 1500 (async_read_raw 5 4096 100 (-1))
    (reading_ring (AsyncOp 1500)) drop_own_frame) as [_ H]; [lia|reflexivity|lia|lia| |vm_compute; reflexivity|reflexivity|].
  - constructor; [exists 2; by vm_compute|done|by vm_compute|by vm_compute|by vm_compute].
  - destruct (H (MkCqe 16 (- e_canceled) 0) [] timed_out_batch (reading_ring (queued_op 7 1500))) as (R3 & need & v & E & El & Ev).
    + split; [reflexivity|]. exists (MkCqe 17 (- e_time) 0). split; [reflexivity|]. split; [by left|done].
    + done.
    + apply reading_batch.
    + reflexivity.
    + exists R3, need, v. split; [exact E|]. split; [exact El|exact Ev].
Defined.

(** ** [IOResult]

    A result whose buffer was chosen by the kernel; it holds the buffer, given by its
    address and its id, until it is destroyed.  [None] is the null pointer. *)

Record IOResult := MkIO { io_result : Z; buffer : option Z; io_bid : Z }.

(** [AsyncBufferOp::await_resume]. *)
Definition buffer_resume (R : Ring) (op : Operation) : IOResult :=
  if (0 <=? result op) && negb (Z.land (op_flags op) F_HAS_BUFFER =? 0)
  then MkIO (result op) (Some (get_buffer (op_bid op) R)) (op_bid op)
  else MkIO (result op) None 0.

(** The move constructor: the new object and what is left of the other. *)
Definition IOResult_move (other : IOResult) : IOResult * IOResult :=
  (MkIO (io_result other) (buffer other) (io_bid other), MkIO (io_result other) None (io_bid other)).

Definition IOResult_destroy (this : IOResult) (R : Ring) : eff Ring :=
  match buffer this with Some _ => recycle_buffer (fun n => n) (io_bid this) R | None => Done R end.

(** The move assignment, to another object than itself. *)
Definition IOResult_assign (this other : IOResult) (R : Ring) : eff (IOResult * IOResult * Ring) :=
  R ← IOResult_destroy this R;
  Done (MkIO (io_result other) (buffer other) (io_bid other), MkIO (io_result other) None (io_bid other), R).

(** [operator bool], [error] and [data]. *)
Definition IOResult_ok (this : IOResult) : bool := 0 <=? io_result this.

Definition IOResult_error (this : IOResult) : Error := MkError (EC generic_category (- io_result this)) [] None.

Definition IOResult_data (this : IOResult) : option (Z * Z) :=
  match buffer this with
  | Some p => if io_result this <=? 0 then None else Some (p, io_result this)
  | None => None
  end.

(** ** The life of the buffers *)

(** The buffers the entries of a map hold. *)
Definition leases {A} (f : A -> list Z) (m : gmap Z A) : list Z := map_to_list m ≫= (fun p => f (snd p)).

(** A completed operation that was not resumed yet, and an [IOResult]. *)
Definition op_lease (op : Operation) : list Z :=
  if Z.land (op_flags op) F_HAS_BUFFER =? 0 then [] else [op_bid op].
Definition io_lease (r : IOResult) : list Z := match buffer r with Some _ => [io_bid r] | None => [] end.

Record lease_state := MkLease { l_ring : Ring; l_head : Z; l_objs : gmap Z IOResult }.

Definition held (st : lease_state) : list Z := leases op_lease (ops (l_ring st)) ++ leases io_lease (l_objs st).

Definition set_op (a : Z) (op : Operation) (R : Ring) : Ring := set_ops (<[a := op]> (ops R)) R.

(** The flags of a completion that carries the buffer [b]. *)
Definition buffer_flags (b : Z) : Z := Z.lor ioring_cqe_f_buffer (Z.shiftl b 16).

Definition address (a : Z) : Prop := 0 < a < 2 ^ 64 /\ a mod 2 = 0.

Inductive lease_step : lease_state -> lease_state -> Prop :=
| lease_await R head objs a op :
    ops R !! a = None -> op_flags op = 0 -> lease_step (MkLease R head objs) (MkLease (set_op a op R) head objs)
| lease_data R head objs a op br e rest t io cs :
    (* the kernel fills the first buffer of the ring *)
    address a -> ops R !! a = Some op -> Z.land (op_flags op) F_HAS_BUFFER = 0 ->
    buf_ring_ R = Some br -> available br head = e :: rest ->
    completions a t io cs -> 0 <= cqe_res io -> cqe_fl io = buffer_flags (bid e) ->
    lease_step (MkLease R head objs) (MkLease (set_op a (fold_left complete_ref cs op) R) (u16 (head + 1)) objs)
| lease_no_data R head objs a op t io cs :
    address a -> ops R !! a = Some op -> Z.land (op_flags op) F_HAS_BUFFER = 0 ->
    completions a t io cs -> Z.land (cqe_fl io) ioring_cqe_f_buffer = 0 ->
    lease_step (MkLease R head objs) (MkLease (set_op a (fold_left complete_ref cs op) R) head objs)
| lease_resume R head objs a op i :
    ops R !! a = Some op -> objs !! i = None ->
    lease_step (MkLease R head objs)
      (MkLease (set_ops (delete a (ops R)) R) head (<[i := buffer_resume R op]> objs))
| lease_move R head objs i j r :
    objs !! i = Some r -> objs !! j = None ->
    lease_step (MkLease R head objs)
      (MkLease R head (<[j := fst (IOResult_move r)]> (<[i := snd (IOResult_move r)]> objs)))
| lease_assign R head objs i j this other this' other' R' :
    i <> j -> objs !! i = Some this -> objs !! j = Some other ->
    IOResult_assign this other R = Done (this', other', R') ->
    lease_step (MkLease R head objs) (MkLease R' head (<[i := this']> (<[j := other']> objs)))
| lease_destroy R head objs i r R' :
    objs !! i = Some r -> IOResult_destroy r R = Done R' ->
    lease_step (MkLease R head objs) (MkLease R' head (delete i objs)).

Lemma leases_delete {A} (f : A -> list Z) m k x : m !! k = Some x -> leases f m ≡ₚ f x ++ leases f (delete k m).
Proof. intros Hk. unfold leases. by rewrite <- (map_to_list_delete m k x Hk). Qed.

Lemma leases_fresh {A} (f : A -> list Z) m k x : m !! k = None -> leases f (<[k := x]> m) ≡ₚ f x ++ leases f m.
Proof. intros Hk. unfold leases. by rewrite (map_to_list_insert m k x Hk). Qed.

Lemma leases_insert {A} (f : A -> list Z) m k x y :
  m !! k = Some x -> f x ++ leases f (<[k := y]> m) ≡ₚ f y ++ leases f m.
Proof.
  intros Hk. rewrite (leases_delete f m k x Hk), (leases_delete f (<[k := y]> m) k y) by apply lookup_insert_eq.
  rewrite delete_insert_eq. solve_Permutation.
Qed.

Lemma pool_wf_perm mem R head l l' : l ≡ₚ l' -> pool_wf mem (R, head, l) -> pool_wf mem (R, head, l').
Proof. intros E (br & ids & H). exists br, ids. by rewrite <- E. Qed.

Lemma pool_wf_bid mem R head b l : pool_wf mem (R, head, l) -> b ∈ l -> 0 <= b < 512.
Proof. intros (br & ids & _ & _ & _ & _ & _ & _ & _ & Hp). by apply (pool_ids ids l b Hp). Qed.

Lemma get_buffer_block mem R head b l :
  pool_wf mem (R, head, l) -> b ∈ l -> get_buffer b R = mem + b * BUF_SIZE.
Proof.
  intros W Hb. pose proof (pool_wf_bid _ _ _ _ _ W Hb). destruct W as (br & ids & _ & _ & Hm & _).
  unfold get_buffer, u32. rewrite Hm, Z.mod_small; [done|]. unfold BUF_SIZE. lia.
Qed.

(** A held buffer can be given back. *)
Lemma recycle_lease mem R head b l :
  pool_wf mem (R, head, b :: l) ->
  exists R', recycle_buffer (fun n => n) b R = Done R' /\ pool_wf mem (R', head, l) /\ ops R' = ops R.
Proof.
  intros W. pose proof W as (br & ids & Hbr & Hu & _).
  assert (E : exists R', recycle_buffer (fun n => n) b R = Done R' /\ ops R' = ops R)
    by (unfold recycle_buffer; rewrite Hu, Hbr; by eexists).
  destruct E as (R' & E & Ho). exists R'. split; [done|]. split; [|done].
  by apply (pool_step_wf mem _ _ W), (recycle R R' head [] b l).
Qed.

Lemma buffer_flags_spec b :
  0 <= b < 512 -> u16 (Z.shiftr (buffer_flags b) 16) = b /\ Z.land (buffer_flags b) ioring_cqe_f_buffer <> 0.
Proof.
  intros Hb. unfold buffer_flags, ioring_cqe_f_buffer. split.
  - rewrite Z.shiftr_lor, Z.shiftr_shiftl_l, Z.sub_diag, Z.shiftl_0_r by lia. change (Z.shiftr 1 16) with 0. cbn [Z.lor].
    unfold u16. apply Z.mod_small. lia.
  - rewrite Z.land_lor_distr_l. change (Z.land 1 1) with 1. intros E%Z.lor_eq_0_iff. by destruct E.
Qed.

(** The timer of an operation leaves its buffer as it is. *)
Lemma complete_timer op c :
  is_timeout_cqe c = true -> op_flags (complete_ref op c) = op_flags op /\ op_bid (complete_ref op c) = op_bid op.
Proof. intros E. unfold complete_ref, release_ref, complete. rewrite E. by destruct (_ =? _). Qed.

Lemma complete_io_buffer op c :
  is_timeout_cqe c = false -> cqe_res c <> - e_canceled ->
  if Z.land (cqe_fl c) ioring_cqe_f_buffer =? 0
  then op_flags (complete_ref op c) = op_flags op
  else op_flags (complete_ref op c) = Z.lor (op_flags op) F_HAS_BUFFER /\
       op_bid (complete_ref op c) = u16 (Z.shiftr (cqe_fl c) 16).
Proof.
  intros E Hc. unfold complete_ref, release_ref, complete. rewrite E, (proj2 (Z.eqb_neq _ _) Hc). cbn [negb].
  by destruct (_ =? 0).
Qed.

Lemma complete_io_plain op c :
  is_timeout_cqe c = false -> Z.land (cqe_fl c) ioring_cqe_f_buffer = 0 -> op_flags (complete_ref op c) = op_flags op.
Proof. intros E Hc. unfold complete_ref, release_ref, complete. rewrite E, Hc. cbn. by destruct (_ =? _). Qed.

(** The kinds of the completions of an operation. *)
Lemma completions_kinds a t io cs :
  address a -> completions a t io cs ->
  is_timeout_cqe io = false /\
  (cs = [io] \/ exists tm, is_timeout_cqe tm = true /\ (cs = [io; tm] \/ cs = [tm; io]) /\
     (cqe_res tm = - e_time -> cqe_res io = - e_canceled)).
Proof.
  intros [Ha He] [Hio Hcs]. destruct io as [d r f]. cbn in Hio. subst d.
  destruct (tagged_address a r f ltac:(lia) He) as (_ & E1 & _ & _). split; [done|].
  destruct (t =? 0); [by left|]. right. destruct Hcs as ([d' r' f'] & Htm & Hor & Hfire). cbn in Htm. subst d'.
  destruct (tagged_address a r' f' ltac:(lia) He) as (_ & _ & _ & E2). by exists (MkCqe (Z.lor a 1) r' f').
Qed.

Lemma flag_set fl : Z.land fl F_HAS_BUFFER = 0 -> Z.land (Z.lor fl F_HAS_BUFFER) F_HAS_BUFFER <> 0.
Proof. intros H. by rewrite Z.land_lor_distr_l, H. Qed.

Lemma completions_lease a t io cs op b :
  address a -> completions a t io cs -> 0 <= cqe_res io -> cqe_fl io = buffer_flags b -> 0 <= b < 512 ->
  Z.land (op_flags op) F_HAS_BUFFER = 0 ->
  op_lease (fold_left complete_ref cs op) = [b] /\ 0 <= result (fold_left complete_ref cs op).
Proof.
  intros Ha Hc Hres Hfl Hb Hf. destruct (completions_kinds _ _ _ _ Ha Hc) as (E1 & Hcs).
  destruct (buffer_flags_spec b Hb) as [Hbid Hbuf]. assert (Hne : cqe_res io <> - e_canceled) by (unfold e_canceled; lia).
  assert (Hio : forall o, Z.land (op_flags o) F_HAS_BUFFER = 0 ->
    op_lease (complete_ref o io) = [b] /\ result (complete_ref o io) = cqe_res io).
  { intros o Ho. pose proof (complete_io_buffer o io E1 Hne) as H. rewrite Hfl, (proj2 (Z.eqb_neq _ _) Hbuf) in H.
    destruct H as [H1 H2]. unfold op_lease. rewrite H1, H2, (proj2 (Z.eqb_neq _ _) (flag_set _ Ho)), Hbid.
    by rewrite complete_io_result, (proj2 (Z.eqb_neq _ _) Hne). }
  destruct Hcs as [-> |(tm & E2 & [-> | ->] & Hfire)]; cbn [fold_left].
  - destruct (Hio op Hf) as [-> ->]. done.
  - destruct (complete_timer (complete_ref op io) tm E2) as [H1 H2]. unfold op_lease. rewrite H1, H2.
    destruct (Hio op Hf) as [Hl Hr]. unfold op_lease in Hl. split; [done|].
    rewrite complete_timeout_result, Hr by done. destruct (Z.eqb_spec (cqe_res tm) (- e_time)); [by destruct Hne; auto|done].
  - destruct (complete_timer op tm E2) as [H1 _]. destruct (Hio (complete_ref op tm)) as [-> ->]; [by rewrite H1|done].
Qed.

Lemma completions_no_lease a t io cs op :
  address a -> completions a t io cs -> Z.land (cqe_fl io) ioring_cqe_f_buffer = 0 ->
  Z.land (op_flags op) F_HAS_BUFFER = 0 -> Z.land (op_flags (fold_left complete_ref cs op)) F_HAS_BUFFER = 0.
Proof.
  intros Ha Hc Hfl Hf. destruct (completions_kinds _ _ _ _ Ha Hc) as (E1 & Hcs).
  destruct Hcs as [-> |(tm & E2 & [-> | ->] & _)]; cbn [fold_left].
  - by rewrite complete_io_plain.
  - rewrite (proj1 (complete_timer (complete_ref op io) tm E2)). by rewrite complete_io_plain.
  - rewrite complete_io_plain by done. by rewrite (proj1 (complete_timer op tm E2)).
Qed.

(** ** Every buffer has one holder *)

Record lease_inv (mem : Z) (st : lease_state) : Prop := LeaseInv {
  li_pool : pool_wf mem (l_ring st, l_head st, held st);
  li_ops : forall a op, ops (l_ring st) !! a = Some op -> Z.land (op_flags op) F_HAS_BUFFER <> 0 -> 0 <= result op;
  li_ptr : forall i r p, l_objs st !! i = Some r -> buffer r = Some p -> p = mem + io_bid r * BUF_SIZE
}.

Lemma no_lease op : Z.land (op_flags op) F_HAS_BUFFER = 0 -> op_lease op = [].
Proof. unfold op_lease. by intros ->. Qed.

(** The holders of an operation's buffer. *)
Lemma held_op R head objs a op op' :
  ops R !! a = Some op -> op_lease op = [] ->
  held (MkLease (set_op a op' R) head objs) ≡ₚ op_lease op' ++ held (MkLease R head objs).
Proof.
  intros Ha Hl. unfold held, set_op. cbn [l_ring l_objs ops set_ops]. pose proof (leases_insert op_lease _ _ _ op' Ha) as E.
  rewrite Hl in E. cbn in E. by rewrite E, app_assoc.
Qed.

(** Destroying an object that holds what is not held elsewhere. *)
Lemma destroy_lease mem R head r l :
  pool_wf mem (R, head, io_lease r ++ l) ->
  exists R', IOResult_destroy r R = Done R' /\ pool_wf mem (R', head, l) /\ ops R' = ops R.
Proof.
  unfold io_lease, IOResult_destroy. destruct (buffer r); cbn [app]; intros W; [by apply recycle_lease|by exists R].
Qed.

(** An operation is placed or completed. *)
Lemma lease_inv_op mem R head head' objs a op' :
  lease_inv mem (MkLease R head objs) ->
  (forall op, ops R !! a = Some op -> op_lease op = []) ->
  pool_wf mem (R, head', op_lease op' ++ held (MkLease R head objs)) ->
  (Z.land (op_flags op') F_HAS_BUFFER <> 0 -> 0 <= result op') ->
  lease_inv mem (MkLease (set_op a op' R) head' objs).
Proof.
  intros [_ Hops Hptr] Hold W Hres. constructor; cbn [l_ring l_head l_objs] in *; [|intros b op|done].
  - change (pool_wf mem (R, head', held (MkLease (set_op a op' R) head' objs))). eapply pool_wf_perm; [|exact W].
    destruct (ops R !! a) as [op|] eqn:Hop; [symmetry; by apply (held_op R head' objs a op op' Hop), Hold|].
    unfold held, set_op. cbn [l_ring l_objs ops set_ops]. by rewrite leases_fresh, app_assoc.
  - unfold set_op. cbn [ops set_ops]. rewrite lookup_insert. case_decide; [by intros [= <-]|apply Hops].
Qed.

(** The objects change hands. *)
Lemma lease_inv_objs mem R R' head objs objs' :
  lease_inv mem (MkLease R head objs) -> ops R' = ops R ->
  pool_wf mem (R', head, leases io_lease objs' ++ leases op_lease (ops R)) ->
  (forall i r p, objs' !! i = Some r -> buffer r = Some p -> p = mem + io_bid r * BUF_SIZE) ->
  lease_inv mem (MkLease R' head objs').
Proof.
  intros [_ Hops _] Ho W Hptr. constructor; cbn [l_ring l_head l_objs] in *; [|by rewrite Ho|done].
  eapply pool_wf_perm; [|exact W]. unfold held. cbn [l_ring l_objs]. rewrite Ho. apply Permutation_app_comm.
Qed.

Lemma lease_data_inv mem R head objs a op br e rest t io cs :
  lease_inv mem (MkLease R head objs) ->
  address a -> ops R !! a = Some op -> Z.land (op_flags op) F_HAS_BUFFER = 0 ->
  buf_ring_ R = Some br -> available br head = e :: rest ->
  completions a t io cs -> 0 <= cqe_res io -> cqe_fl io = buffer_flags (bid e) ->
  lease_inv mem (MkLease (set_op a (fold_left complete_ref cs op) R) (u16 (head + 1)) objs).
Proof.
  intros I Ha Hop Hf Hbr Hav Hc Hres Hfl.
  assert (W : pool_wf mem (R, u16 (head + 1), bid e :: held (MkLease R head objs))).
  { eapply pool_step_wf; [exact (li_pool _ _ I)|]. by eapply kernel_pick. }
  assert (Hb : 0 <= bid e < 512) by (eapply pool_wf_bid; [exact W|left]).
  destruct (completions_lease a t io cs op (bid e) Ha Hc Hres Hfl Hb Hf) as [Hl Hr].
  apply (lease_inv_op mem R head); [done| |by rewrite Hl|done].
  intros op0 [= <-]%(eq_trans (eq_sym Hop)). by apply no_lease.
Qed.

Lemma lease_resume_inv mem R head objs a op i :
  lease_inv mem (MkLease R head objs) -> ops R !! a = Some op -> objs !! i = None ->
  lease_inv mem (MkLease (set_ops (delete a (ops R)) R) head (<[i := buffer_resume R op]> objs)).
Proof.
  intros [W Hops Hptr] Hop Hi. cbn [l_ring l_head l_objs] in *.
  assert (Hl : io_lease (buffer_resume R op) = op_lease op).
  { unfold io_lease, buffer_resume, op_lease. specialize (Hops a op Hop).
    destruct (Z.eqb_spec (Z.land (op_flags op) F_HAS_BUFFER) 0) as [E|E]; cbn [negb]; [by rewrite andb_false_r|].
    by rewrite (proj2 (Z.leb_le _ _) (Hops E)). }
  assert (E : held (MkLease R head objs) ≡ₚ
    held (MkLease (set_ops (delete a (ops R)) R) head (<[i := buffer_resume R op]> objs))).
  { unfold held. cbn [l_ring l_objs ops set_ops]. rewrite leases_fresh, Hl, (leases_delete op_lease _ a op Hop) by done.
    solve_Permutation. }
  constructor; cbn [l_ring l_head l_objs].
  - by apply (pool_wf_perm mem R head _ _ E).
  - intros b op0 Hb. cbn [ops set_ops] in Hb. apply lookup_delete_Some in Hb as [_ Hb]. by apply (Hops b).
  - intros j r p. rewrite lookup_insert. case_decide; [|by apply Hptr]. intros [= <-] Hp.
    assert (Hin : io_bid (buffer_resume R op) ∈ held (MkLease R head objs)).
    { unfold held. cbn [l_ring l_objs]. rewrite (leases_delete op_lease _ a op Hop), <- Hl. unfold io_lease. rewrite Hp. set_solver. }
    rewrite <- (get_buffer_block _ _ _ _ _ W Hin). revert Hp. unfold buffer_resume. case_match; [|done]. by intros [= <-].
Qed.

Lemma lease_move_inv mem R head objs i j r :
  lease_inv mem (MkLease R head objs) -> objs !! i = Some r -> objs !! j = None ->
  lease_inv mem (MkLease R head (<[j := fst (IOResult_move r)]> (<[i := snd (IOResult_move r)]> objs))).
Proof.
  intros I Hi Hj. pose proof I as [W _ Hptr]. cbn [l_ring l_head l_objs] in *.
  assert (Hij : i <> j) by (intros ->; congruence).
  apply (lease_inv_objs mem R R head objs); [done|done| |].
  - eapply pool_wf_perm; [|exact W]. unfold held. cbn [l_ring l_objs].
    rewrite leases_fresh by (by rewrite lookup_insert_ne).
    pose proof (leases_insert io_lease objs i r (snd (IOResult_move r)) Hi) as E. cbn [io_lease IOResult_move snd buffer app] in E.
    change (io_lease (fst (IOResult_move r))) with (io_lease r). rewrite E. apply Permutation_app_comm.
  - intros k x p. rewrite !lookup_insert. repeat case_decide; [intros [= <-]|intros [= <-]|apply Hptr]; [|done].
    intros Hp. by apply (Hptr i r).
Qed.

Lemma lease_assign_inv mem R head objs i j this other this' other' R' :
  lease_inv mem (MkLease R head objs) -> i <> j -> objs !! i = Some this -> objs !! j = Some other ->
  IOResult_assign this other R = Done (this', other', R') ->
  lease_inv mem (MkLease R' head (<[i := this']> (<[j := other']> objs))).
Proof.
  intros I Hij Hi Hj Ha. pose proof I as [W _ Hptr]. cbn [l_ring l_head l_objs] in *. unfold held in W. cbn [l_ring l_objs] in W.
  assert (E : leases io_lease objs ≡ₚ io_lease this ++ leases io_lease (<[i := other]> (<[j := MkIO (io_result other) None (io_bid other)]> objs))).
  { assert (Hi' : (<[j := MkIO (io_result other) None (io_bid other)]> objs) !! i = Some this) by (by rewrite lookup_insert_ne).
    rewrite (leases_insert io_lease _ i this other Hi').
    by rewrite (leases_insert io_lease objs j other (MkIO (io_result other) None (io_bid other)) Hj). }
  destruct (destroy_lease mem R head this (leases io_lease (<[i := other]> (<[j := MkIO (io_result other) None (io_bid other)]> objs)) ++ leases op_lease (ops R)))
    as (R1 & Hd & W1 & Ho).
  { eapply pool_wf_perm; [|exact W]. rewrite E. solve_Permutation. }
  unfold IOResult_assign in Ha. rewrite Hd in Ha. cbn in Ha. injection Ha as <- <- <-.
  apply (lease_inv_objs mem R R1 head objs); [done|done|by destruct other|].
  intros k x p. rewrite !lookup_insert. repeat case_decide; [intros [= <-]|intros [= <-]|apply Hptr]; [|done].
  intros Hp. by apply (Hptr j other).
Qed.

Lemma lease_destroy_inv mem R head objs i r R' :
  lease_inv mem (MkLease R head objs) -> objs !! i = Some r -> IOResult_destroy r R = Done R' ->
  lease_inv mem (MkLease R' head (delete i objs)).
Proof.
  intros I Hi Hd. pose proof I as [W _ Hptr]. cbn [l_ring l_head l_objs] in *. unfold held in W. cbn [l_ring l_objs] in W.
  destruct (destroy_lease mem R head r (leases io_lease (delete i objs) ++ leases op_lease (ops R))) as (R1 & Hd' & W1 & Ho).
  { eapply pool_wf_perm; [|exact W]. rewrite (leases_delete io_lease objs i r Hi). solve_Permutation. }
  rewrite Hd in Hd'. injection Hd' as <-. apply (lease_inv_objs mem R R' head objs); [done..|].
  intros k x p [_ Hk]%lookup_delete_Some. by apply (Hptr k).
Qed.

Lemma lease_step_inv mem st st' : lease_inv mem st -> lease_step st st' -> lease_inv mem st'.
Proof.
  intros I Hs. destruct Hs as [R head objs a op Hn Hf| |R head objs a op t io cs Ha Hop Hf Hc Hfl| | | |].
  - apply (lease_inv_op mem R head); [done|by rewrite Hn| |by rewrite Hf].
    rewrite no_lease by (by rewrite Hf). exact (li_pool _ _ I).
  - by eapply lease_data_inv.
  - pose proof (completions_no_lease a t io cs op Ha Hc Hfl Hf) as Hz.
    apply (lease_inv_op mem R head); [done| | |by rewrite Hz].
    + intros op0 [= <-]%(eq_trans (eq_sym Hop)). by apply no_lease.
    + rewrite no_lease by done. exact (li_pool _ _ I).
  - by apply lease_resume_inv.
  - by apply lease_move_inv.
  - by eapply lease_assign_inv.
  - by eapply lease_destroy_inv.
Qed.

Lemma held_nodup mem st : lease_inv mem st -> NoDup (held st).
Proof.
  intros [(br & ids & _ & _ & _ & _ & _ & _ & _ & Hp) _ _].
  assert (H : NoDup (ids ++ held st)) by (rewrite Hp; apply NoDup_seqZ). by apply NoDup_app in H as (_ & _ & H).
Qed.

Lemma held_distinct mem st i j r r' p p' :
  lease_inv mem st -> i <> j -> l_objs st !! i = Some r -> l_objs st !! j = Some r' ->
  buffer r = Some p -> buffer r' = Some p' -> io_bid r <> io_bid r'.
Proof.
  intros I Hij Hi Hj Hp Hp' E. pose proof (held_nodup mem st I) as H. unfold held in H. apply NoDup_app in H as (_ & _ & H).
  rewrite (leases_delete io_lease _ i r Hi), (leases_delete io_lease _ j r') in H by (by rewrite lookup_delete_ne).
  unfold io_lease in H at 1 2. rewrite Hp, Hp', E in H. apply NoDup_cons in H as [H _]. apply H. left.
Qed.

(** C12 ([IOResult], [AsyncBufferOp] and [recycle_buffer], invariant): if the ring
    has registered its buffers (the fallback without a buffer ring has none), from
    [setup_buffers] on, whatever operations complete and whatever is done with the
    results, each of the 512 buffers is in the ring or has one holder, which is a
    completed operation or an [IOResult]; results that hold a buffer point to the
    block of their own buffer, no two of them to the same, and can be destroyed, which
    gives the buffer back. *)
Theorem buffers_leased consume mem br0 R R0 st :
  length (bufs br0) = 512%nat -> ops R = ∅ -> setup_buffers consume (Some mem) (Some br0) 0 R = Done R0 ->
  rtc lease_step (MkLease R0 0 ∅) st ->
  (exists br ids, buf_ring_ (l_ring st) = Some br /\ available br (l_head st) = buffer_entry mem <$> ids /\
     ids ++ held st ≡ₚ seqZ 0 512) /\
  (forall i r p, l_objs st !! i = Some r -> buffer r = Some p ->
     p = mem + io_bid r * BUF_SIZE /\ exists R', IOResult_destroy r (l_ring st) = Done R') /\
  (forall i j r r' p p', i <> j -> l_objs st !! i = Some r -> l_objs st !! j = Some r' ->
     buffer r = Some p -> buffer r' = Some p' -> io_bid r <> io_bid r').
Proof.
  intros Hl Hops Hs Hsteps. destruct (setup_pool_wf consume mem br0 R R0 Hl Hs) as [W Ho].
  assert (I : lease_inv mem st).
  { assert (I0 : lease_inv mem (MkLease R0 0 ∅)).
    { constructor; cbn [l_ring l_head l_objs]; unfold held; cbn [l_ring l_objs]; rewrite ?Ho, ?Hops; done. }
    revert I0. clear -Hsteps. induction Hsteps as [|x y z Hxy _ IH]; [done|]. intros I. apply IH. by eapply lease_step_inv. }
  split; [|split].
  - destruct (li_pool _ _ I) as (br & ids & Hbr & _ & _ & _ & _ & _ & Hav & Hp). by exists br, ids.
  - intros i r p Hi Hp. split; [by eapply li_ptr|].
    destruct (destroy_lease mem (l_ring st) (l_head st) r (leases io_lease (delete i (l_objs st)) ++ leases op_lease (ops (l_ring st))))
      as (R' & Hd & _); [|by exists R'].
    eapply pool_wf_perm; [|exact (li_pool _ _ I)]. unfold held. rewrite (leases_delete io_lease _ i r Hi). solve_Permutation.
  - intros i j r r' p p'. apply (held_distinct mem st i j r r' p p' I).
Qed.

(** A read of 100 bytes into a buffer of a new ring, and its result. *)
Lemma lease_sample R0 :
  setup_buffers (fun n => n) (Some 8192) (Some blank_bufs) 0 pool_start = Done R0 ->
  exists st b, rtc lease_step (MkLease R0 0 ∅) st /\ l_objs st !! 1 = Some (MkIO 100 (Some (get_buffer b R0)) b).
Proof.
  intros Hs. destruct (setup_pool_wf _ 8192 blank_bufs pool_start R0 eq_refl Hs) as [W Ho].
  destruct W as (br & ids & Hbr & _ & _ & _ & _ & _ & Hav & Hp). rewrite app_nil_r in Hp.
  destruct ids as [|b ids]; [apply Permutation_length in Hp; by rewrite length_seqZ in Hp|].
  assert (Hb : 0 <= b < 512) by (apply (pool_ids [] (b :: ids) b Hp); left).
  set (io := MkCqe 16 100 (buffer_flags b)). assert (Hc : completions 16 0 io [io]) by done.
  assert (Ha : address 16) by done. destruct (buffer_flags_spec b Hb) as [Hbid Hbuf].
  eexists _, b. split; [|].
  - eapply rtc_l; [apply (lease_await R0 0 ∅ 16 (AsyncOp 0)); [by rewrite Ho|done]|].
    eapply rtc_l.
    { eapply (lease_data _ 0 ∅ 16 (AsyncOp 0) br _ _ 0 io [io] Ha); [apply lookup_insert_eq|done|exact Hbr|exact Hav|exact Hc|done|done]. }
    eapply rtc_l; [eapply (lease_resume _ _ ∅ 16 _ 1); [apply lookup_insert_eq|done]|]. apply rtc_refl.
  - cbn [l_objs]. rewrite lookup_insert_eq. f_equal. cbn [fold_left].
    pose proof (complete_io_buffer (AsyncOp 0) io eq_refl ltac:(done)) as H. cbn [cqe_fl io] in H.
    rewrite (proj2 (Z.eqb_neq _ _) Hbuf), Hbid in H. destruct H as [H1 H2].
    unfold buffer_resume. rewrite H1, H2, complete_io_result by done. done.
Qed.

(** Witness of C12. *)
Lemma buffers_leased_witness :
  exists R0 st b, setup_buffers (fun n => n) (Some 8192) (Some blank_bufs) 0 pool_start = Done R0 /\
    rtc lease_step (MkLease R0 0 ∅) st /\
    l_objs st !! 1 = Some (MkIO 100 (Some (8192 + b * BUF_SIZE)) b) /\
    exists R', IOResult_destroy (MkIO 100 (Some (8192 + b * BUF_SIZE)) b) (l_ring st) = Done R'.
Proof.
  eexists. destruct (lease_sample _ eq_refl) as (st & b & Hsteps & Hi). exists st, b.
  split; [reflexivity|]. split; [exact Hsteps|].
  destruct (buffers_leased (fun n => n) 8192 blank_bufs pool_start _ st eq_refl eq_refl eq_refl Hsteps) as (_ & H & _).
  destruct (H 1 _ _ Hi eq_refl) as [E [R' Hd]]. cbn [io_bid] in E. rewrite E in Hi, Hd. split; [exact Hi|]. exists R'. exact Hd.
Defined.
