(* ===== verification/Conn.v ===== *)
(** ppnt-io/net: connections and what they own.

    [src/ppnt-io/src/net/tcp_stream.ixx] ([TcpStream]: connecting, moving and closing)
    and [src/ppnt-io/src/net/ssl.ixx] ([TlsContext], [TlsStream::connect], and the
    release of their members), with the ClientHello interceptor and the specification
    [make_test_spec] of [pptls.ixx], and the construction and destruction of a [Ring].
    Descriptors, memory and objects of BoringSSL are acquired and released by events;
    the results of the calls are parameters. *)

From stdpp Require Import gmap strings.
From S2P Require Import Prelude Binary Tls Uring Ring Addr Net.

Local Open Scope Z_scope.

(** ** Resources *)

Inductive obj := Fd (fd : Z) | Ctx (p : Z) | Ssl (p : Z) | Spec (p : Z) | Bio (p : Z) | Mem (p : Z) | Queue (p : Z) | BufGroup (id : Z).

#[export] Instance obj_eq_dec : EqDecision obj.
Proof. solve_decision. Defined.

#[export] Instance obj_countable : Countable obj.
Proof.
  refine (inj_countable'
    (fun o => match o with Fd x => (0, x) | Ctx x => (1, x) | Ssl x => (2, x) | Spec x => (3, x) | Bio x => (4, x)
                      | Mem x => (5, x) | Queue x => (6, x) | BufGroup x => (7, x) end)
    (fun q => match q with
              | (0, x) => Fd x | (1, x) => Ctx x | (2, x) => Ssl x | (3, x) => Spec x | (4, x) => Bio x
              | (5, x) => Mem x | (6, x) => Queue x | (_, x) => BufGroup x
              end) _).
  by intros [].
Defined.

Inductive event := Acquire (o : obj) | Release (o : obj).

(** The live objects after some events; releasing what is not live is [None]. *)
Fixpoint run_events (tr : list event) (live : gset obj) : option (gset obj) :=
  match tr with
  | [] => Some live
  | Acquire o :: tr => run_events tr ({[o]} ∪ live)
  | Release o :: tr => if decide (o ∈ live) then run_events tr (live ∖ {[o]}) else None
  end.

Lemma run_events_app tr1 tr2 live : run_events (tr1 ++ tr2) live = run_events tr1 live ≫= run_events tr2.
Proof.
  revert live. induction tr1 as [|[o|o] tr1 IH]; intros live; cbn [app run_events]; [done|apply IH|].
  case_decide; [apply IH|done].
Qed.

(** ** [TcpStream]

    A stream is its descriptor, -1 when it has none.  The class has no destructor. *)

Definition close_fd (fd : Z) : list event := if fd =? -1 then [] else [Release (Fd fd)].

Definition TcpStream_default : Z := -1.

(** The move constructor and [leak_handle]: the descriptor and what is left. *)
Definition TcpStream_move (other : Z) : Z * Z := (other, -1).

(** The move assignment, to another object than itself. *)
Definition TcpStream_assign (this other : Z) : list event * (Z * Z) := (close_fd this, (other, -1)).

Definition TcpStream_close (this : Z) : list event * Z := (close_fd this, -1).

Section Tcp.
(** What [socket] and the awaited [connect] give, and [errno]. *)
Context (socket_res connect_res errno : Z) (inet_ntop : Z -> bytes -> option bytes).

(** [connect(SocketAddress)]. *)
Definition connect_addr (addr : bytes) : list event * Result Z :=
  let fd := socket_res in
  if fd <? 0 then ([], Err (MkError (EC system_category errno) [] None))
  else
    match map_async_connect_result connect_res with
    | Err cause =>
        let 'MkError ec _ _ := cause in
        (Acquire (Fd fd) :: close_fd fd,
         Err (MkError ec (bs "cannot connect to " ++ to_string inet_ntop addr) (Some cause)))
    | Ok _ => ([Acquire (Fd fd)], Ok fd)
    end.

(** [connect(host, port)]. *)
Definition connect_host (getaddrinfo : bytes -> bytes -> Z + list bytes) (host : bytes) (p : Z) : list event * Result Z :=
  match resolve getaddrinfo errno host p with
  | Err e => ([], Err e)
  | Ok [] =>
      ([], Err (MkError (make_error_code destination_address_required)
                  (bs "failed to connect to " ++ host ++ bs ":" ++ to_string_int p) None))
  | Ok (addr :: _) => connect_addr addr
  end.

End Tcp.

(** ** [TlsContext] *)

(** [client]: [ctx_new] is what [SSL_CTX_new] gives, [cipher_ret] what
    [SSL_CTX_set_cipher_list] returns. *)
Definition TlsContext_client (ctx_new : option Z) (cipher_ret : Z) : list event * Result Z :=
  match ctx_new with
  | None => ([], Err (MkError (make_error_code protocol_error) [] None))
  | Some ctx =>
      if negb (cipher_ret =? 1)
      then ([Acquire (Ctx ctx)], make_err_result wrong_protocol_type "SSL_CTX_set_cipher_list ALL failed")
      else ([Acquire (Ctx ctx)], Ok ctx)
  end.

(** [UniqueCtx]. *)
Definition TlsContext_destroy (ctx : option Z) : list event :=
  match ctx with Some c => [Release (Ctx c)] | None => [] end.

(** ** [TlsStream] *)

(** An SSL object with the specification in its slot and the BIO it was given. *)
Record ssl := MkSsl { s_ptr : Z; s_spec : option Z; s_bio : option Z }.

(** [SslFree]: [SSL_free] releases the BIO of the object as well. *)
Definition ssl_events (s : ssl) : list event :=
  concat ((fun a =>
    match a with
    | SetExData _ => []
    | DeleteSpec p => [Release (Spec p)]
    | FreeSsl p => match s_bio s with Some b => [Release (Bio b)] | None => [] end ++ [Release (Ssl p)]
    end) <$> SslFree 0 (Some (s_ptr s)) (s_spec s)).

Record TlsStream := MkTlsStream { t_inner : Z; t_ssl : ssl; t_bio : Z }.

(** The destructor: the members in the reverse order of their declaration; the
    [TcpStream] does nothing. *)
Definition TlsStream_destroy (t : TlsStream) : list event := Release (Bio (t_bio t)) :: ssl_events (t_ssl t).

Definition TlsStream_close (t : TlsStream) : list event * TlsStream :=
  let '(ev, fd) := TcpStream_close (t_inner t) in (ev, MkTlsStream fd (t_ssl t) (t_bio t)).

(** What the calls of [connect] give: [spec_new] if there is a factory, [handshake]
    the result of the handshake. *)
Record tls_env := MkTlsEnv {
  ssl_new : option Z;
  alpn_ret : Z;
  factory : bool;
  spec_new : option Z;
  bio_pair : option (Z * Z);
  handshake_res : Result ()
}.

Definition TlsStream_connect (env : tls_env) (inner : Z) (handshake : bool) : list event * Result TlsStream :=
  match ssl_new env with
  | None => ([], make_err_result not_enough_memory "tls connect")
  | Some raw_ssl =>
      let tr := [Acquire (Ssl raw_ssl)] in
      if negb (alpn_ret env =? 0) then (tr, make_err_result invalid_argument "SSL_set_alpn_protos") else
      let with_spec (tr : list event) (spec : option Z) : list event * Result TlsStream :=
        match bio_pair env with
        | None => (tr ++ ssl_events (MkSsl raw_ssl spec None), make_err_result io_error "tls connect: cant create bio pare")
        | Some (internal_bio, network_bio) =>
            let tr := tr ++ [Acquire (Bio internal_bio); Acquire (Bio network_bio)] in
            let tls := MkTlsStream inner (MkSsl raw_ssl spec (Some internal_bio)) network_bio in
            if handshake then
              match handshake_res env with
              | Err e => (tr ++ TlsStream_destroy tls, Err e)
              | Ok _ => (tr, Ok tls)
              end
            else (tr, Ok tls)
        end in
      if factory env then
        match spec_new env with
        | None => (tr, make_err_result not_enough_memory "alloc tls spec")
        | Some spec => with_spec (tr ++ [Acquire (Spec spec)]) (Some spec)
        end
      else with_spec tr None
  end.

(** ** What is left after a connection attempt *)

Lemma run_acquire o tr live : run_events (Acquire o :: tr) live = run_events tr ({[o]} ∪ live).
Proof. done. Qed.

Lemma run_release o tr live : o ∈ live -> run_events (Release o :: tr) live = run_events tr (live ∖ {[o]}).
Proof. intros H. cbn [run_events]. by rewrite decide_True. Qed.

(** The objects of a connection, in the order of their release. *)
Definition owned (t : TlsStream) : list obj :=
  [Bio (t_bio t)] ++ match s_spec (t_ssl t) with Some p => [Spec p] | None => [] end ++
  match s_bio (t_ssl t) with Some b => [Bio b] | None => [] end ++ [Ssl (s_ptr (t_ssl t))].

Lemma destroy_owned t : TlsStream_destroy t = Release <$> owned t.
Proof. unfold TlsStream_destroy, ssl_events, owned. destruct t as [fd [p [s|] [b|]] n]; done. Qed.

(** Releasing the objects of a list that are live. *)
Lemma run_release_all os live :
  NoDup os -> (forall o, o ∈ os -> o ∈ live) ->
  run_events (Release <$> os) live = Some (live ∖ list_to_set os).
Proof.
  revert live. induction os as [|o os IH]; intros live Hnd Hin.
  - cbn. f_equal. set_solver.
  - apply NoDup_cons in Hnd as [Hn Hnd]. rewrite fmap_cons, run_release by (apply Hin; left).
    rewrite IH; [f_equal; set_solver|done|]. intros o' Ho'. assert (o' ∈ live) by (apply Hin; by right).
    assert (o' <> o) by (by intros ->). set_solver.
Qed.

(** The objects the calls return are new. *)
Record env_fresh (env : tls_env) (live : gset obj) : Prop := EnvFresh {
  ef_ssl : forall p, ssl_new env = Some p -> Ssl p ∉ live;
  ef_spec : forall p, spec_new env = Some p -> Spec p ∉ live;
  ef_bio : forall i n, bio_pair env = Some (i, n) -> (Bio i ∉ live) /\ (Bio n ∉ live) /\ i <> n
}.

(** What a failed attempt leaves without an owner. *)
Definition leaked (env : tls_env) : gset obj :=
  match ssl_new env with
  | None => ∅
  | Some p =>
      if negb (alpn_ret env =? 0) || (factory env && bool_decide (spec_new env = None)) then {[Ssl p]} else ∅
  end.

(** The connection after its BIO pair was made. *)
Lemma connect_owned env live inner raw spec i n :
  env_fresh env live -> ssl_new env = Some raw -> (forall p, spec = Some p -> spec_new env = Some p) ->
  bio_pair env = Some (i, n) ->
  let t := MkTlsStream inner (MkSsl raw spec (Some i)) n in
  let tr := [Acquire (Ssl raw)] ++ match spec with Some p => [Acquire (Spec p)] | None => [] end ++
            [Acquire (Bio i); Acquire (Bio n)] in
  run_events tr live = Some (list_to_set (owned t) ∪ live) /\
  run_events (tr ++ TlsStream_destroy t) live = Some live /\
  NoDup (owned t) /\ (forall o, o ∈ owned t -> o ∉ live).
Proof.
  intros [F1 F2 F3] Hs Hsp Hb t tr. destruct (F3 _ _ Hb) as (Hi & Hn & Hin). specialize (F1 _ Hs).
  assert (Hfr : forall o, o ∈ owned t -> o ∉ live).
  { unfold owned, t. cbn. intros o. destruct spec as [p|]; cbn; rewrite !elem_of_cons, elem_of_nil;
      [specialize (F2 p (Hsp p eq_refl))|]; naive_solver. }
  assert (Hnd : NoDup (owned t)).
  { unfold owned, t. cbn. destruct spec; cbn; repeat (apply NoDup_cons; split; [set_solver|]); apply NoDup_nil_2. }
  assert (E : run_events tr live = Some (list_to_set (owned t) ∪ live)).
  { unfold tr, owned, t. destruct spec; cbn [app run_events t_bio t_ssl s_spec s_bio s_ptr list_to_set]; f_equal; set_solver. }
  split; [done|]. split; [|done]. rewrite run_events_app, E. cbn [mbind option_bind].
  rewrite destroy_owned, run_release_all; [|done|set_solver]. f_equal. set_solver.
Qed.

(** The same without a BIO pair. *)
Lemma connect_no_bio env live raw spec :
  env_fresh env live -> ssl_new env = Some raw -> (forall p, spec = Some p -> spec_new env = Some p) ->
  run_events ([Acquire (Ssl raw)] ++ match spec with Some p => [Acquire (Spec p)] | None => [] end ++
              ssl_events (MkSsl raw spec None)) live = Some live.
Proof.
  intros [F1 F2 _] Hs Hsp. specialize (F1 _ Hs). unfold ssl_events. destruct spec as [p|].
  - specialize (F2 p (Hsp p eq_refl)). cbn. rewrite !decide_True by set_solver. f_equal. set_solver.
  - cbn. rewrite decide_True by set_solver. f_equal. set_solver.
Qed.

(** How [connect] leaves the live objects. *)
Definition connect_ok (env : tls_env) (inner : Z) (live : gset obj) (res : list event * Result TlsStream) : Prop :=
  match res with
  | (tr, Ok t) =>
      t_inner t = inner /\ run_events tr live = Some (list_to_set (owned t) ∪ live) /\
      run_events (tr ++ TlsStream_destroy t) live = Some live /\
      NoDup (owned t) /\ (forall o, o ∈ owned t -> o ∉ live)
  | (tr, Err _) => run_events tr live = Some (leaked env ∪ live)
  end.

Lemma TlsStream_connect_ok env inner hs live :
  env_fresh env live -> connect_ok env inner live (TlsStream_connect env inner hs).
Proof.
  intros F. unfold TlsStream_connect. destruct (ssl_new env) as [raw|] eqn:Hs; [|cbn; unfold leaked; rewrite Hs; f_equal; set_solver].
  destruct (negb (alpn_ret env =? 0)) eqn:Ha; [cbn; unfold leaked; by rewrite Hs, Ha|].
  assert (Hw : forall spec, (forall p, spec = Some p -> spec_new env = Some p) -> leaked env = ∅ ->
    connect_ok env inner live
      match bio_pair env with
      | None => (([Acquire (Ssl raw)] ++ match spec with Some p => [Acquire (Spec p)] | None => [] end) ++
                   ssl_events (MkSsl raw spec None), make_err_result io_error "tls connect: cant create bio pare")
      | Some (internal_bio, network_bio) =>
          let tr := ([Acquire (Ssl raw)] ++ match spec with Some p => [Acquire (Spec p)] | None => [] end) ++
                    [Acquire (Bio internal_bio); Acquire (Bio network_bio)] in
          let tls := MkTlsStream inner (MkSsl raw spec (Some internal_bio)) network_bio in
          if hs then match handshake_res env with Err e => (tr ++ TlsStream_destroy tls, Err e) | Ok _ => (tr, Ok tls) end
          else (tr, Ok tls)
      end).
  { intros spec Hsp Hl. destruct (bio_pair env) as [[i n]|] eqn:Hb; cbv zeta; rewrite <- app_assoc.
    - destruct (connect_owned env live inner raw spec i n F Hs Hsp Hb) as (H1 & H2 & H3).
      destruct hs; [destruct (handshake_res env)|]; unfold connect_ok; [done| |done]. rewrite H2, Hl. f_equal. set_solver.
    - unfold connect_ok, make_err_result. rewrite (connect_no_bio env live raw spec F Hs Hsp), Hl. f_equal. set_solver. }
  destruct (factory env) eqn:Hf; [destruct (spec_new env) as [sp|] eqn:Hsp|].
  - apply (Hw (Some sp)); [naive_solver|]. unfold leaked. by rewrite Hs, Ha, Hf, Hsp.
  - cbn. unfold leaked. rewrite Hs, Ha, Hf, Hsp. done.
  - apply (Hw None); [done|]. unfold leaked. by rewrite Hs, Ha, Hf.
Qed.

(** C23 ([TcpStream::connect], [TlsStream::connect] and the destructors, safety): a TCP
    connection is open exactly if it was returned.  A TLS connection owns its SSL
    object, its BIOs and its specification, and its destructor releases each of them
    once; a failed attempt releases what it made, but leaks the SSL object if the ALPN
    list or the specification fails.  The socket is never released: neither a
    failed attempt nor the destruction of a connection closes the descriptor, only
    [close] does. *)
Theorem connections_account socket_res connect_res errno ntop addr env inner hs live :
  0 <= inner -> Fd inner ∈ live -> env_fresh env live ->
  (let '(tr, r) := connect_addr socket_res connect_res errno ntop addr in
   Fd socket_res ∉ live -> run_events tr live = Some (match r with Ok fd => {[Fd fd]} ∪ live | Err _ => live end)) /\
  match TlsStream_connect env inner hs with
  | (tr, Ok t) =>
      run_events tr live = Some (list_to_set (owned t) ∪ live) /\
      run_events (tr ++ TlsStream_destroy t) live = Some live /\
      run_events (tr ++ fst (TlsStream_close t) ++ TlsStream_destroy (snd (TlsStream_close t))) live = Some (live ∖ {[Fd inner]})
  | (tr, Err _) => run_events tr live = Some (leaked env ∪ live)
  end.
Proof.
  intros Hi Hfd F. split.
  - unfold connect_addr. destruct (Z.ltb_spec socket_res 0) as [Hs|Hs]; [done|].
    destruct (map_async_connect_result connect_res) as [[]|[ec m c]]; [done|]. intros Hn. rewrite run_acquire. unfold close_fd.
    rewrite (proj2 (Z.eqb_neq socket_res (-1))), run_release by (lia || set_solver). cbn. f_equal. set_solver.
  - pose proof (TlsStream_connect_ok env inner hs live F) as H. destruct (TlsStream_connect env inner hs) as [tr [t|e]]; [|done].
    destruct H as (Ht & H1 & H2 & Hnd & Hfr). split; [done|]. split; [done|].
    rewrite run_events_app, H1. cbn [mbind option_bind]. unfold TlsStream_close, TcpStream_close, close_fd.
    rewrite Ht, (proj2 (Z.eqb_neq inner (-1))), destroy_owned by lia. cbn [fst snd app].
    change (owned (MkTlsStream (-1) (t_ssl t) (t_bio t))) with (owned t).
    change (Release (Fd inner) :: (Release <$> owned t)) with (Release <$> (Fd inner :: owned t)).
    assert (Hno : Fd inner ∉ owned t) by (intros Hin; by apply (Hfr _ Hin)).
    rewrite run_release_all; [f_equal; set_solver|by apply NoDup_cons|set_solver].
Qed.

(** A handshake that fails. *)
Definition failing_env : tls_env :=
  MkTlsEnv (Some 100) 0 true (Some 200) (Some (300, 301)) (make_err_result protocol_error "handshake").

(** Witness of C23. *)
Lemma connections_account_witness :
  run_events (fst (TlsStream_connect failing_env 5 true)) {[Fd 5]} = Some {[Fd 5]}.
Proof.
  destruct (connections_account 6 0 0 (fun _ _ => None) [] failing_env 5 true {[Fd 5]}) as [_ H]; [done|set_solver| |].
  - split; [intros p [= <-]; set_solver|intros p [= <-]; set_solver|intros i n [= <- <-]; set_solver].
  - etransitivity; [exact H|]. unfold leaked. cbn. f_equal.
Defined.

(** ** The ClientHello interceptor *)

(** [make_test_spec] of [pptls.ixx]. *)
Definition make_test_spec : ClientHelloSpec :=
  MkSpec [6682; 4865; 4866; 4867; 49195; 49199] (compression_method ClientHelloSpec_default)
    [MkExtension 6682 ForceData [0; 0]; MkExtension 21 Auto []; MkExtension 0 Auto []; MkExtension 23 Auto [];
     MkExtension 35 Auto []; MkExtension 13 Auto []; MkExtension 43 Auto []; MkExtension 45 Auto []; MkExtension 51 Auto []].

(** [ClientHelloSpecFactoryImpl] of [create_hello_spec_factory]. *)
Record ClientHelloSpecFactory := MkFactory { fn_ : () -> ClientHelloSpec; is_global_ : bool }.
Definition create_hello_spec_factory (fn : () -> ClientHelloSpec) (is_global : bool) : ClientHelloSpecFactory := MkFactory fn is_global.
Definition get_tls_spec (f : ClientHelloSpecFactory) : ClientHelloSpec := fn_ f tt.

(** [get_tls_spec_slot]: the static variable is set by the first call, [index] is what
    [SSL_get_ex_new_index] would give. *)
Definition get_tls_spec_slot (index : Z) (g_spec_idx : option Z) : Z * option Z :=
  match g_spec_idx with Some i => (i, g_spec_idx) | None => (index, Some index) end.

(** [SSL_set_ex_data] and [SSL_get_ex_data]: the data of an SSL object by slot. *)
Definition set_spec (index : Z) (g_spec_idx : option Z) (spec : option ClientHelloSpec) (ex_data : Z -> option ClientHelloSpec)
    : (Z -> option ClientHelloSpec) * option Z :=
  let '(slot, g) := get_tls_spec_slot index g_spec_idx in (fun i => if i =? slot then spec else ex_data i, g).
Definition get_spec (index : Z) (g_spec_idx : option Z) (ex_data : Z -> option ClientHelloSpec) : option ClientHelloSpec :=
  ex_data (fst (get_tls_spec_slot index g_spec_idx)).

(** What [connect] stores of a factory the interceptor finds, whichever index the
    library would give to another call. *)
Lemma spec_slot_shared i1 i2 g f ex_data ex_data' g' :
  set_spec i1 g (Some (get_tls_spec f)) ex_data = (ex_data', g') -> get_spec i2 g' ex_data' = Some (fn_ f tt).
Proof. unfold set_spec, get_spec. destruct g; intros [= <- <-]; cbn; by rewrite Z.eqb_refl. Qed.

(** What the interceptor returns to BoringSSL: its number and the hello that will be
    sent. *)
Inductive intercepted := Intercepted (ret : Z) (sent_hello : bytes) (log : list bytes) | UndefinedHello.

(** [spec] is what the slot of the connection holds, [mem] whether [OPENSSL_malloc]
    gives memory, [error_text] the text of an error. *)
Definition my_client_hello_interceptor (error_text : Error -> bytes) (spec : option ClientHelloSpec) (mem : bool)
    (hello : bytes) : intercepted :=
  match spec with
  | None => Intercepted 1 hello []
  | Some spec =>
      match rewrite hello spec with
      | Undefined => UndefinedHello
      | Returns (Err e) => Intercepted 0 hello [bs "error in tls rewrite: " ++ error_text e]
      | Returns (Ok new_hello) =>
          match new_hello with
          | [] => Intercepted 0 hello [bs "tls rewrite empty"]
          | _ => if mem then Intercepted 1 new_hello [] else Intercepted 0 hello [bs "error in tls malloc"]
          end
      end
  end.

(** ([my_client_hello_interceptor], functional): without a specification the hello is
    sent as it is; with one, a hello of BoringSSL is replaced by the hello the
    specification describes, unless there is no memory, and bytes that are no hello
    stop the handshake.  Under [make_test_spec] the hello offers the six cipher suites
    of the specification and starts its extensions with the GREASE one. *)
Theorem hello_intercepted error_text mem h spec :
  hello_wf h -> zsize (hello_bytes h) < 2 ^ 63 ->
  my_client_hello_interceptor error_text None mem (hello_bytes h) = Intercepted 1 (hello_bytes h) [] /\
  my_client_hello_interceptor error_text (Some spec) mem (hello_bytes h) =
    (if mem then Intercepted 1 (hello_bytes (apply_spec spec h)) []
     else Intercepted 0 (hello_bytes h) [bs "error in tls malloc"]) /\
  (forall bad, Forall is_byte bad -> zsize bad < 2 ^ 63 -> parse_hello bad = None ->
     exists log, my_client_hello_interceptor error_text (Some spec) mem bad = Intercepted 0 bad log) /\
  h_ciphers (apply_spec make_test_spec h) = [26; 26; 19; 1; 19; 2; 19; 3; 192; 43; 192; 47] /\
  hd_error (h_extensions (apply_spec make_test_spec h)) = Some (6682, [0; 0]).
Proof.
  intros Hw Hs. split; [done|]. split; [|split; [|done]].
  - pose proof (rewrite_follows (hello_bytes h) spec (hello_bytes_bytes h Hw) Hs) as H.
    rewrite hello_bytes_cons in H at 2. rewrite parse_hello_body in H; [|done|unfold zsize; by rewrite int_bytes_length].
    cbn [follows] in H. cbn [my_client_hello_interceptor]. rewrite H. by rewrite (hello_bytes_cons (apply_spec spec h)).
  - intros bad Hb Hz Hp. pose proof (rewrite_follows bad spec Hb Hz) as H. rewrite Hp in H. destruct H as [msg H].
    cbn [my_client_hello_interceptor]. rewrite H. by eexists.
Qed.

(** An instance. *)
Lemma hello_intercepted_witness :
  my_client_hello_interceptor (fun _ => []) (Some make_test_spec) true (hello_bytes sample_hello) =
    Intercepted 1 (hello_bytes (apply_spec make_test_spec sample_hello)) [] /\
  h_extensions (apply_spec make_test_spec sample_hello) = [(6682, [0; 0]); (0, [9]); (10, [5; 6]); (16, [])].
Proof.
  split; [|reflexivity].
  destruct (hello_intercepted (fun _ => []) true sample_hello make_test_spec) as (_ & H & _); [|reflexivity|exact H].
  constructor; try by vm_compute.
  - repeat constructor; by vm_compute.
  - vm_compute. repeat constructor; intros E; discriminate E.
Defined.

(** ** Rings

    What a [Ring] of [driver.cpp] acquires and releases.  The instance of io_uring is
    [q], [ring_addr] the memory of the buffer ring. *)

Section Rings.
Context (q ring_addr : Z).

(** The calls of [setup_buffers]. *)
Definition setup_events (mem : Z) (ring_ptr : option io_uring_buf_ring) (reg : Z) : list event :=
  Acquire (Mem mem) ::
  match ring_ptr with
  | Some _ =>
      Acquire (Mem ring_addr) :: if reg =? 0 then [Acquire (BufGroup BGID)] else [Release (Mem ring_addr)]
  | None => []
  end.

(** The calls of the constructor. *)
Definition Ring_events (mem : Z) (ring_ptr : option io_uring_buf_ring) (reg ev_fd : Z) : list event :=
  Acquire (Queue q) :: setup_events mem ring_ptr reg ++ [Acquire (Fd ev_fd)].

(** The destructor. *)
Definition Ring_destroy (R : Ring) : list event :=
  (if buffer_mem_ R =? 0 then [] else [Release (Mem (buffer_mem_ R))]) ++
  (if using_buf_ring_ R && bool_decide (is_Some (buf_ring_ R))
   then [Release (BufGroup BGID); Release (Mem ring_addr)] else []) ++
  [Release (Queue q)].

(** The constructor settles which buffers are used. *)
Lemma Ring_new_buffers consume ev_op ev_buf ev_fd ret sqq mem ring_ptr reg R :
  Ring_new consume ev_op ev_buf ev_fd ret sqq (Some mem) ring_ptr reg = Done R ->
  buffer_mem_ R = mem /\
  using_buf_ring_ R && bool_decide (is_Some (buf_ring_ R)) = bool_decide (is_Some ring_ptr) && (reg =? 0).
Proof.
  unfold Ring_new, setup_buffers, arm_eventfd_read, get_sqe_retry, get_sqe, io_uring_submit. intros E.
  destruct (ret <? 0); [done|]. destruct ring_ptr as [br|]; [destruct (reg =? 0)|]; cbn [mbind eff_bind] in E;
    repeat (case_match; simplify_eq; cbn [mbind eff_bind] in *); done.
Qed.

(** Destroying a ring that the constructor has made releases all it has acquired,
    on both kinds of buffers, except the descriptor of the eventfd. *)
Theorem ring_leaves_eventfd consume ev_op ev_buf ev_fd ret sqq mem ring_ptr reg R live :
  Ring_new consume ev_op ev_buf ev_fd ret sqq (Some mem) ring_ptr reg = Done R ->
  mem <> 0 -> mem <> ring_addr ->
  live ## {[Mem mem; Mem ring_addr; Queue q; BufGroup BGID; Fd ev_fd]} ->
  run_events (Ring_events mem ring_ptr reg ev_fd ++ Ring_destroy R) live = Some ({[Fd ev_fd]} ∪ live).
Proof.
  intros E Hm Hne Hl.
  assert ((Mem mem ∉ live) /\ (Mem ring_addr ∉ live) /\ (Queue q ∉ live) /\ (BufGroup BGID ∉ live)) as (? & ? & ? & ?) by set_solver.
  clear Hl. destruct (Ring_new_buffers _ _ _ _ _ _ _ _ _ _ E) as [Eb Eu].
  unfold Ring_destroy, Ring_events, setup_events. rewrite Eb, Eu, (proj2 (Z.eqb_neq mem 0) Hm).
  destruct ring_ptr as [br|]; [destruct (reg =? 0)|]; cbn; rewrite !decide_True by set_solver; f_equal; set_solver.
Qed.
End Rings.
