(* ===== verification/Stream.v ===== *)
(** ppnt-io: byte streams over TCP and TLS.

    [src/ppnt-io/src/net/tcp_stream.ixx] ([read_exact], [write_all],
    [is_alive]) and [src/ppnt-io/src/net/ssl.ixx] ([TlsStream]: the loop that
    runs an operation of the TLS engine and pumps its memory BIOs to and from
    the socket).  The kernel's side of a socket is the list of what its writes
    return and of what arrives; the TLS engine is a parameter that reads and
    writes two byte queues, as a BIO pair does.  [handshake], [read] and [write] are
    the loop on the operations of [TlsEngine], with the laws [TlsEngineLaws]. *)

From stdpp Require Import gmap strings.
From S2P Require Import Prelude.

Local Open Scope Z_scope.

(** ** TCP *)

(** A call on a socket ends, or waits for the kernel. *)
Inductive io (S A : Type) := Done (s : S) (r : Result A) | Pending (s : S).
Arguments Done {S A}.
Arguments Pending {S A}.

(** What the kernel does with a socket: the results of the writes to come, what
    arrives (an empty chunk is the end of the stream), and what was sent. *)
Record socket := MkSocket {
  writes : list (Result Z);
  incoming : list (Result bytes);
  sent : bytes
}.

(** [write]: the kernel takes a prefix of what it is given. *)
Definition sock_write (buf : bytes) (s : socket) : io socket Z :=
  match writes s with
  | [] => Pending s
  | Err e :: ws => Done (MkSocket ws (incoming s) (sent s)) (Err e)
  | Ok n :: ws =>
      let n := Z.min (Z.max 0 n) (Z.of_nat (length buf)) in
      Done (MkSocket ws (incoming s) (sent s ++ take (Z.to_nat n) buf)) (Ok n)
  end.

(** [read] of at most [n] bytes. *)
Definition sock_read (n : nat) (s : socket) : io socket bytes :=
  match incoming s with
  | [] => Pending s
  | Err e :: r => Done (MkSocket (writes s) r (sent s)) (Err e)
  | Ok [] :: _ => Done s (Ok [])
  | Ok chunk :: r =>
      Done (MkSocket (writes s) (match drop n chunk with [] => r | c => Ok c :: r end) (sent s)) (Ok (take n chunk))
  end.

(** [write_all]; [fuel] bounds the turns of its loop, [None] is its end. *)
Fixpoint write_all (fuel : nat) (buf : bytes) (s : socket) : option (io socket ()) :=
  match buf with
  | [] => Some (Done s (Ok tt))
  | _ =>
      match fuel with
      | O => None
      | S fuel =>
          match sock_write buf s with
          | Pending s => Some (Pending s)
          | Done s (Err e) => Some (Done s (Err e))
          | Done s (Ok n) =>
              if n =? 0 then Some (Done s (make_err_result broken_pipe "write_all broken pipe"))
              else write_all fuel (drop (Z.to_nat n) buf) s
          end
      end
  end.

(** [read_exact] into a buffer of [total_read + n] bytes of which [got] holds the
    first [total_read]. *)
Fixpoint read_exact (fuel n : nat) (got : bytes) (s : socket) : option (io socket bytes) :=
  match n with
  | O => Some (Done s (Ok got))
  | _ =>
      match fuel with
      | O => None
      | S fuel =>
          match sock_read n s with
          | Pending s => Some (Pending s)
          | Done s (Err e) => Some (Done s (Err e))
          | Done s (Ok []) => Some (Done s (make_err_result io_error "read_exact EOF"))
          | Done s (Ok chunk) => read_exact fuel (n - length chunk) (got ++ chunk) s
          end
      end
  end.

(** [is_alive]: [peek] is the result of the peeking [recv], [errno] its error. *)
Definition is_alive (e_again e_wouldblock fd peek errno : Z) : bool :=
  if fd <? 0 then false else
  if peek >? 0 then false else
  if peek =? 0 then false else
  (errno =? e_again) || (errno =? e_wouldblock).

(** ** TLS *)

Definition SSL_ERROR_WANT_READ : Z := 2.
Definition SSL_ERROR_WANT_WRITE : Z := 3.
Definition SSL_ERROR_ZERO_RETURN : Z := 6.

(** The size of each half of the BIO pair and of [io_buffer_]. *)
Definition BIO_SIZE : nat := Z.to_nat 16384.
Definition READ_SIZE : nat := Z.to_nat 4096.

Section Tls.
(** An operation of the engine on its state: it takes bytes from the queue of
    received records, appends records to the queue of those to send, and gives
    what it returns and what [SSL_get_error] says of that. *)
Context {Eng : Type} (op : Eng -> bytes -> Eng * bytes * bytes * (Z * Z)) (error_queue : Eng -> bytes).

(** [to_tcp] and [from_tcp] are the two directions of the BIO pair.  The last two
    fields record, for the theorems, all that the engine wrote to the pair and
    all that was written to the pair for it. *)
Record TlsStream := MkTls {
  inner_ : socket;
  engine : Eng;
  to_tcp : bytes;
  from_tcp : bytes;
  produced : bytes;
  fed : bytes
}.

Definition set_inner (s : socket) (t : TlsStream) : TlsStream :=
  MkTls s (engine t) (to_tcp t) (from_tcp t) (produced t) (fed t).

Definition run_op (t : TlsStream) : TlsStream * Z * Z :=
  let '(e, inq, out, (ret, err)) := op (engine t) (from_tcp t) in
  (MkTls (inner_ t) e (to_tcp t ++ out) inq (produced t ++ out) (fed t), ret, err).

Fixpoint flush_bio_to_tcp (fuel : nat) (t : TlsStream) : option (io TlsStream ()) :=
  match to_tcp t with
  | [] => Some (Done t (Ok tt))
  | _ =>
      match fuel with
      | O => None
      | S fuel =>
          let chunk := take BIO_SIZE (to_tcp t) in
          let t := MkTls (inner_ t) (engine t) (drop BIO_SIZE (to_tcp t)) (from_tcp t) (produced t) (fed t) in
          match write_all (length chunk) chunk (inner_ t) with
          | None => None
          | Some (Pending s) => Some (Pending (set_inner s t))
          | Some (Done s (Err e)) => Some (Done (set_inner s t) (Err e))
          | Some (Done s (Ok _)) => flush_bio_to_tcp fuel (set_inner s t)
          end
      end
  end.

(** [read_bs(4096)] of a provided buffer takes what arrived next, up to 4096 bytes. *)
Definition fill_bio_from_tcp (t : TlsStream) : io TlsStream nat :=
  match sock_read READ_SIZE (inner_ t) with
  | Pending s => Pending (set_inner s t)
  | Done s (Err e) => Done (set_inner s t) (Err e)
  | Done s (Ok chunk) =>
      let t := set_inner s t in
      let written := Nat.min (length chunk) (BIO_SIZE - length (from_tcp t)) in
      let t := MkTls (inner_ t) (engine t) (to_tcp t) (from_tcp t ++ take written chunk) (produced t)
                 (fed t ++ take written chunk) in
      if (written =? length chunk)%nat then Done t (Ok (length chunk))
      else Done t (make_err_result broken_pipe "CRITICAL DATA LOSS")
  end.

Definition ssl_error (err : Z) (t : TlsStream) : Error :=
  MkError (make_error_code protocol_error)
    (bs "ssl_err is " ++ to_string_int err ++ bs ", msg: " ++ error_queue (engine t)) None.

Fixpoint run_ssl_op (fuel : nat) (t : TlsStream) : option (io TlsStream Z) :=
  match fuel with
  | O => None
  | S fuel =>
      let '(t, ret, err) := run_op t in
      match flush_bio_to_tcp (length (to_tcp t)) t with
      | None => None
      | Some (Pending t) => Some (Pending t)
      | Some (Done t (Err e)) => Some (Done t (Err e))
      | Some (Done t (Ok _)) =>
          if ret >? 0 then Some (Done t (Ok ret))
          else if err =? SSL_ERROR_WANT_READ then
            match fill_bio_from_tcp t with
            | Pending t => Some (Pending t)
            | Done t (Err e) => Some (Done t (Err e))
            | Done t (Ok O) =>
                Some (Done t (make_err_result connection_aborted
                                "SSL EOF: Peer closed connection while waiting for TLS record"))
            | Done t (Ok _) => run_ssl_op fuel t
            end
          else if err =? SSL_ERROR_WANT_WRITE then run_ssl_op fuel t
          else if err =? SSL_ERROR_ZERO_RETURN then Some (Done t (Ok 0))
          else Some (Done t (Err (ssl_error err t)))
      end
  end.

(** ** Nothing is lost *)

(** The bytes that arrive before an error or the end of the stream. *)
Fixpoint content (l : list (Result bytes)) : bytes :=
  match l with Ok (b :: c) :: r => b :: c ++ content r | _ => [] end.

Definition pending (l : list (Result bytes)) : nat :=
  sum_list_with (fun r => match r with Ok c => S (length c) | Err _ => 1%nat end) l.

Lemma sock_read_ok n s s' chunk :
  (0 < n)%nat -> sock_read n s = Done s' (Ok chunk) ->
  content (incoming s) = chunk ++ content (incoming s') /\ sent s' = sent s /\ (length chunk <= n)%nat /\
  (chunk <> [] -> (pending (incoming s') < pending (incoming s))%nat).
Proof.
  intros Hn. unfold sock_read. destruct (incoming s) as [|[[|b c]|e] r] eqn:Ei; intros [= <- <-].
  - rewrite Ei. split; [done|]. split; [done|]. split; [simpl; lia|done].
  - cbn [incoming sent]. pose proof (take_drop n (b :: c)) as Et. split; [|split; [done|]].
    + change (content (Ok (b :: c) :: r)) with ((b :: c) ++ content r). rewrite <- Et at 1. rewrite <- app_assoc. f_equal.
      destruct (drop n (b :: c)); [done|]. by rewrite <- app_comm_cons.
    + split; [rewrite length_take; lia|]. intros _. assert (El := f_equal length (eq_sym Et)). rewrite length_app, length_take in El.
      cbn [pending sum_list_with]. destruct (drop n (b :: c)); cbn [pending sum_list_with]; fold (pending r) in *; cbn [length] in *; lia.
Qed.

Lemma sock_write_ok buf s s' n :
  sock_write buf s = Done s' (Ok n) ->
  0 <= n <= Z.of_nat (length buf) /\ sent s' = sent s ++ take (Z.to_nat n) buf /\ incoming s' = incoming s.
Proof. unfold sock_write. destruct (writes s) as [|[k|e] ws]; intros [= <- <-]; cbn. split; [lia|done]. Qed.

Lemma sock_write_other buf s :
  match sock_write buf s with
  | Done s' (Ok _) => True
  | Done s' (Err _) | Pending s' => sent s' = sent s /\ incoming s' = incoming s
  end.
Proof. unfold sock_write. by destruct (writes s) as [|[k|e] ws]. Qed.

(** What a call that writes [buf] leaves behind. *)
Definition wrote (buf : bytes) (s : socket) (r : io socket ()) : Prop :=
  match r with
  | Done s' (Ok _) => sent s' = sent s ++ buf /\ incoming s' = incoming s
  | Done s' (Err _) | Pending s' => incoming s' = incoming s /\ exists k, (k < length buf)%nat /\ sent s' = sent s ++ take k buf
  end.

Lemma write_all_spec fuel buf s :
  (length buf <= fuel)%nat -> exists r, write_all fuel buf s = Some r /\ wrote buf s r.
Proof.
  revert buf s. induction fuel as [|fuel IH]; intros [|b buf] s Hl; try (simpl in Hl; lia);
    try (eexists; split; [done|split; [by rewrite app_nil_r|done]]).
  cbn [write_all]. assert (H0 := sock_write_other (b :: buf) s).
  assert (Hz : forall s' : socket, sent s' = sent s /\ incoming s' = incoming s ->
    incoming s' = incoming s /\ exists k, (k < length (b :: buf))%nat /\ sent s' = sent s ++ take k (b :: buf)).
  { intros s' [-> ->]. split; [done|]. exists 0%nat. rewrite app_nil_r. simpl. split; [lia|done]. }
  destruct (sock_write (b :: buf) s) as [s' [n|e]|s'] eqn:E; [|eexists; split; [done|by apply Hz]..].
  apply sock_write_ok in E as (Hn & Hs & Hi). destruct (Z.eqb_spec n 0) as [->|Hn0].
  { eexists. split; [done|]. apply Hz. rewrite Hs, Hi, app_nil_r. done. }
  destruct (IH (drop (Z.to_nat n) (b :: buf)) s') as (r & Er & Hr); [rewrite length_drop; simpl in *; lia|].
  exists r. split; [done|]. pose proof (take_drop (Z.to_nat n) (b :: buf)) as Et.
  destruct r as [u [x|e]|u]; cbn [wrote] in *.
  - destruct Hr as [Hu ->]. rewrite Hu, Hs, <- app_assoc, Et. done.
  - destruct Hr as [-> (k & Hk & Hu)]. split; [done|]. exists (Z.to_nat n + k)%nat. rewrite length_drop in Hk. split; [lia|].
    rewrite Hu, Hs, <- app_assoc. f_equal. by rewrite take_take_drop.
  - destruct Hr as [-> (k & Hk & Hu)]. split; [done|]. exists (Z.to_nat n + k)%nat. rewrite length_drop in Hk. split; [lia|].
    rewrite Hu, Hs, <- app_assoc. f_equal. by rewrite take_take_drop.
Qed.

Lemma read_exact_spec fuel n got s :
  (n <= fuel)%nat -> exists r, read_exact fuel n got s = Some r /\
  match r with
  | Done s' (Ok b) => exists d, b = got ++ d /\ length d = n /\ content (incoming s) = d ++ content (incoming s') /\ sent s' = sent s
  | _ => True
  end.
Proof.
  revert n got s. induction fuel as [|fuel IH]; intros [|n] got s Hl; try lia;
    try (eexists; split; [done|exists []; by rewrite app_nil_r]).
  cbn [read_exact]. destruct (sock_read (S n) s) as [s' [[|b c]|e]|s'] eqn:Er; [eexists; split; done| |eexists; split; done..].
  apply sock_read_ok in Er as (Ec & Es & Hn & _); [|lia].
  destruct (IH (S n - length (b :: c))%nat (got ++ b :: c) s') as (r & E & Hr); [simpl in *; lia|].
  exists r. split; [exact E|]. destruct r as [u [x|e]|u]; [|done..].
  destruct Hr as (d & -> & Hd & Hc & Hs). exists ((b :: c) ++ d). rewrite <- app_assoc. split; [done|].
  split; [rewrite length_app; simpl in *; lia|]. rewrite Ec, Hc, <- app_assoc. split; [done|congruence].
Qed.

(** What the engine wrote was sent, or is in the pair in this order. *)
Definition tls_ok (t : TlsStream) : Prop := produced t = sent (inner_ t) ++ to_tcp t.

(** What is unchanged by sending. *)
Definition same_input (t t' : TlsStream) : Prop :=
  engine t' = engine t /\ from_tcp t' = from_tcp t /\ produced t' = produced t /\ fed t' = fed t /\
  incoming (inner_ t') = incoming (inner_ t).

Lemma flush_spec fuel t :
  (length (to_tcp t) <= fuel)%nat -> tls_ok t ->
  exists r, flush_bio_to_tcp fuel t = Some r /\
  match r with
  | Done t' (Ok _) => same_input t t' /\ tls_ok t' /\ to_tcp t' = []
  | Done t' (Err _) | Pending t' => same_input t t' /\ sent (inner_ t') `prefix_of` produced t'
  end.
Proof.
  revert t. induction fuel as [|fuel IH]; intros t Hl Hok.
  { destruct (to_tcp t) as [|b q] eqn:Eq; [|simpl in Hl; lia]. exists (Done t (Ok tt)). cbn [flush_bio_to_tcp]. by rewrite Eq. }
  cbn [flush_bio_to_tcp]. destruct (to_tcp t) as [|b q] eqn:Eq; [by exists (Done t (Ok tt))|]. cbv zeta.
  set (chunk := take BIO_SIZE (b :: q)). cbn [inner_].
  destruct (write_all_spec (length chunk) chunk (inner_ t)) as (r & Er & Hr); [done|]. rewrite Er.
  pose proof (take_drop BIO_SIZE (b :: q)) as Et. fold chunk in Et.
  assert (Hpre : forall k, sent (inner_ t) ++ take k chunk `prefix_of` produced t).
  { intros k. rewrite Hok, Eq. apply prefix_app. rewrite <- Et. apply prefix_app_r, prefix_take. }
  destruct r as [s' [u|e]|s']; cbn [wrote] in Hr.
  - destruct Hr as [Hs Hi].
    destruct (IH (set_inner s' (MkTls (inner_ t) (engine t) (drop BIO_SIZE (b :: q)) (from_tcp t) (produced t) (fed t))))
      as (r & Er' & Hr).
    + cbn. rewrite length_drop. cbn [length] in *. unfold BIO_SIZE. lia.
    + unfold tls_ok. cbn. rewrite Hs, Hok, Eq, <- app_assoc, Et. done.
    + exists r. split; [exact Er'|]. destruct r as [t' [v|e]|t']; unfold same_input in *; cbn in *; rewrite Hi in Hr; exact Hr.
  - destruct Hr as [Hi (k & _ & Hs)]. eexists. split; [done|]. unfold same_input. cbn. rewrite Hs. split; [done|apply Hpre].
  - destruct Hr as [Hi (k & _ & Hs)]. eexists. split; [done|]. unfold same_input. cbn. rewrite Hs. split; [done|apply Hpre].
Qed.

Lemma fill_spec t :
  match fill_bio_from_tcp t with
  | Done t' (Ok n) =>
      engine t' = engine t /\ to_tcp t' = to_tcp t /\ produced t' = produced t /\ sent (inner_ t') = sent (inner_ t) /\
      fed t' ++ content (incoming (inner_ t')) = fed t ++ content (incoming (inner_ t)) /\
      (n <> 0%nat -> (pending (incoming (inner_ t')) < pending (incoming (inner_ t)))%nat)
  | Done t' (Err _) | Pending t' => produced t' = produced t /\ sent (inner_ t') = sent (inner_ t)
  end.
Proof.
  unfold fill_bio_from_tcp. destruct (sock_read READ_SIZE (inner_ t)) as [s' [chunk|e]|s'] eqn:E.
  - apply sock_read_ok in E as (Ec & Es & _ & Hp); [|unfold READ_SIZE; lia]. cbn [set_inner inner_ from_tcp].
    destruct (Nat.eqb_spec (Nat.min (length chunk) (BIO_SIZE - length (from_tcp t))) (length chunk)) as [Em|_].
    + cbn. rewrite Em, firstn_all, Ec, <- app_assoc. do 5 (split; [done|]). intros Hn. apply Hp. by intros ->.
    + done.
  - revert E. unfold sock_read. destruct (incoming (inner_ t)) as [|[[|b c]|e'] r]; intros [= <- <-]. done.
  - revert E. unfold sock_read. destruct (incoming (inner_ t)) as [|[[|b c]|e'] r]; intros [= <-]. done.
Qed.

(** How an operation leaves the stream. *)
Definition op_result (t : TlsStream) (r : io TlsStream Z) : Prop :=
  match r with
  | Done t' (Ok _) =>
      sent (inner_ t') = produced t' /\ to_tcp t' = [] /\
      fed t' ++ content (incoming (inner_ t')) = fed t ++ content (incoming (inner_ t))
  | Done t' (Err _) | Pending t' => sent (inner_ t') `prefix_of` produced t'
  end.

Lemma op_result_trans t t' r :
  fed t' ++ content (incoming (inner_ t')) = fed t ++ content (incoming (inner_ t)) -> op_result t' r -> op_result t r.
Proof. intros E. destruct r as [u [x|e]|u]; cbn; [|done..]. intros (H1 & H2 & ->). done. Qed.

(** An engine does not ask for ever to write without taking input. *)
Context (budget : Eng -> nat).
Hypothesis op_want_write : forall e q e' q' out ret,
  op e q = (e', q', out, (ret, SSL_ERROR_WANT_WRITE)) -> ret <= 0 -> (budget e' < budget e)%nat.

Lemma run_ssl_op_spec n b t :
  (pending (incoming (inner_ t)) <= n)%nat -> (budget (engine t) <= b)%nat -> tls_ok t ->
  exists fuel r, run_ssl_op fuel t = Some r /\ op_result t r.
Proof.
  revert b t. induction n as [n IHn] using lt_wf_ind. intros b. induction b as [b IHb] using lt_wf_ind. intros t Hn Hb Hok.
  destruct (run_op t) as [[t1 ret] err] eqn:Eo. pose proof Eo as Eo'. unfold run_op in Eo'.
  destruct (op (engine t) (from_tcp t)) as [[[e q] out] [ret0 err0]] eqn:Eop. injection Eo' as <- -> ->.
  set (t1 := MkTls (inner_ t) e (to_tcp t ++ out) q (produced t ++ out) (fed t)) in *.
  assert (Hok1 : tls_ok t1) by (unfold tls_ok; cbn; by rewrite Hok, <- app_assoc).
  destruct (flush_spec (length (to_tcp t1)) t1) as (f & Ef & Hf); [done|done|].
  destruct f as [t2 [u|e2]|t2]; [|exists 1%nat, (Done t2 (Err e2))|exists 1%nat, (Pending t2)];
    [|cbn [run_ssl_op]; rewrite Eo, Ef; split; [done|by destruct Hf]..].
  destruct Hf as ((E1 & E2 & E3 & E4 & E5) & Hok2 & Eq). cbn in E1, E2, E3, E4, E5.
  assert (Hsent : sent (inner_ t2) = produced t2) by (unfold tls_ok in Hok2; by rewrite Hok2, Eq, app_nil_r).
  assert (Hin : fed t2 ++ content (incoming (inner_ t2)) = fed t ++ content (incoming (inner_ t))) by (by rewrite E4, E5).
  destruct (Z.gtb_spec ret 0) as [Hr|Hr].
  { exists 1%nat, (Done t2 (Ok ret)). cbn [run_ssl_op]. rewrite Eo, Ef, (proj2 (Z.gtb_lt ret 0)) by lia. done. }
  assert (Er : (ret >? 0) = false) by lia. destruct (Z.eqb_spec err SSL_ERROR_WANT_READ) as [->|Hnr].
  { pose proof (fill_spec t2) as Hfill. destruct (fill_bio_from_tcp t2) as [t3 [[|m]|e3]|t3] eqn:Efill.
    2: { destruct Hfill as (F1 & F2 & F3 & F4 & F5 & F6).
         destruct (IHn (pending (incoming (inner_ t3)))) with (b := budget (engine t3)) (t := t3) as (fuel & r & Erun & Hres);
           [rewrite E5 in F6; lia|lia|lia|unfold tls_ok in *; congruence|].
         exists (S fuel), r. cbn [run_ssl_op]. rewrite Eo, Ef, Er, Z.eqb_refl, Efill. split; [done|].
         eapply op_result_trans; [|done]. by rewrite F5. }
    all: exists 1%nat; cbn [run_ssl_op]; rewrite Eo, Ef, Er, Z.eqb_refl, Efill; eexists; (split; [done|]); unfold make_err_result; cbn [op_result].
    all: (destruct Hfill as (_ & _ & -> & -> & _) || destruct Hfill as [-> ->]); rewrite Hsent; reflexivity. }
  destruct (Z.eqb_spec err SSL_ERROR_WANT_WRITE) as [->|Hnw].
  { destruct (IHb (budget e)) with (t := t2) as (fuel & r & Erun & Hres).
    - pose proof (op_want_write _ _ _ _ _ _ Eop Hr). lia.
    - by rewrite E5.
    - by rewrite E1.
    - done.
    - exists (S fuel), r. cbn [run_ssl_op]. rewrite Eo, Ef, Er. split; [done|]. by eapply op_result_trans. }
  exists 1%nat. cbn [run_ssl_op]. rewrite Eo, Ef, Er, (proj2 (Z.eqb_neq _ _) Hnr), (proj2 (Z.eqb_neq _ _) Hnw).
  destruct (err =? SSL_ERROR_ZERO_RETURN); eexists; (split; [done|]); cbn [op_result]; [done|by rewrite Hsent; reflexivity].
Qed.

(** C20 ([TlsStream::run_ssl_op], [flush_bio_to_tcp], [fill_bio_from_tcp],
    functional): on a TLS stream of which nothing the engine wrote was lost so far
    (as on a new stream), and with an engine that does not ask to write forever, an
    operation that runs while no other does ends or waits for the kernel.  If it returns a value, all records the engine produced were sent,
    in order, none is left in the BIO pair, so that the next operation again starts
    from such a stream, and the engine was given the bytes of the connection in order
    and without a gap; on an error, after which the stream need not be such a one any
    more, or while it waits, what was sent is a prefix of what the engine produced. *)
Theorem tls_op_lossless t :
  produced t = sent (inner_ t) ++ to_tcp t ->
  exists fuel r, run_ssl_op fuel t = Some r /\
  match r with
  | Done t' (Ok _) =>
      sent (inner_ t') = produced t' /\ to_tcp t' = [] /\
      fed t' ++ content (incoming (inner_ t')) = fed t ++ content (incoming (inner_ t))
  | Done t' (Err _) | Pending t' => sent (inner_ t') `prefix_of` produced t'
  end.
Proof. intros Hok. by apply (run_ssl_op_spec (pending (incoming (inner_ t))) (budget (engine t)) t). Qed.
End Tls.

(** ([TcpStream::write_all], [TcpStream::read_exact], functional): within as
    many turns as there are bytes, [write_all] has sent all of its buffer, or
    failed or waits having sent a proper prefix of it; a successful [read_exact]
    has filled its buffer with the next bytes of the stream and left the others. *)
Theorem tcp_transfers_all buf n s :
  (exists r, write_all (length buf) buf s = Some r /\
   match r with
   | Done s' (Ok _) => sent s' = sent s ++ buf /\ incoming s' = incoming s
   | Done s' (Err _) | Pending s' => incoming s' = incoming s /\ exists k, (k < length buf)%nat /\ sent s' = sent s ++ take k buf
   end) /\
  (exists r, read_exact n n [] s = Some r /\
   forall s' d, r = Done s' (Ok d) ->
     length d = n /\ content (incoming s) = d ++ content (incoming s') /\ sent s' = sent s).
Proof.
  split; [by apply write_all_spec|]. destruct (read_exact_spec n n [] s) as (r & E & Hr); [done|].
  exists r. split; [done|]. intros s' d ->. destruct Hr as (d' & -> & H). exact H.
Qed.

(** An engine that completes a record of three bytes per operation and asks for
    input until then. *)
Definition sample_op (e : bytes) (q : bytes) : bytes * bytes * bytes * (Z * Z) :=
  let e := e ++ q in
  if (length e <? 3)%nat then (e, [], [1], (-1, SSL_ERROR_WANT_READ)) else (drop 3 e, [], [2], (3, 0)).

Definition sample_tls : TlsStream (Eng := bytes) :=
  MkTls (MkSocket [Ok 1; Ok 1] [Ok [10; 11]; Ok [12]] []) [] [] [] [] [].

(** Witness of C20. *)
Lemma tls_op_lossless_witness :
  exists fuel r, run_ssl_op sample_op (fun _ => []) fuel sample_tls = Some r /\ op_result sample_tls r.
Proof.
  destruct (tls_op_lossless sample_op (fun _ => []) (fun _ => 0%nat)) with (t := sample_tls) as (fuel & r & E & Hr); [|done|].
  - intros e q e' q' out ret. unfold sample_op. destruct (_ <? 3)%nat; intros [=].
  - exists fuel, r. split; [exact E|exact Hr].
Defined.


(** ** The operations of a [TlsStream]

    BoringSSL as the stream uses it.  [read_buffer] is what the last [SSL_read] put
    into its buffer, [error_queue] the texts of the pending errors. *)

Class TlsEngine (Eng : Type) := {
  SSL_do_handshake : Eng -> bytes -> Eng * bytes * bytes * (Z * Z);
  SSL_read : nat -> Eng -> bytes -> Eng * bytes * bytes * (Z * Z);
  SSL_write : bytes -> Eng -> bytes -> Eng * bytes * bytes * (Z * Z);
  read_buffer : Eng -> bytes;
  alpn_selected : Eng -> bytes;
  received_shutdown : Eng -> bool;
  error_queue : Eng -> bytes
}.

Section Operations.
Context {Eng : Type} {HT : TlsEngine Eng}.

(** [handshake], with the line it logs. *)
Definition handshake (fuel : nat) (t : TlsStream) : option (io TlsStream bytes) :=
  match run_ssl_op SSL_do_handshake error_queue fuel t with
  | None => None
  | Some (Pending t) => Some (Pending t)
  | Some (Done t (Err e)) => Some (Done t (Err e))
  | Some (Done t (Ok _)) =>
      Some (Done t (Ok (match alpn_selected (engine t) with
                        | [] => bs "Negotiated Protocol not found"
                        | alpn => bs "Negotiated Protocol: " ++ alpn
                        end)))
  end.

(** [read] into a buffer of [n] bytes: the bytes read. *)
Definition tls_read (n fuel : nat) (t : TlsStream) : option (io TlsStream bytes) :=
  match run_ssl_op (SSL_read n) error_queue fuel t with
  | None => None
  | Some (Pending t) => Some (Pending t)
  | Some (Done t (Err e)) => Some (Done t (Err e))
  | Some (Done t (Ok ret)) => Some (Done t (Ok (take (Z.to_nat ret) (read_buffer (engine t)))))
  end.

(** [write]. *)
Definition tls_write (buf : bytes) (fuel : nat) (t : TlsStream) : option (io TlsStream Z) :=
  run_ssl_op (SSL_write buf) error_queue fuel t.

(** [is_alive]; [inner_alive] is [is_alive] of the stream below. *)
Definition tls_is_alive (inner_alive : bool) (t : TlsStream) : bool :=
  if negb inner_alive then false else if received_shutdown (engine t) then false else true.

End Operations.

(** What the stream relies on: [delivered] is the text [SSL_read] has handed out.  An
    engine does not ask for ever to write, and hands out no more bytes than it was
    given. *)
Class TlsEngineLaws (Eng : Type) {HT : TlsEngine Eng} := {
  delivered : Eng -> bytes;
  work : Eng -> bytes -> nat;
  write_budget : Eng -> nat;
  engine_op (op : Eng -> bytes -> Eng * bytes * bytes * (Z * Z)) : Prop :=
    op = SSL_do_handshake \/ (exists n, op = SSL_read n) \/ (exists buf, op = SSL_write buf);
  law_want_write : forall op e q e' q' out ret, engine_op op ->
    op e q = (e', q', out, (ret, SSL_ERROR_WANT_WRITE)) -> ret <= 0 -> (write_budget e' < write_budget e)%nat;
  law_work : forall op e q e' q' out r, engine_op op -> op e q = (e', q', out, r) -> (work e' q' <= work e q)%nat;
  law_work_input : forall e q c, (work e (q ++ c) <= work e q + length c)%nat;
  law_read : forall n e q e' q' out ret err, SSL_read n e q = (e', q', out, (ret, err)) ->
    delivered e' = delivered e ++ take (Z.to_nat ret) (read_buffer e') /\
    (0 < ret -> ret <= Z.of_nat (length (read_buffer e')) /\ ret <= Z.of_nat n /\ (work e' q' < work e q)%nat);
  law_silent : forall op e q e' q' out r, op = SSL_do_handshake \/ (exists buf, op = SSL_write buf) ->
    op e q = (e', q', out, r) -> delivered e' = delivered e
}.

Section OperationLaws.
Context {Eng : Type} {HT : TlsEngine Eng} {HL : TlsEngineLaws Eng}.
Implicit Types t : TlsStream (Eng := Eng).

(** What can still come out of a stream. *)
Definition stream_work (t : TlsStream) : nat := work (engine t) (from_tcp t) + pending (incoming (inner_ t)).

Lemma sock_read_work n s s' c :
  sock_read n s = Done s' (Ok c) -> (pending (incoming s') + length c <= pending (incoming s))%nat.
Proof.
  unfold sock_read. destruct (incoming s) as [|[[|b c0]|e] r] eqn:Ei; intros [= <- <-]; [by rewrite Ei, Nat.add_0_r|].
  cbn [incoming]. assert (El := f_equal length (take_drop n (b :: c0))). rewrite length_app in El.
  destruct (drop n (b :: c0)) as [|d c1] eqn:Ed; cbn [pending sum_list_with length] in *; fold (pending r) in *; lia.
Qed.

Lemma fill_work t t' m :
  fill_bio_from_tcp t = Done t' (Ok m) ->
  engine t' = engine t /\ to_tcp t' = to_tcp t /\ produced t' = produced t /\ sent (inner_ t') = sent (inner_ t) /\
  (stream_work t' <= stream_work t)%nat.
Proof.
  intros E. pose proof (fill_spec t) as H. rewrite E in H. destruct H as (H1 & H2 & H3 & H4 & _).
  do 4 (split; [done|]). unfold fill_bio_from_tcp in E.
  destruct (sock_read READ_SIZE (inner_ t)) as [s' [c|e]|s'] eqn:Er; [|done|done].
  destruct (_ =? _)%nat eqn:El; [|done]. injection E as <- _. apply Nat.eqb_eq in El.
  apply sock_read_work in Er. unfold stream_work. cbn [engine from_tcp inner_ set_inner] in *. rewrite El, firstn_all.
  pose proof (law_work_input (engine t) (from_tcp t) c). lia.
Qed.

Lemma fill_engine t : match fill_bio_from_tcp t with Done t' _ | Pending t' => engine t' = engine t end.
Proof.
  unfold fill_bio_from_tcp. destruct (sock_read READ_SIZE (inner_ t)) as [s' [c|e]|s']; [|done..].
  by destruct (_ =? _)%nat.
Qed.

(** An operation of the engine, and what it hands out. *)
Definition hands_out (op : Eng -> bytes -> Eng * bytes * bytes * (Z * Z)) (got : Z -> Eng -> bytes) : Prop :=
  engine_op op /\ (forall ret e, ret <= 0 -> got ret e = []) /\
  forall e q e' q' out ret err, op e q = (e', q', out, (ret, err)) ->
    delivered e' = delivered e ++ got ret e' /\ (got ret e' <> [] -> (work e' q' < work e q)%nat).

(** What a call of such an operation does to the text handed out and to the work left. *)
Definition op_effect (got : Z -> Eng -> bytes) (t : TlsStream) (r : io TlsStream Z) : Prop :=
  match r with
  | Done t' (Ok ret) =>
      tls_ok t' /\ delivered (engine t') = delivered (engine t) ++ got ret (engine t') /\
      (stream_work t' <= stream_work t)%nat /\ (got ret (engine t') <> [] -> (stream_work t' < stream_work t)%nat)
  | Done t' (Err _) | Pending t' => delivered (engine t) `prefix_of` delivered (engine t')
  end.

Lemma op_effect_trans got t t' r :
  delivered (engine t') = delivered (engine t) -> (stream_work t' <= stream_work t)%nat ->
  op_effect got t' r -> op_effect got t r.
Proof.
  intros E Hw. destruct r as [u [x|e]|u]; cbn [op_effect]; rewrite E; [|done..].
  intros (H1 & H2 & H3 & H4). split; [done|]. split; [done|]. split; [lia|]. intros Hg. specialize (H4 Hg). lia.
Qed.

Lemma run_ssl_op_effect op got fuel t r :
  hands_out op got -> tls_ok t -> run_ssl_op op error_queue fuel t = Some r -> op_effect got t r.
Proof.
  intros (Hop & Hnone & Hgot). revert t r. induction fuel as [|fuel IH]; intros t r Hok E; [done|].
  cbn [run_ssl_op] in E. unfold run_op in E.
  destruct (op (engine t) (from_tcp t)) as [[[e q] out] [ret err]] eqn:Eop. cbn [to_tcp] in E.
  destruct (Hgot _ _ _ _ _ _ _ Eop) as [Hd Hs]. pose proof (law_work _ _ _ _ _ _ _ Hop Eop) as Hw.
  set (t1 := MkTls (inner_ t) e (to_tcp t ++ out) q (produced t ++ out) (fed t)) in *.
  assert (Hok1 : tls_ok t1) by (unfold tls_ok; cbn; by rewrite Hok, <- app_assoc).
  destruct (flush_spec (length (to_tcp t1)) t1) as (f & Ef & Hf); [done|done|]. cbn [to_tcp t1] in Ef. rewrite Ef in E.
  assert (Hpre : forall t2, same_input t1 t2 -> delivered (engine t) `prefix_of` delivered (engine t2)).
  { intros t2 (-> & _). cbn [engine t1]. rewrite Hd. by apply prefix_app_r. }
  destruct f as [t2 [u|e2]|t2]; [|injection E as <-; by apply Hpre, Hf..].
  destruct Hf as ((E1 & E2 & E3 & E4 & E5) & Hok2 & Eq). cbn [engine from_tcp inner_ t1] in E1, E2, E5.
  assert (Hw2 : (stream_work t2 <= stream_work t)%nat) by (unfold stream_work; rewrite E1, E2, E5; lia).
  destruct (Z.gtb_spec ret 0) as [Hr|Hr].
  { injection E as <-. cbn [op_effect]. rewrite E1. split; [done|]. split; [done|]. split; [done|].
    intros Hg. specialize (Hs Hg). unfold stream_work. rewrite E1, E2, E5. lia. }
  rewrite Hnone in Hd by lia. rewrite app_nil_r in Hd. assert (Hd2 : delivered (engine t2) = delivered (engine t)) by (by rewrite E1).
  destruct (err =? SSL_ERROR_WANT_READ).
  { destruct (fill_bio_from_tcp t2) as [t3 [[|m]|e3]|t3] eqn:Efill.
    2: { destruct (fill_work _ _ _ Efill) as (F1 & F2 & F3 & F4 & F5).
         eapply op_effect_trans; [| |eapply (IH t3); [|exact E]]; [by rewrite F1|lia|].
         unfold tls_ok. by rewrite F2, F3, F4. }
    all: injection E as <-; pose proof (fill_engine t2) as H; rewrite Efill in H; unfold make_err_result; cbn [op_effect];
      by rewrite H, Hd2. }
  destruct (err =? SSL_ERROR_WANT_WRITE).
  { eapply op_effect_trans; [exact Hd2|exact Hw2|]. by apply IH. }
  destruct (err =? SSL_ERROR_ZERO_RETURN); injection E as <-; cbn [op_effect]; rewrite Hd2; [|done].
  rewrite Hnone, app_nil_r by lia. done.
Qed.

(** More fuel changes nothing. *)
Lemma run_ssl_op_more op fuel fuel' t r :
  (fuel <= fuel')%nat -> run_ssl_op op error_queue fuel t = Some r -> run_ssl_op op error_queue fuel' t = Some r.
Proof.
  revert fuel' t. induction fuel as [|fuel IH]; intros [|fuel'] t Hle E; [done|done|lia|]. cbn [run_ssl_op] in *.
  destruct (run_op op t) as [[t1 ret] err]. destruct (flush_bio_to_tcp _ t1) as [[t2 [u|e2]|t2]|]; try done.
  destruct (ret >? 0); [done|]. destruct (err =? SSL_ERROR_WANT_READ).
  - destruct (fill_bio_from_tcp t2) as [t3 [[|m]|e3]|t3]; try done. apply IH; [lia|done].
  - destruct (err =? SSL_ERROR_WANT_WRITE); [|done]. apply IH; [lia|done].
Qed.

Lemma engine_op_returns op t :
  engine_op op -> tls_ok t -> exists fuel r, run_ssl_op op error_queue fuel t = Some r /\ op_result t r.
Proof.
  intros Hop Hok. apply (run_ssl_op_spec op error_queue write_budget) with (n := pending (incoming (inner_ t))) (b := write_budget (engine t));
    [|done..]. intros e q e' q' out ret. by apply law_want_write.
Qed.

Lemma read_hands_out n : hands_out (SSL_read n) (fun ret e => take (Z.to_nat ret) (read_buffer e)).
Proof.
  split; [right; left; by exists n|]. split; [intros ret e Hr; by replace (Z.to_nat ret) with 0%nat by lia|].
  intros e q e' q' out ret err E. destruct (law_read _ _ _ _ _ _ _ _ E) as [Hd Hr]. split; [done|].
  intros Hg. destruct (Z.ltb_spec 0 ret) as [Hp|Hn]; [by apply Hr|]. by replace (Z.to_nat ret) with 0%nat in Hg by lia.
Qed.

Lemma silent_hands_out op :
  op = SSL_do_handshake \/ (exists buf, op = SSL_write buf) -> hands_out op (fun _ _ => []).
Proof.
  intros Hop. split; [unfold engine_op; naive_solver|]. split; [done|]. intros e q e' q' out ret err E.
  split; [|done]. rewrite app_nil_r. by eapply law_silent.
Qed.

Lemma tls_read_more m fuel fuel' (t : TlsStream) r :
  (fuel <= fuel')%nat -> tls_read m fuel t = Some r -> tls_read m fuel' t = Some r.
Proof.
  unfold tls_read. intros Hle E. destruct (run_ssl_op _ _ fuel t) as [r0|] eqn:Er; [|done].
  by rewrite (run_ssl_op_more _ _ _ _ _ Hle Er).
Qed.

(** A read ends or waits; what it returns is the next text of the engine. *)
Lemma tls_read_spec m t :
  tls_ok t -> exists fuel r, tls_read m fuel t = Some r /\
  match r with
  | Done t' (Ok chunk) =>
      tls_ok t' /\ delivered (engine t') = delivered (engine t) ++ chunk /\
      (chunk <> [] -> (stream_work t' < stream_work t)%nat)
  | Done t' (Err _) | Pending t' => delivered (engine t) `prefix_of` delivered (engine t')
  end.
Proof.
  intros Hok. destruct (engine_op_returns (SSL_read m) t) as (fuel & r & E & _); [right; left; by exists m|done|].
  pose proof (run_ssl_op_effect _ _ _ _ _ (read_hands_out m) Hok E) as H. exists fuel. unfold tls_read. rewrite E.
  destruct r as [t' [ret|e]|t']; eexists; (split; [done|]); [|exact H..]. by destruct H as (H1 & H2 & _ & H4).
Qed.

(** The operations that hand out nothing end or wait. *)
Lemma silent_op_spec op t :
  op = SSL_do_handshake \/ (exists buf, op = SSL_write buf) -> tls_ok t ->
  exists fuel r, (forall fuel', (fuel <= fuel')%nat -> run_ssl_op op error_queue fuel' t = Some r) /\
    forall t' x, r = Done t' (Ok x) -> tls_ok t' /\ delivered (engine t') = delivered (engine t).
Proof.
  intros Hop Hok. pose proof (silent_hands_out op Hop) as Hh.
  destruct (engine_op_returns op t) as (fuel & r & E & _); [apply Hh|done|]. exists fuel, r. split.
  - intros fuel' Hle. by apply (run_ssl_op_more _ fuel).
  - intros t' x ->. destruct (run_ssl_op_effect _ _ _ _ _ Hh Hok E) as (H1 & H2 & _). by rewrite app_nil_r in H2.
Qed.

End OperationLaws.

(** An engine without encryption: the text it has handed out, its last buffer and the
    text it has taken; the byte 0 ends the stream. *)
Record plain := MkPlain { p_delivered : bytes; p_buffer : bytes; p_accepted : bytes }.

Definition plain_read (n : nat) (e : plain) (q : bytes) : plain * bytes * bytes * (Z * Z) :=
  match q with
  | [] => (MkPlain (p_delivered e) [] (p_accepted e), [], [], (-1, SSL_ERROR_WANT_READ))
  | 0 :: _ => (MkPlain (p_delivered e) [] (p_accepted e), q, [], (0, SSL_ERROR_ZERO_RETURN))
  | _ => (MkPlain (p_delivered e ++ take n q) (take n q) (p_accepted e), drop n q, [], (Z.of_nat (length (take n q)), 0))
  end.

Definition plain_write (buf : bytes) (e : plain) (q : bytes) : plain * bytes * bytes * (Z * Z) :=
  (MkPlain (p_delivered e) (p_buffer e) (p_accepted e ++ buf), q, buf, (Z.of_nat (length buf), 0)).

#[export] Instance plain_engine : TlsEngine plain := {|
  SSL_do_handshake e q := (e, q, [22], (1, 0));
  SSL_read := plain_read;
  SSL_write := plain_write;
  read_buffer := p_buffer;
  alpn_selected _ := bs "http/1.1";
  received_shutdown _ := false;
  error_queue _ := []
|}.

#[export] Instance plain_engine_laws : TlsEngineLaws plain.
Proof.
  refine {| delivered := p_delivered; work _ q := length q; write_budget _ := 0%nat |}.
  - intros op e q e' q' out ret [->|[[n ->]|[buf ->]]]; cbn; [done| |done]. unfold plain_read. by repeat case_match.
  - intros op e q e' q' out r [->|[[n ->]|[buf ->]]]; cbn; [by intros [= <- <- <- <-]| |by intros [= <- <- <- <-]].
    unfold plain_read. repeat case_match; intros [= <- <- <- <-]; rewrite ?length_drop; cbn [length]; lia.
  - intros e q c. by rewrite length_app.
  - intros n e q e' q' out ret err. cbn. unfold plain_read.
    destruct q as [|[|b|b] q]; intros [= <- <- <- <- <-]; cbn [p_delivered p_buffer]; rewrite ?app_nil_r; try (split; [done|lia]).
    all: rewrite Nat2Z.id, firstn_all, length_take, length_drop; cbn [length]; (split; [done|lia]).
  - intros op e q e' q' out r [->|[buf ->]]; cbn; by intros [= <- <- <- <-].
Defined.
