(* ===== verification/AnyStream.v ===== *)
(** ppnt-io/net and ppnt-http: type-erased streams and a session on top of one.

    [src/ppnt-io/src/net/any_stream.ixx]: [AnyStream], the interface of a stream, is a
    class of operations; [TcpStream] and [TlsStream] are its implementations
    ([AnyStreamImpl]) and [BoxedStream] owns one of them or, once moved from, none.
    [src/ppnt-http/src/http1.ixx]: the session of [Http1.v] on such a stream.  The
    laws of the interface say that a call ends or waits, and what it hands out; the
    session is proved against them. *)

From stdpp Require Import gmap strings.
From S2P Require Import Prelude HttpTypes Net Conn Http1 Stream.

Local Open Scope Z_scope.

(** ** [AnyStream] *)

(** [read] of at most so many bytes, [write], [close] with the descriptors it releases
    and [is_alive].  The number after the buffer of [read] and [write] bounds their loops. *)
Class AnyStream (T : Type) := {
  read : nat -> nat -> T -> option (io T bytes);
  write : bytes -> nat -> T -> option (io T Z);
  close : T -> option (list Conn.event * T);
  is_alive : T -> bool
}.

(** What a client of a stream may rely on: [received] is all that its reads handed
    out, [effort] bounds what they still can. *)
Class AnyStreamLaws (T : Type) {HS : AnyStream T} := {
  sound : T -> Prop;
  received : T -> bytes;
  effort : T -> nat;
  law_stream_read : forall n t, (0 < n)%nat -> sound t ->
    exists fuel r, (forall fuel', (fuel <= fuel')%nat -> read n fuel' t = Some r) /\
    match r with
    | Done t' (Ok c) => sound t' /\ received t' = received t ++ c /\ (c <> [] -> (effort t' < effort t)%nat)
    | Done t' (Err _) | Pending t' => received t `prefix_of` received t'
    end;
  law_stream_write : forall buf t, sound t ->
    exists fuel r, (forall fuel', (fuel <= fuel')%nat -> write buf fuel' t = Some r) /\
    match r with
    | Done t' (Ok _) => sound t' /\ received t' = received t
    | Done t' (Err _) | Pending t' => received t `prefix_of` received t'
    end;
  law_stream_close : forall t ev t', close t = Some (ev, t') -> is_alive t' = false
}.

(** ** [TcpStream] *)

Definition e_badf : Z := 9.
Definition e_again : Z := 11.

(** A call on a descriptor that is not open fails: the kernel's side of it. *)
Definition kernel_side (fd : Z) (s : socket) : socket :=
  if fd <? 0 then MkSocket [map_async_write_result (- e_badf)] [Err (MkError (EC generic_category e_badf) [] None)] (sent s)
  else s.

(** [got] records, for the theorems, what the reads handed out. *)
Record TcpStream := MkTcp { fd_ : Z; sock : socket; got : bytes }.

Definition tcp_read (n : nat) (t : TcpStream) : io TcpStream bytes :=
  match sock_read n (kernel_side (fd_ t) (sock t)) with
  | Pending s => Pending (MkTcp (fd_ t) s (got t))
  | Done s (Err e) => Done (MkTcp (fd_ t) s (got t)) (Err e)
  | Done s (Ok c) => Done (MkTcp (fd_ t) s (got t ++ c)) (Ok c)
  end.

Definition tcp_write (buf : bytes) (t : TcpStream) : io TcpStream Z :=
  match sock_write buf (kernel_side (fd_ t) (sock t)) with
  | Pending s => Pending (MkTcp (fd_ t) s (got t))
  | Done s r => Done (MkTcp (fd_ t) s (got t)) r
  end.

Definition tcp_close (t : TcpStream) : list Conn.event * TcpStream :=
  let '(ev, fd) := TcpStream_close (fd_ t) in (ev, MkTcp fd (sock t) (got t)).

(** What [recv] with [MSG_PEEK] and [MSG_DONTWAIT] gives, and [errno]. *)
Definition peek (s : socket) : Z * Z :=
  match incoming s with
  | [] => (-1, e_again)
  | Ok [] :: _ => (0, 0)
  | Ok (_ :: _) :: _ => (1, 0)
  | Err (MkError (EC _ v) _ _) :: _ => (-1, v)
  end.

Definition tcp_is_alive (t : TcpStream) : bool :=
  let '(n, errno) := peek (sock t) in Stream.is_alive e_again e_again (fd_ t) n errno.

#[export] Instance tcp_stream : AnyStream TcpStream := {|
  read n _ t := Some (tcp_read n t);
  write buf _ t := Some (tcp_write buf t);
  close t := Some (tcp_close t);
  is_alive := tcp_is_alive
|}.

(** An idle connection that [is_alive] accepts is open and has nothing to read. *)
Lemma tcp_alive_idle t : tcp_is_alive t = true -> 0 <= fd_ t /\ content (incoming (sock t)) = [].
Proof.
  unfold tcp_is_alive, peek, Stream.is_alive. destruct (Z.ltb_spec (fd_ t) 0) as [Hf|Hf].
  - by repeat case_match.
  - intros H. split; [done|]. by destruct (incoming (sock t)) as [|[[|b c]|[[cat v] m ca]] l].
Qed.

#[export] Instance tcp_stream_laws : AnyStreamLaws TcpStream.
Proof.
  refine {| sound _ := True; received := got;
            effort t := Stream.pending (incoming (kernel_side (fd_ t) (sock t))) |}.
  - intros n t Hn _. exists 0%nat, (tcp_read n t). split; [done|]. unfold tcp_read.
    destruct (sock_read n (kernel_side (fd_ t) (sock t))) as [s [c|e]|s] eqn:E; cbn [got fd_ sock]; [|done..].
    split; [done|]. split; [done|]. intros Hc. pose proof E as E'. apply sock_read_ok in E as (_ & _ & _ & Hp); [|done].
    specialize (Hp Hc). unfold kernel_side in *. by destruct (fd_ t <? 0).
  - intros buf t _. exists 0%nat, (tcp_write buf t). split; [done|]. unfold tcp_write.
    destruct (sock_write buf (kernel_side (fd_ t) (sock t))) as [s [c|e]|s]; cbn [got]; done.
  - intros t ev t' [= <- <-]. cbn. unfold tcp_is_alive. by destruct (peek _).
Defined.

(** ** [TlsStream] *)

Section Tls.
Context {Eng : Type} {HT : TlsEngine Eng}.

(** The descriptor of the [TcpStream] below and the stream of [Stream.v]. *)
Record TlsStream := MkTlsOver { tls_fd : Z; tls : Stream.TlsStream (Eng := Eng) }.

(** The stream as the next operation finds it. *)
Definition tls_now (t : TlsStream) : Stream.TlsStream := set_inner (kernel_side (tls_fd t) (inner_ (tls t))) (tls t).

Definition io_map {S S' A} (f : S -> S') (r : io S A) : io S' A :=
  match r with Done s x => Done (f s) x | Pending s => Pending (f s) end.

Definition TlsStream_read (n fuel : nat) (t : TlsStream) : option (io TlsStream bytes) :=
  io_map (MkTlsOver (tls_fd t)) <$> tls_read n fuel (tls_now t).

Definition TlsStream_write (buf : bytes) (fuel : nat) (t : TlsStream) : option (io TlsStream Z) :=
  io_map (MkTlsOver (tls_fd t)) <$> tls_write buf fuel (tls_now t).

Definition TlsStream_close (t : TlsStream) : list Conn.event * TlsStream :=
  let '(ev, fd) := TcpStream_close (tls_fd t) in (ev, MkTlsOver fd (tls t)).

Definition TlsStream_is_alive (t : TlsStream) : bool :=
  tls_is_alive (tcp_is_alive (MkTcp (tls_fd t) (inner_ (tls t)) [])) (tls t).

#[export] Instance tls_stream : AnyStream TlsStream := {|
  read := TlsStream_read;
  write := TlsStream_write;
  close t := Some (TlsStream_close t);
  is_alive := TlsStream_is_alive
|}.

Context {HL : TlsEngineLaws Eng}.

Lemma tls_now_open t : 0 <= tls_fd t -> tls_now t = tls t.
Proof. unfold tls_now, kernel_side. destruct (Z.ltb_spec (tls_fd t) 0) as [H|H]; [lia|]. by destruct (tls t). Qed.

#[export] Instance tls_stream_laws : AnyStreamLaws TlsStream.
Proof.
  refine {| sound t := 0 <= tls_fd t /\ tls_ok (tls t); received t := delivered (engine (tls t));
            effort t := stream_work (tls t) |}.
  - intros n t _ [Hf Hok]. destruct (tls_read_spec n (tls t) Hok) as (fuel & r & E & H).
    exists fuel, (io_map (MkTlsOver (tls_fd t)) r). cbn [read tls_stream]. unfold TlsStream_read. split.
    + intros fuel' Hle. by rewrite tls_now_open, (tls_read_more _ _ _ _ _ Hle E).
    + destruct r as [t' [c|e]|t']; cbn [io_map tls tls_fd]; [|exact H..]. by destruct H as (H1 & H2 & H3).
  - intros buf t [Hf Hok]. pose proof (silent_hands_out (SSL_write buf) ltac:(right; by exists buf)) as Hh.
    destruct (engine_op_returns (SSL_write buf) (tls t)) as (fuel & r & E & _); [apply Hh|done|].
    exists fuel, (io_map (MkTlsOver (tls_fd t)) r). cbn [write tls_stream]. unfold TlsStream_write, tls_write. split.
    + intros fuel' Hle. by rewrite tls_now_open, (run_ssl_op_more _ _ _ _ _ Hle E).
    + pose proof (run_ssl_op_effect _ _ _ _ _ Hh Hok E) as H.
      destruct r as [t' [c|e]|t']; cbn [io_map tls tls_fd]; [|exact H..]. destruct H as (H1 & H2 & _).
      by rewrite app_nil_r in H2.
  - intros t ev t' [= <- <-]. cbn. unfold TlsStream_is_alive, tls_is_alive, tcp_is_alive. cbn. by destruct (peek _).
Defined.
End Tls.
Arguments TlsStream : clear implicits.

(** ** [BoxedStream] *)

Section Boxed.
Context (Eng : Type) {HT : TlsEngine Eng}.

(** [AnyStreamImpl] of the two streams the sources box. *)
Inductive AnyStreamImpl := TcpImpl (inner : TcpStream) | TlsImpl (inner : TlsStream Eng).

(** The owned stream; [None] is the null pointer of a stream that was moved from. *)
Definition BoxedStream := option AnyStreamImpl.

(** The move constructor: the stream, and what is left. *)
Definition BoxedStream_move (other : BoxedStream) : BoxedStream * BoxedStream := (other, None).

(** The move assignment, to another object than itself; the stream that was owned
    is destroyed. *)
Definition BoxedStream_assign (this other : BoxedStream) : BoxedStream * BoxedStream := (other, None).

Definition Impl_read (n fuel : nat) (s : AnyStreamImpl) : option (io AnyStreamImpl bytes) :=
  match s with
  | TcpImpl inner => io_map TcpImpl <$> read n fuel inner
  | TlsImpl inner => io_map TlsImpl <$> read n fuel inner
  end.

Definition Impl_write (buf : bytes) (fuel : nat) (s : AnyStreamImpl) : option (io AnyStreamImpl Z) :=
  match s with
  | TcpImpl inner => io_map TcpImpl <$> write buf fuel inner
  | TlsImpl inner => io_map TlsImpl <$> write buf fuel inner
  end.

Definition Impl_close (s : AnyStreamImpl) : option (list Conn.event * AnyStreamImpl) :=
  match s with
  | TcpImpl inner => prod_map id TcpImpl <$> close inner
  | TlsImpl inner => prod_map id TlsImpl <$> close inner
  end.

Definition Impl_is_alive (s : AnyStreamImpl) : bool :=
  match s with TcpImpl inner => is_alive inner | TlsImpl inner => is_alive inner end.

(** The calls go through the pointer; only [is_alive] tests it, for the others a null
    pointer is undefined behaviour ([None]). *)
#[export] Instance boxed_stream : AnyStream BoxedStream := {|
  read n fuel b := s ← b; fmap (M := option) (io_map Some) (Impl_read n fuel s);
  write buf fuel b := s ← b; fmap (M := option) (io_map Some) (Impl_write buf fuel s);
  close b := s ← b; fmap (M := option) (prod_map id Some) (Impl_close s);
  is_alive b := match b with Some s => Impl_is_alive s | None => false end
|}.

Context {HL : TlsEngineLaws Eng}.

#[export] Instance boxed_stream_laws : AnyStreamLaws BoxedStream.
Proof.
  refine {| sound b := match b with Some (TcpImpl s) => sound s | Some (TlsImpl s) => sound s | None => False end;
            received b := match b with Some (TcpImpl s) => received s | Some (TlsImpl s) => received s | None => [] end;
            effort b := match b with Some (TcpImpl s) => effort s | Some (TlsImpl s) => effort s | None => 0%nat end |}.
  - intros n [[t|t]|] Hn Hs; [| |done]; destruct (law_stream_read n t Hn Hs) as (fuel & r & E & H);
      [exists fuel, (io_map (fun t => Some (TcpImpl t)) r)|exists fuel, (io_map (fun t => Some (TlsImpl t)) r)];
      (split; [intros fuel' Hle; cbn [read boxed_stream Impl_read mbind option_bind]; rewrite (E _ Hle); by destruct r|]);
      by destruct r as [t' [c|e]|t'].
  - intros buf [[t|t]|] Hs; [| |done]; destruct (law_stream_write buf t Hs) as (fuel & r & E & H);
      [exists fuel, (io_map (fun t => Some (TcpImpl t)) r)|exists fuel, (io_map (fun t => Some (TlsImpl t)) r)];
      (split; [intros fuel' Hle; cbn [write boxed_stream Impl_write mbind option_bind]; rewrite (E _ Hle); by destruct r|]);
      by destruct r as [t' [c|e]|t'].
  - intros [[t|t]|] ev b' [= <- <-]; by eapply (law_stream_close t).
Defined.
End Boxed.
Arguments TcpImpl {Eng}.
Arguments TlsImpl {Eng}.

(** ** [Http1Session] on a stream *)

Section Session.
Context {T : Type} {HS : AnyStream T} {P : Type}.
Context (execute : P -> bytes -> P * list Http1.event * bool) (parser_reset : P -> P).

(** The members of the session: the connection, the parser, and the rest. *)
Record H1 := MkH1On { connection_ : T; parser_ : P; h1_state : Http1Session }.

(** A call ends or waits for the stream. *)
Inductive outcome (A : Type) := Finished (h : H1) (r : Result A) | Waits (h : H1).
Arguments Finished {A}.
Arguments Waits {A}.

Definition buf_size : nat := Z.to_nat 4096.

(** The loops of [request] and [body_full]; [fuel] bounds each read, [n] the turns. *)
Fixpoint read_headers_on (fuel n : nat) (h : H1) : option (outcome HeadParts) :=
  if headers_complete_ (h1_state h) then Some (Finished h (Ok (response_ (h1_state h)))) else
  match n with
  | O => None
  | S n =>
      match read buf_size fuel (connection_ h) with
      | None => None
      | Some (Pending c) => Some (Waits (MkH1On c (parser_ h) (h1_state h)))
      | Some (Done c (Err e)) => Some (Finished (MkH1On c (parser_ h) (h1_state h)) (Err e))
      | Some (Done c (Ok [])) =>
          Some (Finished (MkH1On c (parser_ h) (h1_state h)) (Ok (response_ (h1_state h))))
      | Some (Done c (Ok chunk)) =>
          let '(p, evs, ok) := execute (parser_ h) chunk in
          let h := MkH1On c p (fold_left on_event evs (h1_state h)) in
          if ok then read_headers_on fuel n h else Some (Finished h (make_err_result bad_message "http1 request"))
      end
  end.

Definition request_on (fuel n : nat) (req : HttpRequest) (h : H1) : option (outcome HeadParts) :=
  let h := MkH1On (connection_ h) (parser_reset (parser_ h)) reset_state in
  match write (serialize_to_h1 req) fuel (connection_ h) with
  | None => None
  | Some (Pending c) => Some (Waits (MkH1On c (parser_ h) (h1_state h)))
  | Some (Done c (Err e)) => Some (Finished (MkH1On c (parser_ h) (h1_state h)) (Err e))
  | Some (Done c (Ok _)) =>
      match read_headers_on fuel n (MkH1On c (parser_ h) (h1_state h)) with
      | Some (Finished h (Ok r)) => Some (Finished (MkH1On (connection_ h) (parser_ h) (move_response (h1_state h))) (Ok r))
      | x => x
      end
  end.

Definition move_body (s : Http1Session) : Http1Session :=
  MkH1 [] (response_ s) (temp_header_name_ s) (temp_header_value_ s) (last_was_value_ s) (headers_complete_ s) (message_complete_ s).

Fixpoint body_full_on (fuel n : nat) (h : H1) : option (outcome bytes) :=
  let finish c := Finished (MkH1On c (parser_ h) (move_body (h1_state h))) (Ok (body_buffer_ (h1_state h))) in
  if message_complete_ (h1_state h) then Some (finish (connection_ h)) else
  match n with
  | O => None
  | S n =>
      match read buf_size fuel (connection_ h) with
      | None => None
      | Some (Pending c) => Some (Waits (MkH1On c (parser_ h) (h1_state h)))
      | Some (Done c (Err e)) => Some (Finished (MkH1On c (parser_ h) (h1_state h)) (Err e))
      | Some (Done c (Ok [])) => Some (finish c)
      | Some (Done c (Ok chunk)) =>
          let '(p, evs, ok) := execute (parser_ h) chunk in
          let h := MkH1On c p (fold_left on_event evs (h1_state h)) in
          if ok then body_full_on fuel n h else Some (Finished h (make_err_result bad_message "http1 body"))
      end
  end.

(** [is_valid], [close] and [leak_stream]. *)
Definition h1_is_valid (h : H1) : bool := is_alive (connection_ h).
Definition h1_close (h : H1) : option (list Conn.event * H1) :=
  prod_map id (fun c => MkH1On c (parser_ h) (h1_state h)) <$> close (connection_ h).
Definition leak_stream (h : H1) : T := connection_ h.

(** A request and, if it succeeds, the whole body. *)
Definition exchange_on (fuel n : nat) (req : HttpRequest) (h : H1) : option (outcome (HeadParts * bytes)) :=
  match request_on fuel n req h with
  | None => None
  | Some (Waits h) => Some (Waits h)
  | Some (Finished h (Err e)) => Some (Finished h (Err e))
  | Some (Finished h (Ok head)) =>
      match body_full_on fuel n h with
      | None => None
      | Some (Waits h) => Some (Waits h)
      | Some (Finished h (Err e)) => Some (Finished h (Err e))
      | Some (Finished h (Ok body)) => Some (Finished h (Ok (head, body)))
      end
  end.

(** ** The session on a stream refines the session on a list of reads *)

Context {HL : AnyStreamLaws T}.

(** The text of the reads. *)
Definition text_of (reads : list (Result bytes)) : bytes :=
  concat ((fun r => match r with Ok c => c | Err _ => [] end) <$> reads).

(** [o] is what a call on a list of reads, [f], gives for these reads, which are what
    the stream handed out between [c] and the end. *)
Definition refines {A} (c : T) (f : list (Result bytes) -> ended (P * Http1Session) A) (reads : list (Result bytes))
    (o : outcome A) : Prop :=
  match o with
  | Finished h r =>
      (forall rest, f (reads ++ rest) = Ended (parser_ h, h1_state h) rest r) /\
      received c ++ text_of reads `prefix_of` received (connection_ h) /\
      (forall x, r = Ok x -> sound (connection_ h) /\ received (connection_ h) = received c ++ text_of reads)
  | Waits h => f reads = Blocked /\ received c ++ text_of reads `prefix_of` received (connection_ h)
  end.

(** One more read in front. *)
Lemma refines_cons {A} c c1 chunk f f1 reads (o : outcome A) :
  received c1 = received c ++ chunk -> (forall rest, f (Ok chunk :: rest) = f1 rest) ->
  refines c1 f1 reads o -> refines c f (Ok chunk :: reads) o.
Proof.
  intros Hc Hf. unfold refines, text_of. cbn [fmap list_fmap concat app]. rewrite app_assoc, <- Hc.
  destruct o as [h r|h]; rewrite ?Hf; [|done]. intros (H1 & H2 & H3). split; [|done]. intros rest. by rewrite Hf.
Qed.

(** Both loops have this shape: [stop] tells that the message has come as far as
    wanted, [fin] is what is then returned, [fail] the error of the parser. *)
Section Loop.
Context {A : Type} (stop : Http1Session -> bool) (fin : Http1Session -> Http1Session * A) (fail : Result A).
Context (L : nat -> nat -> H1 -> option (outcome A)) (F : list (Result bytes) -> P -> Http1Session -> ended (P * Http1Session) A).

Definition finish_on (h : H1) : outcome A :=
  Finished (MkH1On (connection_ h) (parser_ h) (fin (h1_state h)).1) (Ok (fin (h1_state h)).2).

Hypothesis L_eq : forall fuel n h, L fuel n h =
  if stop (h1_state h) then Some (finish_on h) else
  match n with
  | O => None
  | S n =>
      match read buf_size fuel (connection_ h) with
      | None => None
      | Some (Pending c) => Some (Waits (MkH1On c (parser_ h) (h1_state h)))
      | Some (Done c (Err e)) => Some (Finished (MkH1On c (parser_ h) (h1_state h)) (Err e))
      | Some (Done c (Ok [])) => Some (finish_on (MkH1On c (parser_ h) (h1_state h)))
      | Some (Done c (Ok chunk)) =>
          let '(p, evs, ok) := execute (parser_ h) chunk in
          let h := MkH1On c p (fold_left on_event evs (h1_state h)) in
          if ok then L fuel n h else Some (Finished h fail)
      end
  end.
Hypothesis F_eq : forall reads p s, F reads p s =
  if stop s then Ended (p, (fin s).1) reads (Ok (fin s).2) else
  match reads with
  | [] => Blocked
  | Err e :: reads => Ended (p, s) reads (Err e)
  | Ok [] :: reads => Ended (p, (fin s).1) reads (Ok (fin s).2)
  | Ok chunk :: reads =>
      let '(p, evs, ok) := execute p chunk in
      let s := fold_left on_event evs s in
      if ok then F reads p s else Ended (p, s) reads fail
  end.
Hypothesis fail_err : exists e, fail = Err e.

Lemma loop_refines h :
  sound (connection_ h) -> exists fuel n o reads,
    (forall fuel' n', (fuel <= fuel')%nat -> (n <= n')%nat -> L fuel' n' h = Some o) /\
    refines (connection_ h) (fun reads => F reads (parser_ h) (h1_state h)) reads o.
Proof.
  remember (effort (connection_ h)) as w eqn:Ew. revert h Ew. induction w as [w IH] using lt_wf_ind.
  intros [c p s] -> Hs. cbn [connection_ parser_ h1_state] in *. destruct (stop s) eqn:Est.
  { exists 0%nat, 0%nat, (finish_on (MkH1On c p s)), []. split.
    - intros fuel' n' _ _. rewrite L_eq. cbn [h1_state]. by rewrite Est.
    - split; [|cbn; by rewrite app_nil_r]. intros rest. rewrite F_eq. by rewrite Est. }
  destruct (law_stream_read buf_size c ltac:(unfold buf_size; lia) Hs) as (fuel & r & E & H).
  assert (Hone : forall o, (forall fuel' n', (fuel <= fuel')%nat -> L fuel' (S n') (MkH1On c p s) = Some o) ->
    forall fuel' n', (fuel <= fuel')%nat -> (1 <= n')%nat -> L fuel' n' (MkH1On c p s) = Some o).
  { intros o Ho fuel' [|n'] H1 H2; [lia|]. by apply Ho. }
  destruct r as [c1 [[|b chunk]|e]|c1].
  - destruct H as (H1 & H2 & _). exists fuel, 1%nat, (finish_on (MkH1On c1 p s)), [Ok []]. split.
    + apply Hone. intros fuel' n' Hle. rewrite L_eq. cbn [h1_state connection_]. by rewrite Est, (E _ Hle).
    + split; [|cbn; by rewrite H2, app_nil_r]. intros rest. cbn [app]. by rewrite F_eq, Est.
  - destruct H as (H1 & H2 & H3). destruct (execute p (b :: chunk)) as [[p1 evs] ok] eqn:Ee. destruct ok.
    + destruct (IH (effort c1)) with (h := MkH1On c1 p1 (fold_left on_event evs s)) as (fuel2 & n & o & reads & EL & Hr);
        [by apply H3|done|done|]. cbn [connection_ parser_ h1_state] in Hr.
      exists (Nat.max fuel fuel2), (S n), o, (Ok (b :: chunk) :: reads). split.
      * intros fuel' [|n'] Hf Hn; [lia|]. rewrite L_eq. cbn [h1_state connection_ parser_]. rewrite Est, (E fuel' ltac:(lia)), Ee.
        apply EL; lia.
      * eapply refines_cons; [exact H2| |exact Hr]. intros rest. cbn beta. by rewrite F_eq, Est, Ee.
    + exists fuel, 1%nat, (Finished (MkH1On c1 p1 (fold_left on_event evs s)) fail), [Ok (b :: chunk)]. split.
      * apply Hone. intros fuel' n' Hle. rewrite L_eq. cbn [h1_state connection_ parser_]. by rewrite Est, (E _ Hle), Ee.
      * destruct fail_err as [e ->]. split; [|split; [|done]].
        -- intros rest. cbn [app]. by rewrite F_eq, Est, Ee.
        -- cbn. by rewrite app_nil_r, H2.
  - exists fuel, 1%nat, (Finished (MkH1On c1 p s) (Err e)), [Err e]. split.
    + apply Hone. intros fuel' n' Hle. rewrite L_eq. cbn [h1_state connection_]. by rewrite Est, (E _ Hle).
    + split; [|cbn; by rewrite app_nil_r]. intros rest. cbn [app]. by rewrite F_eq, Est.
  - exists fuel, 1%nat, (Waits (MkH1On c1 p s)), []. split.
    + apply Hone. intros fuel' n' Hle. rewrite L_eq. cbn [h1_state connection_]. by rewrite Est, (E _ Hle).
    + split; [|cbn; by rewrite app_nil_r]. by rewrite F_eq, Est.
Qed.
End Loop.

Lemma read_headers_on_refines h :
  sound (connection_ h) -> exists fuel n o reads,
    (forall fuel' n', (fuel <= fuel')%nat -> (n <= n')%nat -> read_headers_on fuel' n' h = Some o) /\
    refines (connection_ h) (fun reads => read_headers execute reads (parser_ h) (h1_state h)) reads o.
Proof.
  apply (loop_refines headers_complete_ (fun s => (s, response_ s)) (make_err_result bad_message "http1 request")
    read_headers_on (read_headers execute)); [|by intros [|[[|b c]|e] reads] p s|by eexists].
  intros fuel [|n] [c p s]; done.
Qed.

Lemma body_full_on_refines h :
  sound (connection_ h) -> exists fuel n o reads,
    (forall fuel' n', (fuel <= fuel')%nat -> (n <= n')%nat -> body_full_on fuel' n' h = Some o) /\
    refines (connection_ h) (fun reads => body_full execute reads (parser_ h) (h1_state h)) reads o.
Proof.
  apply (loop_refines message_complete_ (fun s => (move_body s, body_buffer_ s)) (make_err_result bad_message "http1 body")
    body_full_on (body_full execute)); [|by intros [|[[|b c]|e] reads] p s|by eexists].
  intros fuel [|n] [c p s]; done.
Qed.
(** A call that succeeded, followed by one on the session it left. *)
Lemma refines_bind {A B} c f reads1 h (x : A) (g : P -> Http1Session -> list (Result bytes) -> ended (P * Http1Session) B) reads2
    (k : list (Result bytes) -> ended (P * Http1Session) B) o :
  refines c f reads1 (Finished h (Ok x)) -> refines (connection_ h) (g (parser_ h) (h1_state h)) reads2 o ->
  (forall reads p s rest, f reads = Ended (p, s) rest (Ok x) -> k reads = g p s rest) ->
  refines c k (reads1 ++ reads2) o.
Proof.
  intros (F1 & _ & F3) H Hk. destruct (F3 x eq_refl) as [_ E].
  assert (Et : received c ++ text_of (reads1 ++ reads2) = received (connection_ h) ++ text_of reads2).
  { unfold text_of. rewrite fmap_app, concat_app, app_assoc, E. done. }
  destruct o as [h2 r|h2]; cbn [refines] in *; rewrite Et.
  - destruct H as (G1 & G2 & G3). split; [|done]. intros rest. rewrite <- app_assoc.
    by rewrite (Hk _ _ _ _ (F1 (reads2 ++ rest))), G1.
  - destruct H as (G1 & G2). by rewrite (Hk _ _ _ _ (F1 reads2)), G1.
Qed.

(** The same exchange on a list of reads; [w] is the result of the write. *)
Definition exchange (w : Result Z) (req : HttpRequest) (p : P) (reads : list (Result bytes))
    : ended (P * Http1Session) (HeadParts * bytes) :=
  match request execute parser_reset (fun _ => w) req reads p with
  | Ended (p, s) reads (Ok head) =>
      match body_full execute reads p s with
      | Ended st reads (Ok body) => Ended st reads (Ok (head, body))
      | Ended st reads (Err e) => Ended st reads (Err e)
      | Blocked => Blocked
      end
  | Ended st reads (Err e) => Ended st reads (Err e)
  | Blocked => Blocked
  end.

Lemma request_on_refines req h :
  sound (connection_ h) -> exists fuel n o,
    (forall fuel' n', (fuel <= fuel')%nat -> (n <= n')%nat -> request_on fuel' n' req h = Some o) /\
    ((exists c h', write (serialize_to_h1 req) fuel (connection_ h) = Some (Pending c) /\ o = Waits h') \/
     exists w reads, refines (connection_ h) (fun reads => request execute parser_reset (fun _ => w) req reads (parser_ h)) reads o).
Proof.
  intros Hs. destruct (law_stream_write (serialize_to_h1 req) _ Hs) as (f1 & r & E & H).
  destruct r as [c [w|e]|c].
  - destruct H as [Hc Hr].
    destruct (read_headers_on_refines (MkH1On c (parser_reset (parser_ h)) reset_state) Hc) as (f2 & n & o & reads & EL & Ho).
    exists (Nat.max f1 f2), n. cbn [connection_ parser_ h1_state] in Ho.
    destruct o as [h2 [x|e]|h2]; eexists; (split;
      [intros fuel' n' Hf Hn; unfold request_on; cbn [connection_ parser_ h1_state]; rewrite (E fuel' ltac:(lia)), (EL fuel' n' ltac:(lia) Hn); done|]);
      right; exists (Ok w), reads; cbn [refines connection_ parser_ h1_state] in *; rewrite <- Hr.
    + destruct Ho as (H1 & H2 & H3). split; [|split; [done|naive_solver]]. intros rest. unfold request. by rewrite H1.
    + destruct Ho as (H1 & H2 & H3). split; [|done]. intros rest. unfold request. by rewrite H1.
    + destruct Ho as (H1 & H2). split; [|done]. unfold request. by rewrite H1.
  - exists f1, 0%nat, (Finished (MkH1On c (parser_reset (parser_ h)) reset_state) (Err e)). split.
    + intros fuel' n' Hf _. unfold request_on. cbn [connection_]. by rewrite (E fuel' Hf).
    + right. exists (Err e), []. split; [done|]. cbn. by rewrite app_nil_r.
  - exists f1, 0%nat, (Waits (MkH1On c (parser_reset (parser_ h)) reset_state)). split.
    + intros fuel' n' Hf _. unfold request_on. cbn [connection_]. by rewrite (E fuel' Hf).
    + left. rewrite E by done. eauto.
Qed.

Lemma exchange_on_refines req h :
  sound (connection_ h) -> exists fuel n o, exchange_on fuel n req h = Some o /\
    ((exists c h', write (serialize_to_h1 req) fuel (connection_ h) = Some (Pending c) /\ o = Waits h') \/
     exists w reads, refines (connection_ h) (exchange w req (parser_ h)) reads o).
Proof.
  intros Hs. destruct (request_on_refines req h Hs) as (f1 & n1 & o1 & E1 & [(c & h' & Ew & ->)|(w & reads & Hr)]).
  { exists f1, n1, (Waits h'). unfold exchange_on. rewrite E1 by done. split; [done|left; eauto]. }
  destruct o1 as [h1 [x|e]|h1].
  - destruct (proj2 (proj2 Hr) x eq_refl) as [Hs1 _].
    destruct (body_full_on_refines h1 Hs1) as (f2 & n2 & o & reads2 & E2 & Ho).
    exists (Nat.max f1 f2), (Nat.max n1 n2). unfold exchange_on. rewrite E1, E2 by lia.
    set (g p s rest := match body_full execute rest p s with
      | Ended st r (Ok b) => Ended st r (Ok (x, b)) | Ended st r (Err e) => Ended st r (Err e) | Blocked => Blocked end).
    set (o' := match o with
      | Finished h2 (Ok b) => Finished h2 (Ok (x, b)) | Finished h2 (Err e) => Finished h2 (Err e) | Waits h2 => Waits h2 end).
    exists o'. split; [by destruct o as [h2 [b|e]|h2]|]. right. exists w, (reads ++ reads2).
    apply (refines_bind _ _ _ _ _ g _ _ _ Hr).
    + unfold g, o'. destruct o as [h2 [b|e]|h2]; cbn [refines] in *;
        [|destruct Ho as (G1 & G2 & G3); split; [intros rest; by rewrite G1|done]|destruct Ho as [G1 G2]; by rewrite G1].
      destruct Ho as (G1 & G2 & G3). split; [intros rest; by rewrite G1|]. split; [done|]. intros _ _. by apply (G3 b).
    + intros rs p s rest Eq. unfold exchange, g. by rewrite Eq.
  - exists f1, n1, (Finished h1 (Err e)). unfold exchange_on. rewrite E1 by done. split; [done|]. right. exists w, reads.
    destruct Hr as (H1 & H2 & _). split; [|done]. intros rest. unfold exchange. by rewrite H1.
  - exists f1, n1, (Waits h1). unfold exchange_on. rewrite E1 by done. split; [done|]. right. exists w, reads.
    destruct Hr as (H1 & H2). split; [|done]. unfold exchange. by rewrite H1.
Qed.

(** The parser makes the callbacks of one response of [text], however it is cut; the
    pieces of the reason phrase depend on the cut. *)
Definition parses (text : bytes) (p : P) (st : HttpStatus) (hs : HttpHeaderList) (b : bytes) : Prop :=
  forall chunks, Forall (fun c => c <> []) chunks -> concat chunks = text ->
    exists evss p' spans, parse_chunks execute (parser_reset p) chunks = Some (evss, p') /\
      message_events st spans hs b (concat evss).

End Session.
Arguments Finished {T P A}.
Arguments Waits {T P A}.

(** A parser that makes the callbacks of each byte. *)
Definition bytewise (p : list (list Http1.event)) (c : bytes) : list (list Http1.event) * list Http1.event * bool :=
  (drop (length c) p, concat (take (length c) p), (length c <=? length p)%nat).

Lemma bytewise_chunks p chunks :
  length (concat chunks) = length p ->
  exists evss p', parse_chunks bytewise p chunks = Some (evss, p') /\ concat evss = concat p.
Proof.
  revert p. induction chunks as [|c chunks IH]; intros p Hl; cbn [concat parse_chunks] in *.
  - destruct p; [|done]. by eexists [], [].
  - rewrite length_app in Hl. destruct (IH (drop (length c) p)) as (evss & p' & E & Ec); [rewrite length_drop; lia|].
    unfold bytewise at 1. rewrite (proj2 (Nat.leb_le _ _)) by lia. rewrite E. eexists _, _. split; [done|].
    cbn [concat]. by rewrite Ec, <- concat_app, take_drop.
Qed.

Definition sample_stream : BoxedStream plain :=
  Some (TlsImpl (MkTlsOver 5 (MkTls (MkSocket [Ok 1000] [Ok [1; 2]; Ok [3]; Ok [4]] []) (MkPlain [] [] []) [] [] [] []))).

Definition sample_session : H1 := MkH1On sample_stream sample_events reset_state.

