(* ===== verification/H2Io.v ===== *)
(** ppnt-http: what an HTTP/2 session writes.

    [src/ppnt-http/src/http2.ixx]: making and destroying a session, [flush_writes],
    [drive], [is_valid] and [close_async], over the streams of [AnyStream.v] and
    nghttp2's interface, whose laws say what is queued and what is taken from the
    queue.  That a TLS stream takes all of what it is given is proved from the engine. *)

From stdpp Require Import gmap relations strings.
From S2P Require Import Prelude HttpTypes Http2 Stream AnyStream.

Local Open Scope Z_scope.

(** ** nghttp2 as the session drives it *)

(** [mem_send] gives the session, the returned length and the data; [mem_recv] the
    session and what it returns. *)
Class Nghttp2 (N : Type) := {
  want_write : N -> bool;
  want_read : N -> bool;
  mem_send : N -> N * Z * bytes;
  mem_recv : bytes -> N -> N * Z;
  submit_settings : N -> N
}.

(** [outgoing] is what is queued, in the order in which it is serialised. *)
Class Nghttp2Laws (N : Type) {HN : Nghttp2 N} := {
  outgoing : N -> bytes;
  law_want_write : forall s, want_write s = false -> outgoing s = [];
  law_mem_send : forall s s' len data, mem_send s = (s', len, data) ->
    if len >? 0 then len = Z.of_nat (length data) /\ outgoing s = data ++ outgoing s' else outgoing s' = outgoing s;
  law_mem_send_empty : forall s s' data, mem_send s = (s', 0, data) -> outgoing s = []
}.

(** A stream that takes all of what it is given to write, as [SSL_write] does unless
    partial writes are enabled; [accepted] is the text taken. *)
Class FullWrites (T : Type) {HS : AnyStream T} := {
  accepted : T -> bytes;
  law_full_write : forall buf fuel t t' n, write buf fuel t = Some (Done t' (Ok n)) -> accepted t' = accepted t ++ buf;
  law_no_write : forall buf fuel t r, write buf fuel t = Some r ->
    match r with
    | Done _ (Ok _) => True
    | Done t' (Err _) | Pending t' => accepted t' = accepted t \/ accepted t' = accepted t ++ buf
    end
}.

Section Session.
Context {T : Type} {HS : AnyStream T} {N : Type} {HN : Nghttp2 N}.

(** The members that do input and output; the null pointer is [None]. *)
Record H2 := MkH2 { connection_ : T; session_ : option N; closing : bool }.

(** The constructor with [init]: [client_new] is what [nghttp2_session_client_new] makes.
    Its result is not tested, so that a failure is undefined behaviour in
    [nghttp2_submit_settings]. *)
Definition Http2Session_new (client_new : option N) (connection : T) : option H2 :=
  s ← client_new; Some (MkH2 connection (Some (submit_settings s)) false).

(** The destructor: what [close] releases, and the nghttp2 session that is deleted. *)
Definition Http2Session_destroy (h : H2) : option (list Conn.event * option N) :=
  prod_map id (fun _ => session_ h) <$> close (connection_ h).

Definition is_valid (h : H2) : bool :=
  if closing h then false else
  match session_ h with None => false | Some s => want_read s || want_write s end.

(** [close]. *)
Definition h2_close (h : H2) : option (list Conn.event * H2) :=
  prod_map id (fun c => MkH2 c (session_ h) true) <$> close (connection_ h).

(** [flush_writes]; [fuel] bounds each write, [n] the turns. *)
Fixpoint flush_writes (fuel n : nat) (s : N) (c : T) : option (io (N * T) ()) :=
  match n with
  | O => None
  | S n =>
      if want_write s then
        let '(s, len, data) := mem_send s in
        if len <=? 0 then Some (Done (s, c) (Ok tt)) else
        match write data fuel c with
        | None => None
        | Some (Pending c) => Some (Pending (s, c))
        | Some (Done c (Err e)) => Some (Done (s, c) (Err e))
        | Some (Done c (Ok _)) => flush_writes fuel n s c
        end
      else Some (Done (s, c) (Ok tt))
  end.

(** The first loop of [drive] in one turn of the loop around it; [wrote] is [keep_looping]. *)
Fixpoint drive_send (fuel n : nat) (s : N) (c : T) (wrote : bool) : option (io (N * T) bool) :=
  match n with
  | O => None
  | S n =>
      if want_write s then
        let '(s, len, data) := mem_send s in
        if len =? 0 then Some (Done (s, c) (Ok wrote)) else
        if len <? 0 then Some (Done (s, c) (make_err_result io_error "nghttp2 send failed")) else
        match write data fuel c with
        | None => None
        | Some (Pending c) => Some (Pending (s, c))
        | Some (Done c (Err e)) => Some (Done (s, c) (Err e))
        | Some (Done c (Ok _)) => drive_send fuel n s c true
        end
      else Some (Done (s, c) (Ok wrote))
  end.

Fixpoint drive_loop (fuel n m : nat) (s : N) (c : T) : option (io (N * T) ()) :=
  match m with
  | O => None
  | S m =>
      match drive_send fuel n s c false with
      | None => None
      | Some (Pending x) => Some (Pending x)
      | Some (Done x (Err e)) => Some (Done x (Err e))
      | Some (Done (s, c) (Ok true)) => drive_loop fuel n m s c
      | Some (Done x (Ok false)) => Some (Done x (Ok tt))
      end
  end.

(** The second loop, which ignores the results of its writes. *)
Fixpoint drive_rest (fuel n : nat) (s : N) (c : T) : option (io (N * T) ()) :=
  match n with
  | O => None
  | S n =>
      if want_write s then
        let '(s, len, data) := mem_send s in
        if len <=? 0 then Some (Done (s, c) (Ok tt)) else
        match write data fuel c with
        | None => None
        | Some (Pending c) => Some (Pending (s, c))
        | Some (Done c _) => drive_rest fuel n s c
        end
      else Some (Done (s, c) (Ok tt))
  end.

Definition drive (fuel n m : nat) (s : N) (c : T) : option (io (N * T) ()) :=
  match drive_loop fuel n m s c with
  | Some (Done (s, c) (Ok _)) =>
      match drive_rest fuel n s c with
      | Some (Done (s, c) (Ok _)) =>
          if want_read s then
            match read (Z.to_nat 4096) fuel c with
            | None => None
            | Some (Pending c) => Some (Pending (s, c))
            | Some (Done c (Err e)) => Some (Done (s, c) (Err e))
            | Some (Done c (Ok [])) => Some (Done (s, c) (make_err_result not_connected "Peer closed"))
            | Some (Done c (Ok buffer)) =>
                let '(s, len) := mem_recv buffer s in
                if len <? 0 then Some (Done (s, c) (make_err_result io_error "h2 recv failed"))
                else flush_writes fuel n s c
            end
          else Some (Done (s, c) (Ok tt))
      | x => x
      end
  | x => x
  end.

(** As long as [nghttp2_session_mem_send] does not fail, the first loop of [drive] is
    [flush_writes]. *)
Lemma drive_send_flushes fuel n s c wrote :
  (forall s s' len data, mem_send s = (s', len, data) -> 0 <= len) ->
  match drive_send fuel n s c wrote, flush_writes fuel n s c with
  | Some (Done x (Ok _)), Some (Done y (Ok _)) => x = y
  | Some (Done x (Err e)), Some (Done y (Err e')) => x = y /\ e = e'
  | Some (Pending x), Some (Pending y) => x = y
  | None, None => True
  | _, _ => False
  end.
Proof.
  intros Hm. revert s c wrote. induction n as [|n IH]; intros s c wrote; cbn [drive_send flush_writes]; [done|].
  destruct (want_write s); [|done]. destruct (mem_send s) as [[s1 len] data] eqn:E. apply Hm in E.
  destruct (Z.eqb_spec len 0) as [->|Hn]; [done|].
  rewrite (proj2 (Z.ltb_ge len 0)), (proj2 (Z.leb_gt len 0)) by lia.
  destruct (write data fuel c) as [[c1 [k|e]|c1]|]; [apply IH|done..].
Qed.

Context {HL : AnyStreamLaws T} {HF : FullWrites T} {NL : Nghttp2Laws N}.

(** What sending the queue leaves behind. *)
Definition flushed (s : N) (c : T) (r : io (N * T) ()) : Prop :=
  match r with
  | Done (s', c') (Ok _) =>
      sound c' /\ (exists sent, outgoing s = sent ++ outgoing s' /\ accepted c' = accepted c ++ sent) /\
      (outgoing s' = [] \/ exists s0 len data, mem_send s0 = (s', len, data) /\ len < 0)
  | Done (s', c') (Err _) | Pending (s', c') =>
      exists sent, sent `prefix_of` outgoing s /\ accepted c' = accepted c ++ sent
  end.

Lemma flush_writes_spec s c :
  sound c -> exists fuel n r,
    (forall fuel' n', (fuel <= fuel')%nat -> (n <= n')%nat -> flush_writes fuel' n' s c = Some r) /\ flushed s c r.
Proof.
  remember (length (outgoing s)) as w eqn:Ew. revert s c Ew. induction w as [w IH] using lt_wf_ind. intros s c -> Hc.
  destruct (want_write s) eqn:Eww.
  2: { exists 0%nat, 1%nat, (Done (s, c) (Ok tt)). split; [intros ? [|n'] ? ?; [lia|]; cbn; by rewrite Eww|].
       split; [done|]. split; [exists []; by rewrite app_nil_r|]. left. by apply law_want_write. }
  destruct (mem_send s) as [[s1 len] data] eqn:Em. pose proof (law_mem_send _ _ _ _ Em) as Hm.
  destruct (Z.gtb_spec len 0) as [Hl|Hl].
  2: { exists 0%nat, 1%nat, (Done (s1, c) (Ok tt)). split.
       - intros ? [|n'] ? ?; [lia|]. cbn. rewrite Eww, Em. by destruct (Z.leb_spec len 0); [|lia].
       - split; [done|]. split; [exists []; by rewrite Hm, app_nil_r|]. destruct (Z.eqb_spec len 0) as [->|Hn].
         + left. rewrite Hm. by eapply law_mem_send_empty.
         + right. exists s, len, data. split; [done|lia]. }
  destruct Hm as [Hlen Hout]. destruct (law_stream_write data c Hc) as (f & r & E & Hr).
  assert (Hlen' : (len <=? 0) = false) by lia.
  pose proof (law_no_write _ _ _ _ (E f ltac:(done))) as Hno.
  assert (Hfail : forall c', accepted c' = accepted c \/ accepted c' = accepted c ++ data ->
    exists sent, sent `prefix_of` outgoing s /\ accepted c' = accepted c ++ sent).
  { intros c' [-> | ->]; [exists []|exists data]; rewrite ?app_nil_r, Hout; split; try done; [apply prefix_nil|by apply prefix_app_r]. }
  destruct r as [c1 [k|e]|c1].
  - destruct Hr as [Hc1 _]. pose proof (law_full_write _ _ _ _ _ (E f ltac:(done))) as Ha.
    destruct (IH (length (outgoing s1))) with (s := s1) (c := c1) as (f2 & n & r & E2 & H2); [rewrite Hout, length_app; lia|done|done|].
    exists (Nat.max f f2), (S n), r. split.
    + intros fuel' [|n'] Hf Hn; [lia|]. cbn [flush_writes]. rewrite Eww, Em, Hlen', (E fuel' ltac:(lia)). apply E2; lia.
    + destruct r as [[s' c'] [u|e]|[s' c']]; cbn [flushed] in *.
      * destruct H2 as (H2 & (sent & Hs & Hs') & H3). split; [done|]. split; [|done].
        exists (data ++ sent). by rewrite Hout, Hs, Hs', Ha, <- !app_assoc.
      * destruct H2 as (sent & Hs & Hs'). exists (data ++ sent). rewrite Hout, Hs', Ha, <- app_assoc. split; [by apply prefix_app|done].
      * destruct H2 as (sent & Hs & Hs'). exists (data ++ sent). rewrite Hout, Hs', Ha, <- app_assoc. split; [by apply prefix_app|done].
  - exists f, 1%nat, (Done (s1, c1) (Err e)). split; [|by apply Hfail].
    intros fuel' [|n'] Hf Hn; [lia|]. cbn [flush_writes]. by rewrite Eww, Em, Hlen', (E fuel' Hf).
  - exists f, 1%nat, (Pending (s1, c1)). split; [|by apply Hfail].
    intros fuel' [|n'] Hf Hn; [lia|]. cbn [flush_writes]. by rewrite Eww, Em, Hlen', (E fuel' Hf).
Qed.

(** ([Http2Session::flush_writes], functional): over a stream that takes all of each
    write, sending ends or waits.  If it succeeds, all that nghttp2 had queued was
    written, in order, unless [nghttp2_session_mem_send] failed, which is not reported;
    otherwise what was written is a prefix of it. *)
Theorem flush_writes_sends s c :
  sound c -> exists fuel n r, flush_writes fuel n s c = Some r /\
  match r with
  | Done (s', c') (Ok _) =>
      (exists sent, outgoing s = sent ++ outgoing s' /\ accepted c' = accepted c ++ sent) /\
      (outgoing s' = [] \/ exists s0 len data, mem_send s0 = (s', len, data) /\ len < 0)
  | Done (s', c') (Err _) | Pending (s', c') =>
      exists sent, sent `prefix_of` outgoing s /\ accepted c' = accepted c ++ sent
  end.
Proof.
  intros Hc. destruct (flush_writes_spec s c Hc) as (fuel & n & r & E & H). exists fuel, n, r. split; [by apply E|].
  destruct r as [[s' c'] [u|e]|[s' c']]; [|done..]. by destruct H.
Qed.
End Session.

(** ** Closing *)

(** [close_async]: [threw] tells that the driver ended with an exception; [None] waits for
    the driver. *)
Definition close_async (threw : bool) (w : world) : world * option (Result ()) :=
  let w := Http2.close w in
  match back_task_ w with
  | NotSpawned => (w, Some (Ok tt))
  | Ended =>
      (set_driver NotSpawned w,
       Some (if threw then make_err_result operation_canceled "http2 background driver aborted" else Ok tt))
  | _ => (w, None)
  end.

Lemma on_event_should_close w e : should_close_ (on_event w e) = should_close_ w.
Proof.
  destruct e as [t id n v|id d|id code|t cat id]; cbn; unfold on_header_callback, on_data_chunk_recv_callback,
    on_stream_close_callback, on_frame_recv_callback, wake_body, wake_header; by repeat (case_match; cbn).
Qed.

Lemma on_events_should_close evs w : should_close_ (fold_left on_event evs w) = should_close_ w.
Proof. revert w. induction evs as [|e evs IH]; intros w; cbn; [done|]. by rewrite IH, on_event_should_close. Qed.

(** A call that waits returns once the driver has had the result of its read and of
    the writes after it. *)
Lemma close_async_returns threw w res ok w1 :
  close_async threw w = (w1, None) ->
  let w2 := match back_task_ w1 with Reading => driver_read res w1 | _ => w1 end in
  let w3 := match back_task_ w2 with Writing => driver_flushed ok w2 | _ => w2 end in
  is_Some (snd (close_async threw w3)).
Proof.
  unfold close_async. destruct (back_task_ (Http2.close w)) eqn:Eb; intros [= <-]; rewrite Eb; cbn zeta.
  - assert (Hr : back_task_ (driver_read res (Http2.close w)) = Ended \/
      back_task_ (driver_read res (Http2.close w)) = Writing /\ should_close_ (driver_read res (Http2.close w)) = true).
    { unfold driver_read. destruct res as [[evs [|]]|]; [right|left; apply driver_end_ended..].
      split; [done|]. cbn. by rewrite on_events_should_close. }
    revert Hr. generalize (driver_read res (Http2.close w)) as w2. intros w2 [Hr|[Hr Hc]]; rewrite Hr;
      [cbn [Http2.close set_close back_task_]; by rewrite Hr|]. unfold driver_flushed, driver_loop. rewrite Hc.
    destruct ok; cbn [Http2.close set_close back_task_]; rewrite driver_end_ended; done.
  - rewrite Eb. unfold driver_flushed, driver_loop. cbn [should_close_ Http2.close set_close].
    destruct ok; cbn [Http2.close set_close back_task_]; rewrite driver_end_ended; done.
Qed.

(** ** A TLS stream takes all of what it is given *)

(** [accepted_text] is what [SSL_write] has taken; without partial writes that is all of
    its buffer or nothing, and it does not report the end of the stream. *)
Class TlsWriteLaws (Eng : Type) {HT : TlsEngine Eng} := {
  accepted_text : Eng -> bytes;
  law_SSL_write : forall buf e q e' q' out ret err, SSL_write buf e q = (e', q', out, (ret, err)) ->
    accepted_text e' = accepted_text e ++ (if ret >? 0 then buf else []) /\
    (ret <= 0 -> err <> SSL_ERROR_ZERO_RETURN)
}.

Section TlsWrites.
Context {Eng : Type} {HT : TlsEngine Eng} {HW : TlsWriteLaws Eng}.

Lemma flush_engine fuel (t : Stream.TlsStream (Eng := Eng)) r :
  flush_bio_to_tcp fuel t = Some r -> match r with Done t' _ | Pending t' => engine t' = engine t end.
Proof.
  revert t. induction fuel as [|fuel IH]; intros t; cbn [flush_bio_to_tcp]; destruct (to_tcp t); intros E; try (by injection E as <-);
    [done|].
  destruct (write_all _ _ _) as [[s' [u|e]|s']|]; [|by injection E as <-..|done]. by apply IH in E.
Qed.

Lemma tls_write_accepts buf fuel t r :
  tls_write buf fuel t = Some r ->
  match r with
  | Done t' (Ok _) => accepted_text (engine t') = accepted_text (engine t) ++ buf
  | Done t' (Err _) | Pending t' =>
      accepted_text (engine t') = accepted_text (engine t) \/ accepted_text (engine t') = accepted_text (engine t) ++ buf
  end.
Proof.
  unfold tls_write. revert t. induction fuel as [|fuel IH]; intros t E; [done|]. cbn [run_ssl_op] in E. unfold run_op in E.
  destruct (SSL_write buf (engine t) (from_tcp t)) as [[[e q] out] [ret err]] eqn:Ew. cbn [to_tcp] in E.
  destruct (law_SSL_write _ _ _ _ _ _ _ _ Ew) as [Ha Hz].
  destruct (flush_bio_to_tcp _ _) as [f|] eqn:Ef; [|done]. apply flush_engine in Ef. cbn [engine] in Ef.
  assert (Hor : forall t' : Stream.TlsStream (Eng := Eng), engine t' = e -> accepted_text (engine t') = accepted_text (engine t) \/
    accepted_text (engine t') = accepted_text (engine t) ++ buf).
  { intros t' Et. rewrite Et, Ha. destruct (ret >? 0); [by right|left; by rewrite app_nil_r]. }
  destruct f as [t2 [u|e2]|t2]; [|injection E as <-; by apply Hor..].
  destruct (Z.gtb_spec ret 0) as [Hr|Hr]; [injection E as <-; by rewrite Ef|]. rewrite app_nil_r in Ha.
  destruct (err =? SSL_ERROR_WANT_READ).
  { pose proof (fill_engine t2) as H. destruct (fill_bio_from_tcp t2) as [t3 [[|m]|e3]|t3];
      try (injection E as <-; unfold make_err_result; apply Hor; congruence).
    apply IH in E. rewrite H, Ef, Ha in E. exact E. }
  destruct (err =? SSL_ERROR_WANT_WRITE); [apply IH in E; rewrite Ef, Ha in E; exact E|].
  destruct (Z.eqb_spec err SSL_ERROR_ZERO_RETURN) as [->|_]; [by apply Hz in Hr|]. injection E as <-. by apply Hor.
Qed.

#[export] Instance tls_full_writes : FullWrites (AnyStream.TlsStream Eng).
Proof.
  refine {| accepted t := accepted_text (engine (tls t)) |}.
  - intros buf fuel t t' n E. cbn [write tls_stream] in E. unfold TlsStream_write in E.
    destruct (tls_write buf fuel (tls_now t)) as [r|] eqn:Ew; [|done]. apply tls_write_accepts in Ew.
    destruct r as [t1 x|t1]; [|done]. injection E as <- ->. exact Ew.
  - intros buf fuel t r E. cbn [write tls_stream] in E. unfold TlsStream_write in E.
    destruct (tls_write buf fuel (tls_now t)) as [r0|] eqn:Ew; [|done]. apply tls_write_accepts in Ew.
    injection E as <-. by destruct r0 as [t1 [x|e]|t1].
Defined.
End TlsWrites.

(** ** Instances *)

(** A queue of bytes that is serialised three bytes at a time. *)
#[local] Instance queue_nghttp2 : Nghttp2 bytes := {|
  want_write s := match s with [] => false | _ => true end;
  want_read _ := true;
  mem_send s := (drop 3 s, Z.of_nat (length (take 3 s)), take 3 s);
  mem_recv buf s := (s, Z.of_nat (length buf));
  submit_settings s := s ++ [0; 0; 0; 4]
|}.

#[local] Instance queue_nghttp2_laws : Nghttp2Laws bytes.
Proof.
  refine {| outgoing s := s |}.
  - by intros [].
  - intros s s' len data [= <- <- <-]. destruct s as [|b s]; [done|]. 
    rewrite (proj2 (Z.gtb_lt _ 0)) by (cbn; lia). by rewrite take_drop.
  - intros [|b s] s' data; [done|]. cbn. by intros [=].
Defined.

#[export] Instance plain_write_laws : TlsWriteLaws plain.
Proof.
  refine {| accepted_text := p_accepted |}. intros buf e q e' q' out ret err. cbn. intros [= <- <- <- <- <-].
  destruct buf as [|b buf]; done.
Defined.

Definition sample_tls_stream : AnyStream.TlsStream plain :=
  MkTlsOver 5 (MkTls (MkSocket [Ok 3; Ok 2; Ok 9] [] []) (MkPlain [] [] []) [] [] [] []).

(** An instance. *)
Lemma flush_writes_sends_witness :
  (exists fuel n r, flush_writes fuel n [1; 2; 3; 4] sample_tls_stream = Some r) /\
  (exists t, flush_writes 4 4 [1; 2; 3; 4] sample_tls_stream = Some (Done ([], t) (Ok tt)) /\
    accepted t = [1; 2; 3; 4] /\ sent (inner_ (tls t)) = [1; 2; 3; 4]).
Proof.
  split.
  - destruct (flush_writes_sends [1; 2; 3; 4] sample_tls_stream) as (fuel & n & r & E & _); [done|by exists fuel, n, r].
  - eexists. split; [vm_compute; reflexivity|done].
Defined.
