(* ===== verification/Writers.v ===== *)
(** ppnt-io/net and ppnt-http: coroutines that write to one TLS connection.

    [flush_bio_to_tcp] of [src/ppnt-io/src/net/ssl.ixx] copies what the TLS engine has
    written into [io_buffer_], the only buffer of the stream, hands the kernel a pointer
    to it ([TcpStream::write_all]) and suspends.  An HTTP/2 session ([Http2.v]) lets its
    requests and its background driver write whenever they run, so that several of
    them may be suspended there.  Here the connection is cut at these suspensions and
    joined with the steps of the session. *)

From stdpp Require Import gmap relations strings.
From S2P Require Import Prelude Http2 Stream.

Local Open Scope Z_scope.

(** ** The connection *)

(** A coroutine in [write_all] on the first [n] bytes of [io_buffer_], of which [written]
    are written: the kernel has the rest, or has taken some more of it or refused it
    (an error, or 0 bytes) and the coroutine is not resumed yet; or its operation on the
    stream has returned, or has returned the error of the write. *)
Inductive writer := InFlight (written n : nat) | Copied (written n : nat) | Refused | OpReturned | OpFailed.

(** [bio] is what the engine has written and nobody has taken, [wire] what the kernel has
    sent; [produced] and [failed] record, for the theorems, all that the engine wrote and
    whether the kernel has refused a write. *)
Record conn := MkConn {
  bio : bytes;
  io_buffer_ : bytes;
  writers : gmap Z writer;
  wire : bytes;
  produced : bytes;
  failed : bool
}.

Definition set_writer (id : Z) (x : writer) (s : conn) : conn :=
  MkConn (bio s) (io_buffer_ s) (<[id := x]> (writers s)) (wire s) (produced s) (failed s).

(** The coroutine goes on with something else. *)
Definition leave_conn (id : Z) (s : conn) : conn :=
  MkConn (bio s) (io_buffer_ s) (delete id (writers s)) (wire s) (produced s) (failed s).

(** A turn of the loop of [flush_bio_to_tcp] up to its suspension in [write_all]. *)
Definition flush_turn (id : Z) (s : conn) : conn :=
  match bio s with
  | [] => set_writer id OpReturned s
  | _ =>
      let n := Nat.min BIO_SIZE (length (bio s)) in
      MkConn (drop n (bio s)) (take n (bio s) ++ drop n (io_buffer_ s)) (<[id := InFlight 0 n]> (writers s))
        (wire s) (produced s) (failed s)
  end.

(** An operation of the engine, which writes [out], and the loop after it. *)
Definition ssl_op (id : Z) (out : bytes) (s : conn) : conn :=
  flush_turn id (MkConn (bio s ++ out) (io_buffer_ s) (writers s) (wire s) (produced s ++ out) (failed s)).

(** The kernel takes [k] bytes from where the coroutine's pointer points. *)
Definition kernel_copies (id : Z) (k : nat) (s : conn) : conn :=
  match writers s !! id with
  | Some (InFlight a n) =>
      MkConn (bio s) (io_buffer_ s) (<[id := Copied (a + k) n]> (writers s)) (wire s ++ take k (drop a (io_buffer_ s)))
        (produced s) (failed s)
  | _ => s
  end.

(** The kernel takes nothing. *)
Definition kernel_refuses (id : Z) (s : conn) : conn :=
  match writers s !! id with
  | Some (InFlight a n) => MkConn (bio s) (io_buffer_ s) (<[id := Refused]> (writers s)) (wire s) (produced s) true
  | _ => s
  end.

(** The coroutine is resumed in [write_all], which goes on with the rest, or returns to
    the loop of [flush_bio_to_tcp], or gives up the rest and fails. *)
Definition write_resumed (id : Z) (s : conn) : conn :=
  match writers s !! id with
  | Some (Copied a n) => if (a <? n)%nat then set_writer id (InFlight a n) s else flush_turn id s
  | Some Refused => set_writer id OpFailed s
  | _ => s
  end.

(** The coroutine is not in [write_all]; it may use the engine. *)
Definition idle (x : option writer) : bool := match x with None | Some OpReturned | Some OpFailed => true | _ => false end.
Definition ready (x : option writer) : bool := match x with None | Some OpReturned => true | _ => false end.

(** Nobody but [id] is in [write_all]. *)
Definition alone (id : Z) (s : conn) : Prop := forall j, j <> id -> idle (writers s !! j) = true.

(** What coroutines and kernel do; [may] tells when a coroutine may use the engine. *)
Inductive conn_step (may : Z -> conn -> Prop) : conn -> conn -> Prop :=
| conn_op s id out : ready (writers s !! id) = true -> may id s -> conn_step may s (ssl_op id out s)
| conn_kernel s id k a n :
    writers s !! id = Some (InFlight a n) -> (0 < k <= n - a)%nat -> conn_step may s (kernel_copies id k s)
| conn_refused s id a n : writers s !! id = Some (InFlight a n) -> conn_step may s (kernel_refuses id s)
| conn_resumed s id : idle (writers s !! id) = false -> conn_step may s (write_resumed id s)
| conn_leave s id : idle (writers s !! id) = true -> conn_step may s (leave_conn id s).

Definition conn_start (buf : bytes) : conn := MkConn [] buf ∅ [] [] false.

(** ** One writer at a time *)

(** The bytes a coroutine still has to write. *)
Definition rest_of (buf : bytes) (x : option writer) : bytes :=
  match x with Some (InFlight a n) | Some (Copied a n) => take (n - a) (drop a buf) | _ => [] end.

Definition in_range (x : option writer) : Prop :=
  match x with Some (InFlight a n) => (a < n <= BIO_SIZE)%nat | Some (Copied a n) => (a <= n <= BIO_SIZE)%nat | _ => True end.

(** [sent] was given to the kernel, which has sent all of it unless it refused some. *)
Definition handled (sent : bytes) (s : conn) : Prop := wire s `sublist_of` sent /\ (failed s = false -> wire s = sent).

(** All that the engine wrote was given to the kernel, is in the buffer of the one writer,
    or in the pair. *)
Record exact_for (id : Z) (s : conn) : Prop := Exact {
  ex_alone : alone id s;
  ex_buffer : length (io_buffer_ s) = BIO_SIZE;
  ex_range : in_range (writers s !! id);
  ex_all : exists sent, produced s = sent ++ rest_of (io_buffer_ s) (writers s !! id) ++ bio s /\ handled sent s;
  ex_idle : failed s = false -> idle (writers s !! id) = true -> bio s = []
}.

Lemma flush_turn_exact id s sent :
  alone id s -> length (io_buffer_ s) = BIO_SIZE -> produced s = sent ++ bio s -> handled sent s -> exact_for id (flush_turn id s).
Proof.
  intros Ha Hb Hp Hh. unfold flush_turn. destruct (bio s) as [|b q] eqn:Eb.
  - split; cbn [set_writer writers io_buffer_ bio produced wire failed]; [|done|by rewrite lookup_insert_eq| |by rewrite Eb].
    + intros j Hj. cbn. rewrite lookup_insert_ne by done. by apply Ha.
    + exists sent. by rewrite lookup_insert_eq, Eb.
  - assert (Hn : (0 < Nat.min BIO_SIZE (length (b :: q)))%nat) by (unfold BIO_SIZE; cbn [length]; lia).
    set (n := Nat.min BIO_SIZE (length (b :: q))) in *.
    split; cbn [writers io_buffer_ bio produced wire failed].
    + intros j Hj. cbn. rewrite lookup_insert_ne by done. by apply Ha.
    + rewrite length_app, length_take, length_drop. lia.
    + rewrite lookup_insert_eq. cbn. lia.
    + exists sent. split; [|done]. rewrite lookup_insert_eq. cbn [rest_of]. rewrite drop_0, Nat.sub_0_r, take_app_le by (rewrite length_take; lia).
      by rewrite take_take, Nat.min_id, take_drop.
    + by rewrite lookup_insert_eq.
Qed.

Lemma kernel_copies_exact id k a n s :
  writers s !! id = Some (InFlight a n) -> (0 < k <= n - a)%nat -> exact_for id s -> exact_for id (kernel_copies id k s).
Proof.
  intros Hw Hk [Ha Hb Hr (sent & Hp & Hs1 & Hs2) _]. unfold kernel_copies. rewrite Hw in *. cbn [in_range rest_of] in Hr, Hp.
  split; cbn [writers io_buffer_ bio produced wire]; rewrite ?lookup_insert_eq; cbn [in_range rest_of idle]; [|done|lia| |done].
  - intros j Hj. cbn. rewrite lookup_insert_ne by done. by apply Ha.
  - exists (sent ++ take k (drop a (io_buffer_ s))). split.
    + rewrite Hp, <- !app_assoc. f_equal. rewrite app_assoc. f_equal. rewrite <- drop_drop, take_take_drop. f_equal. lia.
    + split; cbn [wire failed]; [by apply sublist_app|]. by intros ->%Hs2.
Qed.

Lemma kernel_refuses_exact id a n s :
  writers s !! id = Some (InFlight a n) -> exact_for id s -> exact_for id (kernel_refuses id s).
Proof.
  intros Hw [Ha Hb Hr (sent & Hp & Hs1 & Hs2) _]. unfold kernel_refuses. rewrite Hw in *. cbn [in_range rest_of] in Hr, Hp.
  split; cbn [writers io_buffer_ bio produced wire failed]; rewrite ?lookup_insert_eq; cbn [in_range rest_of idle]; [|done|done| |done].
  - intros j Hj. cbn. rewrite lookup_insert_ne by done. by apply Ha.
  - eexists (sent ++ _). split; [by rewrite Hp, app_assoc|]. split; [|done]. cbn [wire]. by apply sublist_inserts_r.
Qed.

(** Only a refused write leaves the coroutine in [Refused]. *)
Definition refusals_known (s : conn) : Prop :=
  forall id, writers s !! id = Some Refused \/ writers s !! id = Some OpFailed -> failed s = true.

Lemma write_resumed_exact id s : refusals_known s -> exact_for id s -> exact_for id (write_resumed id s).
Proof.
  intros Hk He. pose proof He as [Ha Hb Hr (sent & Hp & Hh) Hi]. specialize (Hk id). unfold write_resumed.
  destruct (writers s !! id) as [[a n|a n| | |]|] eqn:Hw; try done; cbn [in_range rest_of] in Hr, Hp; [destruct (Nat.ltb_spec a n) as [Hn|Hn]|].
  - split; cbn [set_writer writers io_buffer_ bio produced wire]; rewrite ?lookup_insert_eq; cbn [in_range rest_of idle]; [|done|lia|by exists sent|done].
    intros j Hj. cbn. rewrite lookup_insert_ne by done. by apply Ha.
  - apply (flush_turn_exact _ _ sent); [done|done| |done]. rewrite Hp. replace (n - a)%nat with 0%nat by lia. done.
  - split; cbn [set_writer writers io_buffer_ bio produced wire failed]; rewrite ?lookup_insert_eq; cbn [in_range rest_of idle]; [|done|done|by exists sent|].
    + intros j Hj. cbn. rewrite lookup_insert_ne by done. by apply Ha.
    + rewrite Hk by auto. done.
Qed.

Lemma exact_other id j s : exact_for id s -> idle (writers s !! id) = true -> idle (writers s !! j) = true -> exact_for j s.
Proof.
  intros [Ha Hb Hr (sent & Hp & Hh) Hi] Hid Hj. assert (Hrest : forall i, idle (writers s !! i) = true -> rest_of (io_buffer_ s) (writers s !! i) = []).
  { intros i. by destruct (writers s !! i) as [[]|]. }
  split; [|done| |exists sent; by rewrite Hp, !Hrest|auto].
  - intros i Hi'. destruct (decide (i = id)) as [->|]; [done|by apply Ha].
  - by destruct (writers s !! j) as [[]|].
Qed.

Lemma busy_is id j s : exact_for id s -> idle (writers s !! j) = false -> j = id.
Proof. intros [Ha _ _ _ _] Hj. destruct (decide (j = id)) as [->|H]; [done|]. by rewrite Ha in Hj. Qed.

Lemma ready_idle x : ready x = true -> idle x = true.
Proof. by destruct x as [[]|]. Qed.

Lemma leave_exact i id s : idle (writers s !! id) = true -> exact_for i s -> exact_for i (leave_conn id s).
Proof.
  intros Hw [Ha Hb Hr (sent & Hp & Hh) Hidle]. destruct (decide (i = id)) as [->|Hne].
  - split; cbn [leave_conn writers io_buffer_ bio produced wire failed]; rewrite ?lookup_delete_eq; [|done|done| |auto].
    + intros j Hj. cbn. rewrite lookup_delete_ne by done. by apply Ha.
    + exists sent. split; [|done]. by destruct (writers s !! id) as [[]|].
  - split; cbn [leave_conn writers io_buffer_ bio produced wire failed]; rewrite ?lookup_delete_ne by done; [|done..|by exists sent|done].
    intros j Hj. cbn. destruct (decide (j = id)) as [->|Hj']; [by rewrite lookup_delete_eq|].
    rewrite lookup_delete_ne by done. by apply Ha.
Qed.

Lemma refusals_insert id x s s' :
  refusals_known s -> failed s' = failed s -> writers s' = <[id := x]> (writers s) -> x <> Refused -> x <> OpFailed ->
  refusals_known s'.
Proof.
  intros Hk Ef Ew H1 H2 j. rewrite Ef, Ew. destruct (decide (j = id)) as [->|Hne].
  - rewrite lookup_insert_eq. intros [[= ?]|[= ?]]; done.
  - rewrite lookup_insert_ne by done. apply Hk.
Qed.

Lemma flush_turn_refusals id s : refusals_known s -> refusals_known (flush_turn id s).
Proof. intros Hk. unfold flush_turn. destruct (bio s); by eapply refusals_insert. Qed.

Lemma conn_step_refusals may s s' : conn_step may s s' -> refusals_known s -> refusals_known s'.
Proof.
  intros Hs Hk. destruct Hs as [s id out _ _|s id k a n Hw _|s id a n Hw|s id Hw|s id Hw].
  - by apply flush_turn_refusals.
  - unfold kernel_copies. rewrite Hw. by eapply refusals_insert.
  - intros j. unfold kernel_refuses. by rewrite Hw.
  - unfold write_resumed. destruct (writers s !! id) as [[a n|a n| | |]|] eqn:E; try done.
    + destruct (a <? n)%nat; [by eapply refusals_insert|by apply flush_turn_refusals].
    + intros j _. cbn. apply (Hk id). by left.
  - intros j. cbn. destruct (decide (j = id)) as [->|Hne]; [rewrite lookup_delete_eq; naive_solver|].
    rewrite lookup_delete_ne by done. apply Hk.
Qed.

Lemma conn_step_exact s s' :
  conn_step alone s s' -> refusals_known s -> (exists id, exact_for id s) -> exists id, exact_for id s'.
Proof.
  intros Hs Hk [i Hi]. destruct Hs as [s id out Hid%ready_idle Hal|s id k a n Hw Hka|s id a n Hw|s id Hw|s id Hw].
  - exists id. assert (He : exact_for id s).
    { destruct (decide (i = id)) as [<-|Hne]; [done|]. apply (exact_other i); [done| |done]. by apply Hal. }
    destruct He as [Ha Hb _ (sent & Hp & Hh) _]. apply (flush_turn_exact _ _ sent); cbn; [done|done| |done].
    rewrite Hp. destruct (writers s !! id) as [[]|]; try done; cbn; by rewrite <- app_assoc.
  - exists i. assert (id = i) as -> by (eapply busy_is; [done|by rewrite Hw]). by eapply kernel_copies_exact.
  - exists i. assert (id = i) as -> by (eapply busy_is; [done|by rewrite Hw]). by eapply kernel_refuses_exact.
  - exists i. assert (id = i) as -> by (by eapply busy_is). by apply write_resumed_exact.
  - exists i. by apply leave_exact.
Qed.

(** ** The connection of an HTTP/2 session *)

(** The background driver as a writer; streams have positive ids. *)
Definition driver_id : Z := 0.

(** The steps of the session, those that use the connection with what they do to it.
    [flush_writes] is one operation of the engine after the other; the driver's reads
    flush what the engine has written as well.  An operation whose write was refused
    fails; one can also fail for another reason, as when the engine reports an error. *)
Inductive joint_step (may : Z -> conn -> Prop) : world * conn -> world * conn -> Prop :=
| joint_request w s id out :
    0 < id -> fresh_id id w -> writers s !! id = None -> may id s ->
    joint_step may (w, s) (fst (request_submit id w), ssl_op id out s)
| joint_next w s id out :
    tasks w !! id = Some Flushing -> writers s !! id = Some OpReturned -> may id s ->
    joint_step may (w, s) (w, ssl_op id out s)
| joint_flushed w s id ok :
    tasks w !! id = Some Flushing -> writers s !! id = Some OpReturned ->
    joint_step may (w, s) (request_flushed id ok w, leave_conn id s)
| joint_flush_failed w s id :
    tasks w !! id = Some Flushing -> writers s !! id = Some OpFailed ->
    joint_step may (w, s) (request_flushed id false w, leave_conn id s)
| joint_driver_op w s out :
    back_task_ w = Reading \/ back_task_ w = Writing -> ready (writers s !! driver_id) = true -> may driver_id s ->
    joint_step may (w, s) (w, ssl_op driver_id out s)
| joint_driver_read w s res :
    back_task_ w = Reading -> writers s !! driver_id = Some OpReturned ->
    (forall evs ok, res = Some (evs, ok) -> evs_ok (closed w) evs) ->
    joint_step may (w, s) (driver_read res w, leave_conn driver_id s)
| joint_driver_read_failed w s :
    back_task_ w = Reading -> writers s !! driver_id = Some OpFailed ->
    joint_step may (w, s) (driver_read None w, leave_conn driver_id s)
| joint_driver_flushed w s ok :
    back_task_ w = Writing -> ready (writers s !! driver_id) = true ->
    joint_step may (w, s) (driver_flushed ok w, leave_conn driver_id s)
| joint_driver_flush_failed w s :
    back_task_ w = Writing -> writers s !! driver_id = Some OpFailed ->
    joint_step may (w, s) (driver_flushed false w, leave_conn driver_id s)
| joint_send w s evs :
    in_flush_writes w -> Forall (fun e => sending_event e = true) evs -> evs_ok (closed w) evs ->
    joint_step may (w, s) (fold_left on_event evs w, s)
| joint_close w s : joint_step may (w, s) (Http2.close w, s)
| joint_kernel w s id k a n :
    writers s !! id = Some (InFlight a n) -> (0 < k <= n - a)%nat -> joint_step may (w, s) (w, kernel_copies id k s)
| joint_refused w s id a n :
    writers s !! id = Some (InFlight a n) -> joint_step may (w, s) (w, kernel_refuses id s)
| joint_write_resumed w s id :
    idle (writers s !! id) = false -> joint_step may (w, s) (w, write_resumed id s)
| joint_resumed w s id b : tasks w !! id = Some (HeadersPosted b) -> joint_step may (w, s) (request_resumed id b w, s)
| joint_body w s id r : tasks w !! id = Some (HasResponse r) -> joint_step may (w, s) (body_full id r w, s)
| joint_body_resumed w s id r d : tasks w !! id = Some (BodyPosted r d) -> joint_step may (w, s) (body_resumed id r d w, s).

(** Every joint run is a run of the session and a run of the connection. *)
Lemma joint_projects may x y : joint_step may x y -> rtc step (fst x) (fst y) /\ rtc (conn_step may) (snd x) (snd y).
Proof.
  destruct 1; cbn [fst snd]; (split;
    [first [reflexivity|apply rtc_once; by constructor]
    |first [reflexivity|apply rtc_once; econstructor; eauto using ready_idle; fail
           |apply rtc_once; constructor; first [done|by match goal with E : writers _ !! _ = _ |- _ => rewrite E end]]]).
Qed.

Lemma joint_rtc_projects may x y :
  rtc (joint_step may) x y -> rtc step (fst x) (fst y) /\ rtc (conn_step may) (snd x) (snd y).
Proof.
  induction 1 as [|x y z Hxy _ [I1 I2]]; [done|]. apply joint_projects in Hxy as [H1 H2].
  by split; [transitivity (fst y)|transitivity (snd y)].
Qed.

(** C10 ([flush_bio_to_tcp] and [Http2Session], invariant): in every run of a session in
    which no coroutine uses the TLS engine while another one is in [write_all], what the
    kernel sends is a part of what the engine has written, in its order and nothing
    twice.  As long as the kernel has refused no write it is a prefix of it, and all of
    it when no coroutine is in [write_all]; after a refused write, which loses the rest
    of its chunk, pieces may be missing. *)
Theorem one_writer_exact buf w s :
  length buf = BIO_SIZE -> rtc (joint_step alone) (session_start, conn_start buf) (w, s) ->
  wire s `sublist_of` produced s /\
  (failed s = false ->
   wire s `prefix_of` produced s /\ ((forall id, idle (writers s !! id) = true) -> wire s = produced s)).
Proof.
  intros Hb Hr. apply joint_rtc_projects in Hr as [_ Hr]. cbn [snd] in Hr.
  assert (He : refusals_known s /\ exists id, exact_for id s).
  { eapply (rtc_ind_r (fun s => refusals_known s /\ exists id, exact_for id s)); [| |exact Hr].
    - split; [by intros j [?|?]|]. exists 0. split; [by intros j _|done..|by exists []|done].
    - intros x y _ Hxy [H1 H2]. split; [by eapply conn_step_refusals|by eapply conn_step_exact]. }
  destruct He as [_ [id [_ _ _ (sent & Hp & Hs1 & Hs2) Hi]]]. rewrite Hp. split; [by apply sublist_inserts_r|].
  intros Hf. rewrite <- (Hs2 Hf). split; [by apply prefix_app_r|]. intros Hidle. rewrite (Hi Hf (Hidle id)).
  specialize (Hidle id). destruct (writers s !! id) as [[]|]; try done; by rewrite app_nil_r.
Qed.

(** ** Two writers *)

(** The buffer after two coroutines have put [a] and then [b] into it. *)
Definition overwritten (a b : bytes) : bytes := take (length a) (b ++ drop (length b) a).

Lemma overwritten_differs a b : ~ a `prefix_of` b -> ~ b `prefix_of` a -> overwritten a b <> a.
Proof.
  intros H1 H2 E. unfold overwritten in E. destruct (Nat.le_ge_cases (length b) (length a)) as [Hl|Hl].
  - apply H2. exists (drop (length b) a). rewrite <- E at 1. rewrite firstn_all2; [done|]. rewrite length_app, length_drop. lia.
  - apply H1. exists (drop (length a) b). rewrite take_app_le in E by done. rewrite <- E at 1. by rewrite take_drop.
Qed.

Definition unrestricted (_ : Z) (_ : conn) : Prop := True.

Lemma ssl_op_starts id out s :
  bio s = [] -> out <> [] -> (length out <= BIO_SIZE)%nat ->
  ssl_op id out s = MkConn [] (out ++ drop (length out) (io_buffer_ s)) (<[id := InFlight 0 (length out)]> (writers s))
                      (wire s) (produced s ++ out) (failed s).
Proof.
  intros Hb Hne Hl. unfold ssl_op, flush_turn. cbn [bio io_buffer_ writers wire produced]. rewrite Hb. cbn [app].
  destruct out as [|x out]; [done|]. rewrite Nat.min_r, drop_all, firstn_all by done. done.
Qed.

(** The kernel takes all of a write, and the coroutine returns from its operation. *)
Lemma write_completes may id n w s :
  writers s !! id = Some (InFlight 0 n) -> (0 < n)%nat -> bio s = [] ->
  rtc (joint_step may) (w, s)
    (w, MkConn [] (io_buffer_ s) (<[id := OpReturned]> (writers s)) (wire s ++ take n (io_buffer_ s)) (produced s)
           (failed s)).
Proof.
  intros Hw Hn Hb. eapply rtc_l; [apply (joint_kernel _ _ _ id n 0 n); [done|lia]|]. unfold kernel_copies. rewrite Hw, drop_0, Hb.
  eapply rtc_l; [apply (joint_write_resumed _ _ _ id); cbn; by rewrite lookup_insert_eq|].
  unfold write_resumed. cbn [writers]. rewrite lookup_insert_eq, Nat.ltb_irrefl. unfold flush_turn. cbn [bio]. unfold set_writer. cbn [bio writers io_buffer_ wire produced failed].
  by rewrite insert_insert_eq.
Qed.

Lemma buffer_overwritten a b buf :
  take (length a) (b ++ drop (length b) (a ++ drop (length a) buf)) = overwritten a b.
Proof.
  unfold overwritten. destruct (Nat.le_ge_cases (length b) (length a)) as [Hl|Hl].
  - rewrite drop_app_le, app_assoc, take_app_le by (rewrite ?length_app, ?length_drop; lia). done.
  - by rewrite !take_app_le by done.
Qed.

(** C38 ([flush_bio_to_tcp] and [Http2Session], error): the session does not keep to one
    writer.  For any two records of which neither begins with the other, the requests
    of two streams can be sent such that both report success and wait for their
    responses and the kernel refuses nothing, while the first record was never sent:
    the second one is in the buffer when the kernel reads it for the first. *)
Theorem overlapping_requests_corrupt buf a b :
  (length a <= BIO_SIZE)%nat -> (length b <= BIO_SIZE)%nat -> ~ a `prefix_of` b -> ~ b `prefix_of` a ->
  exists w s, rtc (joint_step unrestricted) (session_start, conn_start buf) (w, s) /\
    tasks w !! 1 = Some WaitHeaders /\ tasks w !! 3 = Some WaitHeaders /\ writers s = ∅ /\ failed s = false /\
    produced s = a ++ b /\ wire s = overwritten a b ++ b /\ ~ wire s `prefix_of` produced s.
Proof.
  intros La Lb H1 H2.
  assert (Ha : a <> []) by (intros ->; apply H1, prefix_nil). assert (Hb : b <> []) by (intros ->; apply H2, prefix_nil).
  set (w1 := fst (request_submit 1 session_start)). set (w2 := fst (request_submit 3 w1)).
  exists (request_flushed 3 true (request_flushed 1 true w2)), (MkConn [] (b ++ drop (length b) (a ++ drop (length a) buf)) ∅
    (overwritten a b ++ b) (a ++ b) false).
  split; [|do 6 (split; [done|])].
  2: { cbn [wire produced]. intros [k E]. rewrite <- app_assoc in E. apply (overwritten_differs a b H1 H2).
       symmetry. apply (app_inj_1 _ _ _ _) in E as [? _]; [done|]. unfold overwritten.
       rewrite length_take, length_app, length_drop. lia. }
  eapply rtc_l; [apply (joint_request _ session_start (conn_start buf) 1 a); [done| |done|done]|].
  { split; [done|]. split; [set_solver|constructor]. }
  rewrite ssl_op_starts by done. fold w1.
  eapply rtc_l; [apply (joint_request _ w1 _ 3 b); [done| |done|done]|].
  { split; [done|]. split; [set_solver|constructor]. }
  rewrite ssl_op_starts by done. fold w2. cbn [io_buffer_ writers wire produced app conn_start].
  etransitivity; [apply (write_completes _ 1 (length a)); [done|by destruct a; [|cbn; lia]|done]|].
  etransitivity; [apply (write_completes _ 3 (length b)); [done|by destruct b; [|cbn; lia]|done]|].
  cbn [io_buffer_ writers wire produced app]. rewrite buffer_overwritten, take_app_length.
  eapply rtc_l; [apply (joint_flushed _ _ _ 1 true); done|]. eapply rtc_l; [apply (joint_flushed _ _ _ 3 true); done|].
  apply reflexive_eq. done.
Qed.

(** Witness of C10. *)
Lemma one_writer_exact_witness :
  exists w s, rtc (joint_step alone) (session_start, conn_start (replicate BIO_SIZE 0)) (w, s) /\
    wire s = produced s /\ produced s = [23; 1].
Proof.
  set (s := MkConn [] ([23; 1] ++ drop 2 (replicate BIO_SIZE 0)) (<[1 := OpReturned]> (<[1 := InFlight 0 2]> ∅)) [23; 1] [23; 1] false).
  assert (Hr : rtc (joint_step alone) (session_start, conn_start (replicate BIO_SIZE 0)) (fst (request_submit 1 session_start), s)).
  { eapply rtc_l; [apply (joint_request _ session_start _ 1 [23; 1]); [done| |done|by intros j _]|].
    - split; [done|]. split; [set_solver|constructor].
    - rewrite ssl_op_starts by (done || (unfold BIO_SIZE; cbn; lia)).
      etransitivity; [apply (write_completes _ 1 2); [done|lia|done]|]. done. }
  exists (fst (request_submit 1 session_start)), s. split; [exact Hr|]. split; [|done].
  apply (one_writer_exact (replicate BIO_SIZE 0) (fst (request_submit 1 session_start)) s); [apply length_replicate|exact Hr|done|].
  intros id. unfold s. cbn [writers]. destruct (decide (id = 1)) as [->|Hne]; [by rewrite lookup_insert_eq|by rewrite !lookup_insert_ne].
Defined.

(** Witness of C38. *)
Lemma overlapping_requests_corrupt_witness :
  exists w s, rtc (joint_step unrestricted) (session_start, conn_start []) (w, s) /\
    produced s = [23; 1; 7] ++ [23; 2] /\ wire s = [23; 2; 7; 23; 2].
Proof.
  destruct (overlapping_requests_corrupt [] [23; 1; 7] [23; 2]) as (w & s & H & _ & _ & _ & _ & Hp & Hw & _);
    [unfold BIO_SIZE; cbn; lia..| | |exists w, s; done].
  - intros [k [=]].
  - intros [k [=]].
Defined.
