(* ===== verification/Task.v ===== *)
(** ppnt-io: coroutine tasks and the root of a program.

    [src/ppnt-io/src/task.ixx] ([Task], [JoinHandle], their promise and
    awaiters) and [src/ppnt-io/src/runtime.ixx] ([spawn], [block_on]).  A
    coroutine's body is a tree of what it does between its suspensions; its
    frame lives in a heap, is entered by [resume] or by symmetric transfer, and
    is released by [destroy].  Entering or releasing a frame that is gone is
    undefined behaviour.  A body keeps the tasks and handles it makes in its own
    variables, awaits them, drops them or lets them go ([take_handle], an assignment
    over a [Task]); handing a handle to another coroutine is not part of it.  The
    operations on the variables themselves, moves included, are in the part on
    handles. *)

From stdpp Require Import gmap strings.
From S2P Require Import Prelude.

Local Open Scope Z_scope.

(** ** Bodies *)

(** What a coroutine leaves in its promise: a value or an exception. *)
Definition res : Type := Z + Z.

(** [CoAwait child k] awaits a task, [Suspend k] an operation of the ring,
    [Spawn child k] starts a task and passes its handle on, [Join h k] awaits the
    handle and [Drop h k] runs its destructor.  [NewTask child k] keeps a task that
    has not started in a variable, where [Join] awaits it, and [Release h k] takes
    the handle out of its variable without an owner to put it in: [take_handle] of
    a [Task] or of a [JoinHandle], and [Task::operator=] over a task that holds one. *)
Inductive body :=
| Return (v : Z)
| Throw (e : Z)
| CoAwait (child : body) (k : res -> body)
| Suspend (k : Z -> body)
| Spawn (child : body) (k : Z -> body)
| Join (h : Z) (k : res -> body)
| Drop (h : Z) (k : body)
| NewTask (child : body) (k : Z -> body)
| Release (h : Z) (k : body).

(** The coroutine ends as its callee did. *)
Definition finish (r : res) : body := match r with inl v => Return v | inr e => Throw e end.

(** ** Frames *)

Inductive cstate :=
| Initial (b : body)
| Running (b : body)
| OnIo (k : Z -> body)
| OnTask (child : Z) (k : res -> body)
| OnJoin (child : Z) (k : res -> body)
| Spawning (child : Z) (k : Z -> body)
| Final (r : res).

(** The promise's [parent], where the coroutine is, and the [Task]s and
    [JoinHandle]s that are local variables of its body. *)
Record frame := MkFrame { parent : option Z; code : cstate; locals : list Z }.

(** The frame an awaiter, or [spawn], inside the coroutine holds. *)
Definition awaited (c : cstate) : list Z :=
  match c with OnTask h _ | OnJoin h _ | Spawning h _ => [h] | _ => [] end.

(** The frames that the destruction of this one releases. *)
Definition owned (fr : frame) : list Z := awaited (code fr) ++ locals fr.

(** The heap of frames, the calls of [resume] that are on the stack, the frames
    whose operation the ring has not completed, and those whose handle was taken
    out of its variable. *)
Record machine := MkMachine {
  frames : gmap Z frame;
  next : Z;
  stack : list Z;
  pending : list Z;
  released : list Z
}.

Inductive outcome := Next (m : machine) | Dangling | Stuck.

Definition with_frames (fs : gmap Z frame) (m : machine) : machine :=
  MkMachine fs (next m) (stack m) (pending m) (released m).

Definition set_frame (f : Z) (fr : frame) (m : machine) : machine :=
  with_frames (<[f := fr]> (frames m)) m.

Definition set_stack (s : list Z) (m : machine) : machine :=
  MkMachine (frames m) (next m) s (pending m) (released m).

Definition add_pending (f : Z) (m : machine) : machine :=
  MkMachine (frames m) (next m) (stack m) (pending m ++ [f]) (released m).

Definition release (h : Z) (m : machine) : machine :=
  MkMachine (frames m) (next m) (stack m) (pending m) (h :: released m).

(** A new frame: at its [initial_suspend], or entered at once by the
    [await_suspend] of the awaiter or by [spawn]. *)
Definition create (p : option Z) (c : cstate) (m : machine) : machine :=
  MkMachine (<[next m := MkFrame p c []]> (frames m)) (next m + 1) (stack m) (pending m) (released m).

(** [handle.destroy()] on each of [hs]: the locals and the awaiter of a frame
    release what they hold. *)
Fixpoint destroy_all (fuel : nat) (hs : list Z) (fs : gmap Z frame) : option (gmap Z frame) :=
  match hs with
  | [] => Some fs
  | h :: hs =>
      match fuel with
      | O => None
      | S fuel =>
          match fs !! h with
          | None => None
          | Some fr => destroy_all fuel (owned fr ++ hs) (delete h fs)
          end
      end
  end.

Definition destroy (hs : list Z) (m : machine) : option machine :=
  (fun fs => with_frames fs m) <$> destroy_all (size (frames m)) hs (frames m).

(** [resume] returns to its caller, which is inside [spawn] or is the loop of
    [block_on]. *)
Definition return_to (rest : list Z) (m : machine) : outcome :=
  match rest with
  | [] => Next (set_stack [] m)
  | g :: _ =>
      match frames m !! g with
      | Some (MkFrame p (Spawning c k) l) =>
          Next (set_stack rest (set_frame g (MkFrame p (Running (k c)) (c :: l)) m))
      | Some _ => Stuck
      | None => Dangling
      end
  end.

(** [TaskFinalAwaiter::await_suspend]: the parent is entered in place of the
    coroutine; its [await_resume] takes the value or rethrows, and the awaiter's
    destructor releases the coroutine. *)
Definition final_suspend (f : Z) (p : option Z) (r : res) (rest : list Z) (m : machine) : outcome :=
  let m := set_frame f (MkFrame p (Final r) []) m in
  match p with
  | None => return_to rest m
  | Some q =>
      match frames m !! q with
      | Some (MkFrame pq (OnTask _ k) l) | Some (MkFrame pq (OnJoin _ k) l) =>
          match destroy [f] (set_frame q (MkFrame pq (Running (k r)) l) m) with
          | Some m => Next (set_stack (q :: rest) m)
          | None => Dangling
          end
      | Some _ => Stuck
      | None => Dangling
      end
  end.

(** The body is left by [co_return] or by an exception, after the destructors of
    its locals. *)
Definition leave (f : Z) (p : option Z) (l : list Z) (r : res) (rest : list Z) (m : machine) : outcome :=
  match destroy l (set_frame f (MkFrame p (Running (finish r)) []) m) with
  | Some m => final_suspend f p r rest m
  | None => Dangling
  end.

(** Runs the coroutine on top of the stack up to its next suspension point. *)
Definition mstep (m : machine) : outcome :=
  match stack m with
  | [] => Stuck
  | f :: rest =>
      match frames m !! f with
      | None => Dangling
      | Some (MkFrame p (Running b) l) =>
          match b with
          | Return v => leave f p l (inl v) rest m
          | Throw e => leave f p l (inr e) rest m
          | CoAwait child k =>
              (* BaseTaskAwaiter::await_suspend sets the parent and enters the task *)
              let m := set_frame f (MkFrame p (OnTask (next m) k) l) m in
              Next (set_stack (next m :: rest) (create (Some f) (Running child) m))
          | Suspend k =>
              return_to rest (add_pending f (set_frame f (MkFrame p (OnIo k) l) m))
          | Spawn child k =>
              let m := set_frame f (MkFrame p (Spawning (next m) k) l) m in
              Next (set_stack (next m :: f :: rest) (create None (Running child) m))
          | Join h k =>
              if decide (h ∈ l) then
                let l := list_difference l [h] in
                match frames m !! h with
                | None => Dangling
                | Some (MkFrame _ (Final r) _) =>
                    (* await_ready: the coroutine goes on with the value *)
                    match destroy [h] (set_frame f (MkFrame p (Running (k r)) l) m) with
                    | Some m => Next m
                    | None => Dangling
                    end
                | Some (MkFrame _ (Initial b) lh) =>
                    (* await_transform(Task &&): the task is entered *)
                    Next (set_stack (h :: rest)
                      (set_frame f (MkFrame p (OnTask h k) l) (set_frame h (MkFrame (Some f) (Running b) lh) m)))
                | Some (MkFrame _ c lh) =>
                    (* JoinHandleAwaiter::await_suspend only sets the parent *)
                    return_to rest
                      (set_frame f (MkFrame p (OnJoin h k) l) (set_frame h (MkFrame (Some f) c lh) m))
                end
              else Stuck
          | Drop h k =>
              if decide (h ∈ l) then
                match destroy [h] (set_frame f (MkFrame p (Running k) (list_difference l [h])) m) with
                | Some m => Next m
                | None => Dangling
                end
              else Stuck
          | NewTask child k =>
              let m := set_frame f (MkFrame p (Running (k (next m))) (next m :: l)) m in
              Next (create None (Initial child) m)
          | Release h k =>
              if decide (h ∈ l) then
                Next (release h (set_frame f (MkFrame p (Running k) (list_difference l [h])) m))
              else Stuck
          end
      | Some _ => Stuck
      end
  end.

(** The ring completes the [i]-th operation that is in flight with [v] and
    resumes its coroutine. *)
Definition complete (i : nat) (v : Z) (m : machine) : outcome :=
  match pending m !! i with
  | None => Stuck
  | Some f =>
      match frames m !! f with
      | Some (MkFrame p (OnIo k) l) =>
          Next (MkMachine (<[f := MkFrame p (Running (k v)) l]> (frames m)) (next m) [f] (delete i (pending m)) (released m))
      | Some _ => Stuck
      | None => Dangling
      end
  end.

(** ** The root *)

Definition root : Z := 0.

(** [block_on] up to its loop: the task's frame is entered. *)
Definition start (b : body) : machine := MkMachine {[root := MkFrame None (Running b) []]} 1 [root] [] [].

Definition result_of (m : machine) : option res :=
  match frames m !! root with Some (MkFrame _ (Final r) _) => Some r | _ => None end.

(** [Returned] and [Threw] carry what is left of the heap and whether the
    thread's current ring is still the one of [block_on]. *)
Inductive ended :=
| Returned (v : Z) (left : gmap Z frame) (ring : bool)
| Threw (e : Z) (left : gmap Z frame) (ring : bool)
| Waits
| Undefined
| Misused
| OutOfFuel.

(** After the loop: [get_value] rethrows before the frame is destroyed and the
    ring is unset. *)
Definition take_result (r : res) (m : machine) : ended :=
  match r with
  | inr e => Threw e (frames m) true
  | inl v =>
      match destroy [root] m with
      | Some m => Returned v (frames m) false
      | None => Undefined
      end
  end.

(** The loop of [block_on]: [ring.run_one()] completes an operation with the next
    result the kernel gives, until the root is done. *)
Fixpoint block_on_loop (fuel : nat) (io : list Z) (m : machine) : ended :=
  match fuel with
  | O => OutOfFuel
  | S fuel =>
      match stack m with
      | [] =>
          match result_of m with
          | Some r => take_result r m
          | None =>
              match io with
              | [] => Waits
              | v :: io =>
                  match complete 0 v m with
                  | Next m => block_on_loop fuel io m
                  | Dangling => Undefined
                  | Stuck => Waits
                  end
              end
          end
      | _ =>
          match mstep m with
          | Next m => block_on_loop fuel io m
          | Dangling => Undefined
          | Stuck => Misused
          end
      end
  end.

Definition block_on (fuel : nat) (io : list Z) (b : body) : ended := block_on_loop fuel io (start b).

(** ** Handles

    [Task] and [JoinHandle] objects are variables that hold a frame or nothing;
    their operations act on the variables and the frames. *)

Record owners := MkOwners { vars : gmap Z (option Z); alive : gset Z }.

Definition read_var (x : Z) (o : owners) : option Z := default None (vars o !! x).

(** [std::exchange(x.handle, nullptr)]. *)
Definition take_handle (x : Z) (o : owners) : option Z * owners :=
  (read_var x o, MkOwners (<[x := None]> (vars o)) (alive o)).

Definition set_var (x : Z) (h : option Z) (o : owners) : owners := MkOwners (<[x := h]> (vars o)) (alive o).

(** [if (h) h.destroy();] *)
Definition destroy_handle (h : option Z) (o : owners) : option owners :=
  match h with
  | None => Some o
  | Some f => if decide (f ∈ alive o) then Some (MkOwners (vars o) (alive o ∖ {[f]})) else None
  end.

Inductive handle_op :=
| NewHandle (x f : Z)
| MoveCtor (x y : Z)
| MoveAssign (x y : Z)
| Dtor (x : Z).

(** The constructors and the destructor are the same for both classes. *)
Definition handle_step (assign : Z -> Z -> owners -> option owners) (o : owners) (op : handle_op) : option owners :=
  match op with
  | NewHandle x f => Some (set_var x (Some f) (MkOwners (vars o) ({[f]} ∪ alive o)))
  | MoveCtor x y => let '(h, o) := take_handle y o in Some (set_var x h o)
  | MoveAssign x y => if x =? y then Some o else assign x y o
  | Dtor x => o' ← destroy_handle (read_var x o) o; Some (MkOwners (delete x (vars o')) (alive o'))
  end.

(** [JoinHandle::operator=] releases the frame it holds. *)
Definition JoinHandle_assign (x y : Z) (o : owners) : option owners :=
  o ← destroy_handle (read_var x o) o; let '(h, o) := take_handle y o in Some (set_var x h o).

(** [Task::operator=] overwrites it. *)
Definition Task_assign (x y : Z) (o : owners) : option owners :=
  let '(h, o) := take_handle y o in Some (set_var x h o).

(** ** Ownership

    The frames form a forest: each one is held by one variable, awaiter or
    [spawn] of an older frame, or is one of the roots [R]. *)

Record Forest (fs : gmap Z frame) (R : list Z) : Prop := {
  forest_live : forall c, is_Some (fs !! c) <-> c ∈ R \/ exists f fr, fs !! f = Some fr /\ c ∈ owned fr;
  forest_roots : NoDup R;
  forest_nodup : forall f fr, fs !! f = Some fr -> NoDup (owned fr);
  forest_apart : forall f fr c, fs !! f = Some fr -> c ∈ owned fr -> c ∉ R;
  forest_one : forall f g fr gr c, fs !! f = Some fr -> fs !! g = Some gr ->
    c ∈ owned fr -> c ∈ owned gr -> f = g;
  forest_older : forall f fr c, fs !! f = Some fr -> c ∈ owned fr -> f < c
}.

#[global] Instance forest_proper (fs : gmap Z frame) : Proper ((≡ₚ) ==> iff) (Forest fs).
Proof.
  assert (H : forall R R', R ≡ₚ R' -> Forest fs R -> Forest fs R').
  { intros R R' HP HF. split; try apply HF.
    - intros c. rewrite <- HP. apply HF.
    - rewrite <- HP. apply HF.
    - intros f fr c Hf Hc. rewrite <- HP. by eapply (forest_apart _ _ HF). }
  intros R R' HP. split; by apply H.
Qed.

(** Frame [f] gives up the frames [D], which become roots. *)
Lemma forest_set (fs : gmap Z frame) (R D : list Z) (f : Z) (fr fr' : frame) :
  Forest fs R -> fs !! f = Some fr -> owned fr ≡ₚ D ++ owned fr' ->
  Forest (<[f := fr']> fs) (D ++ R).
Proof.
  intros HF Hf HP.
  assert (Hin : forall c, c ∈ owned fr <-> c ∈ D \/ c ∈ owned fr')
    by (intros c; rewrite HP, elem_of_app; done).
  pose proof (forest_nodup _ _ HF _ _ Hf) as Hnd. rewrite HP in Hnd.
  apply NoDup_app in Hnd as (HD & Hsep & Hfr').
  assert (Hsub : forall g gr c, <[f := fr']> fs !! g = Some gr -> c ∈ owned gr ->
    exists gr0, fs !! g = Some gr0 /\ c ∈ owned gr0 /\ c ∉ D).
  { intros g gr c Hg Hc. destruct (decide (f = g)) as [<-|Hne].
    - rewrite lookup_insert_eq in Hg. injection Hg as <-. exists fr.
      split; [done|]. split; [by apply Hin; right|]. intros HcD. by apply (Hsep c HcD).
    - rewrite lookup_insert_ne in Hg by done. exists gr. split; [done|]. split; [done|].
      intros HcD. apply Hne, (forest_one _ _ HF f g fr gr c Hf Hg); [by apply Hin; left|done]. }
  split.
  - intros c. rewrite lookup_insert_is_Some, elem_of_app. split.
    + intros H. assert (is_Some (fs !! c)) as Hc by (destruct H as [<-|[? ?]]; [by eexists|done]).
      apply (forest_live _ _ HF) in Hc as [Hc|(g & gr & Hg & Hc)]; [auto|].
      destruct (decide (f = g)) as [<-|Hne].
      * rewrite Hf in Hg. injection Hg as <-. apply Hin in Hc as [Hc|Hc]; [auto|].
        right. exists f, fr'. by rewrite lookup_insert_eq.
      * right. exists g, gr. by rewrite lookup_insert_ne.
    + intros Hc. assert (is_Some (fs !! c)) as Hl.
      { apply (forest_live _ _ HF). destruct Hc as [[Hc|Hc]|(g & gr & Hg & Hc)]; [|auto|].
        - right. exists f, fr. split; [done|by apply Hin; left].
        - destruct (Hsub _ _ _ Hg Hc) as (gr0 & ? & ? & _). eauto. }
      destruct (decide (f = c)); auto.
  - apply NoDup_app. split; [done|]. split; [|apply (forest_roots _ _ HF)].
    intros c Hc. apply (forest_apart _ _ HF f fr c Hf). by apply Hin; left.
  - intros g gr Hg. destruct (decide (f = g)) as [<-|Hne].
    + rewrite lookup_insert_eq in Hg. by injection Hg as <-.
    + rewrite lookup_insert_ne in Hg by done. apply (forest_nodup _ _ HF _ _ Hg).
  - intros g gr c Hg Hc. destruct (Hsub _ _ _ Hg Hc) as (gr0 & Hg0 & Hc0 & HnD).
    rewrite elem_of_app. intros [?|HR]; [done|]. by apply (forest_apart _ _ HF g gr0 c).
  - intros g g' gr gr' c Hg Hg' Hc Hc'.
    destruct (Hsub _ _ _ Hg Hc) as (? & ? & ? & _), (Hsub _ _ _ Hg' Hc') as (? & ? & ? & _).
    by eapply (forest_one _ _ HF).
  - intros g gr c Hg Hc. destruct (Hsub _ _ _ Hg Hc) as (? & ? & ? & _).
    by eapply (forest_older _ _ HF).
Qed.

(** A root that holds nothing any more can be freed. *)
Lemma forest_free (fs : gmap Z frame) (R : list Z) (h : Z) (fr : frame) :
  Forest fs (h :: R) -> fs !! h = Some fr -> Forest (delete h fs) (owned fr ++ R).
Proof.
  intros HF Hh.
  set (fr' := MkFrame None (Final (inl 0)) []).
  assert (H1 : Forest (<[h := fr']> fs) (owned fr ++ h :: R))
    by (apply (forest_set fs (h :: R) (owned fr) h fr fr' HF Hh); by rewrite app_nil_r).
  assert (Hd : delete h fs = delete h (<[h := fr']> fs)) by (by rewrite delete_insert_eq).
  rewrite Hd. clear Hd.
  assert (Hnd : h ∉ owned fr ++ R).
  { pose proof (forest_roots _ _ H1) as Hr. rewrite <- Permutation_middle in Hr.
    by apply NoDup_cons in Hr as [? _]. }
  assert (Hsub : forall g gr, delete h (<[h := fr']> fs) !! g = Some gr ->
    <[h := fr']> fs !! g = Some gr /\ g <> h).
  { intros g gr Hg. apply lookup_delete_Some in Hg as [? ?]. auto. }
  split.
  - intros c. split.
    + intros [gr Hg]. destruct (Hsub _ _ Hg) as [Hg' Hne].
      destruct (proj1 (forest_live _ _ H1 c) (mk_is_Some _ _ Hg')) as [Hc|(g & gr' & Hgg & Hc)].
      * left. rewrite elem_of_app, elem_of_cons in Hc. rewrite elem_of_app. intuition congruence.
      * right. exists g, gr'. split; [|done]. rewrite lookup_delete_ne; [done|].
        intros ->. rewrite lookup_insert_eq in Hgg. injection Hgg as <-. by apply elem_of_nil in Hc.
    + intros Hc. assert (c <> h) as Hne.
      { intros ->. destruct Hc as [Hc|(g & gr & Hg & Hc)]; [done|].
        destruct (Hsub _ _ Hg) as [Hg' _]. apply (forest_apart _ _ H1 _ _ _ Hg' Hc).
        rewrite elem_of_app, elem_of_cons. auto. }
      rewrite lookup_delete_ne by done. apply (forest_live _ _ H1).
      destruct Hc as [Hc|(g & gr & Hg & Hc)].
      * left. rewrite elem_of_app in *. rewrite elem_of_cons. tauto.
      * right. destruct (Hsub _ _ Hg). eauto.
  - pose proof (forest_roots _ _ H1) as Hr. rewrite <- Permutation_middle in Hr.
    by apply NoDup_cons in Hr as [_ ?].
  - intros g gr Hg. destruct (Hsub _ _ Hg). by eapply (forest_nodup _ _ H1).
  - intros g gr c Hg Hc. destruct (Hsub _ _ Hg) as [Hg' _].
    pose proof (forest_apart _ _ H1 _ _ _ Hg' Hc) as Hn.
    rewrite elem_of_app, elem_of_cons in Hn. rewrite elem_of_app. tauto.
  - intros f g ? ? c Hf Hg. destruct (Hsub _ _ Hf), (Hsub _ _ Hg). by apply (forest_one _ _ H1).
  - intros f ? c Hf. destruct (Hsub _ _ Hf). by apply (forest_older _ _ H1).
Qed.

(** Releasing the roots [hs] finds every frame it frees, frees nothing older than
    them and leaves the other trees whole. *)
Lemma destroy_all_forest (fuel : nat) (hs R : list Z) (fs : gmap Z frame) (lo : Z) :
  (size fs <= fuel)%nat -> Forest fs (hs ++ R) -> (forall h, h ∈ hs -> lo <= h) ->
  exists fs', destroy_all fuel hs fs = Some fs' /\ Forest fs' R /\ fs' ⊆ fs /\
    (forall c, c < lo -> fs' !! c = fs !! c).
Proof.
  revert hs fs. induction fuel as [|fuel IH]; intros hs fs Hsz HF Hlo.
  - assert (fs = ∅) as -> by (apply map_size_empty_inv; lia).
    destruct hs as [|h hs]; [by exists ∅|].
    exfalso. destruct (proj2 (forest_live _ _ HF h)) as [? Hx]; [left; left|].
    by rewrite lookup_empty in Hx.
  - destruct hs as [|h hs]; [by exists fs|]. cbn [destroy_all].
    destruct (proj2 (forest_live _ _ HF h)) as [fr Hh]; [left; left|]. rewrite Hh.
    pose proof (forest_free fs (hs ++ R) h fr HF Hh) as HF'. rewrite app_assoc in HF'.
    pose proof (map_size_delete_Some h fs (mk_is_Some _ _ Hh)) as Hd.
    destruct (IH (owned fr ++ hs) (delete h fs)) as (fs' & He & HFo & Hs & Hk).
    + rewrite Hd. lia.
    + done.
    + intros x. rewrite elem_of_app. intros [Hx|Hx]; [|apply Hlo; by right].
      pose proof (forest_older _ _ HF h fr x Hh Hx). pose proof (Hlo h ltac:(left)). lia.
    + exists fs'. split; [done|]. split; [done|]. split.
      * etrans; [exact Hs|apply delete_subseteq].
      * intros c Hc. rewrite Hk by done. apply lookup_delete_ne.
        pose proof (Hlo h ltac:(left)). lia.
Qed.

(** A forest without roots is empty: its oldest frame would have an older holder. *)
Lemma forest_empty (fs : gmap Z frame) (lo : Z) :
  Forest fs [] -> (forall c, is_Some (fs !! c) -> lo <= c) -> fs = ∅.
Proof.
  intros HF Hlo. apply map_empty. intros c.
  destruct (fs !! c) as [fr|] eqn:Hc; [|done]. exfalso.
  assert (H : forall n x, x < lo + Z.of_nat n -> fs !! x = None).
  { induction n as [|n IH]; intros x Hx.
    - destruct (fs !! x) eqn:E; [|done]. specialize (Hlo x ltac:(by eexists)). lia.
    - destruct (fs !! x) eqn:E; [|done].
      destruct (proj1 (forest_live _ _ HF x)) as [Hn|(g & gr & Hg & Hin)]; [by eexists|by apply elem_of_nil in Hn|].
      pose proof (forest_older _ _ HF _ _ _ Hg Hin). rewrite IH in Hg; [done|lia]. }
  pose proof (Hlo c ltac:(by eexists)). rewrite (H (Z.to_nat (c - lo + 1)) c) in Hc; [done|lia].
Qed.

(** Frame [f] holds a new frame [n]. *)
Lemma forest_alloc (fs : gmap Z frame) (R : list Z) (f n : Z) (fr fr' new : frame) :
  Forest fs R -> fs !! f = Some fr -> (forall c, is_Some (fs !! c) -> c < n) ->
  owned fr' ≡ₚ n :: owned fr -> owned new = [] ->
  Forest (<[n := new]> (<[f := fr']> fs)) R.
Proof.
  intros HF Hf Hn HP Hnew.
  assert (Hfn : f < n) by (apply Hn; by eexists).
  assert (Hin : forall c, c ∈ owned fr' <-> c = n \/ c ∈ owned fr)
    by (intros c; rewrite HP, elem_of_cons; done).
  assert (Hlt : forall g gr c, fs !! g = Some gr -> c ∈ owned gr -> c < n).
  { intros g gr c Hg Hc. apply Hn, (forest_live _ _ HF). eauto. }
  assert (HR : n ∉ R).
  { intros HnR. specialize (Hn n (proj2 (forest_live _ _ HF n) (or_introl HnR))). lia. }
  assert (Hsub : forall g gr c, <[n := new]> (<[f := fr']> fs) !! g = Some gr -> c ∈ owned gr ->
    (g = f /\ c = n) \/ exists gr0, fs !! g = Some gr0 /\ c ∈ owned gr0).
  { intros g gr c Hg Hc. destruct (decide (g = n)) as [->|]; [|destruct (decide (g = f)) as [->|]].
    - rewrite lookup_insert_eq in Hg. injection Hg as <-. rewrite Hnew in Hc. by apply elem_of_nil in Hc.
    - rewrite lookup_insert_ne, lookup_insert_eq in Hg by lia. injection Hg as <-.
      apply Hin in Hc as [->|Hc]; eauto.
    - rewrite !lookup_insert_ne in Hg by done. eauto. }
  split.
  - intros c. rewrite !lookup_insert_is_Some'. split.
    + intros [->|[->|Hc]].
      * right. exists f, fr'. rewrite lookup_insert_ne, lookup_insert_eq by lia. split; [done|]. apply Hin. auto.
      * destruct (proj1 (forest_live _ _ HF c) (mk_is_Some _ _ Hf)) as [?|(g & gr & Hg & Hc)]; [auto|].
        pose proof (forest_older _ _ HF _ _ _ Hg Hc).
        right. exists g, gr. rewrite !lookup_insert_ne by lia. done.
      * destruct (proj1 (forest_live _ _ HF c) Hc) as [?|(g & gr & Hg & Hcg)]; [auto|].
        assert (g < n) by (apply Hn; by eexists). right.
        destruct (decide (g = f)) as [->|Hne].
        -- exists f, fr'. rewrite lookup_insert_ne, lookup_insert_eq by lia. split; [done|].
           apply Hin. rewrite Hf in Hg. injection Hg as <-. auto.
        -- exists g, gr. rewrite !lookup_insert_ne by lia. done.
    + intros [Hc|(g & gr & Hg & Hc)].
      * right; right. apply (forest_live _ _ HF). auto.
      * destruct (Hsub _ _ _ Hg Hc) as [[_ ->]|(gr0 & Hg0 & Hc0)]; [by left|].
        right; right. apply (forest_live _ _ HF). eauto.
  - apply (forest_roots _ _ HF).
  - intros g gr Hg. destruct (decide (g = n)) as [->|]; [|destruct (decide (g = f)) as [->|]].
    + rewrite lookup_insert_eq in Hg. injection Hg as <-. rewrite Hnew. constructor.
    + rewrite lookup_insert_ne, lookup_insert_eq in Hg by lia. injection Hg as <-. rewrite HP.
      apply NoDup_cons. split; [intros Hc; specialize (Hlt _ _ _ Hf Hc); lia|by apply (forest_nodup _ _ HF f)].
    + rewrite !lookup_insert_ne in Hg by done. by apply (forest_nodup _ _ HF g).
  - intros g gr c Hg Hc. destruct (Hsub _ _ _ Hg Hc) as [[_ ->]|(gr0 & Hg0 & Hc0)]; [done|].
    by apply (forest_apart _ _ HF g gr0).
  - intros g g' gr gr' c Hg Hg' Hc Hc'.
    destruct (Hsub _ _ _ Hg Hc) as [[-> ->]|(gr0 & Hg0 & Hc0)],
      (Hsub _ _ _ Hg' Hc') as [[-> E]|(gr1 & Hg1 & Hc1)]; [done| | |by eapply (forest_one _ _ HF)].
    + specialize (Hlt _ _ _ Hg1 Hc1). lia.
    + specialize (Hlt _ _ _ Hg0 Hc0). lia.
  - intros g gr c Hg Hc. destruct (Hsub _ _ _ Hg Hc) as [[-> ->]|(gr0 & Hg0 & Hc0)]; [done|].
    by apply (forest_older _ _ HF g gr0).
Qed.

(** ** The heap's invariant *)

(** [f] waits for [c] in a [co_await]. *)
Definition waits (fs : gmap Z frame) (f c : Z) : Prop :=
  exists fr k, fs !! f = Some fr /\ (code fr = OnTask c k \/ code fr = OnJoin c k).

(** The frames [L] that nothing in the heap holds have no parent; [D] are about to
    be destroyed. *)
Record Heap (D L : list Z) (fs : gmap Z frame) (nx : Z) (pd : list Z) : Prop := {
  heap_forest : Forest fs (D ++ L);
  heap_bound : forall c, is_Some (fs !! c) -> root <= c < nx;
  heap_parent : forall c fr f, fs !! c = Some fr -> parent fr = Some f -> c ∉ D ++ L -> waits fs f c;
  heap_root : forall c fr, c ∈ L -> fs !! c = Some fr -> parent fr = None;
  heap_pending : forall f fr, f ∈ pd -> fs !! f = Some fr -> exists k, code fr = OnIo k;
  heap_once : NoDup pd;
  heap_known : forall f, f ∈ pd -> f < nx
}.

Lemma waits_owned (fs : gmap Z frame) (f c : Z) :
  waits fs f c -> exists fr, fs !! f = Some fr /\ c ∈ owned fr.
Proof.
  intros (fr & k & Hf & H). exists fr. split; [done|]. unfold owned.
  destruct H as [-> | ->]; left.
Qed.

Lemma heap_set (D0 D L : list Z) (fs : gmap Z frame) (nx : Z) (pd : list Z) (f : Z) (fr fr' : frame) :
  Heap D0 L fs nx pd -> fs !! f = Some fr -> owned fr ≡ₚ D ++ owned fr' -> parent fr' = parent fr ->
  (forall c, c ∈ awaited (code fr) -> ~ waits fs f c \/ c ∈ D) ->
  (f ∈ pd -> exists k, code fr' = OnIo k) ->
  Heap (D ++ D0) L (<[f := fr']> fs) nx pd.
Proof.
  intros HH Hf HP Hpar Hw Hpd. split.
  - rewrite <- app_assoc. by eapply forest_set; [apply HH| |].
  - intros c. rewrite lookup_insert_is_Some'. intros [->|Hc]; [apply HH; by eexists|by apply HH].
  - intros c cr g Hc Hg HR. rewrite <- app_assoc, elem_of_app in HR.
    assert (W : waits fs g c).
    { destruct (decide (f = c)) as [<-|Hne].
      - rewrite lookup_insert_eq in Hc. injection Hc as <-. rewrite Hpar in Hg.
        apply (heap_parent _ _ _ _ _ HH f fr g Hf Hg). tauto.
      - rewrite lookup_insert_ne in Hc by done. apply (heap_parent _ _ _ _ _ HH c cr g Hc Hg). tauto. }
    destruct (decide (f = g)) as [<-|Hne].
    + exfalso. destruct W as (fr0 & k & Hf0 & Hk). rewrite Hf in Hf0. injection Hf0 as <-.
      destruct (Hw c) as [Hn|HD]; [destruct Hk as [-> | ->]; left| |tauto].
      apply Hn. exists fr, k. done.
    + destruct W as (fr0 & k & Hf0 & Hk). exists fr0, k. by rewrite lookup_insert_ne.
  - intros c fr0 HL H0. destruct (decide (f = c)) as [->|Hne].
    + rewrite lookup_insert_eq in H0. injection H0 as <-. rewrite Hpar. by apply (heap_root _ _ _ _ _ HH c).
    + rewrite lookup_insert_ne in H0 by done. by apply (heap_root _ _ _ _ _ HH c).
  - intros g gr Hg Hgr. destruct (decide (f = g)) as [<-|Hne].
    + rewrite lookup_insert_eq in Hgr. injection Hgr as <-. auto.
    + rewrite lookup_insert_ne in Hgr by done. by apply (heap_pending _ _ _ _ _ HH g).
  - apply HH.
  - apply HH.
Qed.

(** [destroy] on roots never meets a frame that is gone. *)
Lemma heap_destroy (hs : list Z) (m : machine) (L : list Z) (lo : Z) :
  Heap hs L (frames m) (next m) (pending m) -> (forall h, h ∈ hs -> lo <= h) ->
  exists fs, destroy hs m = Some (with_frames fs m) /\ Heap [] L fs (next m) (pending m) /\
    (forall c, c < lo -> fs !! c = frames m !! c) /\ fs ⊆ frames m.
Proof.
  intros HH Hlo. unfold destroy.
  destruct (destroy_all_forest (size (frames m)) hs L (frames m) lo) as (fs & -> & HF & Hs & Hk);
    [done|apply HH|done|].
  exists fs. split; [done|]. split; [|done].
  pose proof (lookup_weaken_is_Some fs (frames m)) as Hws.
  assert (Hw : forall c cr, fs !! c = Some cr -> frames m !! c = Some cr)
    by (intros c cr Hc; by eapply lookup_weaken).
  split.
  - done.
  - intros c [cr Hc]. apply (heap_bound _ _ _ _ _ HH). eauto.
  - intros c cr f Hc Hp HR.
    destruct (proj1 (forest_live _ _ HF c) (mk_is_Some _ _ Hc)) as [?|(g & gr & Hg & Hcg)]; [done|].
    pose proof (forest_apart _ _ (heap_forest _ _ _ _ _ HH) g gr c (Hw _ _ Hg) Hcg) as Hn.
    destruct (heap_parent _ _ _ _ _ HH c cr f (Hw _ _ Hc) Hp Hn) as (fr & k & Hf & Hfk).
    assert (f = g) as ->.
    { apply (forest_one _ _ (heap_forest _ _ _ _ _ HH) f g fr gr c Hf (Hw _ _ Hg)); [|done].
      unfold owned. destruct Hfk as [-> | ->]; left. }
    exists gr, k. rewrite (Hw _ _ Hg) in Hf. by injection Hf as <-.
  - intros c fr HL Hr. apply (heap_root _ _ _ _ _ HH c fr HL). auto.
  - intros f fr Hf Hr. apply (heap_pending _ _ _ _ _ HH f fr Hf). auto.
  - apply HH.
  - apply HH.
Qed.

Lemma heap_alloc (D0 L : list Z) (fs : gmap Z frame) (nx : Z) (pd : list Z) (f : Z) (fr fr' new : frame) :
  Heap D0 L fs nx pd -> fs !! f = Some fr -> awaited (code fr) = [] -> (f ∉ pd) ->
  owned fr' ≡ₚ nx :: owned fr -> parent fr' = parent fr -> owned new = [] ->
  (forall g, parent new = Some g -> g = f /\ exists k, code fr' = OnTask nx k) ->
  Heap D0 L (<[nx := new]> (<[f := fr']> fs)) (nx + 1) pd.
Proof.
  intros HH Hf Haw Hpd HP Hpar Hnew Hnp.
  assert (Hlt : f < nx) by (apply (heap_bound _ _ _ _ _ HH); by eexists).
  assert (Hge : root <= f) by (apply (heap_bound _ _ _ _ _ HH); by eexists).
  assert (Hcase : forall c cr, <[nx := new]> (<[f := fr']> fs) !! c = Some cr ->
    (c = nx /\ cr = new) \/ (c = f /\ cr = fr') \/ (c <> nx /\ c <> f /\ fs !! c = Some cr)).
  { intros c cr Hc. destruct (decide (c = nx)) as [->|]; [|destruct (decide (c = f)) as [->|]].
    - rewrite lookup_insert_eq in Hc. injection Hc as <-. auto.
    - rewrite lookup_insert_ne, lookup_insert_eq in Hc by lia. injection Hc as <-. auto.
    - rewrite !lookup_insert_ne in Hc by done. auto. }
  assert (Hwait : forall g c, waits fs g c -> waits (<[nx := new]> (<[f := fr']> fs)) g c).
  { intros g c (gr & k & Hg & Hk). exists gr, k. split; [|done].
    assert (g < nx) by (apply (heap_bound _ _ _ _ _ HH); by eexists).
    rewrite !lookup_insert_ne; [done|intros <-|lia].
    rewrite Hf in Hg. injection Hg as <-. destruct Hk as [Hk|Hk]; by rewrite Hk in Haw. }
  split.
  - apply (forest_alloc fs (D0 ++ L) f nx fr fr' new); [apply HH|done| |done|done].
    intros c Hc. by apply (heap_bound _ _ _ _ _ HH).
  - intros c [cr Hc]. destruct (Hcase _ _ Hc) as [[-> _]|[[-> _]|(_ & _ & Hc')]]; [lia|lia|].
    pose proof (heap_bound _ _ _ _ _ HH c ltac:(by eexists)). lia.
  - intros c cr g Hc Hg HR. destruct (Hcase _ _ Hc) as [[-> ->]|[[-> ->]|(_ & _ & Hc')]].
    + destruct (Hnp g Hg) as (-> & k & Hk). exists fr', k.
      rewrite lookup_insert_ne, lookup_insert_eq by lia. auto.
    + apply Hwait, (heap_parent _ _ _ _ _ HH f fr); [done|congruence|done].
    + by apply Hwait, (heap_parent _ _ _ _ _ HH c cr).
  - intros r rr HL Hr.
    assert (r < nx) by (apply (heap_bound _ _ _ _ _ HH), (forest_live _ _ (heap_forest _ _ _ _ _ HH));
      left; rewrite elem_of_app; by right).
    destruct (Hcase _ _ Hr) as [[? ->]|[[-> ->]|(_ & _ & Hc')]]; [lia| |by apply (heap_root _ _ _ _ _ HH r)].
    rewrite Hpar. by apply (heap_root _ _ _ _ _ HH f).
  - intros g gr Hg Hgr. pose proof (heap_known _ _ _ _ _ HH g Hg).
    destruct (Hcase _ _ Hgr) as [[-> ->]|[[-> ->]|(_ & _ & Hc')]]; [lia|done|by apply (heap_pending _ _ _ _ _ HH g)].
  - apply HH.
  - intros g Hg. pose proof (heap_known _ _ _ _ _ HH g Hg). lia.
Qed.

(** [f] awaits a handle it holds. *)
Lemma heap_join (D0 L : list Z) (fs : gmap Z frame) (nx : Z) (pd : list Z) (f h : Z) (fr fr' hr : frame) (k : res -> body) :
  Heap D0 L fs nx pd -> fs !! f = Some fr -> awaited (code fr) = [] -> (f ∉ pd) -> fs !! h = Some hr ->
  h ∈ owned fr -> owned fr' ≡ₚ owned fr -> parent fr' = parent fr ->
  code fr' = OnTask h k \/ code fr' = OnJoin h k ->
  Heap D0 L (<[f := fr']> (<[h := MkFrame (Some f) (code hr) (locals hr)]> fs)) nx pd.
Proof.
  intros HH Hf Haw Hpd Hh Hin HP Hpar Hk.
  pose proof (forest_older _ _ (heap_forest _ _ _ _ _ HH) _ _ _ Hf Hin) as Hlt.
  assert (Hge : root <= f) by (apply (heap_bound _ _ _ _ _ HH); by eexists).
  set (hr' := MkFrame (Some f) (code hr) (locals hr)).
  assert (Hcase : forall c cr, <[f := fr']> (<[h := hr']> fs) !! c = Some cr ->
    (c = f /\ cr = fr') \/ (c = h /\ cr = hr') \/ (c <> f /\ c <> h /\ fs !! c = Some cr)).
  { intros c cr Hc. destruct (decide (c = f)) as [->|]; [|destruct (decide (c = h)) as [->|]].
    - rewrite lookup_insert_eq in Hc. injection Hc as <-. auto.
    - rewrite lookup_insert_ne, lookup_insert_eq in Hc by lia. injection Hc as <-. auto.
    - rewrite !lookup_insert_ne in Hc by done. auto. }
  assert (Hwait : forall g c, waits fs g c -> waits (<[f := fr']> (<[h := hr']> fs)) g c).
  { intros g c (gr & kg & Hg & Hkg).
    assert (g <> f) as Hgf.
    { intros ->. rewrite Hf in Hg. injection Hg as <-. destruct Hkg as [E|E]; by rewrite E in Haw. }
    destruct (decide (g = h)) as [->|Hgh].
    - exists hr', kg. rewrite lookup_insert_ne, lookup_insert_eq by done. split; [done|].
      rewrite Hh in Hg. by injection Hg as <-.
    - exists gr, kg. by rewrite !lookup_insert_ne. }
  split.
  - apply (forest_set _ (D0 ++ L) [] f fr fr'); [apply (forest_set fs (D0 ++ L) [] h hr hr'); [apply HH|done|done]| |by rewrite HP].
    by rewrite lookup_insert_ne by lia.
  - intros c [cr Hc]. destruct (Hcase _ _ Hc) as [[-> _]|[[-> _]|(_ & _ & Hc')]]; apply (heap_bound _ _ _ _ _ HH); by eexists.
  - intros c cr g Hc Hg HR. destruct (Hcase _ _ Hc) as [[-> ->]|[[-> ->]|(_ & _ & Hc')]].
    + apply Hwait, (heap_parent _ _ _ _ _ HH f fr); [done|congruence|done].
    + injection Hg as <-. exists fr', k. by rewrite lookup_insert_eq.
    + by apply Hwait, (heap_parent _ _ _ _ _ HH c cr).
  - intros r rr HL Hr. destruct (Hcase _ _ Hr) as [[-> ->]|[[-> ->]|(_ & _ & Hc')]].
    + rewrite Hpar. by apply (heap_root _ _ _ _ _ HH f).
    + destruct (forest_apart _ _ (heap_forest _ _ _ _ _ HH) _ _ _ Hf Hin). rewrite elem_of_app. by right.
    + by apply (heap_root _ _ _ _ _ HH r).
  - intros g gr Hg Hgr. destruct (Hcase _ _ Hgr) as [[-> ->]|[[-> ->]|(_ & _ & Hc')]];
      [done|by apply (heap_pending _ _ _ _ _ HH h hr)|by apply (heap_pending _ _ _ _ _ HH g)].
  - apply HH.
  - apply HH.
Qed.

(** ** The stack's invariant *)

(** [f] is held by [c], directly or through other frames. *)
Inductive held (fs : gmap Z frame) (c : Z) : Z -> Prop :=
| held_refl : held fs c c
| held_step q qr f : held fs c q -> fs !! q = Some qr -> f ∈ owned qr -> q < f -> held fs c f.

(** Below the top, each frame is inside a [spawn] whose task holds the frame above. *)
Fixpoint stack_ok (fs : gmap Z frame) (s : list Z) : Prop :=
  match s with
  | f :: (g :: _) as s' =>
      (exists gr c k, fs !! g = Some gr /\ code gr = Spawning c k /\ g < c /\ c <= f /\ held fs c f) /\ stack_ok fs s'
  | _ => True
  end.

Lemma held_ge (fs : gmap Z frame) (c f : Z) : held fs c f -> c <= f.
Proof. induction 1; lia. Qed.

Lemma held_ext (fs fs' : gmap Z frame) (c f : Z) :
  held fs c f -> (forall x, x < f -> fs' !! x = fs !! x) -> held fs' c f.
Proof.
  induction 1 as [|q qr f Hq IH Hqr Hin Hlt]; intros Hx; [constructor|].
  apply (held_step _ _ q qr); [|by rewrite Hx|done|done]. apply IH. intros x ?. apply Hx. lia.
Qed.

(** Only frames older than the top matter. *)
Lemma stack_ok_ext (fs fs' : gmap Z frame) (f : Z) (rest : list Z) :
  stack_ok fs (f :: rest) -> (forall x, x < f -> fs' !! x = fs !! x) -> stack_ok fs' (f :: rest).
Proof.
  revert f. induction rest as [|g rest IH]; intros f H Hx; [done|].
  destruct H as [(gr & c & k & Hg & Hk & Hgc & Hcf & Hh) Hr]. split.
  - exists gr, c, k. rewrite Hx by lia. repeat (split; [done|]). by eapply held_ext.
  - apply (IH g); [done|]. intros x ?. apply Hx. lia.
Qed.

(** When the top is left for its parent the stack stays in order. *)
Lemma stack_ok_parent (D L : list Z) (fs : gmap Z frame) (nx : Z) (pd : list Z) (f q : Z) (rest : list Z) :
  Heap D L fs nx pd -> waits fs q f -> stack_ok fs (f :: rest) -> stack_ok fs (q :: rest).
Proof.
  intros HH Hw H. destruct rest as [|g rest]; [done|].
  destruct H as [(gr & c & k & Hg & Hk & Hgc & Hcf & Hh) Hr]. split; [|done].
  destruct (waits_owned _ _ _ Hw) as (qr & Hq & Hqf).
  assert (held fs c q) as Hcq.
  { inversion Hh as [Heq|q' qr' f' Hh' Hq' Hin' Hlt']; subst.
    - exfalso. assert (g = q) as ->.
      { apply (forest_one _ _ (heap_forest _ _ _ _ _ HH) g q gr qr f Hg Hq); [|done].
        unfold owned. rewrite Hk. left. }
      destruct Hw as (qr0 & k0 & Hq0 & Hk0). rewrite Hg in Hq0. injection Hq0 as <-.
      rewrite Hk in Hk0. by destruct Hk0.
    - assert (q' = q) as -> by (by eapply (forest_one _ _ (heap_forest _ _ _ _ _ HH))). done. }
  exists gr, c, k. repeat (split; [done|]). split; [by eapply held_ge|done].
Qed.

(** A task entered by [co_await] takes its holder's place on the stack. *)
Lemma stack_ok_parent_new (fs : gmap Z frame) (f c : Z) (rest : list Z) :
  stack_ok fs (f :: rest) -> f < c -> (exists fr, fs !! f = Some fr /\ c ∈ owned fr) -> stack_ok fs (c :: rest).
Proof.
  intros H Hlt (fr & Hf & Hin). destruct rest as [|g rest]; [done|].
  destruct H as [(gr & d & k & Hg & Hk & Hgd & Hdf & Hh) Hr]. split; [|done].
  exists gr, d, k. repeat (split; [done|]). split; [lia|by eapply held_step].
Qed.

(** ** Machines *)

Definition runs (fs : gmap Z frame) (s : list Z) : Prop :=
  match s with [] => True | f :: _ => exists fr b, fs !! f = Some fr /\ code fr = Running b end.

(** Nothing in the heap holds the root and the frames that were let go. *)
Definition roots (m : machine) : list Z := root :: released m.

Record Inv (m : machine) : Prop := {
  inv_heap : Heap [] (roots m) (frames m) (next m) (pending m);
  inv_stack : stack_ok (frames m) (stack m);
  inv_runs : runs (frames m) (stack m)
}.

(** The body awaits, drops or lets go a handle that is not one of its locals. *)
Definition misuses (m : machine) : Prop :=
  exists f rest fr h, stack m = f :: rest /\ frames m !! f = Some fr /\ (h ∉ locals fr) /\
    ((exists k, code fr = Running (Join h k)) \/ (exists k, code fr = Running (Drop h k)) \/
     (exists k, code fr = Running (Release h k))).

Definition steps_well (o : outcome) : Prop := exists m', o = Next m' /\ Inv m'.

Lemma not_pending (D L : list Z) (fs : gmap Z frame) (nx : Z) (pd : list Z) (f : Z) (fr : frame) :
  Heap D L fs nx pd -> fs !! f = Some fr -> (forall k, code fr <> OnIo k) -> f ∉ pd.
Proof. intros HH Hf Hk Hin. destruct (heap_pending _ _ _ _ _ HH f fr Hin Hf) as [k E]. by apply (Hk k). Qed.

Lemma list_difference_1 (l : list Z) (h : Z) :
  NoDup l -> h ∈ l -> l ≡ₚ h :: list_difference l [h].
Proof.
  intros Hnd Hin. apply NoDup_Permutation; [done| |].
  - apply NoDup_cons. split; [rewrite list_elem_of_difference, list_elem_of_singleton; tauto|by apply NoDup_list_difference].
  - intros x. rewrite elem_of_cons, list_elem_of_difference, list_elem_of_singleton.
    destruct (decide (x = h)) as [->|]; intuition.
Qed.

(** The caller of [resume] goes on. *)
Lemma return_to_well (f : Z) (rest : list Z) (m : machine) :
  Heap [] (roots m) (frames m) (next m) (pending m) -> stack_ok (frames m) (f :: rest) ->
  steps_well (return_to rest m).
Proof.
  intros HH Hs. destruct rest as [|g rest].
  - eexists. split; [done|]. by split.
  - destruct Hs as [([pg cg lg] & c & k & Hg & Hk & Hgc & _) Hr]. cbn in Hk. subst cg.
    unfold steps_well, return_to. rewrite Hg. eexists. split; [done|]. split; cbn.
    + apply (heap_set [] [] (roots m) _ _ _ g (MkFrame pg (Spawning c k) lg)); [done|done|done|done| |].
      * intros x _. left. intros (fr & kx & Hfr & Hx). rewrite Hg in Hfr. injection Hfr as <-. by destruct Hx.
      * intros Hin. by destruct (not_pending _ _ _ _ _ g _ HH Hg ltac:(done)).
    + eapply stack_ok_ext; [done|]. intros x ?. by rewrite lookup_insert_ne by lia.
    + rewrite lookup_insert_eq. eauto.
Qed.

Lemma final_suspend_well (f : Z) (fr : frame) (r : res) (rest : list Z) (m : machine) :
  Heap [] (roots m) (frames m) (next m) (pending m) -> stack_ok (frames m) (f :: rest) ->
  frames m !! f = Some fr -> owned fr = [] -> (f ∉ pending m) ->
  steps_well (final_suspend f (parent fr) r rest m).
Proof.
  intros HH Hs Hf Ho Hp. unfold final_suspend. destruct fr as [p c l]. cbn [parent].
  apply app_eq_nil in Ho as [Haw Hl]. cbn in Haw, Hl. subst l.
  set (m1 := set_frame f (MkFrame p (Final r) []) m).
  assert (H1 : Heap [] (roots m1) (frames m1) (next m1) (pending m1)).
  { apply (heap_set [] [] (roots m) _ _ _ f _ _ HH Hf); [by unfold owned; cbn; rewrite Haw|done| |done].
    cbn. rewrite Haw. intros x Hx. by apply elem_of_nil in Hx. }
  assert (S1 : stack_ok (frames m1) (f :: rest)).
  { eapply stack_ok_ext; [done|]. intros x ?. cbn. by rewrite lookup_insert_ne by lia. }
  assert (F1 : frames m1 !! f = Some (MkFrame p (Final r) [])) by apply lookup_insert_eq.
  clearbody m1. clear HH Hs Hf Hp Haw c m.
  destruct p as [q|]; [|by eapply return_to_well].
  assert (Hroot : f ∉ roots m1) by (intros Hin; by specialize (heap_root _ _ _ _ _ H1 f _ Hin F1)).
  pose proof (heap_parent _ _ _ _ _ H1 f _ q F1 eq_refl Hroot) as Hw.
  pose proof (stack_ok_parent _ _ _ _ _ _ _ _ H1 Hw S1) as Sq.
  destruct (waits_owned _ _ _ Hw) as (qr & Hq & Hqf).
  pose proof (forest_older _ _ (heap_forest _ _ _ _ _ H1) _ _ _ Hq Hqf) as Hlt.
  destruct Hw as (qr' & k & Hq' & Hk). rewrite Hq in Hq'. injection Hq' as <-. rewrite Hq.
  destruct qr as [pq cq lq]. cbn in Hk.
  assert (W : steps_well (match destroy [f] (set_frame q (MkFrame pq (Running (k r)) lq) m1) with
    | Some m => Next (set_stack (q :: rest) m) | None => Dangling end)); [|by destruct Hk; subst cq].
  destruct (heap_destroy [f] (set_frame q (MkFrame pq (Running (k r)) lq) m1) (roots m1) f) as (fs & -> & HH & Hlo & _).
  - apply (heap_set [] [f] (roots m1) _ _ _ q _ _ H1 Hq); [by destruct Hk; subst cq|done| |].
    + intros x Hx. right. by destruct Hk; subst cq.
    + intros Hin. destruct (heap_pending _ _ _ _ _ H1 q _ Hin Hq) as [kx Hkx]. cbn in Hkx. destruct Hk; congruence.
  - intros h Hh. apply list_elem_of_singleton in Hh as ->. lia.
  - eexists. split; [done|]. split; cbn.
    + done.
    + eapply stack_ok_ext; [done|]. intros x ?. rewrite Hlo by lia. cbn. by rewrite lookup_insert_ne by lia.
    + rewrite Hlo by lia. cbn. rewrite lookup_insert_eq. eauto.
Qed.

(** The running coroutine on top of the stack. *)
Definition top (m : machine) (f : Z) (rest : list Z) (p : option Z) (b : body) (l : list Z) : Prop :=
  stack m = f :: rest /\ frames m !! f = Some (MkFrame p (Running b) l).

(** The top changes its state and gives up the locals [D]. *)
Lemma top_set (m : machine) (f : Z) (rest : list Z) (p : option Z) (b : body) (l D : list Z) (c : cstate) (l' : list Z) :
  Inv m -> top m f rest p b l -> l ≡ₚ D ++ awaited c ++ l' ->
  Heap D (roots m) (frames (set_frame f (MkFrame p c l') m)) (next m) (pending m) /\
  stack_ok (frames (set_frame f (MkFrame p c l') m)) (f :: rest).
Proof.
  intros HI [Hs Hf] HP. split.
  - rewrite <- (app_nil_r D). apply (heap_set [] D (roots m) _ _ _ f (MkFrame p (Running b) l) (MkFrame p c l') (inv_heap _ HI) Hf HP eq_refl).
    + intros x Hx. by apply elem_of_nil in Hx.
    + intros Hin. by destruct (not_pending _ _ _ _ _ f _ (inv_heap _ HI) Hf ltac:(done)).
  - pose proof (inv_stack _ HI) as Hok. rewrite Hs in Hok.
    eapply stack_ok_ext; [done|]. intros x ?. cbn. by rewrite lookup_insert_ne by lia.
Qed.

(** The top releases the locals [D] and goes on in state [c]. *)
Lemma top_destroy (m : machine) (f : Z) (rest : list Z) (p : option Z) (b b' : body) (l D l' : list Z) :
  Inv m -> top m f rest p b l -> l ≡ₚ D ++ l' ->
  exists m', destroy D (set_frame f (MkFrame p (Running b') l') m) = Some m' /\ Inv m' /\ top m' f rest p b' l'.
Proof.
  intros HI HT HP. destruct (top_set m f rest p b l D (Running b') l' HI HT HP) as [HH HS].
  destruct HT as [Hs Hf].
  destruct (heap_destroy D (set_frame f (MkFrame p (Running b') l') m) (roots m) (f + 1) HH) as (fs & -> & HH' & Hlo & _).
  { intros h Hh. assert (h ∈ owned (MkFrame p (Running b) l)) as Hin.
    { unfold owned. cbn. rewrite HP, elem_of_app. auto. }
    pose proof (forest_older _ _ (heap_forest _ _ _ _ _ (inv_heap _ HI)) _ _ _ Hf Hin). lia. }
  assert (Ff : fs !! f = Some (MkFrame p (Running b') l')) by (rewrite Hlo by lia; apply lookup_insert_eq).
  eexists. split; [done|]. split; [split; cbn|by split].
  - done.
  - rewrite Hs. eapply stack_ok_ext; [done|]. intros x ?. by rewrite Hlo by lia.
  - rewrite Hs. cbn. eauto.
Qed.

Lemma leave_well (m : machine) (f : Z) (rest : list Z) (p : option Z) (b : body) (l : list Z) (r : res) :
  Inv m -> top m f rest p b l -> steps_well (leave f p l r rest m).
Proof.
  intros HI HT. unfold leave.
  destruct (top_destroy m f rest p b (finish r) l l [] HI HT ltac:(by rewrite app_nil_r)) as (m' & -> & HI' & HT').
  pose proof (inv_stack _ HI') as Hs. rewrite (proj1 HT') in Hs.
  apply (final_suspend_well f (MkFrame p (Running (finish r)) []) r rest m');
    [apply HI'|done|apply HT'|done|].
  eapply not_pending; [apply HI'|apply HT'|done].
Qed.

Lemma add_pending_heap (D L : list Z) (f : Z) (m : machine) (fr : frame) (k : Z -> body) :
  Heap D L (frames m) (next m) (pending m) -> frames m !! f = Some fr -> code fr = OnIo k -> (f ∉ pending m) ->
  Heap D L (frames (add_pending f m)) (next (add_pending f m)) (pending (add_pending f m)).
Proof.
  intros HH Hf Hk Hp. split; cbn; try apply HH.
  - intros g gr. rewrite elem_of_app, list_elem_of_singleton. intros [Hg| ->] Hgr.
    + by apply (heap_pending _ _ _ _ _ HH g).
    + rewrite Hf in Hgr. injection Hgr as <-. eauto.
  - apply NoDup_app. split; [apply HH|]. split; [|apply NoDup_singleton].
    intros x Hx. rewrite list_elem_of_singleton. by intros ->.
  - intros g. rewrite elem_of_app, list_elem_of_singleton. intros [Hg| ->]; [by apply (heap_known _ _ _ _ _ HH)|].
    apply (heap_bound _ _ _ _ _ HH). by eexists.
Qed.

(** Spawning or awaiting a new task. *)
Lemma create_well (m : machine) (f : Z) (rest s : list Z) (p np : option Z) (b child : body) (l : list Z) (c : cstate) :
  Inv m -> top m f rest p b l -> awaited c = [next m] ->
  ((exists k, c = OnTask (next m) k) /\ np = Some f /\ s = rest) \/
  ((exists k, c = Spawning (next m) k) /\ np = None /\ s = f :: rest) ->
  Inv (set_stack (next m :: s) (create np (Running child) (set_frame f (MkFrame p c l) m))).
Proof.
  intros HI [Hs Hf] Haw Hc. pose proof (inv_heap _ HI) as HH.
  assert (Hlt : f < next m) by (apply HH; by eexists).
  pose proof (inv_stack _ HI) as Hok. rewrite Hs in Hok.
  assert (Hok' : stack_ok (frames (create np (Running child) (set_frame f (MkFrame p c l) m))) (f :: rest)).
  { eapply stack_ok_ext; [done|]. intros x ?. cbn. by rewrite !lookup_insert_ne by lia. }
  split; cbn.
  - eapply (heap_alloc [] (roots m) _ _ _ f); [apply HI|done|done| |by unfold owned; cbn; rewrite Haw|done|done|].
    + eapply not_pending; [done|done|done].
    + intros g Hg. cbn in Hg. destruct Hc as [([k Hk] & -> & _)|(_ & -> & _)]; [|done].
      injection Hg as <-. split; [done|]. exists k. done.
  - destruct Hc as [(_ & -> & ->)|([k ->] & -> & ->)].
    + apply (stack_ok_parent_new _ f); [done|done|].
      exists (MkFrame p c l). rewrite lookup_insert_ne, lookup_insert_eq by lia.
      split; [done|]. unfold owned. cbn. rewrite Haw. left.
    + split; [|done]. exists (MkFrame p (Spawning (next m) k) l), (next m), k.
      rewrite lookup_insert_ne, lookup_insert_eq by lia. repeat (split; [done|]). constructor.
  - rewrite lookup_insert_eq. eauto.
Qed.

Lemma join_well (m : machine) (f : Z) (rest : list Z) (p : option Z) (l : list Z) (h : Z) (k : res -> body) (hr : frame) :
  Inv m -> top m f rest p (Join h k) l -> h ∈ l -> frames m !! h = Some hr ->
  steps_well (return_to rest (set_frame f (MkFrame p (OnJoin h k) (list_difference l [h]))
    (set_frame h (MkFrame (Some f) (code hr) (locals hr)) m))).
Proof.
  intros HI [Hs Hf] Hin Hh. pose proof (inv_heap _ HI) as HH.
  pose proof (forest_older _ _ (heap_forest _ _ _ _ _ HH) f _ h Hf Hin) as Hlt.
  apply (return_to_well f).
  - eapply (heap_join [] (roots m) _ _ _ f h _ _ _ k HH Hf); [done| |done|done| |done|by right].
    + eapply not_pending; [done|done|done].
    + unfold owned. cbn. symmetry. apply list_difference_1; [|done].
      apply (forest_nodup _ _ (heap_forest _ _ _ _ _ HH) f _ Hf).
  - pose proof (inv_stack _ HI) as Hok. rewrite Hs in Hok.
    eapply stack_ok_ext; [done|]. intros x ?. cbn. by rewrite !lookup_insert_ne by lia.
Qed.

(** [co_await] of a task that is in a variable enters it. *)
Lemma enter_well (m : machine) (f : Z) (rest : list Z) (p ph : option Z) (l lh : list Z) (h : Z)
    (k : res -> body) (b : body) :
  Inv m -> top m f rest p (Join h k) l -> h ∈ l -> frames m !! h = Some (MkFrame ph (Initial b) lh) ->
  Inv (set_stack (h :: rest) (set_frame f (MkFrame p (OnTask h k) (list_difference l [h]))
    (set_frame h (MkFrame (Some f) (Running b) lh) m))).
Proof.
  intros HI [Hs Hf] Hin Hh. pose proof (inv_heap _ HI) as HH.
  pose proof (forest_older _ _ (heap_forest _ _ _ _ _ HH) f _ h Hf Hin) as Hlt.
  assert (H1 : Heap [] (roots m) (<[h := MkFrame ph (Running b) lh]> (frames m)) (next m) (pending m)).
  { apply (heap_set [] [] (roots m) _ _ _ h _ _ HH Hh); [done|done| |].
    - intros x Hx. by apply elem_of_nil in Hx.
    - intros Hp. by destruct (not_pending _ _ _ _ _ h _ HH Hh ltac:(done)). }
  split; cbn.
  - rewrite <- (insert_insert_eq (frames m) h (MkFrame (Some f) (Running b) lh) (MkFrame ph (Running b) lh)).
    eapply (heap_join [] (roots m) _ _ _ f h (MkFrame p (Running (Join h k)) l) _ (MkFrame ph (Running b) lh) k H1);
    [by rewrite lookup_insert_ne by lia|done| |by rewrite lookup_insert_eq|done| |done|by left].
    + by apply (not_pending _ _ _ _ _ f _ HH Hf).
    + unfold owned. cbn. symmetry. apply list_difference_1; [|done].
      apply (forest_nodup _ _ (heap_forest _ _ _ _ _ HH) f _ Hf).
  - apply (stack_ok_parent_new _ f); [|done|].
    + pose proof (inv_stack _ HI) as Hok. rewrite Hs in Hok.
      eapply stack_ok_ext; [done|]. intros x ?. by rewrite !lookup_insert_ne by lia.
    + rewrite lookup_insert_eq. eexists. split; [done|]. left.
  - rewrite lookup_insert_ne, lookup_insert_eq by lia. eauto.
Qed.

(** A task that has not started is put in a variable. *)
Lemma new_task_well (m : machine) (f : Z) (rest : list Z) (p : option Z) (b child : body) (k : Z -> body) (l : list Z) :
  Inv m -> top m f rest p b l ->
  Inv (create None (Initial child) (set_frame f (MkFrame p (Running (k (next m))) (next m :: l)) m)).
Proof.
  intros HI [Hs Hf]. pose proof (inv_heap _ HI) as HH.
  assert (Hlt : f < next m) by (apply HH; by eexists).
  split; cbn.
  - eapply (heap_alloc [] (roots m) _ _ _ f); [apply HI|done|done| |done|done|done|done].
    eapply not_pending; [done|done|done].
  - pose proof (inv_stack _ HI) as Hok. rewrite Hs in Hok |- *.
    eapply stack_ok_ext; [done|]. intros x ?. by rewrite !lookup_insert_ne by lia.
  - rewrite Hs. cbn. rewrite lookup_insert_ne, lookup_insert_eq by lia. eauto.
Qed.

(** A frame that is about to be destroyed can be let go, if it has no parent. *)
Lemma heap_release (h : Z) (L : list Z) (fs : gmap Z frame) (nx : Z) (pd : list Z) :
  Heap [h] (root :: L) fs nx pd -> (forall hr, fs !! h = Some hr -> parent hr = None) ->
  Heap [] (root :: h :: L) fs nx pd.
Proof.
  intros HH Hh.
  assert (HP : root :: h :: L ≡ₚ h :: root :: L) by apply perm_swap.
  split; try apply HH.
  - cbn. rewrite HP. apply HH.
  - intros c fr f. cbn. rewrite HP. apply HH.
  - intros c fr. rewrite HP, elem_of_cons. intros [->|Hc]; [auto|by apply HH].
Qed.

Lemma release_well (m : machine) (f : Z) (rest : list Z) (p : option Z) (l : list Z) (h : Z) (b k : body) :
  Inv m -> top m f rest p b l -> h ∈ l ->
  Inv (release h (set_frame f (MkFrame p (Running k) (list_difference l [h])) m)).
Proof.
  intros HI HT Hin. pose proof (inv_heap _ HI) as HH. pose proof HT as [Hs Hf].
  pose proof (forest_older _ _ (heap_forest _ _ _ _ _ HH) f _ h Hf Hin) as Hlt.
  pose proof (forest_nodup _ _ (heap_forest _ _ _ _ _ HH) f _ Hf) as Hnd.
  destruct (top_set m f rest p b l [h] (Running k) _ HI HT (list_difference_1 l h Hnd Hin)) as [H1 S1].
  split; cbn.
  - apply heap_release; [done|]. intros hr. cbn. rewrite lookup_insert_ne by lia. intros Hh.
    destruct (parent hr) as [q|] eqn:Hp; [exfalso|done].
    pose proof (forest_apart _ _ (heap_forest _ _ _ _ _ HH) f _ h Hf Hin) as HR.
    pose proof (heap_parent _ _ _ _ _ HH h hr q Hh Hp HR) as Hw.
    destruct (waits_owned _ _ _ Hw) as (qr & Hq & Hqh).
    assert (f = q) as <- by (by eapply (forest_one _ _ (heap_forest _ _ _ _ _ HH))).
    destruct Hw as (qr' & kq & Hq' & Hk). rewrite Hf in Hq'. injection Hq' as <-. by destruct Hk.
  - by rewrite Hs.
  - rewrite Hs. cbn. rewrite lookup_insert_eq. eauto.
Qed.

(** A step never enters or releases a frame that is gone. *)
Lemma mstep_well (m : machine) : Inv m -> stack m <> [] -> steps_well (mstep m) \/ (mstep m = Stuck /\ misuses m).
Proof.
  intros HI Hne. pose proof (inv_runs _ HI) as Hr. unfold mstep.
  destruct (stack m) as [|f rest] eqn:Hs; [done|]. destruct Hr as ([p c l] & b & Hf & Hb).
  cbn in Hb. subst c. rewrite Hf.
  assert (HT : top m f rest p b l) by done.
  assert (Hnd : NoDup l) by apply (forest_nodup _ _ (heap_forest _ _ _ _ _ (inv_heap _ HI)) f _ Hf).
  assert (Hrel : forall h b', h ∈ l -> steps_well
    (match destroy [h] (set_frame f (MkFrame p (Running b') (list_difference l [h])) m) with
     | Some m => Next m | None => Dangling end)).
  { intros h b' Hin.
    destruct (top_destroy m f rest p b b' l [h] _ HI HT (list_difference_1 l h Hnd Hin)) as (m' & -> & HI' & _).
    by eexists. }
  destruct b as [v|e|child k|k|child k|h k|h k|child k|h k].
  - left. by eapply leave_well.
  - left. by eapply leave_well.
  - left. eexists. split; [done|]. apply (create_well m f rest rest p (Some f) _ child l (OnTask (next m) k) HI HT); [done|left; eauto].
  - left. apply (return_to_well f).
    + destruct (top_set m f rest p _ l [] (OnIo k) l HI HT) as [HH _]; [done|].
      eapply add_pending_heap; [done|apply lookup_insert_eq|done|].
      eapply not_pending; [apply HI|done|done].
    + apply (top_set m f rest p _ l [] (OnIo k) l HI HT). done.
  - left. eexists. split; [done|]. apply (create_well m f rest (f :: rest) p None _ child l (Spawning (next m) k) HI HT); [done|right; eauto].
  - destruct (decide (h ∈ l)) as [Hin|Hin]; [left|right; split; [done|]].
    + destruct (proj2 (forest_live _ _ (heap_forest _ _ _ _ _ (inv_heap _ HI)) h)) as [hr Hh].
      { right. exists f, (MkFrame p (Running (Join h k)) l). done. }
      pose proof (join_well m f rest p l h k hr HI HT Hin Hh) as HJ.
      rewrite Hh. destruct hr as [ph ch lh].
      destruct ch; [eexists; split; [done|by eapply enter_well]|exact HJ..|by apply Hrel].
    + exists f, rest, (MkFrame p (Running (Join h k)) l), h. eauto 8.
  - destruct (decide (h ∈ l)) as [Hin|Hin]; [left; by apply Hrel|right; split; [done|]].
    exists f, rest, (MkFrame p (Running (Drop h k)) l), h. eauto 8.
  - left. eexists. split; [done|by eapply new_task_well].
  - destruct (decide (h ∈ l)) as [Hin|Hin]; [left; eexists; split; [done|by eapply release_well]|right; split; [done|]].
    exists f, rest, (MkFrame p (Running (Release h k)) l), h. eauto 9.
Qed.

(** A completion enters its coroutine if it is still there. *)
Lemma complete_well (i : nat) (v : Z) (m : machine) (f : Z) :
  Inv m -> stack m = [] -> pending m !! i = Some f ->
  steps_well (complete i v m) \/ (complete i v m = Dangling /\ frames m !! f = None).
Proof.
  intros HI Hs Hi. pose proof (inv_heap _ HI) as HH. unfold complete. rewrite Hi.
  destruct (frames m !! f) as [[p c l]|] eqn:Hf; [left|by right].
  destruct (heap_pending _ _ _ _ _ HH f _ (list_elem_of_lookup_2 _ _ _ Hi) Hf) as [k Hk]. cbn in Hk. subst c.
  eexists. split; [done|]. pose proof (heap_once _ _ _ _ _ HH) as Hnd.
  rewrite (delete_Permutation _ _ _ Hi) in Hnd. apply NoDup_cons in Hnd as [Hnin Hnd].
  assert (H0 : Heap [] (roots m) (frames m) (next m) (delete i (pending m))).
  { assert (Hsub : forall x, x ∈ delete i (pending m) -> x ∈ pending m).
    { intros x Hx. rewrite (delete_Permutation _ _ _ Hi). by right. }
    split; try apply HH; try done.
    - intros g gr Hg. apply (heap_pending _ _ _ _ _ HH g gr). auto.
    - intros g Hg. apply (heap_known _ _ _ _ _ HH g). auto. }
  split; cbn.
  - apply (heap_set [] [] (roots m) _ _ _ f _ _ H0 Hf); [done|done| |done].
    intros x Hx. by apply elem_of_nil in Hx.
  - done.
  - rewrite lookup_insert_eq. eauto.
Qed.

Lemma start_inv (b : body) : Inv (start b).
Proof.
  assert (Hl : forall c fr, frames (start b) !! c = Some fr -> c = root /\ fr = MkFrame None (Running b) []).
  { intros c fr H. cbn in H. by apply lookup_singleton_Some in H as [<- <-]. }
  split; [|done|by eexists _, b].
  change (roots (start b)) with [root]. split.
  - change ([] ++ [root]) with [root]. split.
    + intros c. rewrite list_elem_of_singleton. split.
      * intros [fr Hc]. left. by destruct (Hl _ _ Hc).
      * intros [->|(f & fr & Hf & Hc)]; [by eexists|].
        destruct (Hl _ _ Hf) as [_ ->]. by apply elem_of_nil in Hc.
    + apply NoDup_singleton.
    + intros f fr Hf. destruct (Hl _ _ Hf) as [_ ->]. constructor.
    + intros f fr c Hf Hc. destruct (Hl _ _ Hf) as [_ ->]. by apply elem_of_nil in Hc.
    + intros f g fr gr c Hf Hg. destruct (Hl _ _ Hf), (Hl _ _ Hg). by subst.
    + intros f fr c Hf Hc. destruct (Hl _ _ Hf) as [_ ->]. by apply elem_of_nil in Hc.
  - intros c [fr Hc]. destruct (Hl _ _ Hc) as [-> _]. done.
  - intros c fr f Hc Hp. by destruct (Hl _ _ Hc) as [_ ->].
  - intros c fr _ Hr. by destruct (Hl _ _ Hr) as [_ ->].
  - intros f fr Hf. by apply elem_of_nil in Hf.
  - constructor.
  - intros f Hf. by apply elem_of_nil in Hf.
Qed.

(** ** Runs *)

(** The loop of [block_on] when it is the running coroutine's turn, and a
    completion of any operation in flight, in any order. *)
Inductive reachable (b : body) : machine -> Prop :=
| reach_start : reachable b (start b)
| reach_step m m' : reachable b m -> mstep m = Next m' -> reachable b m'
| reach_complete i v m m' : reachable b m -> stack m = [] -> complete i v m = Next m' -> reachable b m'.

Lemma next_well (o : outcome) (m' : machine) : steps_well o -> o = Next m' -> Inv m'.
Proof. intros (x & -> & HI) E. by injection E as <-. Qed.

Lemma task_reachable_inv (b : body) (m : machine) : reachable b m -> Inv m.
Proof.
  induction 1 as [|m m' _ IH H|i v m m' _ IH Hs H]; [apply start_inv| |].
  - assert (stack m <> []) as Hne by (intros E; unfold mstep in H; by rewrite E in H).
    destruct (mstep_well m IH Hne) as [Hw|[Hst _]]; [by eapply next_well|congruence].
  - destruct (pending m !! i) as [f|] eqn:Hi; [|unfold complete in H; by rewrite Hi in H].
    destruct (complete_well i v m f IH Hs Hi) as [Hw|[Hd _]]; [by eapply next_well|congruence].
Qed.

(** C2: whatever a program does with [co_await], [spawn] and the tasks and handles
    in a coroutine's variables (awaited, destroyed, taken out with [take_handle] or
    overwritten; they stay in the coroutine that made them), no step of a coroutine enters or releases a frame that was released
    before; a step is only refused when a body uses a handle it does not hold; and
    the completion of an operation is undefined behaviour exactly when the
    coroutine that waits for it has been destroyed. *)
Theorem tasks_own_frames (b : body) (m : machine) :
  reachable b m ->
  mstep m <> Dangling /\
  (stack m <> [] -> mstep m = Stuck -> misuses m) /\
  (forall i v f, stack m = [] -> pending m !! i = Some f ->
     (complete i v m = Dangling <-> frames m !! f = None)).
Proof.
  intros HR. pose proof (task_reachable_inv b m HR) as HI. split; [|split].
  - destruct (stack m) as [|f rest] eqn:Hs; [by unfold mstep; rewrite Hs|].
    destruct (mstep_well m HI) as [(m' & -> & _)|[-> _]]; [by rewrite Hs|done|done].
  - intros Hne Hst. destruct (mstep_well m HI Hne) as [(m' & E & _)|[_ ?]]; [congruence|done].
  - intros i v f Hs Hi. destruct (complete_well i v m f HI Hs Hi) as [(m' & E & _)|[-> ->]]; [|done].
    rewrite E. split; [done|]. intros Hn. unfold complete in E. by rewrite Hi, Hn in E.
Qed.

(** What is left of the heap when [block_on] of [b] is over: [m] is the state in
    which its loop was left. *)
Definition left_over (b : body) (e : ended) : Prop :=
  match e with
  | Returned v fs ring =>
      ring = false /\ exists m, reachable b m /\ stack m = [] /\ result_of m = Some (inl v) /\ fs ⊆ frames m /\
        (forall c, is_Some (fs !! c) <-> exists h, h ∈ released m /\ held fs h c) /\
        (released m = [] -> fs = ∅)
  | Threw e fs ring =>
      ring = true /\ exists m, reachable b m /\ stack m = [] /\ result_of m = Some (inr e) /\ fs = frames m
  | _ => True
  end.

(** Every frame of a forest is held by a root. *)
Lemma forest_held (fs : gmap Z frame) (R : list Z) (lo c : Z) :
  Forest fs R -> (forall x, is_Some (fs !! x) -> lo <= x) ->
  is_Some (fs !! c) <-> exists h, h ∈ R /\ held fs h c.
Proof.
  intros HF Hlo. split.
  - assert (H : forall n x, x < lo + Z.of_nat n -> is_Some (fs !! x) -> exists h, h ∈ R /\ held fs h x).
    { induction n as [|n IH]; intros x Hx Hl; [specialize (Hlo x Hl); lia|].
      destruct (proj1 (forest_live _ _ HF x) Hl) as [HR|(g & gr & Hg & Hin)]; [exists x; split; [done|constructor]|].
      pose proof (forest_older _ _ HF _ _ _ Hg Hin).
      destruct (IH g ltac:(lia) ltac:(by eexists)) as (h & Hh & Hd). exists h. split; [done|by eapply held_step]. }
    intros Hc. apply (H (Z.to_nat (c - lo + 1))); [|done]. specialize (Hlo c Hc). lia.
  - intros (h & Hh & Hd). apply (forest_live _ _ HF). destruct Hd; eauto.
Qed.

Lemma take_result_left_over (b : body) (r : res) (m : machine) :
  reachable b m -> stack m = [] -> result_of m = Some r -> left_over b (take_result r m).
Proof.
  intros HR Hs Hr. pose proof (task_reachable_inv b m HR) as HI.
  assert (Hroot : is_Some (frames m !! root)) by (unfold result_of in Hr; by destruct (frames m !! root)).
  destruct r as [v|e]; cbn [take_result left_over]; [|eauto 10].
  destruct (heap_destroy [root] m (released m) root) as (fs & -> & HH & _ & Hsub).
  - pose proof (inv_heap _ HI) as H0. split; try apply H0.
    intros c fr Hc. apply (heap_root _ _ _ _ _ H0). by right.
  - intros h Hh. apply list_elem_of_singleton in Hh as ->. done.
  - assert (Hlo : forall x, is_Some (fs !! x) -> root <= x) by (intros x Hx; by apply HH).
    split; [done|]. exists m. split; [done|]. split; [done|]. split; [done|].
    split; [done|]. split; [intros c; apply (forest_held _ _ root); [apply HH|done]|].
    intros Hn. apply (forest_empty fs root); [|done]. rewrite <- Hn. apply HH.
Qed.


(** A program that spawns a reader and drops its handle, joins a second one, and
    spawns a third one, which is at its end, only to take its handle. *)
Definition spawner : body :=
  Spawn (Suspend Return) (fun h => Drop h
    (Spawn (Return 5) (fun h => Join h (fun _ =>
      Spawn (Return 7) (fun h => Release h (Return 1)))))).


(** ** Awaiting is calling

    A body that only awaits tasks and operations runs as a direct program does. *)

(** The direct reading: a task is a call, an operation takes the next result of
    the kernel; [None] when the results do not suffice or a handle is used. *)
Fixpoint eval (b : body) (io : list Z) : option (res * list Z) :=
  match b with
  | Return v => Some (inl v, io)
  | Throw e => Some (inr e, io)
  | CoAwait child k => '(r, io) ← eval child io; eval (k r) io
  | Suspend k => match io with [] => None | v :: io => eval (k v) io end
  | Spawn _ _ | Join _ _ | Drop _ _ | NewTask _ _ | Release _ _ => None
  end.

(** [n] turns of the loop of [block_on]. *)
Fixpoint turns (n : nat) (io : list Z) (m : machine) : option (list Z * machine) :=
  match n with
  | O => Some (io, m)
  | S n =>
      match stack m, io with
      | [], v :: io => match result_of m, complete 0 v m with None, Next m => turns n io m | _, _ => None end
      | _ :: _, _ => match mstep m with Next m => turns n io m | _ => None end
      | [], [] => None
      end
  end.

Lemma turns_loop (n fuel : nat) (io io' : list Z) (m m' : machine) :
  turns n io m = Some (io', m') -> block_on_loop (n + fuel) io m = block_on_loop fuel io' m'.
Proof.
  revert io m. induction n as [|n IH]; intros io m H; cbn in H; [by injection H as <- <-|].
  cbn [Nat.add block_on_loop]. destruct (stack m) as [|f rest].
  - destruct io as [|v io]; [done|]. destruct (result_of m); [done|].
    destruct (complete 0 v m); [by apply IH|done|done].
  - destruct (mstep m); [by apply IH|done|done].
Qed.

Lemma turns_app (n1 n2 : nat) (io io1 : list Z) (m m1 : machine) :
  turns n1 io m = Some (io1, m1) -> turns (n1 + n2) io m = turns n2 io1 m1.
Proof.
  revert io m. induction n1 as [|n IH]; intros io m H; cbn in H; [by injection H as <- <-|].
  cbn [Nat.add turns]. destruct (stack m) as [|f rest].
  - destruct io as [|v io]; [done|]. destruct (result_of m); [done|].
    destruct (complete 0 v m); [by apply IH|done|done].
  - destruct (mstep m); [by apply IH|done|done].
Qed.

(** One coroutine runs, with no operation in flight. *)
Definition at_body (fs : gmap Z frame) (nx f : Z) (p : option Z) (b : body) : machine :=
  MkMachine (<[f := MkFrame p (Running b) []]> fs) nx [f] [] [].

(** What else is in the heap: older frames; the root is not at its end. *)
Definition calm (fs : gmap Z frame) (nx f : Z) : Prop :=
  f < nx /\ (forall c, is_Some (fs !! c) -> c < nx) /\
  (f = root \/ exists p c l, fs !! root = Some (MkFrame p c l) /\ (forall r, c <> Final r)).

Lemma destroy_done (f : Z) (fr : frame) (m : machine) :
  frames m !! f = Some fr -> owned fr = [] -> destroy [f] m = Some (with_frames (delete f (frames m)) m).
Proof.
  intros Hf Ho. unfold destroy. destruct (size (frames m)) as [|n] eqn:Hn.
  - apply map_size_empty_inv in Hn. by rewrite Hn, lookup_empty in Hf.
  - cbn. rewrite Hf, Ho. by destruct n.
Qed.

(** The end of a task gives its result to the coroutine that awaits it. *)
Lemma leave_to_parent (fs : gmap Z frame) (nx f c : Z) (pf : option Z) (k : res -> body) (r : res) :
  fs !! c = None -> f <> c ->
  mstep (at_body (<[f := MkFrame pf (OnTask c k) []]> fs) nx c (Some f) (finish r)) =
  Next (at_body fs nx f pf (k r)).
Proof.
  intros Hc Hne.
  assert (Hl : leave c (Some f) [] r [] (at_body (<[f := MkFrame pf (OnTask c k) []]> fs) nx c (Some f) (finish r)) =
    Next (at_body fs nx f pf (k r))).
  { unfold leave, destroy. cbn [at_body set_frame with_frames frames].
    assert (E0 : forall n g, destroy_all n [] g = Some g) by (intros [|n] g; done).
    rewrite E0. cbn. unfold final_suspend. cbn [set_frame with_frames frames next stack pending].
    rewrite lookup_insert_ne, lookup_insert_ne, lookup_insert_ne, lookup_insert_eq by congruence.
    erewrite destroy_done; [|cbn; rewrite lookup_insert_ne by done; apply lookup_insert_eq|done].
    unfold at_body, set_stack, with_frames. cbn. do 2 f_equal.
    rewrite delete_insert_ne by done. rewrite !insert_insert_eq, delete_insert_eq.
    rewrite delete_insert_ne, insert_insert_eq by done. by rewrite delete_id. }
  unfold mstep. cbn. rewrite lookup_insert_eq. destruct r; exact Hl.
Qed.

Lemma calm_child (fs : gmap Z frame) (nx f : Z) (p : option Z) (k : res -> body) :
  calm fs nx f -> calm (<[f := MkFrame p (OnTask nx k) []]> fs) (nx + 1) nx.
Proof.
  intros (Hf & Hb & Hroot). split; [lia|]. split.
  - intros c. rewrite lookup_insert_is_Some'. intros [->|Hc]; [lia|]. specialize (Hb c Hc). lia.
  - right. destruct (decide (f = root)) as [->|Hne].
    + exists p, (OnTask nx k), []. rewrite lookup_insert_eq. done.
    + destruct Hroot as [?|(p0 & c0 & l0 & Hr & Hn)]; [done|]. exists p0, c0, l0. by rewrite lookup_insert_ne.
Qed.

Lemma co_await_turn (n : nat) (io : list Z) (fs : gmap Z frame) (nx f : Z) (p : option Z) (child : body) (k : res -> body) :
  turns (S n) io (at_body fs nx f p (CoAwait child k)) =
  turns n io (at_body (<[f := MkFrame p (OnTask nx k) []]> fs) (nx + 1) nx (Some f) child).
Proof.
  cbn [turns stack at_body]. unfold mstep at 1. cbn [stack at_body frames]. rewrite lookup_insert_eq.
  unfold at_body, set_stack, create, set_frame, with_frames. cbn [frames next pending stack].
  by rewrite insert_insert_eq.
Qed.

(** An operation takes two turns: one to suspend, one for its completion. *)
Lemma suspend_turns (n : nat) (v : Z) (io : list Z) (fs : gmap Z frame) (nx f : Z) (p : option Z) (k : Z -> body) :
  calm fs nx f ->
  turns (S (S n)) (v :: io) (at_body fs nx f p (Suspend k)) = turns n io (at_body fs nx f p (k v)).
Proof.
  intros Hcalm. cbn [turns stack at_body].
  unfold mstep at 1. cbn [stack at_body frames]. rewrite lookup_insert_eq. cbn [return_to].
  cbn [set_stack stack add_pending set_frame with_frames frames next pending].
  assert (Hro : result_of (set_stack [] (add_pending f (set_frame f (MkFrame p (OnIo k) [])
    (at_body fs nx f p (Suspend k))))) = None).
  { unfold result_of. cbn. destruct (decide (f = root)) as [->|Hne]; [by rewrite lookup_insert_eq|].
    rewrite !lookup_insert_ne by done. destruct Hcalm as (_ & _ & [?|(p0 & c0 & l0 & -> & Hn)]); [done|].
    destruct c0; try done. by destruct (Hn r). }
  rewrite Hro. unfold complete. cbn. by rewrite lookup_insert_eq, !insert_insert_eq.
Qed.

(** A body takes as many turns as it needs and ends as [eval] says, and the rest
    of the heap is as it was. *)
Lemma eval_turns (b : body) : forall (io io' : list Z) (r : res) (fs : gmap Z frame) (nx f : Z) (p : option Z),
  eval b io = Some (r, io') -> calm fs nx f ->
  exists n nx', turns n io (at_body fs nx f p b) = Some (io', at_body fs nx' f p (finish r)) /\ nx <= nx'.
Proof.
  induction b as [v|e|child IHc k IHk|k IHk|child IHc k IHk|h k IHk|h k IHk|child IHc k IHk|h k IHk];
    intros io io' r fs nx f p He Hcalm; cbn in He; try done.
  - injection He as <- <-. exists 0%nat, nx. split; [done|lia].
  - injection He as <- <-. exists 0%nat, nx. split; [done|lia].
  - destruct (eval child io) as [[r1 io1]|] eqn:E1; [|done]. cbn in He.
    destruct (IHc io io1 r1 _ (nx + 1) nx (Some f) E1 (calm_child fs nx f p k Hcalm)) as (n1 & nx1 & H1 & Hle1).
    destruct Hcalm as (Hf & Hb & Hroot).
    destruct (IHk r1 io1 io' r fs nx1 f p He) as (n2 & nx2 & H2 & Hle2).
    { split; [lia|]. split; [|done]. intros c Hc. specialize (Hb c Hc). lia. }
    exists (S (n1 + (1 + n2))), nx2. split; [|lia].
    rewrite co_await_turn, (turns_app _ _ _ _ _ _ H1). cbn [Nat.add turns stack at_body].
    assert (Hnx : fs !! nx = None).
    { destruct (fs !! nx) eqn:E; [|done]. specialize (Hb nx ltac:(by eexists)). lia. }
    pose proof (leave_to_parent fs nx1 f nx p k r1 Hnx ltac:(lia)) as HL.
    rewrite HL. done.
  - destruct io as [|v io]; [done|].
    destruct (IHk v io io' r fs nx f p He Hcalm) as (n & nx' & H & Hle).
    exists (S (S n)), nx'. by rewrite suspend_turns.
Qed.

(** [block_on]'s result for the result of its task. *)
Definition outcome_of (r : res) : ended :=
  match r with
  | inl v => Returned v ∅ false
  | inr e => Threw e {[root := MkFrame None (Final (inr e)) []]} true
  end.

(** C8: [block_on] of a task that awaits tasks and operations ends, with the value
    or the exception of the direct program in which an awaited task is a call and
    an operation takes the next result of the kernel. *)
Theorem block_on_evaluates (b : body) (io io' : list Z) (r : res) :
  eval b io = Some (r, io') -> exists fuel, block_on fuel io b = outcome_of r.
Proof.
  intros He. destruct (eval_turns b io io' r ∅ 1 root None He) as (n & nx & H & _).
  { split; [done|]. split; [|by left]. intros c [fr Hc]. by rewrite lookup_empty in Hc. }
  exists (n + 2)%nat. unfold block_on. change (start b) with (at_body ∅ 1 root None b). rewrite (turns_loop n 2 io io' _ _ H).
  destruct r as [v|e]; reflexivity.
Qed.

(** A request: it awaits a helper that reads twice and fails on an odd sum, and
    catches the failure. *)
(** Witness of C8. *)
Example block_on_evaluates_witness : exists fuel,
  block_on fuel [3; 4] (CoAwait (Suspend (fun x => Suspend (fun y =>
    if Z.odd (x + y) then Throw (x + y) else Return (x + y))))
    (fun r => match r with inl v => Return v | inr e => Return (- e) end)) = Returned (-7) ∅ false.
Proof. apply (block_on_evaluates _ [3; 4] [] (inl (-7))). reflexivity. Defined.

(** a task that is spawned and waits for an operation, and whose handle goes
    out of scope, is destroyed while the operation is in flight: the completion
    resumes a frame that is gone. *)
Theorem detached_io_dangles (k k' : Z -> body) (v : Z) (io : list Z) :
  block_on 6 (v :: io) (CoAwait (Spawn (Suspend k) (fun _ => Return 0)) (fun _ => Suspend k')) = Undefined.
Proof. reflexivity. Qed.

(** ** Handles *)

(** Every frame is held by one variable. *)
Definition owns (o : owners) : Prop :=
  (forall f, f ∈ alive o <-> exists x, vars o !! x = Some (Some f)) /\
  (forall x y f, vars o !! x = Some (Some f) -> vars o !! y = Some (Some f) -> x = y).

(** A constructor makes a variable, the other operations act on existing ones. *)
Definition op_ok (o : owners) (op : handle_op) : Prop :=
  match op with
  | NewHandle x f => vars o !! x = None /\ (f ∉ alive o)
  | MoveCtor x y => vars o !! x = None /\ is_Some (vars o !! y)
  | MoveAssign x y => is_Some (vars o !! x) /\ is_Some (vars o !! y)
  | Dtor x => is_Some (vars o !! x)
  end.

Lemma read_var_some (x : Z) (o : owners) (h : option Z) : vars o !! x = Some h -> read_var x o = h.
Proof. unfold read_var. by intros ->. Qed.

(** The frame of [x] moves to [y], and [x] is left empty. *)
Lemma owns_move (o : owners) (x y : Z) (h : option Z) :
  owns o -> vars o !! y = Some h -> x <> y -> (forall f, vars o !! x <> Some (Some f)) ->
  owns (MkOwners (<[x := h]> (<[y := None]> (vars o))) (alive o)).
Proof.
  intros [Ha Hi] Hy Hne Hx.
  assert (Hl : forall z f, <[x := h]> (<[y := None]> (vars o)) !! z = Some (Some f) <->
    (z = x /\ vars o !! y = Some (Some f)) \/ (z <> y /\ vars o !! z = Some (Some f))).
  { intros z f. specialize (Hx f). rewrite Hy.
    destruct (decide (z = x)) as [->|]; [rewrite lookup_insert_eq|
      rewrite lookup_insert_ne by done; destruct (decide (z = y)) as [->|];
      [rewrite lookup_insert_eq|rewrite lookup_insert_ne by done]]; intuition congruence. }
  split; cbn.
  - intros f. rewrite Ha. split.
    + intros [z Hz]. destruct (decide (z = y)) as [->|]; [exists x|exists z]; apply Hl; auto.
    + intros [z Hz]. apply Hl in Hz as [[_ ?]|[_ ?]]; eauto.
  - intros z z' f Hz Hz'. apply Hl in Hz as [[-> H1]|[Hn1 H1]], Hz' as [[-> H2]|[Hn2 H2]]; [done| | |by eapply Hi].
    + destruct Hn2. by eapply Hi.
    + destruct Hn1. by eapply Hi.
Qed.

(** The destructor of what [x] holds. *)
Lemma owns_destroy (o : owners) (x : Z) (h : option Z) (new : option (option Z)) :
  owns o -> vars o !! x = Some h -> (forall f, new <> Some (Some f)) ->
  exists a, destroy_handle h o = Some (MkOwners (vars o) a) /\
    owns (MkOwners (partial_alter (fun _ => new) x (vars o)) a).
Proof.
  intros [Ha Hi] Hx Hnew.
  assert (Hl : forall z f, partial_alter (fun _ => new) x (vars o) !! z = Some (Some f) <->
    z <> x /\ vars o !! z = Some (Some f)).
  { intros z f. destruct (decide (x = z)) as [<-|].
    - rewrite lookup_partial_alter_eq. specialize (Hnew f). intuition.
    - rewrite lookup_partial_alter_ne by done. intuition. }
  assert (Hinj : forall z z' f, partial_alter (fun _ => new) x (vars o) !! z = Some (Some f) ->
    partial_alter (fun _ => new) x (vars o) !! z' = Some (Some f) -> z = z').
  { intros z z' f Hz Hz'. apply Hl in Hz as [_ ?], Hz' as [_ ?]. by eapply Hi. }
  destruct h as [f|]; cbn.
  - rewrite decide_True by (apply Ha; eauto). exists (alive o ∖ {[f]}). split; [done|]. split; [|done].
    intros g. cbn. rewrite elem_of_difference, elem_of_singleton, Ha. split.
    + intros [[z Hz] Hg]. exists z. apply Hl. split; [congruence|done].
    + intros [z Hz]. apply Hl in Hz as [Hn Hz]. split; [eauto|]. intros ->. by apply Hn, (Hi z x f).
  - exists (alive o). destruct o as [vs al]. split; [done|]. split; [|done].
    intros g. cbn in *. rewrite Ha. split.
    + intros [z Hz]. exists z. apply Hl. split; [congruence|done].
    + intros [z Hz]. apply Hl in Hz as [_ Hz]. eauto.
Qed.

Lemma owns_new (o : owners) (x f : Z) :
  owns o -> vars o !! x = None -> (f ∉ alive o) -> owns (MkOwners (<[x := Some f]> (vars o)) ({[f]} ∪ alive o)).
Proof.
  intros [Ha Hi] Hx Hf.
  assert (Hn : forall z, vars o !! z <> Some (Some f)) by (intros z Hz; apply Hf, Ha; eauto).
  assert (Hl : forall z g, <[x := Some f]> (vars o) !! z = Some (Some g) <->
    (z = x /\ g = f) \/ vars o !! z = Some (Some g)).
  { intros z g. destruct (decide (z = x)) as [->|];
      [rewrite lookup_insert_eq|rewrite lookup_insert_ne by done]; intuition congruence. }
  split; cbn.
  - intros g. rewrite elem_of_union, elem_of_singleton, Ha. split.
    + intros [->|[z Hz]]; [exists x|exists z]; apply Hl; auto.
    + intros [z Hz]. apply Hl in Hz as [[_ ?]|?]; eauto.
  - intros z z' g Hz Hz'. apply Hl in Hz as [[-> ->]|H1], Hz' as [[-> E]|H2];
      [done|by destruct (Hn z')|subst; by destruct (Hn z)|by eapply Hi].
Qed.

(** any operation on [JoinHandle] variables keeps each live frame in exactly
    one of them; a move assignment to a [Task] that holds a frame leaves this frame
    alive and in no variable. *)
Theorem handles_own (o : owners) (op : handle_op) :
  owns o -> op_ok o op ->
  (exists o', handle_step JoinHandle_assign o op = Some o' /\ owns o') /\
  (forall x y f, op = MoveAssign x y -> x <> y -> vars o !! x = Some (Some f) ->
     exists o', handle_step Task_assign o op = Some o' /\ f ∈ alive o' /\ forall z, vars o' !! z <> Some (Some f)).
Proof.
  intros HO Hok. split.
  - destruct op as [x f|x y|x y|x]; cbn in Hok |- *.
    + eexists. split; [done|]. destruct Hok as [Hx Hf]. by apply (owns_new o x f).
    + destruct Hok as [Hx [h Hy]]. eexists. split; [done|]. cbn. rewrite (read_var_some _ _ _ Hy).
      apply (owns_move o x y h); [done|done|congruence|congruence].
    + destruct Hok as [[h Hx] [h' Hy]]. case Z.eqb_spec; [eauto|]. intros Hne.
      unfold JoinHandle_assign. rewrite (read_var_some _ _ _ Hx).
      destruct (owns_destroy o x h (Some None) HO Hx ltac:(done)) as (a & -> & HO').
      eexists. split; [done|]. cbn. rewrite (read_var_some y (MkOwners (vars o) a) h' Hy).
      pose proof (owns_move (MkOwners (<[x := None]> (vars o)) a) x y h') as HM. cbn in HM.
      rewrite (insert_insert_ne _ y x), insert_insert_eq in HM by done.
      apply HM; [exact HO'|by rewrite lookup_insert_ne|done|by rewrite lookup_insert_eq].
    + destruct Hok as [h Hx]. rewrite (read_var_some _ _ _ Hx).
      destruct (owns_destroy o x h None HO Hx ltac:(done)) as (a & -> & HO'). eauto.
  - intros x y f -> Hne Hx. cbn in Hok |- *. destruct Hok as [_ [h Hy]].
    rewrite (proj2 (Z.eqb_neq x y) Hne). eexists. split; [done|]. cbn. destruct HO as [Ha Hi].
    split; [apply Ha; eauto|]. rewrite (read_var_some _ _ _ Hy). intros z.
    destruct (decide (z = x)) as [->|Hzx]; [rewrite lookup_insert_eq|rewrite lookup_insert_ne by done].
    + intros E. injection E as ->. by apply Hne, (Hi x y f).
    + destruct (decide (z = y)) as [->|]; [by rewrite lookup_insert_eq|rewrite lookup_insert_ne by done].
      intros Hz. by apply Hzx, (Hi z x f).
Qed.

(** A handle is overwritten by another one. *)
(** An instance. *)
Example handles_own_witness :
  let o := MkOwners {[1 := Some 10; 2 := Some 20]} {[10; 20]} in
  (exists o', handle_step JoinHandle_assign o (MoveAssign 1 2) = Some o' /\ owns o') /\
  (forall x y f, MoveAssign 1 2 = MoveAssign x y -> x <> y -> vars o !! x = Some (Some f) ->
     exists o', handle_step Task_assign o (MoveAssign 1 2) = Some o' /\ f ∈ alive o' /\
       forall z, vars o' !! z <> Some (Some f)).
Proof.
  apply (handles_own (MkOwners {[1 := Some 10; 2 := Some 20]} {[10; 20]}) (MoveAssign 1 2)).
  - assert (Hl : forall x f, ({[1 := Some 10; 2 := Some 20]} : gmap Z (option Z)) !! x = Some (Some f) <->
      (x = 1 /\ f = 10) \/ (x = 2 /\ f = 20)).
    { intros x f. rewrite lookup_insert_Some, lookup_singleton_Some. intuition congruence. }
    split; cbn [vars alive].
    + intros f. setoid_rewrite Hl. rewrite elem_of_union, !elem_of_singleton. split.
      * intros [->| ->]; eauto.
      * intros [x [[_ ->]|[_ ->]]]; auto.
    + intros x y f Hx Hy. apply Hl in Hx, Hy. lia.
  - split; by eexists.
Defined.

(** A coroutine that has spawned a reader and awaits it. *)
(** Witness of C2. *)
Example tasks_own_frames_witness :
  let b := Spawn (Suspend Return) (fun h => Join h (fun _ => Return 1)) in
  exists m, reachable b m /\ mstep m <> Dangling /\ pending m = [1] /\ complete 0 7 m <> Dangling.
Proof.
  intros b.
  assert (H : exists m, reachable b m /\ pending m = [1] /\ stack m = [] /\ is_Some (frames m !! 1)).
  { eexists. split.
    - eapply reach_step; [eapply reach_step; [eapply reach_step; [apply reach_start|]|]|]; reflexivity.
    - repeat split. by eexists. }
  destruct H as (m & HR & Hp & Hs & [fr Hf]). exists m. split; [done|].
  pose proof (tasks_own_frames b m HR) as (H1 & _ & H3). split; [done|]. split; [done|].
  rewrite (H3 0%nat 7 1 Hs); [by rewrite Hf|by rewrite Hp].
Defined.
