(* ===== verification/Programs.v ===== *)
(** ppnt-io/bin and ppnt-common/bin: small programs on top of the components.

    [src/ppnt-common/bin/bar.cpp], which logs and prints an error with its cause, and
    [src/ppnt-io/bin/ppio-test.cpp]: [async_main], which talks to a web server over
    TCP, and [https_demo] with [main], which do so over TLS.  They are built from
    the components' models: name resolution and connecting ([Net.v], [Conn.v]), the
    transfers of [Stream.v], the byte buffer of [Binary.v].  A program leaves the
    lines it logs and the events of what it acquired and released.  The lines are those
    of the program and of connecting and the handshake; the line that the ring logs for
    each completion, and the one of [fill_bio_from_tcp] for a full BIO, whose error the
    program reports, are not among them. *)

From stdpp Require Import gmap strings.
From S2P Require Import Task Prelude Err Binary HttpTypes Session Addr Net Conn Stream.

Local Open Scope Z_scope.

(** ** [bar.cpp] *)

Section Bar.
(** The texts of error codes, the path of the file, and the time of each line. *)
Context (message : error_code -> bytes) (file : bytes) (now : nat -> bytes).

(** [Boo::to_string]. *)
Definition Boo_to_string : bytes := bs "boo".

Definition func (level : log_level) (t : nat) (S : bytes) : option (bool * bytes) :=
  log_at Info level (now t) (MkLoc file 20) (bs "Func name: " ++ S).

Definition bar_main (level : log_level) : list (bool * bytes) :=
  let at_line n := MkLoc file n in
  let err := MkLError (EC generic_category 111) (at_line 30) [] None in
  let err2 := MkLError (EC generic_category 22) (at_line 33) (bs "hahaha") None in
  let err2 := with_cause err err2 in
  omap id
    [log_at Info level (now 0) (at_line 26) (bs "dsada: " ++ to_string_int 456);
     log_at Err.Error level (now 1) (at_line 27) (bs "wuwuwu: " ++ Boo_to_string);
     log_at Warn level (now 2) (at_line 36) (bs "err: " ++ format message err2);
     func level 3 (bs "Huaq")].

(** The program prints four lines, the error to the error stream, and the chain of
    causes on lines of their own; at the level [Error] it prints one. *)
Lemma bar_prints :
  fst <$> bar_main initial_level = [false; true; false; false] /\
  bar_main initial_level !! 2%nat = Some (log_impl Warn (now 2) (MkLoc file 36)
    (bs "err: " ++ [10] ++
     bs "[generic:22] " ++ message (EC generic_category 22) ++ bs ": hahaha @ " ++ extract_project_path file ++ bs ":33" ++ [10] ++
     bs "  Caused by: [generic:111] " ++ message (EC generic_category 111) ++ bs " @ " ++ extract_project_path file ++ bs ":30")) /\
  length (bar_main Err.Error) = 1%nat.
Proof.
  split; [reflexivity|]. split; [|reflexivity].
  set (err := MkLError (EC generic_category 111) (MkLoc file 30) [] None).
  change (Some (log_impl Warn (now 2) (MkLoc file 36)
    (bs "err: " ++ format message (with_cause err (MkLError (EC generic_category 22) (MkLoc file 33) (bs "hahaha") None)))) =
    Some (log_impl Warn (now 2) (MkLoc file 36) (bs "err: " ++ [10] ++
      bs "[generic:22] " ++ message (EC generic_category 22) ++ bs ": hahaha @ " ++ extract_project_path file ++ bs ":33" ++ [10] ++
      bs "  Caused by: [generic:111] " ++ message (EC generic_category 111) ++ bs " @ " ++ extract_project_path file ++ bs ":30"))).
  do 3 f_equal. unfold err. cbv -[app extract_project_path]. repeat (rewrite <- ?app_assoc; cbn [app]). reflexivity.
Qed.
End Bar.

(** ** Coroutines of [ppio-test.cpp] *)

Definition bar : Task.body := Return 60.

(** The line it logs, and its body: the value of [bar] is not used. *)
Definition foo : list (log_level * bytes) * Task.body :=
  ([(Info, bs "foo start")], CoAwait bar (fun x => match x with inl _ => Return 20 | inr e => Throw e end)).

(** Run by [block_on], [foo] returns 20 and leaves no frame. *)
Lemma foo_returns io : block_on 6 io (snd foo) = Task.Returned 20 ∅ false.
Proof. reflexivity. Qed.

(** ** [HttpClient] *)

(** The constructor of [client.cpp]: the context and the empty pool; [None] is the
    exception of [value()], which leaves what was acquired. *)
Definition HttpClient_new (ctx_new : option Z) (cipher_ret : Z) : list event * option (Z * list (SessionKey * HostGroup)) :=
  let '(tr, tls_ctx_) := TlsContext_client ctx_new cipher_ret in
  (tr, match tls_ctx_ with Ok c => Some (c, []) | Err _ => None end).

(** A client has the only context it made; a constructor that throws has leaked the one
    it made. *)
Lemma HttpClient_contexts ctx_new cipher_ret live :
  run_events (fst (HttpClient_new ctx_new cipher_ret)) live = Some (match ctx_new with Some c => {[Ctx c]} ∪ live | None => live end) /\
  (forall c, (exists pool, snd (HttpClient_new ctx_new cipher_ret) = Some (c, pool)) <-> ctx_new = Some c /\ cipher_ret = 1).
Proof.
  unfold HttpClient_new, TlsContext_client. destruct ctx_new as [c0|]; [|split; [done|naive_solver]].
  destruct (Z.eqb_spec cipher_ret 1) as [->|Hn]; cbn; (split; [done|]); naive_solver.
Qed.

(** How a coroutine ends, or that it waits for the kernel. *)
Inductive program_end := Returned (code : Z) | Waiting | UndefinedBehaviour.

Record program := MkProgram {
  p_log : list (log_level * bytes);
  p_events : list event;
  p_end : program_end
}.

Section Programs.
(** What the calls of the system give, and the text of an error. *)
Context (getaddrinfo : bytes -> bytes -> Z + list bytes) (errno socket_res connect_res : Z).
Context (inet_ntop : Z -> bytes -> option bytes) (error_text : Prelude.Error -> bytes).

(** What [TcpStream::connect] logs, for an address and for a host. *)
Definition connect_lines (addr : bytes) : list (log_level * bytes) :=
  if socket_res <? 0 then [] else [(Info, bs "connecting to " ++ to_string inet_ntop addr)].

Definition connect_host_lines (host : bytes) (p : Z) : list (log_level * bytes) :=
  match resolve getaddrinfo errno host p with Ok (addr :: _) => connect_lines addr | _ => [] end.

(** ** [async_main] *)

(** The loop over [read] with a buffer of 4096 bytes; the flag is false if it waits. *)
Fixpoint print_loop (fuel : nat) (s : socket) (log : list (log_level * bytes)) : option (list (log_level * bytes) * bool) :=
  match fuel with
  | O => None
  | S fuel =>
      match sock_read (Z.to_nat 4096) s with
      | Pending _ => Some (log, false)
      | Done _ (Err _) => Some (log ++ [(Err.Error, bs "read failed")], true)
      | Done _ (Ok []) => Some (log ++ [(Info, bs "io end")], true)
      | Done s (Ok chunk) => print_loop fuel s (log ++ [(Info, bs "read " ++ chunk)])
      end
  end.

Definition demo_request : bytes := bs "GET / HTTP/1.1" ++ crlf ++ bs "Host: www.baidu.com" ++ crlf ++ crlf.

(** [sock] is the kernel's side of the connection. *)
Definition async_main (fuel : nat) (sock : socket) : option program :=
  match resolve_first getaddrinfo errno (bs "www.baidu.com") 80 with
  | Ok addrs =>
      let log := [(Info, bs "addr: " ++ to_string inet_ntop addrs)] in
      let '(tr, s) := connect_addr socket_res connect_res errno inet_ntop addrs in
      let log := log ++ connect_lines addrs in
      match s with
      | Ok _ =>
          let log := log ++ [(Info, bs "connected: ")] in
          match write_all (length demo_request) demo_request sock with
          | None => None
          | Some (Pending _) => Some (MkProgram log tr Waiting)
          | Some (Done _ (Err e)) => Some (MkProgram (log ++ [(Err.Error, bs "write failed: " ++ error_text e)]) tr (Returned 1))
          | Some (Done sock (Ok _)) =>
              let log := log ++ [(Info, bs "write " ++ to_string_int (zsize demo_request) ++ bs " bytes")] in
              match print_loop fuel sock log with
              | None => None
              | Some (log, true) => Some (MkProgram log tr (Returned 30))
              | Some (log, false) => Some (MkProgram log tr Waiting)
              end
          end
      | Err e => Some (MkProgram (log ++ [(Err.Error, bs "Error: " ++ error_text e)]) tr (Returned 2))
      end
  | Err e => Some (MkProgram [(Err.Error, bs "Resolution failed: " ++ error_text e)] [] (Returned 30))
  end.

(** What the loop prints is what arrives. *)
Lemma print_loop_spec s log :
  exists fuel chunks tail ended,
    print_loop fuel s log = Some (log ++ ((fun c => (Info, bs "read " ++ c)) <$> chunks) ++ tail, ended) /\
    concat chunks = content (incoming s) /\ tail = (if ended then tail else []).
Proof.
  remember (pending (incoming s)) as w eqn:Ew. revert s log Ew. induction w as [w IH] using lt_wf_ind. intros s log ->.
  destruct (incoming s) as [|[[|b c]|e] r] eqn:Ei.
  - exists 1%nat, [], [], false. cbn [print_loop]. unfold sock_read. rewrite Ei. cbn. by rewrite app_nil_r.
  - exists 1%nat, [], [(Info, bs "io end")], true. cbn [print_loop]. unfold sock_read. by rewrite Ei.
  - destruct (sock_read (Z.to_nat 4096) s) as [s' [[|d chunk]|e]|s'] eqn:Er;
      try (unfold sock_read in Er; rewrite Ei in Er; destruct (Z.to_nat 4096) eqn:En; [lia|discriminate Er]).
    destruct (sock_read_ok (Z.to_nat 4096) _ _ _ ltac:(lia) Er) as (Hc & _ & _ & Hp). rewrite Ei in Hc, Hp.
    destruct (IH (pending (incoming s')) ltac:(by apply Hp) s' (log ++ [(Info, bs "read " ++ d :: chunk)]) eq_refl)
      as (fuel & chunks & tail & ended & E & Hcc & Ht).
    exists (S fuel), ((d :: chunk) :: chunks), tail, ended. cbn [print_loop]. rewrite Er, E, <- !app_assoc.
    split; [done|]. split; [|done]. cbn [concat]. by rewrite Hcc.
  - exists 1%nat, [], [(Err.Error, bs "read failed")], true. cbn [print_loop]. unfold sock_read. by rewrite Ei.
Qed.

(** ([async_main], functional): a run that connects and can write its request prints
    all that the server sends before the end of the stream or an error, in order, and
    returns 30 unless it waits for more; the socket stays open. *)
Theorem async_main_prints addr fd sock sock' live :
  resolve_first getaddrinfo errno (bs "www.baidu.com") 80 = Ok addr ->
  snd (connect_addr socket_res connect_res errno inet_ntop addr) = Ok fd ->
  write_all (length demo_request) demo_request sock = Some (Done sock' (Ok tt)) ->
  exists fuel p pre chunks tail,
    async_main fuel sock = Some p /\ (p_end p = Returned 30 \/ p_end p = Waiting /\ tail = []) /\
    p_log p = pre ++ ((fun c => (Info, bs "read " ++ c)) <$> chunks) ++ tail /\
    concat chunks = content (incoming sock) /\ sent sock' = sent sock ++ demo_request /\
    run_events (p_events p) live = Some ({[Fd fd]} ∪ live).
Proof.
  intros Hr Hc Hw. destruct (write_all_spec (length demo_request) demo_request sock) as (r & Ew & H); [done|].
  rewrite Hw in Ew. injection Ew as <-. destruct H as [Hs Hi]. unfold async_main.
  destruct (connect_addr socket_res connect_res errno inet_ntop addr) as [tr s] eqn:Ec. cbn [snd] in Hc. subst s.
  assert (tr = [Acquire (Fd fd)]) as ->.
  { revert Ec. unfold connect_addr. destruct (socket_res <? 0); [done|].
    destruct (map_async_connect_result connect_res) as [x|[ec m c]]; [by intros [= <- <-]|done]. }
  rewrite Hr, Hw. set (log := (((_ ++ _) ++ _) ++ _) : list (log_level * bytes)).
  destruct (print_loop_spec sock' log) as (fuel & chunks & tail & ended & E & Hcc & Ht). exists fuel.
  rewrite Ec, E. destruct ended; eexists _, log, chunks, tail; (split; [reflexivity|]); cbn [p_end p_log p_events]; rewrite <- Hi; eauto 10.
Qed.

(** ** [https_demo] *)

Section Https.
Context {Eng : Type} {HT : TlsEngine Eng}.
(** What BoringSSL gives, the kernel's side of the connection, and the state of the
    engine of a new SSL object. *)
Context (ctx_new : option Z) (cipher_ret : Z) (env : tls_env) (sock : socket) (eng : Eng).

Definition with_handshake (r : Result ()) : tls_env :=
  MkTlsEnv (ssl_new env) (alpn_ret env) (factory env) (spec_new env) (bio_pair env) r.

Inductive connect_end :=
| Connected (t : Conn.TlsStream) (s : TlsStream (Eng := Eng)) (line : bytes)
| NotConnected (e : Prelude.Error)
| Handshaking.

(** [TlsStream::connect] with the handshake on the engine. *)
Definition tls_connect (fuel : nat) (inner : Z) : option (list event * connect_end) :=
  match TlsStream_connect (with_handshake (Ok tt)) inner true with
  | (tr, Err e) => Some (tr, NotConnected e)
  | (tr, Ok t) =>
      match handshake fuel (MkTls sock eng [] [] [] []) with
      | None => None
      | Some (Pending _) => Some (tr, Handshaking)
      | Some (Done _ (Err e)) => Some (fst (TlsStream_connect (with_handshake (Err e)) inner true), NotConnected e)
      | Some (Done s (Ok line)) => Some (tr, Connected t s line)
      end
  end.

(** The loop over [read] with a buffer of 1024 bytes; [fuel] bounds each read, [n] the
    turns.  The flag is false if it waits. *)
Fixpoint read_loop (fuel n : nat) (t : TlsStream) (body : bytes) (log : list (log_level * bytes))
    : option (TlsStream * bytes * list (log_level * bytes) * bool) :=
  match n with
  | O => None
  | S n =>
      match tls_read (Z.to_nat 1024) fuel t with
      | None => None
      | Some (Pending t) => Some (t, body, log, false)
      | Some (Done t (Err e)) => Some (t, body, log ++ [(Err.Error, bs "tls read: " ++ error_text e)], true)
      | Some (Done t (Ok [])) => Some (t, body, log, true)
      | Some (Done t (Ok chunk)) =>
          read_loop fuel n t (write_bytes chunk body) (log ++ [(Info, bs "read " ++ to_string_int (zsize chunk))])
      end
  end.

Definition https_request : bytes :=
  bs "GET /api/all HTTP/1.1" ++ crlf ++ bs "Host: tls.peet.ws" ++ crlf ++ bs "Connection: close" ++ crlf ++ crlf.

(** The program, with the stream as it leaves it. *)
Definition https_demo (fuel n : nat) : option (program * option (TlsStream (Eng := Eng))) :=
  let '(tr, stream) := connect_host socket_res connect_res errno inet_ntop getaddrinfo (bs "tls.peet.ws") 443 in
  let log := connect_host_lines (bs "tls.peet.ws") 443 in
  let '(tr_ctx, ctx) := TlsContext_client ctx_new cipher_ret in
  let tr := tr ++ tr_ctx in
  match stream, ctx with
  | Ok fd, Ok ctx =>
      match tls_connect fuel fd with
      | None => None
      | Some (tr_tls, Handshaking) => Some (MkProgram log (tr ++ tr_tls) Waiting, None)
      | Some (tr_tls, NotConnected e) =>
          Some (MkProgram (log ++ [(Err.Error, bs "TLS connect failed: " ++ error_text e)])
                  (tr ++ tr_tls ++ TlsContext_destroy (Some ctx)) (Returned 10), None)
      | Some (tr_tls, Connected tls s line) =>
          let log := log ++ [(Info, line)] in
          let tr := tr ++ tr_tls in
          let tr_end := tr ++ TlsStream_destroy tls ++ TlsContext_destroy (Some ctx) in
          match tls_write https_request fuel s with
          | None => None
          | Some (Pending s) => Some (MkProgram log tr Waiting, Some s)
          | Some (Done s (Err e)) => Some (MkProgram (log ++ [(Err.Error, bs "write failed")]) tr_end (Returned 30), Some s)
          | Some (Done s (Ok r)) =>
              match read_loop fuel n s [] (log ++ [(Info, bs "write " ++ to_string_int r)]) with
              | None => None
              | Some (s, _, log, false) => Some (MkProgram log tr Waiting, Some s)
              | Some (s, body, log, true) =>
                  Some (MkProgram (log ++ [(Info, bs "msg:" ++ [10] ++ bs " " ++ body)]) tr_end (Returned 50), Some s)
              end
          end
      end
  | _, _ => Some (MkProgram log tr UndefinedBehaviour, None)
  end.

(** [main]: [block_on] gives what the coroutine returns. *)
Definition main (fuel n : nat) : option program :=
  match https_demo fuel n with
  | Some (MkProgram log tr (Returned result), _) =>
      Some (MkProgram (log ++ [(Info, bs "main end with " ++ to_string_int result)]) tr (Returned 0))
  | Some (p, _) => Some p
  | None => None
  end.

(** ** What the programs print *)

Context {HL : TlsEngineLaws Eng}.

Lemma read_loop_more fuel fuel' n n' t body log r :
  (fuel <= fuel')%nat -> (n <= n')%nat -> read_loop fuel n t body log = Some r -> read_loop fuel' n' t body log = Some r.
Proof.
  intros Hf. revert n' t body log. induction n as [|n IH]; intros [|n'] t body log Hn E; [done|done|lia|]. cbn [read_loop] in *.
  destruct (tls_read _ fuel t) as [r0|] eqn:Er; [|done]. rewrite (tls_read_more _ _ _ _ _ Hf Er).
  destruct r0 as [t' [[|c chunk]|e]|t']; try done. apply IH; [lia|done].
Qed.

(** What was read, in the end. *)
Lemma read_loop_spec (t : TlsStream) log :
  tls_ok t -> exists fuel n t' body log' ended,
    read_loop fuel n t (delivered (engine t)) log = Some (t', body, log', ended) /\
    body `prefix_of` delivered (engine t') /\
    (ended = true -> body = delivered (engine t') \/ exists e, last log' = Some (Err.Error, bs "tls read: " ++ error_text e)).
Proof.
  remember (stream_work t) as w eqn:Ew. revert t log Ew. induction w as [w IH] using lt_wf_ind. intros t log -> Hok.
  destruct (tls_read_spec (Z.to_nat 1024) t Hok) as (fuel & r & E & H).
  destruct r as [t' [[|c chunk]|e]|t'].
  - destruct H as (Hok' & Hd & _). rewrite app_nil_r in Hd. exists fuel, 1%nat, t', (delivered (engine t)), log, true.
    cbn [read_loop]. rewrite E, Hd. split; [done|]. split; [done|by left].
  - destruct H as (Hok' & Hd & Hw).
    destruct (IH (stream_work t') ltac:(by apply Hw) t' (log ++ [(Info, bs "read " ++ to_string_int (zsize (c :: chunk)))]) eq_refl Hok')
      as (fuel2 & n & t2 & body & log2 & ended & E2 & H2).
    exists (Nat.max fuel fuel2), (S n), t2, body, log2, ended. split; [|done]. cbn [read_loop].
    rewrite (tls_read_more _ fuel (Nat.max fuel fuel2) _ _ ltac:(lia) E). unfold write_bytes. rewrite <- Hd.
    eapply (read_loop_more fuel2); [| |exact E2]; lia.
  - exists fuel, 1%nat, t', (delivered (engine t)). eexists _, true. cbn [read_loop]. rewrite E. split; [done|].
    split; [done|]. intros _. right. exists e. by rewrite last_snoc.
  - exists fuel, 1%nat, t', (delivered (engine t)), log, false. cbn [read_loop]. rewrite E. done.
Qed.

Lemma with_handshake_fresh r live : env_fresh env live -> env_fresh (with_handshake r) live.
Proof. intros []. by split. Qed.

(** Connecting over TLS. *)
Lemma tls_connect_spec inner live :
  sent sock = [] -> env_fresh env live ->
  exists fuel r, (forall fuel', (fuel <= fuel')%nat -> tls_connect fuel' inner = Some r) /\
  match r with
  | (tr, Connected tls s _) =>
      run_events (tr ++ TlsStream_destroy tls) live = Some live /\ tls_ok s /\ delivered (engine s) = delivered eng
  | (tr, NotConnected _) => run_events tr live = Some (leaked env ∪ live)
  | (_, Handshaking) => True
  end.
Proof.
  intros Hs F. destruct (silent_op_spec SSL_do_handshake (MkTls sock eng [] [] [] [])) as (fuel & r & E & Hr);
    [by left|unfold tls_ok; cbn; by rewrite Hs|].
  exists fuel. unfold tls_connect, handshake.
  pose proof (TlsStream_connect_ok _ inner true live (with_handshake_fresh (Ok tt) live F)) as H.
  destruct (TlsStream_connect (with_handshake (Ok tt)) inner true) as [tr [t|e]] eqn:Ec; [|eexists; split; [done|exact H]].
  destruct r as [s [x|e]|s]; (eexists; split; [intros fuel' Hle; by rewrite (E fuel' Hle)|]); [| |done].
  - destruct H as (_ & _ & H & _). by split; [|apply (Hr s x)].
  - pose proof (TlsStream_connect_ok _ inner true live (with_handshake_fresh (Err e) live F)) as H'.
    unfold TlsStream_connect in *. cbn [ssl_new with_handshake alpn_ret factory spec_new bio_pair handshake_res] in *.
    repeat (case_match; cbn [fst] in *; try done).
Qed.

Lemma connect_host_opened host p tr fd :
  connect_host socket_res connect_res errno inet_ntop getaddrinfo host p = (tr, Ok fd) -> tr = [Acquire (Fd fd)].
Proof.
  unfold connect_host, connect_addr. intros E. destruct (resolve _ _ _ _) as [[|a l]|e]; [done| |done].
  destruct (socket_res <? 0); [done|]. destruct (map_async_connect_result connect_res) as [x|[ec m c]]; [|done].
  by injection E as <- <-.
Qed.

(** What [https_demo] reports when it returns [code]. *)
Definition https_reports (code : Z) (log : list (log_level * bytes)) (final : option (TlsStream (Eng := Eng))) : Prop :=
  code = 10 \/ code = 30 \/
  code = 50 /\ exists t body, final = Some t /\ last log = Some (Info, bs "msg:" ++ [10] ++ bs " " ++ body) /\
    body `prefix_of` delivered (engine t) /\
    (body = delivered (engine t) \/ exists e, (Err.Error, bs "tls read: " ++ error_text e) ∈ log).

(** The events of a run that got its context and its descriptor. *)
Lemma demo_events fd ctx tr live live' :
  Fd fd ∉ live -> Ctx ctx ∉ live ->
  run_events tr ({[Ctx ctx; Fd fd]} ∪ live) = Some (live' ∪ ({[Ctx ctx; Fd fd]} ∪ live)) -> Ctx ctx ∉ live' ->
  run_events (([Acquire (Fd fd)] ++ [Acquire (Ctx ctx)]) ++ tr ++ TlsContext_destroy (Some ctx)) live =
    Some ({[Fd fd]} ∪ live' ∪ live).
Proof.
  intros Hf Hc Hr Hn. cbn [app]. rewrite !run_acquire, run_events_app.
  replace ({[Ctx ctx]} ∪ ({[Fd fd]} ∪ live)) with ({[Ctx ctx; Fd fd]} ∪ live) by set_solver.
  rewrite Hr. cbn [mbind option_bind TlsContext_destroy]. rewrite run_release by set_solver. cbn [run_events]. f_equal. set_solver.
Qed.

Lemma leaked_no_ctx ctx : Ctx ctx ∉ leaked env.
Proof. unfold leaked. repeat case_match; set_solver. Qed.

(** C13 ([https_demo] of [ppio-test.cpp], functional): if the server cannot be
    connected or the TLS context cannot be made, the program uses a result it has not
    looked at.  Otherwise, on a new socket and with a new engine and whatever these do
    then, it ends or waits for the kernel; if it reports a message, the message is the
    text the engine has decrypted, all of it unless a read failed, and an error of the
    last read was logged.  When it ends it has released all that it made but the
    socket and, if it returns 10 because the ALPN list or the specification could not
    be set, the SSL object. *)
Theorem https_demo_reports live :
  sent sock = [] -> delivered eng = [] ->
  match snd (connect_host socket_res connect_res errno inet_ntop getaddrinfo (bs "tls.peet.ws") 443),
        snd (TlsContext_client ctx_new cipher_ret) with
  | Err _, _ | Ok _, Err _ => forall fuel n, exists p, https_demo fuel n = Some (p, None) /\ p_end p = UndefinedBehaviour
  | Ok fd, Ok ctx =>
      Fd fd ∉ live -> Ctx ctx ∉ live -> env_fresh env ({[Ctx ctx; Fd fd]} ∪ live) ->
      exists fuel n p final, https_demo fuel n = Some (p, final) /\
      match p_end p with
      | Returned code =>
          run_events (p_events p) live = Some ({[Fd fd]} ∪ (if code =? 10 then leaked env else ∅) ∪ live) /\
          https_reports code (p_log p) final
      | Waiting => True
      | UndefinedBehaviour => False
      end
  end.
Proof.
  intros Hs Hd.
  destruct (connect_host socket_res connect_res errno inet_ntop getaddrinfo (bs "tls.peet.ws") 443) as [tr [fd|e]] eqn:Eh; cbn [snd].
  2: { intros fuel n. unfold https_demo. rewrite Eh. destruct (TlsContext_client ctx_new cipher_ret). by eexists. }
  destruct (TlsContext_client ctx_new cipher_ret) as [tr_ctx [ctx|e]] eqn:Ectx; cbn [snd].
  2: { intros fuel n. unfold https_demo. rewrite Eh, Ectx. by eexists. }
  assert (tr_ctx = [Acquire (Ctx ctx)]) as -> by (revert Ectx; unfold TlsContext_client; repeat case_match; by intros [= <- <-]).
  intros Hf Hc F. pose proof (connect_host_opened _ _ _ _ Eh) as ->.
  destruct (tls_connect_spec fd _ Hs F) as (f1 & [tr [tls s line|e|]] & H1 & H); unfold https_demo; rewrite Eh, Ectx.
  2: { exists f1, 0%nat. eexists _, None. rewrite H1 by done. split; [done|]. cbn [p_end p_events]. split; [|by left].
       apply demo_events; [done|done|exact H|apply leaked_no_ctx]. }
  2: { exists f1, 0%nat. eexists _, None. rewrite H1 by done. done. }
  destruct H as (Hr & Hok & Hd').
  assert (He : run_events (([Acquire (Fd fd)] ++ [Acquire (Ctx ctx)]) ++ tr ++ TlsStream_destroy tls ++ TlsContext_destroy (Some ctx)) live
    = Some ({[Fd fd]} ∪ ∅ ∪ live)).
  { rewrite (app_assoc tr). apply demo_events; [done|done| |set_solver]. by rewrite (left_id_L ∅ (∪)). }
  rewrite app_assoc in He.
  destruct (silent_op_spec (SSL_write https_request) s) as (f2 & r & H2 & Hw); [right; by eexists|done|].
  destruct r as [s2 [x|e]|s2].
  2, 3: exists (Nat.max f1 f2), 0%nat; rewrite H1 by lia; unfold tls_write; rewrite H2 by lia; eexists _, _; (split; [done|]);
    cbn [p_end p_events]; first [done|split; [exact He|right; by left]].
  destruct (Hw s2 x eq_refl) as [Hok2 Hd2].
  destruct (read_loop_spec s2 ((connect_host_lines (bs "tls.peet.ws") 443 ++ [(Info, line)]) ++ [(Info, bs "write " ++ to_string_int x)]) Hok2)
    as (f3 & n & t & body & log & ended & E3 & Hp & Hend).
  rewrite Hd2, Hd', Hd in E3. exists (Nat.max f1 (Nat.max f2 f3)), n.
  rewrite H1 by lia. unfold tls_write. rewrite H2 by lia. rewrite (read_loop_more f3 (Nat.max f1 (Nat.max f2 f3)) n n _ _ _ _ ltac:(lia) ltac:(done) E3).
  destruct ended; eexists _, _; (split; [done|]); cbn [p_end p_events p_log]; [|done]. split; [exact He|].
  right; right. split; [done|]. exists t, body. split; [done|]. rewrite last_snoc. split; [done|]. split; [done|].
  destruct (Hend eq_refl) as [->|[e He']]; [by left|right]. exists e. apply elem_of_app. left. by eapply last_Some_elem_of.
Qed.

End Https.
End Programs.

Definition demo_env : tls_env := MkTlsEnv (Some 100) 0 false None (Some (300, 301)) (Ok tt).

(** Witness of C13. *)
Lemma https_demo_reports_witness :
  (exists fuel n p final,
    https_demo (fun _ _ => inr [[2; 0]]) 0 5 0 (fun _ _ => None) (fun _ => []) (Some 9) 1 demo_env
      (MkSocket [Ok 1; Ok 100] [Ok [72; 105]; Ok [0]] []) (MkPlain [] [] []) fuel n = Some (p, final) /\
    match p_end p with
    | Returned code => run_events (p_events p) ∅ = Some ({[Fd 5]} ∪ (if code =? 10 then leaked demo_env else ∅) ∪ ∅) /\
        https_reports (fun _ => []) code (p_log p) final
    | Waiting => True
    | UndefinedBehaviour => False
    end) /\
    main (fun _ _ => inr [[2; 0]]) 0 5 0 (fun _ _ => None) (fun _ => []) (Some 9) 1 demo_env
      (MkSocket [Ok 1; Ok 100] [Ok [72; 105]; Ok [0]] []) (MkPlain [] [] []) 4 4 =
    Some (MkProgram [(Info, bs "connecting to " ++ to_string (fun _ _ => None) [2; 0]);
                     (Info, bs "Negotiated Protocol: http/1.1"); (Info, bs "write 63"); (Info, bs "read 2");
                     (Info, bs "msg:" ++ [10] ++ bs " Hi"); (Info, bs "main end with 50")]
            [Acquire (Fd 5); Acquire (Ctx 9); Acquire (Ssl 100); Acquire (Bio 300); Acquire (Bio 301);
             Release (Bio 301); Release (Bio 300); Release (Ssl 100); Release (Ctx 9)] (Returned 0)).
Proof.
  split; [|vm_compute; reflexivity].
  apply (https_demo_reports (fun _ _ => inr [[2; 0]]) 0 5 0 (fun _ _ => None) (fun _ => []) (Some 9) 1 demo_env
    (MkSocket [Ok 1; Ok 100] [Ok [72; 105]; Ok [0]] []) (MkPlain [] [] []) ∅); [done|done|set_solver|set_solver|].
  split; [intros p [= <-]; set_solver|done|intros i n [= <- <-]; set_solver].
Defined.
