(* ===== verification/EventLoop.v ===== *)
(** ppnt-jr: the timer loop and its JavaScript bindings.

    [src/ppnt-jr/src/event_loop.ixx] ([EventLoop]) and
    [src/ppnt-jr/src/builtin/timeout.cpp].  Times are nanoseconds of the steady
    clock.  The heap is any [std::priority_queue], an instance of
    [TimerQueue] that satisfies [TimerQueueLaws]; the JavaScript engine is an
    instance of [Engine], and what a callback may do to the loop is a sequence
    of [api_step]s. *)

From S2P Require Import Prelude.
From stdpp Require Import strings gmap relations sorting.

Local Open Scope Z_scope.

(** ** Keys, the priority queue, the engine *)

Record TimerKey := MkTimer { deadline : Z; timer_id : Z }.

#[export] Instance TimerKey_eq : EqDecision TimerKey.
Proof. solve_decision. Defined.

(** [std::priority_queue<TimerKey, _, std::greater<>>]; keys are compared by
    their deadline only. *)
Class TimerQueue (Q : Type) := {
  qempty : Q;
  qpush : TimerKey -> Q -> Q;
  qtop : Q -> option TimerKey;
  qpop : Q -> Q;
  qelems : Q -> list TimerKey
}.

Class TimerQueueLaws (Q : Type) `{TimerQueue Q} : Prop := {
  qelems_empty : qelems qempty = [];
  qelems_push k q : qelems (qpush k q) ≡ₚ k :: qelems q;
  qtop_None q : qtop q = None -> qelems q = [];
  qtop_Some q k : qtop q = Some k -> qelems q ≡ₚ k :: qelems (qpop q);
  qtop_min q k k' : qtop q = Some k -> k' ∈ qelems q -> deadline k <= deadline k'
}.

(** Functions and values of the engine are handles. *)
Record TimerData := MkData {
  callback : Z;
  args : list Z;
  native_task : Z;
  is_native : bool;
  is_interval : bool;
  interval_ms : Z
}.

(** What the loop runs for a timer. *)
Inductive call := NativeCall (task : Z) | JsCall (callback : Z) (args : list Z).

Definition call_of (data : TimerData) : call :=
  if is_native data then NativeCall (native_task data) else JsCall (callback data) (args data).

Record EventLoop (Q : Type) := MkLoop {
  next_id_ : Z;
  timer_heap_ : Q;
  timer_map_ : gmap Z TimerData
}.
Arguments MkLoop {Q}.
Arguments next_id_ {Q}.
Arguments timer_heap_ {Q}.
Arguments timer_map_ {Q}.

(** The engine with the clock: [None] is undefined behaviour inside a callback, as the
    signed overflow of [next_id_] or of a deadline.  [invoke] is a call with its error
    handling and the microtasks after it. *)
Class Engine (J Q : Type) := {
  clock : J -> Z;
  checkpoint : J -> EventLoop Q -> option (J * EventLoop Q);
  invoke : J -> call -> EventLoop Q -> option (J * EventLoop Q);
  sleep_for : Z -> J -> J
}.

(** [time_point + milliseconds] in 64-bit nanoseconds; [None] is an overflow. *)
Definition fits_i64 (z : Z) : bool := (- 2 ^ 63 <=? z) && (z <? 2 ^ 63).

Definition add_ms (t ms : Z) : option Z :=
  if fits_i64 (ms * 1000000) && fits_i64 (t + ms * 1000000) then Some (t + ms * 1000000) else None.

Section Loop.
Context {J Q : Type} `{Engine J Q, TimerQueue Q}.
Implicit Types (l : EventLoop Q) (j : J).

(** ** Operations *)

Definition EventLoop_new : EventLoop Q := MkLoop 1 qempty ∅.

Definition clear_all l : EventLoop Q := MkLoop (next_id_ l) qempty ∅.

Definition cancel (id : Z) l : EventLoop Q := MkLoop (next_id_ l) (timer_heap_ l) (delete id (timer_map_ l)).

Definition normalize_delay (delay_ms : Z) : Z := Z.max 0 delay_ms.

(** [now] is the reading of the clock; [None] is a signed overflow. *)
Definition schedule_js (now : Z) (cb delay_ms : Z) (interval : bool) (argv : list Z) l : option (Z * EventLoop Q) :=
  let id := next_id_ l in
  if id =? INT_MAX then None else
  let normalized := normalize_delay delay_ms in
  d ← add_ms now normalized;
  let data := MkData cb argv 0 false interval (if interval then Z.max 1 normalized else normalized) in
  Some (id, MkLoop (id + 1) (qpush (MkTimer d id) (timer_heap_ l)) (<[id := data]> (timer_map_ l))).

Definition schedule_task (now : Z) (task delay_ms : Z) (interval : bool) l : option (Z * EventLoop Q) :=
  let id := next_id_ l in
  if id =? INT_MAX then None else
  let normalized := normalize_delay delay_ms in
  d ← add_ms now normalized;
  let data := MkData 0 [] task true interval (if interval then Z.max 1 normalized else normalized) in
  Some (id, MkLoop (id + 1) (qpush (MkTimer d id) (timer_heap_ l)) (<[id := data]> (timer_map_ l))).

Definition set_timeout (now cb delay_ms : Z) (argv : list Z) l := schedule_js now cb delay_ms false argv l.
Definition set_interval (now cb ms : Z) (argv : list Z) l := schedule_js now cb (Z.max 1 ms) true argv l.
Definition set_timeout_task (now task delay_ms : Z) l := schedule_task now task delay_ms false l.
Definition set_interval_task (now task ms : Z) l := schedule_task now task (Z.max 1 ms) true l.

Definition has_pending l : bool := negb (bool_decide (timer_map_ l = ∅)).

(** One iteration of the loop in [tick]. *)
Inductive iteration :=
| Stop (pending : bool)
| Continue (j : J) (l : EventLoop Q) (fired : option TimerKey)
| Overflow.

Definition tick_one (now : Z) j l : iteration :=
  match qtop (timer_heap_ l) with
  | None => Stop (has_pending l)
  | Some key =>
      if now <? deadline key then Stop true else
      let l := MkLoop (next_id_ l) (qpop (timer_heap_ l)) (timer_map_ l) in
      match timer_map_ l !! timer_id key with
      | None => Continue j l None
      | Some data =>
          let l := if is_interval data then l else cancel (timer_id key) l in
          match invoke j (call_of data) l with
          | None => Overflow
          | Some (j, l) =>
              if is_interval data then
                match timer_map_ l !! timer_id key with
                | None => Continue j l (Some key)
                | Some refresh =>
                    match add_ms (deadline key) (interval_ms refresh) with
                    | None => Overflow
                    | Some d =>
                        Continue j (MkLoop (next_id_ l) (qpush (MkTimer d (timer_id key)) (timer_heap_ l)) (timer_map_ l))
                          (Some key)
                    end
                end
              else Continue j l (Some key)
          end
      end
  end.

(** How a run ends; [fired] are the keys of the timers run, in order. *)
Inductive run (A : Type) :=
| Finished (a : A) (fired : list TimerKey)
| Overflowed
| OutOfFuel.
#[global] Arguments Finished {A}.
#[global] Arguments Overflowed {A}.
#[global] Arguments OutOfFuel {A}.

Fixpoint tick_loop (fuel : nat) (now : Z) j l (fired : list TimerKey) : run (bool * J * EventLoop Q) :=
  match fuel with
  | O => OutOfFuel
  | S fuel =>
      match tick_one now j l with
      | Stop pending => Finished (pending, j, l) fired
      | Overflow => Overflowed
      | Continue j l None => tick_loop fuel now j l fired
      | Continue j l (Some k) => tick_loop fuel now j l (fired ++ [k])
      end
  end.

Definition tick (fuel : nat) j l : run (bool * J * EventLoop Q) :=
  match checkpoint j l with
  | None => Overflowed
  | Some (j, l) => tick_loop fuel (clock j) j l []
  end.

Definition wait_for_next j l : J :=
  match qtop (timer_heap_ l) with
  | None => j
  | Some key => let now := clock j in if now <? deadline key then sleep_for (deadline key - now) j else j
  end.

(** [rounds] bounds the number of ticks, [fuel] each of them. *)
Fixpoint run_until_empty (rounds fuel : nat) j l (fired : list TimerKey) : run (J * EventLoop Q) :=
  match rounds with
  | O => OutOfFuel
  | S rounds =>
      match tick fuel j l with
      | Finished (true, j, l) tr => run_until_empty rounds fuel (wait_for_next j l) l (fired ++ tr)
      | Finished (false, j, l) tr => Finished (j, l) (fired ++ tr)
      | Overflowed => Overflowed
      | OutOfFuel => OutOfFuel
      end
  end.

(** An iteration that goes on, and one whose callback fails. *)
Definition turn (now : Z) (x y : J * EventLoop Q) : Prop := exists fired, tick_one now x.1 x.2 = Continue y.1 y.2 fired.

Definition call_overflows (now : Z) (x : J * EventLoop Q) : Prop :=
  tick_one now x.1 x.2 = Overflow /\ exists key data,
    qtop (timer_heap_ x.2) = Some key /\ timer_map_ x.2 !! timer_id key = Some data /\
    invoke x.1 (call_of data) (MkLoop (next_id_ x.2) (qpop (timer_heap_ x.2))
      (if is_interval data then timer_map_ x.2 else delete (timer_id key) (timer_map_ x.2))) = None.

(** What code run by the engine may do to the loop, the clock reading [lo] or
    more. *)
Inductive api_step (lo : Z) : EventLoop Q -> EventLoop Q -> Prop :=
| api_set_timeout now cb ms argv id l l' :
    lo <= now -> set_timeout now cb ms argv l = Some (id, l') -> api_step lo l l'
| api_set_interval now cb ms argv id l l' :
    lo <= now -> set_interval now cb ms argv l = Some (id, l') -> api_step lo l l'
| api_set_timeout_task now task ms id l l' :
    lo <= now -> set_timeout_task now task ms l = Some (id, l') -> api_step lo l l'
| api_set_interval_task now task ms id l l' :
    lo <= now -> set_interval_task now task ms l = Some (id, l') -> api_step lo l l'
| api_cancel id l : api_step lo l (cancel id l)
| api_clear l : api_step lo l (clear_all l).

End Loop.

(** ** The JavaScript functions

    [V] are the values of the engine, with the queries of its interface. *)

Section Bindings.
Context {J Q V : Type} `{Engine J Q, TimerQueue Q}.
Context (function_of : V -> option Z) (is_number : V -> bool) (integer_value int32_value : V -> option Z).
Context (handle : V -> Z).

Inductive js_result := Threw (message : bytes) | Returned (id : option Z).

Definition parse_delay (info : list V) (index : nat) : Z :=
  match info !! index with
  | None => 0
  | Some v =>
      if negb (is_number v) then 0 else
      match integer_value v with
      | None => 0
      | Some value =>
          if value >? 2 ^ 63 - 1 then 2 ^ 63 - 1 else if value <? - 2 ^ 63 then - 2 ^ 63 else value
      end
  end.

Definition throw_type_error (message : bytes) : js_result := Threw message.

Definition js_schedule (name : string) (schedule : Z -> Z -> list Z -> EventLoop Q -> option (Z * EventLoop Q))
    (event_loop : option (EventLoop Q)) (info : list V) : option (js_result * option (EventLoop Q)) :=
  match event_loop with
  | None => Some (throw_type_error (bs "EventLoop is not available"), None)
  | Some l =>
      match v ← head info; function_of v with
      | None => Some (throw_type_error (bs name ++ bs " callback must be a function"), Some l)
      | Some cb =>
          '(id, l') ← schedule cb (parse_delay info 1) (handle <$> drop 2 info) l;
          Some (Returned (Some id), Some l')
      end
  end.

Definition js_set_timeout (now : Z) := js_schedule "setTimeout" (set_timeout now).
Definition js_set_interval (now : Z) := js_schedule "setInterval" (set_interval now).

Definition js_clear_timer (event_loop : option (EventLoop Q)) (info : list V) : option (EventLoop Q) :=
  match event_loop, info with
  | Some l, v :: _ => match int32_value v with None => Some l | Some id => Some (cancel id l) end
  | _, _ => event_loop
  end.

End Bindings.

(** ** The registered timers

    [hs] are keys taken out of the heap whose timer is still running. *)

Record timers_ok (ks : list TimerKey) (m : gmap Z TimerData) (next : Z) : Prop := TimersOk {
  to_nodup : NoDup (timer_id <$> ks);
  to_next : forall k, k ∈ ks -> timer_id k < next;
  to_map : forall id data, m !! id = Some data -> exists k, k ∈ ks /\ timer_id k = id /\
    (is_interval data = true -> 1 <= interval_ms data /\ interval_ms data * 1000000 <= deadline k)
}.

#[export] Instance timers_ok_perm : Proper ((≡ₚ) ==> (=) ==> (=) ==> iff) timers_ok.
Proof.
  assert (Hd : forall ks ks', ks ≡ₚ ks' -> forall m n, timers_ok ks m n -> timers_ok ks' m n).
  { intros ks ks' E m n [H1 H2 H3]. split.
    - by rewrite <- E.
    - intros k. rewrite <- E. apply H2.
    - intros id data Hl. destruct (H3 _ _ Hl) as (k & Hk & ?). exists k. by rewrite <- E. }
  intros ks ks' E m ? <- n ? <-. split; apply Hd; [done|by symmetry].
Qed.

Lemma timers_ok_sub ks m m' n : m' ⊆ m -> timers_ok ks m n -> timers_ok ks m' n.
Proof. intros Hm [H1 H2 H3]. split; [done|done|]. intros id data Hl. eapply H3, lookup_weaken; done. Qed.

Lemma timers_ok_drop k ks m n : m !! timer_id k = None -> timers_ok (k :: ks) m n -> timers_ok ks m n.
Proof.
  intros Hk [H1 H2 H3]. split.
  - by inversion H1.
  - intros k' Hk'. apply H2. by right.
  - intros id data Hl. destruct (H3 _ _ Hl) as (k' & [->|Hk']%elem_of_cons & E & ?); [congruence|eauto].
Qed.

Lemma timers_ok_add ks m n d data :
  (is_interval data = true -> 1 <= interval_ms data /\ interval_ms data * 1000000 <= d) ->
  timers_ok ks m n -> timers_ok (MkTimer d n :: ks) (<[n := data]> m) (n + 1).
Proof.
  intros Hi [H1 H2 H3]. split.
  - cbn. constructor; [|done]. intros (k & Ek & Hk)%list_elem_of_fmap. apply H2 in Hk. lia.
  - intros k [->|Hk]%elem_of_cons; cbn; [lia|]. apply H2 in Hk. lia.
  - intros id data' [[<- <-]|[Hn Hl]]%lookup_insert_Some; [by eexists; split; [left|]|].
    destruct (H3 _ _ Hl) as (k & Hk & ?). exists k. split; [by right|done].
Qed.

(** A running interval gets its next deadline. *)
Lemma timers_ok_refresh k ks m n d :
  deadline k <= d -> timers_ok (k :: ks) m n -> timers_ok (MkTimer d (timer_id k) :: ks) m n.
Proof.
  intros Hd [H1 H2 H3]. split.
  - done.
  - intros k' [->|Hk']%elem_of_cons; [apply (H2 k); by left|apply H2; by right].
  - intros id data Hl. destruct (H3 _ _ Hl) as (k' & [->|Hk']%elem_of_cons & E & Hi).
    + exists (MkTimer d (timer_id k)). split; [by left|]. split; [done|]. cbn. intros Hb.
      destruct (Hi Hb). split; lia.
    + exists k'. split; [by right|done].
Qed.

(** ** One tick *)

(** How often a key can still come up in a tick that read [now]. *)
Definition cost (now : Z) (k : TimerKey) : nat :=
  if now <? deadline k then 0 else S (Z.to_nat ((now - deadline k) / 1000000)).

Definition due (now : Z) (ks : list TimerKey) : nat := sum_list_with (cost now) ks.

#[export] Instance due_perm now : Proper ((≡ₚ) ==> (=)) (due now).
Proof. unfold due. intros a b E. induction E; simpl; lia. Qed.

Lemma cost_later now k : now < deadline k -> cost now k = 0%nat.
Proof. intros Hk. unfold cost. destruct (Z.ltb_spec now (deadline k)); [done|lia]. Qed.

Lemma cost_next now d id ms :
  d <= now -> 1 <= ms -> (cost now (MkTimer (d + ms * 1000000) id) < cost now (MkTimer d id))%nat.
Proof.
  intros Hd Hms. unfold cost; cbn [deadline].
  destruct (Z.ltb_spec now d); [lia|]. destruct (Z.ltb_spec now (d + ms * 1000000)); [lia|]. zdiv_lia.
Qed.

Section Tick.
Context {J Q : Type} {HE : Engine J Q} {HQ : TimerQueue Q} {HL : TimerQueueLaws Q}.
Implicit Types (l : EventLoop Q) (j : J).

Definition loop_ok (hs : list TimerKey) l : Prop :=
  timers_ok (hs ++ qelems (timer_heap_ l)) (timer_map_ l) (next_id_ l).

Lemma loop_ok_new : loop_ok [] (EventLoop_new (Q := Q)).
Proof.
  unfold loop_ok. cbn. rewrite qelems_empty. split.
  - constructor.
  - intros k Hk. by apply not_elem_of_nil in Hk.
  - intros id data Hl. by rewrite lookup_empty in Hl.
Qed.

Lemma add_ms_Some t ms d : add_ms t ms = Some d -> d = t + ms * 1000000.
Proof. unfold add_ms. case_match; [|done]. by intros [= <-]. Qed.

(** What a step does: it drops timers, or adds the next one. *)
Lemma api_step_view lo l l' :
  api_step lo l l' ->
  (next_id_ l' = next_id_ l /\ timer_map_ l' ⊆ timer_map_ l /\
     (qelems (timer_heap_ l') = qelems (timer_heap_ l) \/ (qelems (timer_heap_ l') = [] /\ timer_map_ l' = ∅))) \/
  exists d data, lo <= d /\ next_id_ l' = next_id_ l + 1 /\
    qelems (timer_heap_ l') ≡ₚ MkTimer d (next_id_ l) :: qelems (timer_heap_ l) /\
    timer_map_ l' = <[next_id_ l := data]> (timer_map_ l) /\
    (0 <= lo -> is_interval data = true -> 1 <= interval_ms data /\ interval_ms data * 1000000 <= d).
Proof.
  intros Hs. destruct Hs as [now cb ms argv id l l' Hlo E|now cb ms argv id l l' Hlo E|now t ms id l l' Hlo E
    |now t ms id l l' Hlo E|id l|l].
  5: { left. cbn. split; [done|]. split; [apply delete_subseteq|by left]. }
  5: { left. cbn. split; [done|]. split; [apply map_empty_subseteq|]. right. by rewrite qelems_empty. }
  all: right; unfold set_timeout, set_interval, set_timeout_task, set_interval_task, schedule_js, schedule_task,
    normalize_delay in E;
    destruct (next_id_ l =? INT_MAX); [done|]; destruct (add_ms _ _) as [d|] eqn:Ed in E; [|done];
    apply add_ms_Some in Ed; cbn in E; injection E as <- <-;
    eexists _, _; (split; [|split; [done|split; [apply qelems_push|split; [done|]]]]); cbn; lia.
Qed.

Lemma api_step_ok lo hs l l' : 0 <= lo -> api_step lo l l' -> loop_ok hs l -> loop_ok hs l'.
Proof.
  unfold loop_ok. intros Hlo Hs Hok.
  destruct (api_step_view _ _ _ Hs) as [(-> & Hm & [->|[-> Hm']])|(d & data & Hd & -> & -> & -> & Hi)].
  - by eapply timers_ok_sub.
  - rewrite Hm'. destruct Hok as [H1 H2 _]. split.
    + rewrite app_nil_r. rewrite fmap_app in H1. by apply NoDup_app in H1 as [? _].
    + intros k Hk. rewrite app_nil_r in Hk. apply H2, elem_of_app. by left.
    + intros id data Hl. by rewrite lookup_empty in Hl.
  - rewrite <- Permutation_middle. apply timers_ok_add; auto.
Qed.

Lemma api_step_elems lo l l' k :
  api_step lo l l' -> k ∈ qelems (timer_heap_ l') -> k ∈ qelems (timer_heap_ l) \/ lo <= deadline k.
Proof.
  intros Hs Hk. destruct (api_step_view _ _ _ Hs) as [(_ & _ & [E|[E _]])|(d & data & Hd & _ & E & _)];
    rewrite E in Hk; [by left|by apply not_elem_of_nil in Hk|].
  apply elem_of_cons in Hk as [->|?]; [by right|by left].
Qed.

Lemma api_step_due now l l' :
  api_step (now + 1) l l' -> (due now (qelems (timer_heap_ l')) <= due now (qelems (timer_heap_ l)))%nat.
Proof.
  intros Hs. destruct (api_step_view _ _ _ Hs) as [(_ & _ & [E|[E _]])|(d & data & Hd & _ & E & _)];
    rewrite E; [done|unfold due; simpl; lia|].
  unfold due. cbn [sum_list_with]. rewrite cost_later; [done|cbn; lia].
Qed.

Lemma api_ok lo hs l l' : 0 <= lo -> rtc (api_step lo) l l' -> loop_ok hs l -> loop_ok hs l'.
Proof. intros Hlo. induction 1; eauto using api_step_ok. Qed.

Lemma api_elems lo l l' k :
  rtc (api_step lo) l l' -> k ∈ qelems (timer_heap_ l') -> k ∈ qelems (timer_heap_ l) \/ lo <= deadline k.
Proof.
  induction 1 as [|x y z Hxy _ IH]; [by left|]. intros Hk. destruct (IH Hk) as [Hy|]; [|by right].
  by eapply api_step_elems.
Qed.

Lemma api_due now l l' :
  rtc (api_step (now + 1)) l l' -> (due now (qelems (timer_heap_ l')) <= due now (qelems (timer_heap_ l)))%nat.
Proof. induction 1 as [|x y z Hxy _ IH]; [done|]. apply api_step_due in Hxy. lia. Qed.

(** A registered timer keeps its data. *)
Lemma api_map_old lo l l' id data :
  rtc (api_step lo) l l' -> id < next_id_ l -> timer_map_ l' !! id = Some data -> timer_map_ l !! id = Some data.
Proof.
  induction 1 as [|x y z Hxy _ IH]; [done|]. intros Hn Hl.
  destruct (api_step_view _ _ _ Hxy) as [(En & Hm & _)|(d & dt & _ & En & _ & Em & _)].
  - eapply lookup_weaken; [|exact Hm]. apply IH; [lia|done].
  - rewrite Em in IH. rewrite lookup_insert_ne in IH by lia. apply IH; [lia|done].
Qed.

Lemma add_ms_fits t ms : 0 <= t < 2 ^ 62 -> 1 <= ms -> ms * 1000000 <= t -> add_ms t ms = Some (t + ms * 1000000).
Proof.
  intros Ht Hms Hle. unfold add_ms, fits_i64. change (2 ^ 62) with 4611686018427387904 in Ht.
  change (2 ^ 63) with 9223372036854775808.
  rewrite (proj2 (Z.leb_le _ (ms * 1000000))), (proj2 (Z.leb_le _ (t + ms * 1000000))) by lia.
  rewrite (proj2 (Z.ltb_lt (ms * 1000000) _)), (proj2 (Z.ltb_lt (t + ms * 1000000) _)) by lia. done.
Qed.

Lemma timers_ok_head k ks m n data :
  timers_ok (k :: ks) m n -> m !! timer_id k = Some data -> is_interval data = true ->
  1 <= interval_ms data /\ interval_ms data * 1000000 <= deadline k.
Proof.
  intros [H1 H2 H3] Hl Hi. destruct (H3 _ _ Hl) as (k' & [->|Hk']%elem_of_cons & E & Hb); [by apply Hb|].
  inversion_clear H1 as [|? ? Hn _]. destruct Hn. rewrite <- E. by apply list_elem_of_fmap_2.
Qed.

(** *** An iteration of a tick that read [now]

    Code run by the tick does not read the clock before [now].  [rank] bounds the calls
    that may still read it at [now]. *)
Context (now : Z) (Hnow : 0 <= now < 2 ^ 62) (rank : J -> nat).

Definition call_progress j l j' l' : Prop :=
  (rank j' < rank j)%nat \/ (rank j' = rank j /\ rtc (api_step (now + 1)) l l').

Hypothesis invoke_law : forall j c l j' l', now <= clock j -> invoke j c l = Some (j', l') ->
  now <= clock j' /\ rtc (api_step now) l l' /\ call_progress j l j' l'.

Record iteration_ok j l (key : TimerKey) j' l' : Prop := IterationOk {
  io_ok : loop_ok [] l';
  io_top : key ∈ qelems (timer_heap_ l) /\ deadline key <= now;
  io_later : forall k, k ∈ qelems (timer_heap_ l') -> deadline key <= deadline k;
  io_due : (rank j' < rank j)%nat \/
    (rank j' = rank j /\ (due now (qelems (timer_heap_ l')) < due now (qelems (timer_heap_ l)))%nat)
}.

Lemma due_top l key :
  qtop (timer_heap_ l) = Some key -> deadline key <= now ->
  due now (qelems (timer_heap_ l)) = (cost now key + due now (qelems (qpop (timer_heap_ l))))%nat /\ (0 < cost now key)%nat.
Proof.
  intros Ht Hd. rewrite (qtop_Some _ _ Ht). split; [done|]. unfold cost.
  destruct (Z.ltb_spec now (deadline key)); lia.
Qed.

(** An iteration whose code ran on the loop without its top key. *)
Lemma iteration_api j l key m j' l' :
  qtop (timer_heap_ l) = Some key -> deadline key <= now ->
  rtc (api_step now) (MkLoop (next_id_ l) (qpop (timer_heap_ l)) m) l' ->
  call_progress j (MkLoop (next_id_ l) (qpop (timer_heap_ l)) m) j' l' ->
  loop_ok [] l' -> iteration_ok j l key j' l'.
Proof.
  intros Ht Hd Hr Hp Hok. destruct (due_top _ _ Ht Hd) as [E Hc]. split.
  - done.
  - split; [|done]. rewrite (qtop_Some _ _ Ht). by left.
  - intros k Hk. destruct (api_elems _ _ _ _ Hr Hk) as [Hin|]; [|lia]. cbn in Hin.
    eapply qtop_min; [done|]. rewrite (qtop_Some _ _ Ht). by right.
  - destruct Hp as [Hp|[Hp Hr']]; [by left|right]. split; [done|]. apply api_due in Hr'. cbn in Hr'. lia.
Qed.

Lemma iteration_refresh j l key m j' l' ms :
  qtop (timer_heap_ l) = Some key -> deadline key <= now -> 1 <= ms ->
  rtc (api_step now) (MkLoop (next_id_ l) (qpop (timer_heap_ l)) m) l' ->
  call_progress j (MkLoop (next_id_ l) (qpop (timer_heap_ l)) m) j' l' ->
  loop_ok [key] l' ->
  iteration_ok j l key j'
    (MkLoop (next_id_ l') (qpush (MkTimer (deadline key + ms * 1000000) (timer_id key)) (timer_heap_ l')) (timer_map_ l')).
Proof.
  intros Ht Hd Hms Hr Hp Hok. destruct (due_top _ _ Ht Hd) as [E Hc].
  split; unfold loop_ok; cbn [timer_heap_ timer_map_ next_id_ app].
  - rewrite qelems_push. apply timers_ok_refresh; [lia|]. exact Hok.
  - split; [|done]. rewrite (qtop_Some _ _ Ht). by left.
  - intros k. rewrite qelems_push. intros [->|Hk]%elem_of_cons; [cbn; lia|].
    destruct (api_elems _ _ _ _ Hr Hk) as [Hin|]; [|lia].
    eapply qtop_min; [done|]. rewrite (qtop_Some _ _ Ht). by right.
  - destruct Hp as [Hp|[Hp Hr']]; [by left|right]. split; [done|].
    rewrite qelems_push. unfold due at 1. cbn [sum_list_with]. fold (due now (qelems (timer_heap_ l'))).
    apply api_due in Hr'. cbn in Hr'. pose proof (cost_next now (deadline key) (timer_id key) ms Hd Hms).
    destruct key. cbn in *. lia.
Qed.

Lemma overflow_at j l key data :
  qtop (timer_heap_ l) = Some key -> deadline key <= now -> timer_map_ l !! timer_id key = Some data ->
  invoke j (call_of data) (MkLoop (next_id_ l) (qpop (timer_heap_ l))
    (if is_interval data then timer_map_ l else delete (timer_id key) (timer_map_ l))) = None -> call_overflows now (j, l).
Proof.
  intros Ht Hd El Ev. split; cbn [fst snd]; [|by exists key, data]. unfold tick_one, cancel.
  rewrite Ht, (proj2 (Z.ltb_ge _ _) Hd). cbn [timer_map_ timer_heap_ next_id_]. rewrite El.
  by destruct (is_interval data); rewrite Ev.
Qed.

Lemma tick_one_spec j l :
  loop_ok [] l -> now <= clock j ->
  match tick_one now j l with
  | Stop pending =>
      (forall k, k ∈ qelems (timer_heap_ l) -> now < deadline k) /\
      pending = negb (bool_decide (qelems (timer_heap_ l) = [])) /\ (pending = false -> timer_map_ l = ∅)
  | Continue j' l' fired =>
      now <= clock j' /\ exists key, iteration_ok j l key j' l' /\ (fired = None \/ fired = Some key)
  | Overflow => call_overflows now (j, l)
  end.
Proof.
  intros Hok Hj. unfold tick_one. destruct (qtop (timer_heap_ l)) as [key|] eqn:Ht.
  2: { rewrite (qtop_None _ Ht). split; [intros k Hk; by apply not_elem_of_nil in Hk|].
    assert (E : timer_map_ l = ∅).
    { apply map_empty. intros id. destruct (timer_map_ l !! id) as [data|] eqn:El; [|done].
      destruct (to_map _ _ _ Hok _ _ El) as (k & Hk & _). cbn in Hk. rewrite (qtop_None _ Ht) in Hk.
      by apply not_elem_of_nil in Hk. }
    unfold has_pending. by rewrite !bool_decide_true. }
  pose proof (qtop_Some _ _ Ht) as Ep.
  destruct (Z.ltb_spec now (deadline key)) as [Hlt|Hd].
  { split; [intros k Hk; pose proof (qtop_min _ _ _ Ht Hk); lia|]. split; [|done].
    rewrite bool_decide_false; [done|]. intros E; rewrite E in Ep; by apply Permutation_nil_l in Ep. }
  assert (Hk : timers_ok (key :: qelems (qpop (timer_heap_ l))) (timer_map_ l) (next_id_ l))
    by (rewrite <- Ep; exact Hok).
  cbn [timer_map_]. destruct (timer_map_ l !! timer_id key) as [data|] eqn:El.
  2: { split; [done|]. exists key. split; [|by left].
    eapply iteration_api; [done|done|apply rtc_refl|right; split; [done|apply rtc_refl]|]. by eapply timers_ok_drop. }
  destruct (is_interval data) eqn:Ei.
  - match goal with |- context [invoke j ?c ?l1] => destruct (invoke j c l1) as [[j' l']|] eqn:Ev end.
    2: { eapply overflow_at; [done|done|done|by rewrite Ei]. }
    destruct (invoke_law _ _ _ _ _ Hj Ev) as (Hj' & Hr & Hp).
    assert (Hok' : loop_ok [key] l') by (eapply (api_ok now); [lia|exact Hr|exact Hk]).
    destruct (timer_map_ l' !! timer_id key) as [r|] eqn:Er.
    2: { split; [done|]. exists key. split; [|by right]. eapply iteration_api; [done|done|exact Hr|exact Hp|]. by eapply timers_ok_drop. }
    assert (r = data) as ->.
    { apply (api_map_old _ _ _ _ _ Hr) in Er; [|apply (to_next _ _ _ Hk); by left]. cbn in Er. congruence. }
    destruct (timers_ok_head _ _ _ _ _ Hok' Er Ei) as [Hr1 Hr2].
    rewrite add_ms_fits by lia. split; [done|]. exists key. split; [|by right]. by eapply iteration_refresh.
  - unfold cancel at 1. cbn [next_id_ timer_heap_ timer_map_].
    match goal with |- context [invoke j ?c ?l1] => destruct (invoke j c l1) as [[j' l']|] eqn:Ev end.
    2: { eapply overflow_at; [done|done|done|by rewrite Ei]. }
    destruct (invoke_law _ _ _ _ _ Hj Ev) as (Hj' & Hr & Hp).
    split; [done|]. exists key. split; [|by right].
    eapply iteration_api; [done|done|exact Hr|exact Hp|]. eapply (api_ok now); [lia|exact Hr|].
    unfold loop_ok. cbn [timer_map_ timer_heap_ next_id_ app]. eapply timers_ok_drop; [apply lookup_delete_eq|].
    eapply timers_ok_sub; [apply delete_subseteq|done].
Qed.

(** What a finished tick leaves and which timers it ran. *)
Record tick_done l' (pending : bool) (tr : list TimerKey) : Prop := TickDone {
  td_ok : loop_ok [] l';
  td_later : forall k, k ∈ qelems (timer_heap_ l') -> now < deadline k;
  td_pending : pending = negb (bool_decide (qelems (timer_heap_ l') = []));
  td_empty : pending = false -> timer_map_ l' = ∅;
  td_sorted : StronglySorted (fun a b => deadline a <= deadline b) tr;
  td_due : Forall (fun k => deadline k <= now) tr
}.

(** How the loop of a tick ends. *)
Definition loop_result (b : Z) j l (fired : list TimerKey) (r : run (bool * J * EventLoop Q)) : Prop :=
  match r with
  | Finished (pending, j', l') tr =>
      exists fresh, tr = fired ++ fresh /\ tick_done l' pending fresh /\ now <= clock j' /\ Forall (fun k => b <= deadline k) fresh
  | Overflowed => exists x, rtc (turn now) (j, l) x /\ call_overflows now x
  | OutOfFuel => False
  end.

(** The result of the rest of the loop is the result of the loop. *)
Lemma loop_result_turn b j l fired f key j' l' r :
  tick_one now j l = Continue j' l' f -> f = None \/ f = Some key -> b <= deadline key -> deadline key <= now ->
  loop_result (deadline key) j' l' (fired ++ option_list f) r -> loop_result b j l fired r.
Proof.
  intros E Hf Hb Hd. destruct r as [[[p j2] l2] tr| |]; cbn [loop_result]; [| |done].
  - intros (fresh & -> & [D1 D2 D3 D4 D5 D6] & Hj & Ht). exists (option_list f ++ fresh). rewrite app_assoc.
    assert (Hb' : Forall (fun k => b <= deadline k) fresh) by (eapply Forall_impl; [exact Ht|cbn; lia]).
    split; [done|]. destruct Hf as [->| ->]; cbn [option_list app]; (split; [|split; [done|by repeat constructor]]);
      split; try done; by constructor.
  - intros (x & Hr & Hx). exists x. split; [|done]. eapply rtc_l; [|exact Hr]. by exists f.
Qed.

Lemma tick_loop_step fuel j l fired j' l' f :
  tick_one now j l = Continue j' l' f -> tick_loop (S fuel) now j l fired = tick_loop fuel now j' l' (fired ++ option_list f).
Proof. intros E. cbn [tick_loop]. rewrite E. destruct f; [done|]. cbn. by rewrite app_nil_r. Qed.

Lemma tick_loop_spec b j l fired :
  loop_ok [] l -> now <= clock j -> (forall k, k ∈ qelems (timer_heap_ l) -> b <= deadline k) ->
  exists fuel r, (forall fuel', (fuel <= fuel')%nat -> tick_loop fuel' now j l fired = r) /\ loop_result b j l fired r.
Proof.
  remember (rank j) as rk eqn:Erk. revert b j l fired Erk. induction rk as [rk IHr] using lt_wf_ind.
  intros b j l fired -> Hok Hj. remember (due now (qelems (timer_heap_ l))) as d eqn:Ed. revert IHr.
  remember (rank j) as rk eqn:Erk. revert b j l fired Erk Ed Hok Hj. induction d as [d IHd] using lt_wf_ind.
  intros b j l fired -> -> Hok Hj IHr Hb. pose proof (tick_one_spec j l Hok Hj) as H1.
  destruct (tick_one now j l) as [pending|j' l' f|] eqn:E1.
  - destruct H1 as (H1 & H2 & H3). exists 1%nat, (Finished (pending, j, l) fired). split.
    + intros [|fuel'] Hle; [lia|]. cbn [tick_loop]. by rewrite E1.
    + exists []. rewrite app_nil_r. split; [done|]. split; [|split; [done|constructor]]. split; [done..|constructor|constructor].
  - destruct H1 as (Hj' & key & [O1 [O2 O2'] O3 O4] & Hfi).
    assert (Hrest : exists fuel r, (forall fuel', (fuel <= fuel')%nat -> tick_loop fuel' now j' l' (fired ++ option_list f) = r) /\
      loop_result (deadline key) j' l' (fired ++ option_list f) r).
    { destruct O4 as [O4|[O4 O5]]; [by eapply IHr|]. eapply IHd; [exact O5|by rewrite O4|done|done|done| |exact O3]. exact IHr. }
    destruct Hrest as (fuel & r & Hf & Hr). exists (S fuel), r. split.
    + intros [|fuel'] Hle; [lia|]. rewrite (tick_loop_step _ _ _ _ _ _ _ E1). apply Hf. lia.
    + eapply loop_result_turn; [exact E1|exact Hfi|auto|exact O2'|exact Hr].
  - exists 1%nat, Overflowed. split; [intros [|fuel'] Hle; [lia|]; cbn [tick_loop]; by rewrite E1|].
    exists (j, l). by split; [apply rtc_refl|].
Qed.
End Tick.

(** What the loop relies on of the engine: code touches the loop through its interface
    only, the clock does not run backwards, and, as it advances at a steady rate, only
    so many calls ([stalls]) can find it unchanged. *)
Class EngineLaws (J Q : Type) `{Engine J Q, TimerQueue Q} := {
  stalls : J -> nat;
  checkpoint_law j l j' l' : checkpoint j l = Some (j', l') -> clock j <= clock j' /\ rtc (api_step (clock j)) l l';
  invoke_law_clock j c l j' l' : invoke j c l = Some (j', l') -> clock j <= clock j' /\ rtc (api_step (clock j)) l l';
  stalls_law j c l j' l' : invoke j c l = Some (j', l') -> clock j' = clock j -> (stalls j' < stalls j)%nat;
  sleep_law d j : clock j + d <= clock (sleep_for d j)
}.

Section Run.
Context {J Q : Type} {HE : Engine J Q} {HQ : TimerQueue Q} {HL : TimerQueueLaws Q} {HJ : EngineLaws J Q}.
Implicit Types (l : EventLoop Q) (j : J).

Lemma api_mono lo lo' l l' : lo <= lo' -> rtc (api_step lo') l l' -> rtc (api_step lo) l l'.
Proof.
  intros Hlo. induction 1 as [|x y z Hxy _ IH]; [apply rtc_refl|]. eapply rtc_l; [|exact IH].
  destruct Hxy; [eapply api_set_timeout; [|eassumption]|eapply api_set_interval; [|eassumption]
    |eapply api_set_timeout_task; [|eassumption]|eapply api_set_interval_task; [|eassumption]
    |apply api_cancel|apply api_clear]; lia.
Qed.

(** The calls that may still find the clock at [now]. *)
Definition stalls_at (now : Z) j : nat := if clock j <=? now then S (stalls j) else 0%nat.

Lemma laws_at now j c l j' l' :
  now <= clock j -> invoke j c l = Some (j', l') ->
  now <= clock j' /\ rtc (api_step now) l l' /\ call_progress now (stalls_at now) j l j' l'.
Proof.
  intros Hj Ei. destruct (invoke_law_clock _ _ _ _ _ Ei) as [Hj' Hr]. split; [lia|].
  split; [eapply api_mono; [|exact Hr]; lia|]. unfold call_progress, stalls_at.
  destruct (Z.leb_spec (clock j) now) as [Hle|Hgt], (Z.leb_spec (clock j') now) as [Hle'|Hgt']; [left|left; lia|lia|right].
  - pose proof (stalls_law _ _ _ _ _ Ei ltac:(lia)). lia.
  - split; [done|]. eapply api_mono; [|exact Hr]. lia.
Qed.

Lemma deadlines_bounded (ks : list TimerKey) : exists b, forall k, k ∈ ks -> b <= deadline k.
Proof.
  induction ks as [|k ks [b IH]]; [exists 0; intros k Hk; by apply not_elem_of_nil in Hk|].
  exists (Z.min b (deadline k)). intros k' [->|Hk]%elem_of_cons; [lia|]. apply IH in Hk. lia.
Qed.

Lemma tick_loop_more fuel fuel' now j l fired a tr :
  (fuel <= fuel')%nat -> tick_loop fuel now j l fired = Finished a tr -> tick_loop fuel' now j l fired = Finished a tr.
Proof.
  revert fuel' j l fired. induction fuel as [|fuel IH]; intros [|fuel'] j l fired Hf E; [done|done|lia|].
  cbn [tick_loop] in *. destruct (tick_one now j l) as [|j' l' [k|]|]; [done| | |done]; (apply IH; [lia|done]).
Qed.

(** How a tick ends: after the callbacks of due timers, or by undefined behaviour in the
    code it ran. *)
Definition tick_result j l (r : run (bool * J * EventLoop Q)) : Prop :=
  match r with
  | Finished (pending, j', l') tr => exists now, clock j <= now <= clock j' /\ tick_done now l' pending tr
  | Overflowed =>
      checkpoint j l = None \/
      exists j0 l0 x, checkpoint j l = Some (j0, l0) /\ rtc (turn (clock j0)) (j0, l0) x /\ call_overflows (clock j0) x
  | OutOfFuel => False
  end.

Lemma tick_spec j l :
  loop_ok [] l -> 0 <= clock j -> (forall j' l', checkpoint j l = Some (j', l') -> clock j' < 2 ^ 62) ->
  exists fuel r, (forall fuel', (fuel <= fuel')%nat -> tick fuel' j l = r) /\ tick_result j l r.
Proof.
  intros Hok H0 Hmax. unfold tick. destruct (checkpoint j l) as [[j1 l1]|] eqn:E.
  2: { exists 0%nat, Overflowed. split; [done|by left]. }
  pose proof (Hmax _ _ eq_refl) as Hm. destruct (checkpoint_law _ _ _ _ E) as [Hc Hr].
  assert (Hok1 : loop_ok [] l1) by (eapply api_ok; [|exact Hr|done]; lia).
  assert (Hnow : 0 <= clock j1 < 2 ^ 62) by lia.
  destruct (deadlines_bounded (qelems (timer_heap_ l1))) as [b Hb].
  destruct (tick_loop_spec (clock j1) Hnow (stalls_at (clock j1)) (laws_at (clock j1)) b j1 l1 [] Hok1 (Z.le_refl _) Hb)
    as (fuel & r & Hf & Hres).
  exists fuel, r. split; [done|]. destruct r as [[[p j'] l'] tr| |]; cbn [loop_result tick_result] in *; [| |done].
  - destruct Hres as (fresh & -> & D & Hj' & _). exists (clock j1). split; [lia|exact D].
  - right. destruct Hres as (x & H1 & H2). by exists j1, l1, x.
Qed.

(** C19 ([EventLoop::tick], termination): on a loop whose registered timers have their
    keys, at times before 2^62 nanoseconds, a tick ends, whatever its callbacks schedule
    and cancel.  Unless one of these overflows, it has run timers that were due, in the
    order of their deadlines; what it leaves in the heap is due later; it reports work
    exactly when a key is left to wait for, be its timer cancelled or not, and if it
    reports none no timer is registered; and the loop is well-formed again.  It does
    not overflow on its own. *)
Theorem tick_terminates j l :
  loop_ok [] l -> 0 <= clock j -> (forall j' l', checkpoint j l = Some (j', l') -> clock j' < 2 ^ 62) ->
  exists fuel r, (forall fuel', (fuel <= fuel')%nat -> tick fuel' j l = r) /\
  match r with
  | Finished (pending, j', l') tr =>
      exists now, clock j <= now <= clock j' /\
      StronglySorted (fun a b => deadline a <= deadline b) tr /\
      Forall (fun k => deadline k <= now) tr /\
      (forall k, k ∈ qelems (timer_heap_ l') -> now < deadline k) /\
      pending = negb (bool_decide (qelems (timer_heap_ l') = [])) /\
      (pending = false -> timer_map_ l' = ∅) /\
      loop_ok [] l'
  | Overflowed =>
      checkpoint j l = None \/
      exists j0 l0 x, checkpoint j l = Some (j0, l0) /\ rtc (turn (clock j0)) (j0, l0) x /\ call_overflows (clock j0) x
  | OutOfFuel => False
  end.
Proof.
  intros Hok H0 Hm. destruct (tick_spec j l Hok H0 Hm) as (f & r & Hf & Hr). exists f, r. split; [done|].
  destruct r as [[[p j'] l'] tr| |]; [|exact Hr|exact Hr]. destruct Hr as (now & Hc & [D1 D2 D3 D4 D5 D6]). exists now. auto 10.
Qed.

(** *** Each timer on its own *)

(** The iteration, case by case. *)
Lemma tick_one_view now j l j' l' fired :
  tick_one now j l = Continue j' l' fired ->
  exists key, qtop (timer_heap_ l) = Some key /\ deadline key <= now /\
  ((fired = None /\ timer_map_ l !! timer_id key = None /\
    l' = MkLoop (next_id_ l) (qpop (timer_heap_ l)) (timer_map_ l)) \/
   (fired = Some key /\ exists data l2, timer_map_ l !! timer_id key = Some data /\
     invoke j (call_of data) (MkLoop (next_id_ l) (qpop (timer_heap_ l))
       (if is_interval data then timer_map_ l else delete (timer_id key) (timer_map_ l))) = Some (j', l2) /\
     next_id_ l' = next_id_ l2 /\ timer_map_ l' = timer_map_ l2 /\
     (l' = l2 \/ exists d, is_interval data = true /\ timer_heap_ l' = qpush (MkTimer d (timer_id key)) (timer_heap_ l2)))).
Proof.
  unfold tick_one. destruct (qtop (timer_heap_ l)) as [key|]; [|done].
  destruct (Z.ltb_spec now (deadline key)); [done|]. cbn [timer_map_].
  intros E. exists key. split; [done|]. split; [done|]. revert E.
  destruct (timer_map_ l !! timer_id key) as [data|]; [|intros [= <- <- <-]; by left].
  intros E. right. destruct (is_interval data) eqn:Ei.
  - destruct (invoke _ _ _) as [[j2 l2]|] eqn:Ev; [|done].
    destruct (timer_map_ l2 !! timer_id key) as [r|]; [|injection E as <- <- <-; split; [done|]; exists data, l2; rewrite Ei; auto 8].
    destruct (add_ms _ _) as [d|]; [|done]. injection E as <- <- <-. split; [done|]. exists data, l2.
    rewrite Ei. split; [done|]. split; [done|]. split; [done|]. split; [done|]. right. by exists d.
  - unfold cancel in E. cbn in E. destruct (invoke _ _ _) as [[j2 l2]|] eqn:Ev; [|done].
    injection E as <- <- <-. split; [done|]. exists data, l2. rewrite Ei. auto 8.
Qed.

Lemma api_next lo l l' : rtc (api_step lo) l l' -> next_id_ l <= next_id_ l'.
Proof.
  induction 1 as [|x y z Hxy _ IH]; [done|].
  destruct (api_step_view _ _ _ Hxy) as [(En & _)|(d & dt & _ & En & _)]; lia.
Qed.

Lemma invoke_any j c l j' l' : invoke j c l = Some (j', l') -> exists lo, rtc (api_step lo) l l'.
Proof. intros E. destruct (invoke_law_clock _ _ _ _ _ E) as [_ Hr]. eauto. Qed.

(** A registered timer keeps its key while code runs. *)
Lemma api_keeps_key lo l l' key data :
  rtc (api_step lo) l l' -> timer_id key < next_id_ l -> timer_map_ l' !! timer_id key = Some data ->
  key ∈ qelems (timer_heap_ l) -> key ∈ qelems (timer_heap_ l').
Proof.
  induction 1 as [|x y z Hxy Hyz IH]; [done|]. intros Hn Hl Hk.
  assert (Hny : timer_id key < next_id_ y) by (pose proof (api_next _ _ _ (rtc_once _ _ Hxy)); lia).
  apply IH; [done|done|]. pose proof (api_map_old _ _ _ _ _ Hyz Hny Hl) as Hy.
  destruct (api_step_view _ _ _ Hxy) as [(_ & _ & [->|[_ E]])|(d & dt & _ & _ & -> & _)]; [done| |by right].
  rewrite E, lookup_empty in Hy. done.
Qed.

Lemma unregistered_step now j l j' l' fired id :
  tick_one now j l = Continue j' l' fired -> timer_map_ l !! id = None -> id < next_id_ l ->
  timer_map_ l' !! id = None /\ id < next_id_ l' /\ (forall k, fired = Some k -> timer_id k <> id).
Proof.
  intros E Hn Hid. destruct (tick_one_view _ _ _ _ _ _ E) as (key & _ & _ & [(-> & _ & ->)|(-> & data & l2 & Hd & Ev & En & Em & _)]);
    [done|].
  destruct (invoke_any _ _ _ _ _ Ev) as [lo Hr]. pose proof (api_next _ _ _ Hr) as Hx. cbn in Hx.
  rewrite En, Em. split; [|split; [lia|intros k [= <-] Ek; congruence]].
  destruct (timer_map_ l2 !! id) as [x|] eqn:Ex; [|done].
  apply (api_map_old _ _ _ _ _ Hr) in Ex; [|done]. cbn in Ex.
  destruct (is_interval data); [congruence|]. apply lookup_delete_Some in Ex as [_ Ex]. congruence.
Qed.

Lemma unregistered_silent fuel now j l fired a tr id :
  timer_map_ l !! id = None -> id < next_id_ l -> tick_loop fuel now j l fired = Finished a tr ->
  timer_map_ (snd a) !! id = None /\ exists fresh, tr = fired ++ fresh /\ Forall (fun k => timer_id k <> id) fresh.
Proof.
  revert j l fired. induction fuel as [|fuel IH]; intros j l fired Hn Hid E; [done|]. cbn [tick_loop] in E.
  destruct (tick_one now j l) as [p|j' l' f|] eqn:E1; [| |done].
  - injection E as <- <-. split; [done|]. exists []. by rewrite app_nil_r.
  - destruct (unregistered_step _ _ _ _ _ _ _ E1 Hn Hid) as (Hn' & Hid' & Hf).
    destruct f as [k|]; [|by eapply IH].
    destruct (IH _ _ _ Hn' Hid' E) as (Ha & fresh & -> & Hfr). split; [done|]. exists (k :: fresh).
    rewrite <- app_assoc. split; [done|]. constructor; auto.
Qed.

(** No callback cancels the timer. *)
Definition keeps_timer (id : Z) (data : TimerData) : Prop := forall j c l j' l',
  invoke (Q := Q) j c l = Some (j', l') -> id < next_id_ l -> timer_map_ l !! id = Some data -> timer_map_ l' !! id = Some data.

(** A registered timeout in an iteration: it runs and is gone, or waits on. *)
Lemma registered_step now j l j' l' fired key data :
  loop_ok [] l -> tick_one now j l = Continue j' l' fired -> keeps_timer (timer_id key) data ->
  timer_map_ l !! timer_id key = Some data -> is_interval data = false -> key ∈ qelems (timer_heap_ l) ->
  (fired = Some key /\ timer_map_ l' !! timer_id key = None /\ timer_id key < next_id_ l') \/
  ((forall k, fired = Some k -> timer_id k <> timer_id key) /\
   timer_map_ l' !! timer_id key = Some data /\ key ∈ qelems (timer_heap_ l')).
Proof.
  intros Hok E Hkeep Hd Hi Hk. pose proof (to_next _ _ _ Hok key Hk) as Hnx.
  destruct (tick_one_view _ _ _ _ _ _ E) as (top & Ht & _ & Hcase). pose proof (qtop_Some _ _ Ht) as Ep.
  destruct (decide (timer_id top = timer_id key)) as [Eid|Hne].
  - left. assert (top = key) as ->.
    { unfold loop_ok in Hok. cbn in Hok. rewrite Ep in Hok, Hk. apply elem_of_cons in Hk as [?|Hk]; [done|].
      pose proof (to_nodup _ _ _ Hok) as Hnd. cbn in Hnd. inversion_clear Hnd as [|? ? Hx _].
      destruct Hx. rewrite Eid. by apply list_elem_of_fmap_2. }
    destruct Hcase as [(_ & Hn & _)|(-> & data' & l2 & Hd' & Ev & En & Em & _)]; [congruence|].
    simplify_eq. rewrite Hi in Ev. destruct (invoke_any _ _ _ _ _ Ev) as [lo Hr].
    pose proof (api_next _ _ _ Hr) as Hx. cbn in Hx. split; [done|]. rewrite Em, En. split; [|lia].
    destruct (timer_map_ l2 !! timer_id key) as [x|] eqn:Ex; [|done].
    apply (api_map_old _ _ _ _ _ Hr) in Ex; [|done]. cbn in Ex. by rewrite lookup_delete_eq in Ex.
  - right. assert (Hk' : key ∈ qelems (qpop (timer_heap_ l))).
    { rewrite Ep in Hk. apply elem_of_cons in Hk as [E'|?]; [by rewrite E' in Hne|done]. }
    destruct Hcase as [(-> & _ & ->)|(-> & data' & l2 & Hd' & Ev & En & Em & Hl)]; [by split|].
    split; [by intros k [= <-]|]. rewrite Em.
    assert (H2 : timer_map_ l2 !! timer_id key = Some data).
    { eapply Hkeep; [exact Ev|exact Hnx|]. cbn. destruct (is_interval data'); [done|by rewrite lookup_delete_ne]. }
    split; [done|]. destruct (invoke_any _ _ _ _ _ Ev) as [lo Hr].
    assert (H3 : key ∈ qelems (timer_heap_ l2)) by (eapply api_keeps_key; [exact Hr|done|exact H2|exact Hk']).
    destruct Hl as [->|(d & _ & ->)]; [done|]. rewrite qelems_push. by right.
Qed.

Lemma filter_none id (tr : list TimerKey) :
  Forall (fun k => timer_id k <> id) tr -> filter (fun k => timer_id k = id) tr = [].
Proof. induction 1; [done|]. by rewrite filter_cons_False. Qed.

Lemma registered_fires fuel now j l fired a tr key data :
  0 <= now < 2 ^ 62 -> now <= clock j -> loop_ok [] l -> keeps_timer (timer_id key) data ->
  timer_map_ l !! timer_id key = Some data -> is_interval data = false ->
  key ∈ qelems (timer_heap_ l) -> deadline key <= now -> tick_loop fuel now j l fired = Finished a tr ->
  timer_map_ (snd a) !! timer_id key = None /\
  exists fresh, tr = fired ++ fresh /\ filter (fun k => timer_id k = timer_id key) fresh = [key].
Proof.
  intros Hnow Hj Hok Hkeep Hd Hi Hk Hdue. revert j l fired Hj Hok Hd Hk.
  induction fuel as [|fuel IH]; intros j l fired Hj Hok Hd Hk E; [done|]. cbn [tick_loop] in E.
  pose proof (tick_one_spec now Hnow (stalls_at now) (laws_at now) j l Hok Hj) as H1.
  destruct (tick_one now j l) as [p|j' l' f|] eqn:E1; [| |done].
  - destruct H1 as [H1 _]. apply H1 in Hk. lia.
  - destruct H1 as (Hj' & k0 & [O1 _ _ _] & _).
    destruct (registered_step _ _ _ _ _ _ _ _ Hok E1 Hkeep Hd Hi Hk) as [(-> & Hn & Hid)|(Hf & Hd' & Hk')].
    + destruct (unregistered_silent _ _ _ _ _ _ _ _ Hn Hid E) as (Ha & fresh & -> & Hfr).
      split; [done|]. exists (key :: fresh). rewrite <- app_assoc. split; [done|].
      rewrite filter_cons_True by done. by rewrite filter_none.
    + destruct f as [k|]; [|by eapply IH].
      destruct (IH _ _ _ Hj' O1 Hd' Hk' E) as (Ha & fresh & -> & Hfr). split; [done|]. exists (k :: fresh).
      rewrite <- app_assoc. split; [done|]. by rewrite filter_cons_False by auto.
Qed.

(** C32 ([EventLoop::tick], functional): the loop of a tick ends, whatever its callbacks
    schedule and cancel.  Unless one of these overflows, a timer that is not registered,
    because it was cancelled or ran, does not run; and a registered timeout that is due
    and that no callback cancels runs exactly once and is then unregistered. *)
Theorem timer_fires_once now j l key :
  0 <= now < 2 ^ 62 -> now <= clock j -> loop_ok [] l -> timer_id key < next_id_ l ->
  exists fuel r, (forall fuel', (fuel <= fuel')%nat -> tick_loop fuel' now j l [] = r) /\
  match r with
  | Finished (pending, j', l') tr =>
      (timer_map_ l !! timer_id key = None -> filter (fun k => timer_id k = timer_id key) tr = []) /\
      (forall data, timer_map_ l !! timer_id key = Some data -> is_interval data = false ->
         key ∈ qelems (timer_heap_ l) -> deadline key <= now -> keeps_timer (timer_id key) data ->
         filter (fun k => timer_id k = timer_id key) tr = [key] /\ timer_map_ l' !! timer_id key = None)
  | Overflowed => exists x, rtc (turn now) (j, l) x /\ call_overflows now x
  | OutOfFuel => False
  end.
Proof.
  intros Hnow Hj Hok Hid. destruct (deadlines_bounded (qelems (timer_heap_ l))) as [b Hb].
  destruct (tick_loop_spec now Hnow (stalls_at now) (laws_at now) b j l [] Hok Hj Hb) as (fuel & r & Hfu & Hr).
  exists fuel, r. split; [done|]. destruct r as [[[pending j'] l'] tr| |]; [|exact Hr|exact Hr].
  pose proof (Hfu fuel (Nat.le_refl _)) as E. clear Hr. split.
  - intros Hn. destruct (unregistered_silent _ _ _ _ _ _ _ _ Hn Hid E) as (_ & fresh & -> & Hf). by apply filter_none.
  - intros data Hd Hi Hk Hdue Hkeep.
    destruct (registered_fires _ _ _ _ _ _ _ _ _ Hnow Hj Hok Hkeep Hd Hi Hk Hdue E) as (Ha & fresh & -> & Hf).
    done.
Qed.
End Run.

(** ** A queue and an engine *)

Fixpoint list_top (q : list TimerKey) : option TimerKey :=
  match q with
  | [] => None
  | k :: q => match list_top q with
              | Some k' => if deadline k <=? deadline k' then Some k else Some k'
              | None => Some k
              end
  end.

Fixpoint remove_key (k : TimerKey) (q : list TimerKey) : list TimerKey :=
  match q with [] => [] | k' :: q => if decide (k = k') then q else k' :: remove_key k q end.

#[export] Instance list_queue : TimerQueue (list TimerKey) := {|
  qempty := [];
  qpush k q := k :: q;
  qtop := list_top;
  qpop q := match list_top q with Some k => remove_key k q | None => [] end;
  qelems q := q
|}.

Lemma remove_key_perm k q : k ∈ q -> q ≡ₚ k :: remove_key k q.
Proof.
  induction q as [|k' q IH]; [intros Hk; by apply not_elem_of_nil in Hk|]. cbn.
  destruct (decide (k = k')) as [->|Hn]; [done|]. intros [?|Hk]%elem_of_cons; [done|].
  rewrite Permutation_swap. by rewrite <- IH.
Qed.

Lemma list_top_spec q :
  match list_top q with None => q = [] | Some k => k ∈ q /\ forall k', k' ∈ q -> deadline k <= deadline k' end.
Proof.
  induction q as [|k q IH]; [done|]. cbn. destruct (list_top q) as [k'|].
  - destruct IH as [H1 H2]. destruct (Z.leb_spec (deadline k) (deadline k')).
    + split; [by left|]. intros x [->|Hx]%elem_of_cons; [done|]. apply H2 in Hx. lia.
    + split; [by right|]. intros x [->|Hx]%elem_of_cons; [lia|]. by apply H2.
  - subst q. split; [by left|]. intros x [->|Hx]%elem_of_cons; [done|by apply not_elem_of_nil in Hx].
Qed.

#[export] Instance list_queue_laws : TimerQueueLaws (list TimerKey).
Proof.
  split; cbn.
  - done.
  - done.
  - intros q E. pose proof (list_top_spec q) as H. by rewrite E in H.
  - intros q k E. pose proof (list_top_spec q) as H. rewrite E in H |- *. by apply remove_key_perm, H.
  - intros q k k' E. pose proof (list_top_spec q) as H. rewrite E in H. apply H.
Qed.

(** Callbacks that do nothing, for a nanosecond. *)
Definition quiet : Engine Z (list TimerKey) := {|
  clock j := j;
  checkpoint j l := Some (j, l);
  invoke j c l := Some (j + 1, l);
  sleep_for d j := j + d
|}.

Definition quiet_laws : @EngineLaws Z (list TimerKey) quiet list_queue.
Proof.
  unshelve esplit; cbn.
  - exact (fun _ => 0%nat).
  - intros j l j' l' [= <- <-]. split; [lia|apply rtc_refl].
  - intros j c l j' l' [= <- <-]. split; [lia|apply rtc_refl].
  - intros j c l j' l' [= <- <-]. lia.
  - lia.
Defined.

(** Callbacks that all set a timeout of 0 milliseconds, with a clock that takes four
    calls to advance; the [nat] counts them. *)
Definition busy : Engine (Z * nat) (list TimerKey) := {|
  clock j := fst j;
  checkpoint j l := Some (j, l);
  invoke j c l :=
    '(_, l) ← set_timeout (fst j) 9 0 [] l;
    Some (match snd j with O => (fst j + 1, 3%nat) | S n => (fst j, n) end, l);
  sleep_for d j := (fst j + d, snd j)
|}.

Definition busy_laws : @EngineLaws (Z * nat) (list TimerKey) busy list_queue.
Proof.
  unshelve esplit; cbn.
  - exact snd.
  - intros j l j' l' [= <- <-]. split; [lia|apply rtc_refl].
  - intros j c l j' l' E. destruct (set_timeout (fst j) 9 0 [] l) as [[id l2]|] eqn:Es; [|done]. cbn in E. injection E as <- <-.
    split; [destruct (snd j); cbn; lia|]. apply rtc_once. by eapply api_set_timeout.
  - intros j c l j' l' E. destruct (set_timeout (fst j) 9 0 [] l) as [[id l2]|] eqn:Es; [|done]. cbn in E. injection E as <- <-.
    destruct (snd j); cbn; lia.
  - intros d j. lia.
Defined.

(** Two timeouts, after 5 and after 2 milliseconds, the first one cancelled. *)
Definition sample_loop : EventLoop (list TimerKey) :=
  MkLoop 3 [MkTimer 2000000 2; MkTimer 5000000 1] {[2 := MkData 8 [] 0 false false 2]}.

Lemma sample_loop_ok : loop_ok [] sample_loop.
Proof.
  split; cbn.
  - apply NoDup_cons. split; [|apply NoDup_singleton]. rewrite list_elem_of_singleton. lia.
  - intros k [->|[->|Hk]%elem_of_cons]%elem_of_cons; cbn; [lia|lia|by apply not_elem_of_nil in Hk].
  - intros id data [<- <-]%lookup_singleton_Some. exists (MkTimer 2000000 2). split; [left|done].
Qed.

(** Witness of C19. *)
Lemma tick_terminates_witness :
  (exists fuel r, (forall fuel', (fuel <= fuel')%nat -> @tick _ _ busy _ fuel' (6000000, 2%nat) sample_loop = r) /\
     tick_result (HE := busy) (6000000, 2%nat) sample_loop r) /\
  exists l', @tick _ _ busy _ 9 (6000000, 2%nat) sample_loop =
    Finished (true, (6000001, 2%nat), l') [MkTimer 2000000 2; MkTimer 6000000 3; MkTimer 6000000 4; MkTimer 6000000 5].
Proof.
  split; [|eexists; vm_compute; reflexivity].
  destruct (@tick_terminates (Z * nat) (list TimerKey) busy list_queue list_queue_laws busy_laws (6000000, 2%nat) sample_loop
    sample_loop_ok) as (fuel & r & H1 & H2); [vm_compute; congruence|intros j' l' [= <- <-]; done|].
  exists fuel, r. split; [exact H1|]. destruct r as [[[p j'] l'] tr| |]; [|exact H2|exact H2].
  destruct H2 as (now & Hc & D4 & D5 & D2 & D3 & D3' & D1). by exists now.
Defined.

(** Witness of C32. *)
Lemma timer_fires_once_witness :
  exists fuel pending j' l' tr,
    @tick_loop _ _ busy _ fuel 6000000 (6000000, 2%nat) sample_loop [] = Finished (pending, j', l') tr /\
    filter (fun k => timer_id k = 2) tr = [MkTimer 2000000 2].
Proof.
  assert (Hn : 0 <= 6000000 < 2 ^ 62) by (by vm_compute).
  destruct (@timer_fires_once (Z * nat) (list TimerKey) busy list_queue list_queue_laws busy_laws 6000000 (6000000, 2%nat) sample_loop
    (MkTimer 2000000 2) Hn (Z.le_refl _) sample_loop_ok eq_refl) as (fuel & r & E & H).
  assert (Hr : exists x tr, @tick_loop _ _ busy _ (Nat.max 9 fuel) 6000000 (6000000, 2%nat) sample_loop [] = Finished x tr).
  { eexists _, _. eapply (tick_loop_more 9); [lia|]. vm_compute. reflexivity. }
  destruct Hr as ([[p j'] l'] & tr & Hr). exists (Nat.max 9 fuel), p, j', l', tr. split; [exact Hr|].
  rewrite E in Hr by lia. subst r. apply (proj2 H (MkData 8 [] 0 false false 2)); [done|done|left|by vm_compute|].
  intros j c l j2 l2 Ei Hid Hl. cbn in Ei. destruct (set_timeout (fst j) 9 0 [] l) as [[id l3]|] eqn:Es; [|done].
  cbn in Ei. injection Ei as _ <-. destruct (api_step_view _ _ _ (api_set_timeout (fst j) _ _ _ _ _ _ _ (Z.le_refl _) Es))
    as [(En & _)|(d & data & _ & _ & _ & -> & _)]; [|rewrite lookup_insert_ne by (cbn [timer_id] in *; lia); exact Hl].
  exfalso. unfold set_timeout, schedule_js in Es. destruct (_ =? _); [done|]. destruct (add_ms _ _); [|done]. cbn in Es.
  injection Es as _ <-. cbn in En. lia.
Defined.
