(* ===== verification/JsEngine.v ===== *)
(** The JavaScript engine the builtins of ppnt-jr talk to.

    V8 is a library.  Its interface, as far as [src/ppnt-jr/src] calls it, is the
    type [api]; [run_api] states what the documentation of V8 and of ECMAScript
    says a call does to templates, objects and contexts, and says nothing ([None])
    about a call in a state that is not described: a template that is already
    instantiated, an object with an interceptor, the [name] and the [length] of a
    function, the prototype of a global object, a property of [Object.prototype].
    An engine is an implementation whose calls do what is described, where it is
    described ([V8Laws]); elsewhere it is free.  Programs are trees of calls, and a
    program that makes described calls only runs as described on every engine
    ([exec_run]). *)

From stdpp Require Import gmap strings.
From S2P Require Import Prelude.

Local Open Scope Z_scope.

(** ** Objects *)

Inductive key := Name (s : bytes) | ToStringTag.

(** The functions of [src/ppnt-jr] that are handed to the engine. *)
Inductive native :=
| IllegalConstructor (class : bytes)
| ConsoleDebug | ConsoleLog | ConsoleInfo | ConsoleWarn | ConsoleError
| NavigatorGetter | GetUserAgent
| WindowAlert
| JsSetTimeout | JsSetInterval | JsClearTimer
| FetchCallback
| XhrConstructor | XhrOpen | XhrSend
| JsCppDelay.

(** An object is made by a call, or is the unique function, or its prototype
    object, of a function template in a context, or is the realm's
    [Object.prototype] or [Function.prototype]. *)
Inductive oid := ONew (n : Z) | OFun (ctx f : Z) | OProto (ctx f : Z) | OBase (ctx : Z) | OFunBase (ctx : Z).

Inductive value := VStr (s : bytes) | VObj (o : oid).

#[export] Instance key_eq_dec : EqDecision key.
Proof. solve_decision. Defined.
#[export] Instance oid_eq_dec : EqDecision oid.
Proof. solve_decision. Defined.
#[export] Instance value_eq_dec : EqDecision value.
Proof. solve_decision. Defined.
#[export] Instance native_eq_dec : EqDecision native.
Proof. solve_decision. Defined.

#[export] Program Instance key_countable : Countable key :=
  inj_countable' (fun k => match k with Name s => Some s | ToStringTag => None end)
    (fun o => match o with Some s => Name s | None => ToStringTag end) _.
Next Obligation. by intros []. Qed.

#[export] Program Instance oid_countable : Countable oid :=
  inj_countable'
    (fun o => match o with
      | ONew n => (0, n, 0) | OFun c f => (1, c, f) | OProto c f => (2, c, f) | OBase c => (3, c, 0) | OFunBase c => (4, c, 0)
      end)
    (fun '(t, x, y) => if t =? 0 then ONew x else if t =? 1 then OFun x y else if t =? 2 then OProto x y
      else if t =? 3 then OBase x else OFunBase x) _.
Next Obligation. by intros []. Qed.

(** [v8::PropertyAttribute]. *)
Definition None_ : Z := 0.
Definition ReadOnly : Z := 1.
Definition DontEnum : Z := 2.
Definition DontDelete : Z := 4.

Definition writable (a : Z) : bool := negb (Z.testbit a 0).
Definition enumerable (a : Z) : bool := negb (Z.testbit a 1).
Definition configurable (a : Z) : bool := negb (Z.testbit a 2).

(** A property of an object; an accessor without a setter. *)
Inductive slot :=
| Data (v : value) (a : Z)
| Accessor (getter : oid) (a : Z)
| NativeData (getter : native) (setter : option native) (a : Z).

(** A property of a template: a function template stands for its function. *)
Inductive tslot :=
| TValue (v : value) (a : Z)
| TFun (f : Z) (a : Z)
| TAccessor (getter : Z) (a : Z)
| TNative (getter : native) (setter : option native) (a : Z).

Record handler := MkHandler { on_get : native; on_set : option native; non_masking : bool }.

(** An object template is the prototype or the instance template of [ctor]. *)
Record otmpl := MkOtmpl {
  ctor : Z;
  is_instance : bool;
  tprops : gmap key tslot;
  fields : Z;
  intercept : option handler
}.

Record ftmpl := MkFtmpl { cb : native; class_name : bytes; proto_t : Z; inst_t : Z }.

(** [oprops] leaves out the [name] and the [length] of a function; its name is
    [oname]. *)
Record obj := MkObj {
  oprops : gmap key slot;
  oproto : oid;
  ocall : option native;
  oname : bytes;
  ofields : Z;
  ointercept : option handler
}.

(** [frozen] are the function templates that have been instantiated, [globals]
    the contexts with their global objects. *)
Record heap := MkHeap {
  next : Z;
  ftmpls : gmap Z ftmpl;
  otmpls : gmap Z otmpl;
  frozen : gset Z;
  objs : gmap oid obj;
  globals : gmap Z oid;
  current : Z
}.

Definition empty_heap : heap := MkHeap 0 ∅ ∅ ∅ ∅ ∅ 0.

Definition set_objs (m : gmap oid obj) (h : heap) : heap :=
  MkHeap (next h) (ftmpls h) (otmpls h) (frozen h) m (globals h) (current h).
Definition set_otmpls (m : gmap Z otmpl) (h : heap) : heap :=
  MkHeap (next h) (ftmpls h) m (frozen h) (objs h) (globals h) (current h).
Definition set_props (m : gmap key slot) (o : obj) : obj :=
  MkObj m (oproto o) (ocall o) (oname o) (ofields o) (ointercept o).

(** ** Calls *)

Inductive api :=
| FunctionTemplate_New (callback : native)
| SetClassName (f : Z) (name : bytes)
| PrototypeTemplate (f : Z)
| InstanceTemplate (f : Z)
| Template_Set (t : Z) (k : key) (s : tslot)
| SetInternalFieldCount (t : Z) (n : Z)
| SetHandler (t : Z) (config : handler)
| NewInstance (t : Z)
| GetFunction (f : Z)
| Function_New (callback : native)
| SetName (o : oid) (name : bytes)
| DefineOwnProperty (o : oid) (k : key) (v : value) (a : Z)
| Object_Set (o : oid) (k : key) (v : value)
| SetPrototypeV2 (o : oid) (p : oid)
| GetPrototypeV2 (o : oid)
| Context_New (global_template : Z)
| Context_Enter (c : Z)
| Context_Global (c : Z).

(** What a call gives: [RMaybe None] is an exception. *)
Inductive ret := RUnit | RHandle (z : Z) | RObj (o : oid) | RMaybe (b : option bool).

(** [DefineOwnProperty] with a full data descriptor: on a property that cannot be
    configured only a compatible change succeeds. *)
Definition define_slot (old : option slot) (v : value) (a : Z) : option slot :=
  match old with
  | None => Some (Data v a)
  | Some (Data v0 a0) =>
      if configurable a0 then Some (Data v a)
      else if configurable a || negb (Bool.eqb (enumerable a) (enumerable a0)) then None
      else if writable a0 then Some (Data v a)
      else if writable a || negb (bool_decide (v = v0)) then None
      else Some (Data v a)
  | Some (Accessor _ a0) | Some (NativeData _ _ a0) =>
      if configurable a0 then Some (Data v a) else None
  end.

(** The properties of [Object.prototype]. *)
Definition base_names : list bytes := bs <$> ["constructor"; "hasOwnProperty"; "isPrototypeOf";
  "propertyIsEnumerable"; "toLocaleString"; "toString"; "valueOf"; "__proto__";
  "__defineGetter__"; "__defineSetter__"; "__lookupGetter__"; "__lookupSetter__"]%string.

(** Whether a property can be found in [oprops]: no interceptor is asked for it,
    and it is not the [name] or the [length] of a function. *)
Definition described (r : obj) (k : key) : bool :=
  match ointercept r, ocall r, k with
  | Some _, _, _ => false
  | None, Some _, Name s => negb (bool_decide (s ∈ [bs "length"; bs "name"]))
  | _, _, _ => true
  end.

(** Whether an assignment to a name that the receiver does not have makes a new
    property; [None] where it depends on a property that is not described here. *)
Fixpoint inherits_plain (fuel : nat) (o : oid) (k : key) (h : heap) : option bool :=
  match fuel with
  | O => None
  | S fuel =>
      match objs h !! o with
      | None =>
          match o, k with
          | OBase _, Name s => if decide (s ∈ base_names) then None else Some true
          | OBase _, ToStringTag => Some true
          | _, _ => None
          end
      | Some r =>
          if described r k then
            match oprops r !! k with
            | Some (Data _ a) => Some (writable a)
            | Some _ => None
            | None => inherits_plain fuel (oproto r) k h
            end
          else None
      end
  end.

(** Whether [o] is [p] or on its prototype chain. *)
Fixpoint inherits_from (fuel : nat) (p o : oid) (h : heap) : option bool :=
  match fuel with
  | O => None
  | S fuel =>
      if decide (p = o) then Some true
      else
        match objs h !! p with
        | Some r => inherits_from fuel (oproto r) o h
        | None =>
            match p with
            | OBase _ => Some false
            | OFunBase c => Some (bool_decide (o = OBase c))
            | _ => None
            end
        end
  end.

Definition set_slot (r : obj) (k : key) (v : value) (h : heap) : option (option slot) :=
  match oprops r !! k with
  | Some (Data v0 a) => Some (Some (if writable a then Data v a else Data v0 a))
  | Some _ => None
  | None =>
      match inherits_plain (S (size (objs h))) (oproto r) k h with
      | Some true => Some (Some (Data v None_))
      | Some false => Some None
      | None => None
      end
  end.

Definition instantiate_slot (c : Z) (s : tslot) : slot :=
  match s with
  | TValue v a => Data v a
  | TFun f a => Data (VObj (OFun c f)) a
  | TAccessor g a => Accessor (OFun c g) a
  | TNative g w a => NativeData g w a
  end.

(** The function of [f] and its prototype object in context [c]. *)
Definition proto_obj (c f : Z) (t : otmpl) : obj :=
  MkObj (instantiate_slot c <$> ({[Name (bs "constructor") := TFun f DontEnum]} ∪ tprops t))
    (OBase c) None [] 0 (intercept t).

Definition fun_obj (c f : Z) (ft : ftmpl) : obj :=
  MkObj {[Name (bs "prototype") := Data (VObj (OProto c f)) (Z.lor DontEnum DontDelete)]}
    (OFunBase c) (Some (cb ft)) (class_name ft) 0 None.

Definition instantiate (c f : Z) (h : heap) : option heap :=
  match objs h !! OFun c f with
  | Some _ => Some h
  | None =>
      ft ← ftmpls h !! f;
      t ← otmpls h !! proto_t ft;
      Some (MkHeap (next h) (ftmpls h) (otmpls h) ({[f]} ∪ frozen h)
        (<[OFun c f := fun_obj c f ft]> (<[OProto c f := proto_obj c f t]> (objs h))) (globals h) (current h))
  end.

(** An instance of the instance template [t]; the constructor is not called. *)
Definition new_instance (c t : Z) (more : gmap key slot) (h : heap) : option (oid * heap) :=
  ot ← otmpls h !! t;
  if is_instance ot then
    h ← instantiate c (ctor ot) h;
    let o := ONew (next h) in
    let r := MkObj ((instantiate_slot c <$> tprops ot) ∪ more) (OProto c (ctor ot)) None [] (fields ot) (intercept ot) in
    Some (o, MkHeap (next h + 1) (ftmpls h) (otmpls h) (frozen h) (<[o := r]> (objs h)) (globals h) (current h))
  else None.

(** A template can be changed until its function template is instantiated. *)
Definition change_otmpl (t : Z) (f : otmpl -> otmpl) (h : heap) : option (ret * heap) :=
  ot ← otmpls h !! t;
  if decide (ctor ot ∈ frozen h) then None
  else Some (RUnit, set_otmpls (<[t := f ot]> (otmpls h)) h).

Section Realm.

(** What a new context's global object has by itself. *)
Context (intrinsics : Z -> gmap key slot).

(** [None]: the call is outside of what the documentation describes. *)
Definition run_api (a : api) (h : heap) : option (ret * heap) :=
  match a with
  | FunctionTemplate_New callback =>
      let f := next h in
      Some (RHandle f, MkHeap (f + 3) (<[f := MkFtmpl callback [] (f + 1) (f + 2)]> (ftmpls h))
        (<[f + 1 := MkOtmpl f false ∅ 0 None]> (<[f + 2 := MkOtmpl f true ∅ 0 None]> (otmpls h)))
        (frozen h) (objs h) (globals h) (current h))
  | SetClassName f name =>
      ft ← ftmpls h !! f;
      if decide (f ∈ frozen h) then None
      else Some (RUnit, MkHeap (next h) (<[f := MkFtmpl (cb ft) name (proto_t ft) (inst_t ft)]> (ftmpls h))
        (otmpls h) (frozen h) (objs h) (globals h) (current h))
  | PrototypeTemplate f => ft ← ftmpls h !! f; Some (RHandle (proto_t ft), h)
  | InstanceTemplate f => ft ← ftmpls h !! f; Some (RHandle (inst_t ft), h)
  | Template_Set t k s =>
      change_otmpl t (fun ot => MkOtmpl (ctor ot) (is_instance ot) (<[k := s]> (tprops ot)) (fields ot) (intercept ot)) h
  | SetInternalFieldCount t n =>
      change_otmpl t (fun ot => MkOtmpl (ctor ot) (is_instance ot) (tprops ot) n (intercept ot)) h
  | SetHandler t config =>
      change_otmpl t (fun ot => MkOtmpl (ctor ot) (is_instance ot) (tprops ot) (fields ot) (Some config)) h
  | NewInstance t => '(o, h) ← new_instance (current h) t ∅ h; Some (RObj o, h)
  | GetFunction f => h ← instantiate (current h) f h; Some (RObj (OFun (current h) f), h)
  | Function_New callback =>
      (* ConstructorBehavior::kAllow: the function has a prototype object *)
      let o := ONew (next h) in
      let p := ONew (next h + 1) in
      Some (RObj o, MkHeap (next h + 2) (ftmpls h) (otmpls h) (frozen h)
        (<[o := MkObj {[Name (bs "prototype") := Data (VObj p) (Z.lor DontEnum DontDelete)]}
            (OFunBase (current h)) (Some callback) [] 0 None]>
          (<[p := MkObj {[Name (bs "constructor") := Data (VObj o) DontEnum]} (OBase (current h)) None [] 0 None]>
            (objs h))) (globals h) (current h))
  | SetName o name =>
      r ← objs h !! o;
      _ ← ocall r;
      Some (RUnit, set_objs (<[o := MkObj (oprops r) (oproto r) (ocall r) name (ofields r) (ointercept r)]> (objs h)) h)
  | DefineOwnProperty o k v a =>
      r ← objs h !! o;
      if negb (described r k) then None else
      match define_slot (oprops r !! k) v a with
      | Some s => Some (RMaybe (Some true), set_objs (<[o := set_props (<[k := s]> (oprops r)) r]> (objs h)) h)
      | None => Some (RMaybe (Some false), h)
      end
  | Object_Set o k v =>
      r ← objs h !! o;
      if negb (described r k) then None else
      s ← set_slot r k v h;
      Some (RMaybe (Some true),
        match s with Some s => set_objs (<[o := set_props (<[k := s]> (oprops r)) r]> (objs h)) h | None => h end)
  | SetPrototypeV2 o p =>
      (* Object.setPrototypeOf throws when the chain would be a cycle *)
      r ← objs h !! o;
      if decide (o ∈ (map_to_list (globals h)).*2) then None else
      cycle ← inherits_from (S (size (objs h))) p o h;
      if cycle : bool then Some (RMaybe None, h) else
      Some (RMaybe (Some true),
        set_objs (<[o := MkObj (oprops r) p (ocall r) (oname r) (ofields r) (ointercept r)]> (objs h)) h)
  | GetPrototypeV2 o =>
      r ← objs h !! o;
      if decide (o ∈ (map_to_list (globals h)).*2) then None else Some (RObj (oproto r), h)
  | Context_New t =>
      let c := next h in
      let h := MkHeap (c + 1) (ftmpls h) (otmpls h) (frozen h) (objs h) (globals h) (current h) in
      '(g, h) ← new_instance c t (intrinsics c) h;
      Some (RHandle c, MkHeap (next h) (ftmpls h) (otmpls h) (frozen h) (objs h) (<[c := g]> (globals h)) (current h))
  | Context_Enter c =>
      _ ← globals h !! c;
      Some (RUnit, MkHeap (next h) (ftmpls h) (otmpls h) (frozen h) (objs h) (globals h) c)
  | Context_Global c => g ← globals h !! c; Some (RObj g, h)
  end.

(** ** Programs *)

Inductive prog (A : Type) : Type :=
| Ret (a : A)
| Call (a : api) (k : ret -> prog A)
| Crash.

#[global] Arguments Ret {A} _.
#[global] Arguments Call {A} _ _.
#[global] Arguments Crash {A}.

Fixpoint pbind {A B} (p : prog A) (f : A -> prog B) : prog B :=
  match p with Ret a => f a | Call a k => Call a (fun r => pbind (k r) f) | Crash => Crash end.

(** A program on the documented heap; [None]: undefined behaviour, an abort of the
    process, or a call that is not described. *)
Fixpoint run {A} (p : prog A) (h : heap) : option (A * heap) :=
  match p with
  | Ret a => Some (a, h)
  | Crash => None
  | Call a k => '(r, h) ← run_api a h; run (k r) h
  end.

(** An engine: its state shows a heap, and a call that is described acts on it as
    documented. *)
Class V8 (S : Type) := { view : S -> heap; call : api -> S -> option (ret * S) }.

Class V8Laws (S : Type) `{V8 S} : Prop := {
  call_law : forall a s r h, run_api a (view s) = Some (r, h) -> exists s', call a s = Some (r, s') /\ view s' = h
}.

Fixpoint exec {S A} `{V8 S} (p : prog A) (s : S) : option (A * S) :=
  match p with
  | Ret a => Some (a, s)
  | Crash => None
  | Call a k => '(r, s) ← call a s; exec (k r) s
  end.

(** What a program of described calls does it does on every engine. *)
Lemma exec_run {S A} `{V8Laws S} (p : prog A) (s : S) (a : A) (h : heap) :
  run p (view s) = Some (a, h) -> exists s', exec p s = Some (a, s') /\ view s' = h.
Proof.
  revert s. induction p as [x|x k IH|]; intros s; cbn; [intros [= <- <-]; eauto| |done].
  destruct (run_api x (view s)) as [[r h1]|] eqn:E; [|done]. cbn. intros Hk.
  destruct (call_law _ _ _ _ E) as (s1 & -> & <-). by apply IH.
Qed.

Lemma run_bind {A B} (p : prog A) (f : A -> prog B) (h : heap) :
  run (pbind p f) h = '(a, h) ← run p h; run (f a) h.
Proof.
  revert h. induction p as [a|a k IH|]; intros h; cbn; [done| |done].
  destruct (run_api a h) as [[r h']|]; cbn; [apply IH|done].
Qed.

(** An engine that counts its calls, and throws on those that are not described. *)
#[export] Instance counting_v8 : V8 (nat * heap) := {|
  view := snd;
  call a '(n, h) :=
    match run_api a h with Some (r, h) => Some (r, (S n, h)) | None => Some (RMaybe None, (S n, h)) end
|}.

#[export] Instance counting_v8_laws : V8Laws (nat * heap).
Proof. split. intros a [n s] r h E. exists (S n, h). cbn in E |- *. by rewrite E. Qed.

End Realm.

Declare Scope js_scope.
Delimit Scope js_scope with js.
Notation "x <- p ;; q" := (pbind p (fun x => q)) (at level 100, p at next level, right associativity) : js_scope.
Notation "p ;; q" := (pbind p (fun _ => q)) (at level 100, right associativity) : js_scope.
