(* ===== verification/Builtins.v ===== *)
(** ppnt-jr: the browser objects.

    [src/ppnt-jr/src/builtin]: the helpers that set properties
    ([helper.cpp]), the extensions that install [window], [navigator], [console],
    the timer functions, [fetch] and [XMLHttpRequest] on the global object of a new
    context ([*.cpp], [extension.cpp]), and the native functions behind them; and
    the part of [src/ppnt-jr/src/runtime.ixx] that makes a context and runs a
    script.  The programs run against the engine interface of [JsEngine.v]. *)

From stdpp Require Import gmap strings.
From S2P Require Import Prelude EventLoop JsEngine.

Local Open Scope Z_scope.
Local Open Scope js_scope.

(** ** helper.cpp *)

(** A [std::string_view]: its characters and the memory behind them. *)
Record string_view := MkView { chars : bytes; behind : bytes }.

(** A literal or a [std::string]: a zero byte follows. *)
Definition terminated (s : bytes) : string_view := MkView s [0].
Definition lit (s : string) : string_view := terminated (bs s).

(** [NewFromUtf8(isolate, data.data())] reads up to the first zero byte. *)
Definition str (data : string_view) : prog bytes :=
  match find_char 0 (chars data ++ behind data) with
  | Some n => Ret (take n (chars data ++ behind data))
  | None => Crash
  end.

Definition prop_attr (writable enumerable configurable : bool) : Z :=
  let attr := None_ in
  let attr := if negb writable then Z.lor attr ReadOnly else attr in
  let attr := if negb enumerable then Z.lor attr DontEnum else attr in
  if negb configurable then Z.lor attr DontDelete else attr.

Definition call_unit (a : api) : prog unit := Call a (fun r => match r with RUnit => Ret tt | _ => Crash end).
Definition call_handle (a : api) : prog Z := Call a (fun r => match r with RHandle z => Ret z | _ => Crash end).
Definition call_obj (a : api) : prog oid := Call a (fun r => match r with RObj o => Ret o | _ => Crash end).

(** [.Check()] aborts on an exception. *)
Definition call_check (a : api) : prog unit :=
  Call a (fun r => match r with RMaybe (Some _) => Ret tt | _ => Crash end).

Definition set_val_tmpl (tmpl : Z) (name : string_view) (val : value) (attr : Z) : prog unit :=
  s <- str name;; call_unit (Template_Set tmpl (Name s) (TValue val attr)).

Definition set_val_obj (obj : oid) (name : string_view) (val : value) : prog unit :=
  s <- str name;; call_check (Object_Set obj (Name s) val).

Definition set_val_obj_attr (obj : oid) (name : string_view) (val : value) (attr : Z) : prog unit :=
  s <- str name;; call_check (DefineOwnProperty obj (Name s) val attr).

(** The overload for templates passes the length. *)
Definition set_val_data (tmpl : Z) (name : string_view) (val : Z) (attr : Z) : prog unit :=
  call_unit (Template_Set tmpl (Name (chars name)) (TFun val attr)).

Definition set_accessor (tmpl : Z) (name : string_view) (getter : native) (setter : option native) (attr : Z) : prog unit :=
  s <- str name;; call_unit (Template_Set tmpl (Name s) (TNative getter setter attr)).

Definition set_method_tmpl (tmpl : Z) (name : string_view) (callback : native) (attr : Z) : prog unit :=
  func <- call_handle (FunctionTemplate_New callback);;
  v8_name <- str name;;
  call_unit (SetClassName func v8_name);;
  call_unit (Template_Set tmpl (Name v8_name) (TFun func attr)).

Definition set_method_obj (obj : oid) (name : string_view) (callback : native) (attr : Z) : prog unit :=
  v8_name <- str name;;
  func <- call_obj (Function_New callback);;
  call_unit (SetName func v8_name);;
  call_check (DefineOwnProperty obj (Name v8_name) (VObj func) attr).

Definition set_proto_method (ctor : Z) (name : string_view) (callback : native) (attr : Z) : prog unit :=
  t <- call_handle (PrototypeTemplate ctor);; set_method_tmpl t name callback attr.

Definition set_proto_val (ctor : Z) (name : string_view) (val : value) (attr : Z) : prog unit :=
  t <- call_handle (PrototypeTemplate ctor);; set_val_tmpl t name val attr.

Definition set_instance_val (ctor : Z) (name : string_view) (val : value) (attr : Z) : prog unit :=
  t <- call_handle (InstanceTemplate ctor);; set_val_tmpl t name val attr.

Definition define_data_property (obj : oid) (name : string_view) (val : value) (w e c : bool) : prog unit :=
  set_val_obj_attr obj name val (prop_attr w e c).

Definition define_method_property (obj : oid) (name : string_view) (callback : native) (w e c : bool) : prog unit :=
  set_method_obj obj name callback (prop_attr w e c).

Definition define_proto_data_property (ctor : Z) (name : string_view) (val : value) (w e c : bool) : prog unit :=
  set_proto_val ctor name val (prop_attr w e c).

Definition define_proto_method_property (ctor : Z) (name : string_view) (callback : native) (w e c : bool) : prog unit :=
  set_proto_method ctor name callback (prop_attr w e c).

Definition define_global_property (global : oid) (name : string_view) (val : value) (w e c : bool) : prog unit :=
  define_data_property global name val w e c.

Definition define_unforgeable_property (obj : oid) (name : string_view) (val : value) (w e : bool) : prog unit :=
  define_data_property obj name val w e false.

Definition set_proto (obj proto : oid) : prog unit := call_check (SetPrototypeV2 obj proto).

Definition get_proto (obj : oid) : prog oid := call_obj (GetPrototypeV2 obj).

Definition get_to_string_tag : key := ToStringTag.

Definition set_class_name (ctor : Z) (name : string_view) : prog unit :=
  v8_name <- str name;;
  call_unit (SetClassName ctor v8_name);;
  prop <- call_handle (PrototypeTemplate ctor);;
  call_unit (Template_Set prop get_to_string_tag (TValue (VStr v8_name) DontEnum)).

Definition set_interceptor (tmpl : Z) (getter : native) (setter : option native) : prog unit :=
  call_unit (SetHandler tmpl (MkHandler getter setter true)).

(** ** The extensions *)

(** window.cpp *)
Definition WindowExtension_setup_template : prog Z :=
  window_ctor <- call_handle (FunctionTemplate_New (IllegalConstructor (bs "Window")));;
  set_class_name window_ctor (lit "Window");;
  proto_tmpl <- call_handle (PrototypeTemplate window_ctor);;
  set_method_tmpl proto_tmpl (lit "alert") WindowAlert DontEnum;;
  instance_tmpl <- call_handle (InstanceTemplate window_ctor);;
  call_unit (SetInternalFieldCount instance_tmpl 1);;
  set_val_data instance_tmpl (lit "Window") window_ctor None_;;
  Ret instance_tmpl.

Definition WindowExtension_register (global : oid) : prog unit :=
  set_val_obj global (lit "window") (VObj global);;
  set_val_obj global (lit "globalThis") (VObj global).

(** navigator.cpp *)
Definition init_navigator_proto_tmpl (tmpl : Z) : prog unit :=
  s <- str (lit "userAgent");;
  f <- call_handle (FunctionTemplate_New GetUserAgent);;
  call_unit (Template_Set tmpl (Name s) (TAccessor f None_)).

Definition NavigatorExtension_register (global : oid) : prog unit :=
  navigator_tmpl <- call_handle (FunctionTemplate_New (IllegalConstructor (bs "Navigator")));;
  name <- str (lit "Navigator");;
  call_unit (SetClassName navigator_tmpl name);;
  proto_tmpl <- call_handle (PrototypeTemplate navigator_tmpl);;
  init_navigator_proto_tmpl proto_tmpl;;
  instance_tmpl <- call_handle (InstanceTemplate navigator_tmpl);;
  call_unit (SetHandler instance_tmpl (MkHandler NavigatorGetter None false));;
  navigator_instance <- call_obj (NewInstance instance_tmpl);;
  s <- str (lit "navigator");;
  call_check (Object_Set global (Name s) (VObj navigator_instance)).

(** console.cpp *)
Definition set_console_method (proto_tmpl : Z) (name : string) (callback : native) : prog unit :=
  s <- str (lit name);;
  f <- call_handle (FunctionTemplate_New callback);;
  call_unit (Template_Set proto_tmpl (Name s) (TFun f DontEnum)).

Definition setup_template : prog Z :=
  console_ctor <- call_handle (FunctionTemplate_New (IllegalConstructor (bs "Console")));;
  set_class_name console_ctor (lit "Console");;
  proto_tmpl <- call_handle (PrototypeTemplate console_ctor);;
  set_console_method proto_tmpl "log" ConsoleLog;;
  set_console_method proto_tmpl "debug" ConsoleDebug;;
  set_console_method proto_tmpl "info" ConsoleInfo;;
  set_console_method proto_tmpl "warn" ConsoleWarn;;
  set_console_method proto_tmpl "error" ConsoleError;;
  instance_tmpl <- call_handle (InstanceTemplate console_ctor);;
  call_unit (SetInternalFieldCount instance_tmpl 1);;
  Ret instance_tmpl.

Definition ConsoleExtension_register (global : oid) : prog unit :=
  console_tmpl <- setup_template;;
  console_obj <- call_obj (NewInstance console_tmpl);;
  s <- str (lit "console");;
  call_check (DefineOwnProperty global (Name s) (VObj console_obj) DontEnum).

(** timeout.cpp *)
Definition TimeoutExtension_register (global : oid) : prog unit :=
  define_method_property global (lit "setTimeout") JsSetTimeout true false true;;
  define_method_property global (lit "setInterval") JsSetInterval true false true;;
  define_method_property global (lit "clearTimeout") JsClearTimer true false true;;
  define_method_property global (lit "clearInterval") JsClearTimer true false true.

(** fetch.cpp *)
Definition FetchExtension_register (global : oid) : prog unit :=
  fetch_tmpl <- call_handle (FunctionTemplate_New FetchCallback);;
  fetch_fn <- call_obj (GetFunction fetch_tmpl);;
  name <- str (lit "fetch");;
  call_unit (SetName fetch_fn name);;
  call_check (Object_Set global (Name name) (VObj fetch_fn)).

(** XMLHttpRequest.cpp *)
Definition XMLHttpRequestExtension_register (global : oid) : prog unit :=
  xhr_tmpl <- call_handle (FunctionTemplate_New XhrConstructor);;
  name <- str (lit "XMLHttpRequest");;
  call_unit (SetClassName xhr_tmpl name);;
  instance_tmpl <- call_handle (InstanceTemplate xhr_tmpl);;
  call_unit (SetInternalFieldCount instance_tmpl 1);;
  prototype_tmpl <- call_handle (PrototypeTemplate xhr_tmpl);;
  open <- call_handle (FunctionTemplate_New XhrOpen);;
  call_unit (Template_Set prototype_tmpl (Name (bs "open")) (TFun open None_));;
  send <- call_handle (FunctionTemplate_New XhrSend);;
  call_unit (Template_Set prototype_tmpl (Name (bs "send")) (TFun send None_));;
  xhr_fn <- call_obj (GetFunction xhr_tmpl);;
  call_check (Object_Set global (Name name) (VObj xhr_fn)).

(** extension.cpp: the extensions in the order of the fold expression. *)
Fixpoint register_each (exts : list (oid -> prog unit)) (global : oid) : prog unit :=
  match exts with
  | [] => Ret tt
  | ext :: exts => ext global;; register_each exts global
  end.

Definition create (setup_template : prog Z) (register_extension : oid -> prog unit) (exts : list (oid -> prog unit)) : prog Z :=
  global_tmpl <- setup_template;;
  context <- call_handle (Context_New global_tmpl);;
  call_unit (Context_Enter context);;
  global_obj <- call_obj (Context_Global context);;
  register_extension global_obj;;
  register_each exts global_obj;;
  Ret context.

Definition register_all : prog Z :=
  create WindowExtension_setup_template WindowExtension_register
    [NavigatorExtension_register; ConsoleExtension_register; TimeoutExtension_register;
     FetchExtension_register; XMLHttpRequestExtension_register].

(** runtime.ixx *)
Definition bind_host_functions (context : Z) : prog unit :=
  global <- call_obj (Context_Global context);;
  cpp_delay <- call_obj (Function_New JsCppDelay);;
  s <- str (lit "cppDelay");;
  call_check (Object_Set global (Name s) (VObj cpp_delay)).

Definition reset_context_program : prog Z :=
  ctx <- register_all;;
  call_unit (Context_Enter ctx);;
  bind_host_functions ctx;;
  Ret ctx.

(** ** What the extensions install *)

(** The engine's handles are numbered in the order of their creation. *)
Definition oid_below (n : Z) (o : oid) : Prop :=
  match o with ONew x => x < n | OFun _ f | OProto _ f => f < n | OBase _ | OFunBase _ => False end.

Record bounded (h : heap) : Prop := {
  bounded_ft : forall f, is_Some (ftmpls h !! f) -> f < next h;
  bounded_ot : forall t, is_Some (otmpls h !! t) -> t < next h;
  bounded_frozen : forall f, f ∈ frozen h -> f < next h;
  bounded_objs : forall o, is_Some (objs h !! o) -> oid_below (next h) o
}.

(** What an assignment and a definition make of the properties of an object. *)
Definition assign (name : string) (v : value) (props : gmap key slot) : gmap key slot :=
  let k := Name (bs name) in
  <[k := match props !! k with Some (Data _ a) => Data v a | _ => Data v None_ end]> props.

Definition define (name : string) (v : value) (a : Z) (props : gmap key slot) : gmap key slot :=
  <[Name (bs name) := Data v a]> props.

Definition assignable (props : gmap key slot) (name : string) : Prop :=
  match props !! Name (bs name) with
  | None => True
  | Some (Data _ a) => writable a = true
  | Some _ => False
  end.

Definition definable (props : gmap key slot) (name : string) : Prop :=
  match props !! Name (bs name) with
  | None => True
  | Some (Data _ a) | Some (Accessor _ a) | Some (NativeData _ _ a) => configurable a = true
  end.

(** A program changes the properties of [g] by [F] and otherwise only adds to the
    heap. *)
Record grows (g : oid) (F : gmap key slot -> gmap key slot) (h h' : heap) : Prop := {
  grows_next : next h <= next h';
  grows_bounded : bounded h';
  grows_current : current h' = current h;
  grows_globals : globals h' = globals h;
  grows_ft : forall f ft, ftmpls h !! f = Some ft -> ftmpls h' !! f = Some ft;
  grows_objs : forall o r, objs h !! o = Some r -> o <> g -> objs h' !! o = Some r;
  grows_target : forall r, objs h !! g = Some r -> objs h' !! g = Some (set_props (F (oprops r)) r)
}.

(** The function object or native function a value runs when it is called. *)
Definition callee (h : heap) (o : oid) : option native :=
  match o with OFun _ f => cb <$> ftmpls h !! f | _ => objs h !! o ≫= ocall end.

(** An object that is no function and has no interceptor. *)
Definition plain (r : obj) : Prop := ocall r = None /\ ointercept r = None.

Lemma plain_described (r : obj) (k : key) : plain r -> described r k = true.
Proof. intros [Hc Hi]. unfold described. by rewrite Hc, Hi. Qed.

(** The global object inherits from [Window.prototype], which inherits from
    [Object.prototype]. *)
Definition window_like (h : heap) (g : oid) : Prop :=
  exists r p pr c, objs h !! g = Some r /\ plain r /\ oproto r = p /\ objs h !! p = Some pr /\ plain pr /\
    oproto pr = OBase c /\ p <> g /\
    forall name, Name (bs name) ∈ dom (oprops pr) -> bs name = bs "constructor" \/ bs name = bs "alert".

Lemma set_props_id (r : obj) : set_props (oprops r) r = r.
Proof. by destruct r. Qed.

Lemma grows_trans (g : oid) (F G : gmap key slot -> gmap key slot) (h h1 h2 : heap) :
  grows g F h h1 -> grows g G h1 h2 -> grows g (fun p => G (F p)) h h2.
Proof.
  intros H1 H2. split.
  - etrans; [apply H1|apply H2].
  - apply H2.
  - rewrite (grows_current _ _ _ _ H2). apply H1.
  - rewrite (grows_globals _ _ _ _ H2). apply H1.
  - intros f ft Hf. by apply H2, H1.
  - intros o r Ho Hne. apply H2; [|done]. by apply H1.
  - intros r Hr. pose proof (grows_target _ _ _ _ H1 r Hr) as E. by rewrite (grows_target _ _ _ _ H2 _ E).
Qed.

Lemma grows_callee (g : oid) (F : gmap key slot -> gmap key slot) (h h' : heap) (o : oid) (n : native) :
  grows g F h h' -> callee h o = Some n -> callee h' o = Some n.
Proof.
  intros HG.
  assert (Ho : objs h !! o ≫= ocall = Some n -> objs h' !! o ≫= ocall = Some n).
  { destruct (objs h !! o) as [r|] eqn:E; [|done]. destruct (decide (o = g)) as [->|Hne].
    - by rewrite (grows_target _ _ _ _ HG r E).
    - by rewrite (grows_objs _ _ _ _ HG o r E Hne). }
  destruct o as [x|c f|c f|c|c]; cbn; [exact Ho| |exact Ho|exact Ho|exact Ho].
  destruct (ftmpls h !! f) as [ft|] eqn:E; [|done]. by rewrite (grows_ft _ _ _ _ HG f ft E).
Qed.

(** Object [o], not [g], has the function [n] under [name]. *)
Definition has_method (g : oid) (h : heap) (o : oid) (a : Z) (m : string * native) : Prop :=
  exists r f, o <> g /\ objs h !! o = Some r /\ oprops r !! Name (bs m.1) = Some (Data (VObj f) a) /\
    callee h f = Some m.2.

Lemma grows_method (g : oid) (F : gmap key slot -> gmap key slot) (h h' : heap) (o : oid) (a : Z) (m : string * native) :
  grows g F h h' -> has_method g h o a m -> has_method g h' o a m.
Proof.
  intros HG (r & f & Hne & Ho & Hp & Hc). exists r, f.
  split; [done|]. split; [by apply (grows_objs _ _ _ _ HG)|]. split; [done|by eapply grows_callee].
Qed.

Lemma grows_window_like (g : oid) (F : gmap key slot -> gmap key slot) (h h' : heap) :
  grows g F h h' -> window_like h g -> window_like h' g.
Proof.
  intros HG (r & p & pr & c & Hg & Hpl & Hp & Hpr & Hppl & Hb & Hne & Hn).
  exists (set_props (F (oprops r)) r), p, pr, c. split; [by apply (grows_target _ _ _ _ HG)|]. split; [done|].
  split; [done|]. split; [by apply (grows_objs _ _ _ _ HG)|done].
Qed.

(** A change of the properties of [g] alone. *)
Lemma grows_props (g : oid) (F : gmap key slot -> gmap key slot) (h : heap) (r : obj) :
  bounded h -> objs h !! g = Some r ->
  grows g F h (set_objs (<[g := set_props (F (oprops r)) r]> (objs h)) h).
Proof.
  intros HB Hg. split; cbn; try done.
  - split; try apply HB. cbn. intros o. rewrite lookup_insert_is_Some'. intros [<-|Ho]; apply HB; [by eexists|done].
  - intros o r' Ho Hne. by rewrite lookup_insert_ne.
  - intros r' Hr'. rewrite Hg in Hr'. injection Hr' as <-. by rewrite lookup_insert_eq.
Qed.

Section Specs.
Context (intrinsics : Z -> gmap key slot).

Lemma define_grows (h : heap) (g : oid) (r : obj) (name : string) (v : value) (a : Z) :
  bounded h -> objs h !! g = Some r -> plain r -> definable (oprops r) name ->
  exists h', run intrinsics (call_check (DefineOwnProperty g (Name (bs name)) v a)) h = Some (tt, h') /\
    grows g (define name v a) h h'.
Proof.
  intros HB Hg Hpl Hd. eexists. split; [|by apply (grows_props g (define name v a) h r)].
  cbn -[bs lookup described]. rewrite Hg. cbn -[bs lookup described]. rewrite plain_described by done.
  cbn -[bs lookup]. unfold definable in Hd.
  assert (define_slot (oprops r !! Name (bs name)) v a = Some (Data v a)) as ->; [|done].
  unfold define_slot. destruct (oprops r !! Name (bs name)) as [[v0 a0|g0 a0|g0 s0 a0]|]; [by rewrite Hd..|done].
Qed.

Lemma assign_grows (h : heap) (g : oid) (r : obj) (name : string) (v : value) :
  bounded h -> objs h !! g = Some r -> window_like h g -> assignable (oprops r) name ->
  bool_decide (bs name ∈ bs "alert" :: base_names) = false ->
  exists h', run intrinsics (call_check (Object_Set g (Name (bs name)) v)) h = Some (tt, h') /\
    grows g (assign name v) h h'.
Proof.
  intros HB Hg (r' & p & pr & c & Hg' & Hpl & Hp & Hpr & Hppl & Hbase & Hne & Hn) Ha Hbn.
  rewrite Hg in Hg'. injection Hg' as <-. apply bool_decide_eq_false in Hbn.
  eexists. split; [|by apply (grows_props g (assign name v) h r)].
  cbn -[bs lookup base_names size described]. rewrite Hg. cbn -[bs lookup base_names size described].
  rewrite plain_described by done. cbn -[bs lookup base_names size].
  assert (Hs : set_slot r (Name (bs name)) v h =
    Some (Some (match oprops r !! Name (bs name) with Some (Data _ a) => Data v a | _ => Data v None_ end))).
  { unfold set_slot, assignable in *.
    destruct (oprops r !! Name (bs name)) as [[v0 a0|g0 a0|g0 s0 a0]|]; [by rewrite Ha|done|done|].
    assert (exists n, size (objs h) = S n) as [n ->].
    { destruct (size (objs h)) eqn:E; [|eauto]. apply map_size_empty_inv in E. by rewrite E, lookup_empty in Hg. }
    cbn [inherits_plain]. rewrite Hp, Hpr, plain_described by done.
    assert (oprops pr !! Name (bs name) = None) as ->.
    { apply not_elem_of_dom. intros Hd. apply Hbn. destruct (Hn name Hd) as [-> | ->]; [|left].
      right. unfold base_names. cbn -[bs]. left. }
    assert (objs h !! OBase c = None) as Hb0.
    { destruct (objs h !! OBase c) eqn:E; [|done]. by destruct (bounded_objs h HB (OBase c) ltac:(by eexists)). }
    rewrite Hbase. cbn [inherits_plain]. rewrite Hb0, decide_False; [done|]. intros Hin. apply Hbn. by right. }
  rewrite Hs. cbn. unfold assign. reflexivity.
Qed.

Lemma str_lit (s : string) : find_char 0 (bs s) = None -> str (lit s) = Ret (bs s).
Proof.
  intros H. unfold str. cbn [lit terminated chars behind].
  assert (find_char 0 (bs s ++ [0]) = Some (length (bs s))) as -> by (apply find_char_app; by apply find_char_None).
  by rewrite take_app_length.
Qed.

Lemma fresh_obj (h : heap) (o : oid) : bounded h -> ~ oid_below (next h) o -> objs h !! o = None.
Proof.
  intros HB Ho. destruct (objs h !! o) eqn:E; [|done]. destruct Ho. apply (bounded_objs h HB). by eexists.
Qed.

Lemma fresh_frozen (h : heap) (f : Z) : bounded h -> next h <= f -> f ∉ frozen h.
Proof. intros HB Hf Hin. pose proof (bounded_frozen h HB f Hin). lia. Qed.

(** Runs a program on the heap [h] with [B : bounded h]. *)
Ltac js_run B :=
  repeat first
    [ progress cbn -[Z.add lookup insert described instantiate change_otmpl new_instance bs str set_slot define_slot size]
    | rewrite str_lit by reflexivity
    | rewrite lookup_insert_eq
    | rewrite lookup_insert_ne by (lia || congruence)
    | rewrite decide_False by (apply fresh_frozen; [exact B|lia])
    | rewrite (fresh_obj _ (OFun _ _) B) by (cbn; lia)
    | progress unfold instantiate at 1
    | progress unfold new_instance at 1
    | progress unfold change_otmpl at 1 ].

(** [bounded] of the heap a run left: [L] is the fact on the heap before it. *)
Ltac below_next L :=
  let x := fresh in let H := fresh in
  intros x H; rewrite ?lookup_insert_is_Some', ?elem_of_union, ?elem_of_singleton in H;
  repeat (destruct H as [H|H]; [subst; cbn; lia|]);
  apply L in H; first [lia|destruct x; cbn in *; lia].

Ltac solve_bounded B :=
  split; cbn -[lookup insert Z.add];
  [ below_next (bounded_ft _ B) | below_next (bounded_ot _ B)
  | below_next (bounded_frozen _ B) | below_next (bounded_objs _ B) ].

(** [grows] from a heap with the object [g] to the one a run left. *)
Ltac solve_grows B Hg :=
  let HB := fresh in
  pose proof (bounded_objs _ B _ (mk_is_Some _ _ Hg)) as HB;
  split; cbn -[lookup insert Z.add];
  [ lia
  | solve_bounded B
  | reflexivity
  | reflexivity
  | let f := fresh in let E := fresh in
    intros f ? E; pose proof (bounded_ft _ B f (mk_is_Some _ _ E)); rewrite ?lookup_insert_ne by lia; exact E
  | let o := fresh in let E := fresh in let HB' := fresh in
    intros o ? E _; pose proof (bounded_objs _ B o (mk_is_Some _ _ E)) as HB';
    rewrite ?lookup_insert_ne by (intros <-; cbn in HB'; lia); exact E
  | let E := fresh in
    intros ? E; rewrite set_props_id; rewrite ?lookup_insert_ne by (intros <-; cbn in HB; lia); exact E ].

(** Lookups in the maps a run left. *)
Ltac find_new := repeat first [apply lookup_insert_eq | rewrite lookup_insert_ne by (lia || congruence)].

Ltac not_global B Hg := let H := fresh in
  pose proof (bounded_objs _ B _ (mk_is_Some _ _ Hg)) as H; cbn in H |- *; intros <-; cbn in H; lia.

(** A method of a prototype object a run made. *)
Ltac solve_method B Hg :=
  eexists _, _; split; [not_global B Hg|]; split; [cbn -[lookup insert Z.add]; find_new|];
  split; [reflexivity|]; cbn -[lookup insert Z.add];
  repeat first [rewrite lookup_insert_eq | rewrite lookup_insert_ne by lia]; reflexivity.

(** *** The console *)

Definition console_methods : list (string * native) :=
  [("log", ConsoleLog); ("debug", ConsoleDebug); ("info", ConsoleInfo); ("warn", ConsoleWarn); ("error", ConsoleError)]%string.

Definition console_like (g : oid) (h : heap) (o : oid) : Prop :=
  exists r, objs h !! o = Some r /\ o <> g /\ ofields r = 1 /\ Forall (has_method g h (oproto r) DontEnum) console_methods.

Lemma console_built (h : heap) (g : oid) (rg : obj) : bounded h -> objs h !! g = Some rg ->
  exists h' o, run intrinsics (t <- setup_template;; call_obj (NewInstance t)) h = Some (o, h') /\
    grows g id h h' /\ console_like g h' o.
Proof.
  intros B Hg. unfold setup_template, set_class_name, set_console_method.
  js_run B. eexists _, _. split; [reflexivity|]. split; [solve_grows B Hg|].
  eexists. split; [cbn; apply lookup_insert_eq|]. split; [not_global B Hg|]. split; [reflexivity|].
  repeat constructor; solve_method B Hg.
Qed.

(** A program that makes a value and then a call on [g]. *)
Lemma run_then {A} (p : prog A) (q : A -> prog unit) (h h1 : heap) (a : A) :
  run intrinsics p h = Some (a, h1) -> run intrinsics (pbind p q) h = run intrinsics (q a) h1.
Proof. intros E. rewrite run_bind, E. done. Qed.

Lemma grows_id (g : oid) (F : gmap key slot -> gmap key slot) (h h1 h2 : heap) (r : obj) :
  grows g id h h1 -> grows g F h1 h2 -> grows g F h h2.
Proof. intros H1 H2. exact (grows_trans g id F h h1 h2 H1 H2). Qed.

Lemma grows_same (g : oid) (h h1 : heap) (r : obj) : grows g id h h1 -> objs h !! g = Some r -> objs h1 !! g = Some r.
Proof. intros HG Hr. rewrite (grows_target _ _ _ _ HG r Hr). unfold id. by rewrite set_props_id. Qed.

Lemma grows_console (g : oid) (F : gmap key slot -> gmap key slot) (h h' : heap) (o : oid) :
  grows g F h h' -> console_like g h o -> console_like g h' o.
Proof.
  intros HG (r & Ho & Hne & Hf & HM). exists r. split; [by apply (grows_objs _ _ _ _ HG)|]. split; [done|]. split; [done|].
  eapply Forall_impl; [exact HM|]. intros m. by apply grows_method with (F := F).
Qed.

Lemma console_registers (h : heap) (g : oid) (r : obj) :
  bounded h -> objs h !! g = Some r -> plain r -> definable (oprops r) "console" ->
  exists h' o, run intrinsics (ConsoleExtension_register g) h = Some (tt, h') /\
    grows g (define "console" (VObj o) DontEnum) h h' /\ console_like g h' o.
Proof.
  intros B Hg Hpl Hd. destruct (console_built h g r B Hg) as (h1 & o & E & HG & HC).
  destruct (define_grows h1 g r "console" (VObj o) DontEnum) as (h2 & E2 & HG2);
    [apply HG|by apply (grows_same g h)|done|done|].
  exists h2, o. split; [|split; [by apply (grows_id g _ h h1 h2 r)|by eapply grows_console]].
  unfold ConsoleExtension_register. rewrite run_bind in E |- *.
  destruct (run intrinsics setup_template h) as [[t h0]|]; [|done]. cbn [mbind option_bind] in E |- *.
  rewrite (run_then _ _ _ _ _ E), str_lit by reflexivity. exact E2.
Qed.

(** *** The navigator *)

Definition navigator_like (g : oid) (h : heap) (o : oid) : Prop :=
  exists r pr f, o <> g /\ objs h !! o = Some r /\ ointercept r = Some (MkHandler NavigatorGetter None false) /\
    oproto r <> g /\ objs h !! oproto r = Some pr /\
    oprops pr !! Name (bs "userAgent") = Some (Accessor f None_) /\ callee h f = Some GetUserAgent.

Lemma grows_navigator (g : oid) (F : gmap key slot -> gmap key slot) (h h' : heap) (o : oid) :
  grows g F h h' -> navigator_like g h o -> navigator_like g h' o.
Proof.
  intros HG (r & pr & f & Hne & Ho & Hi & Hnp & Hpr & Hu & Hc). exists r, pr, f.
  split; [done|]. split; [by apply (grows_objs _ _ _ _ HG)|]. split; [done|]. split; [done|].
  split; [by apply (grows_objs _ _ _ _ HG)|]. split; [done|by eapply grows_callee].
Qed.

Lemma navigator_registers (h : heap) (g : oid) (r : obj) :
  bounded h -> objs h !! g = Some r -> window_like h g -> assignable (oprops r) "navigator" ->
  exists h' o, run intrinsics (NavigatorExtension_register g) h = Some (tt, h') /\
    grows g (assign "navigator" (VObj o)) h h' /\ navigator_like g h' o.
Proof.
  intros B Hg HW Ha. unfold NavigatorExtension_register, init_navigator_proto_tmpl.
  js_run B.
  match goal with |- context [set_slot _ _ (VObj ?x) ?y] => set (o := x); set (h1 := y) end.
  assert (HG : grows g id h h1) by (solve_grows B Hg).
  destruct (assign_grows h1 g r "navigator" (VObj o)) as (h2 & E2 & HG2);
    [apply HG|by apply (grows_same g h)|by eapply grows_window_like|done|reflexivity|].
  exists h2, o. split; [exact E2|]. split; [by apply (grows_id g _ h h1 h2 r)|].
  eapply grows_navigator; [exact HG2|].
  eexists _, _, _. split; [not_global B Hg|]. split; [cbn; find_new|]. split; [reflexivity|].
  split; [not_global B Hg|]. split; [cbn; find_new|]. split; [reflexivity|]. cbn -[Z.add lookup insert].
  by rewrite lookup_insert_eq.
Qed.

(** *** Functions *)

Lemma method_registers (h : heap) (g : oid) (r : obj) (name : string) (n : native) :
  bounded h -> objs h !! g = Some r -> plain r -> definable (oprops r) name -> find_char 0 (bs name) = None ->
  exists h' o, run intrinsics (define_method_property g (lit name) n true false true) h = Some (tt, h') /\
    grows g (define name (VObj o) DontEnum) h h' /\ callee h' o = Some n.
Proof.
  intros B Hg Hpl Hd Hz. unfold define_method_property, set_method_obj. rewrite str_lit by done.
  js_run B.
  match goal with |- context [Some (RMaybe (Some false), ?y)] => set (h1 := y) end.
  set (o := ONew (next h)).
  assert (HG : grows g id h h1) by (solve_grows B Hg).
  destruct (define_grows h1 g r name (VObj o) DontEnum) as (h2 & E2 & HG2);
    [apply HG|by apply (grows_same g h)|done|done|].
  exists h2, o. split; [exact E2|]. split; [by apply (grows_id g _ h h1 h2 r)|].
  eapply grows_callee; [exact HG2|]. cbn. by rewrite lookup_insert_eq.
Qed.

Lemma fetch_registers (h : heap) (g : oid) (r : obj) :
  bounded h -> objs h !! g = Some r -> window_like h g -> assignable (oprops r) "fetch" ->
  exists h' o, run intrinsics (FetchExtension_register g) h = Some (tt, h') /\
    grows g (assign "fetch" (VObj o)) h h' /\ callee h' o = Some FetchCallback.
Proof.
  intros B Hg HW Ha. unfold FetchExtension_register. js_run B.
  match goal with |- context [set_slot _ _ (VObj ?x) ?y] => set (o := x); set (h1 := y) end.
  assert (HG : grows g id h h1) by (solve_grows B Hg).
  destruct (assign_grows h1 g r "fetch" (VObj o)) as (h2 & E2 & HG2);
    [apply HG|by apply (grows_same g h)|by eapply grows_window_like|done|reflexivity|].
  exists h2, o. split; [exact E2|]. split; [by apply (grows_id g _ h h1 h2 r)|].
  eapply grows_callee; [exact HG2|]. cbn. by rewrite lookup_insert_eq.
Qed.

Definition xhr_methods : list (string * native) := [("open", XhrOpen); ("send", XhrSend)]%string.

Definition xhr_like (g : oid) (h : heap) (o : oid) : Prop :=
  o <> g /\ callee h o = Some XhrConstructor /\ exists r p a,
    objs h !! o = Some r /\ oprops r !! Name (bs "prototype") = Some (Data (VObj p) a) /\
    Forall (has_method g h p None_) xhr_methods.

Lemma grows_xhr (g : oid) (F : gmap key slot -> gmap key slot) (h h' : heap) (o : oid) :
  grows g F h h' -> xhr_like g h o -> xhr_like g h' o.
Proof.
  intros HG (Hne & Hc & r & p & a & Ho & Hp & HM). split; [done|]. split; [by eapply grows_callee|]. exists r, p, a.
  split; [by apply (grows_objs _ _ _ _ HG)|]. split; [done|].
  eapply Forall_impl; [exact HM|]. intros m. by apply grows_method with (F := F).
Qed.

Lemma xhr_registers (h : heap) (g : oid) (r : obj) :
  bounded h -> objs h !! g = Some r -> window_like h g -> assignable (oprops r) "XMLHttpRequest" ->
  exists h' o, run intrinsics (XMLHttpRequestExtension_register g) h = Some (tt, h') /\
    grows g (assign "XMLHttpRequest" (VObj o)) h h' /\ xhr_like g h' o.
Proof.
  intros B Hg HW Ha. unfold XMLHttpRequestExtension_register. js_run B.
  match goal with |- context [set_slot _ _ (VObj ?x) ?y] => set (o := x); set (h1 := y) end.
  assert (HG : grows g id h h1) by (solve_grows B Hg).
  destruct (assign_grows h1 g r "XMLHttpRequest" (VObj o)) as (h2 & E2 & HG2);
    [apply HG|by apply (grows_same g h)|by eapply grows_window_like|done|reflexivity|].
  exists h2, o. split; [exact E2|]. split; [by apply (grows_id g _ h h1 h2 r)|].
  eapply grows_xhr; [exact HG2|]. split; [not_global B Hg|]. split.
  - cbn -[Z.add lookup insert]. repeat first [rewrite lookup_insert_eq | rewrite lookup_insert_ne by lia]. reflexivity.
  - eexists _, _, _. split; [cbn; find_new|]. split; [reflexivity|]. repeat constructor; solve_method B Hg.
Qed.

(** *** The window *)

(** A new context: its global object has the constructor [Window] beside what
    contexts have by themselves, inherits [alert], and is the current one. *)
Lemma window_creates (h : heap) : bounded h -> (forall c, intrinsics c !! Name (bs "Window") = None) ->
  exists h' c g r w,
    run intrinsics (t <- WindowExtension_setup_template;; c <- call_handle (Context_New t);;
      call_unit (Context_Enter c);; g <- call_obj (Context_Global c);; Ret (c, g)) h = Some ((c, g), h') /\
    bounded h' /\ current h' = c /\ globals h' !! c = Some g /\ objs h' !! g = Some r /\ window_like h' g /\
    oprops r = <[Name (bs "Window") := Data (VObj w) None_]> (intrinsics c) /\
    callee h' w = Some (IllegalConstructor (bs "Window")) /\ has_method g h' (oproto r) DontEnum ("alert"%string, WindowAlert).
Proof.
  intros B Hw. unfold WindowExtension_setup_template, set_class_name, set_method_tmpl, set_val_data. js_run B.
  eexists _, _, _, _, _. split; [reflexivity|]. split; [solve_bounded B|].
  split; [reflexivity|]. split; [apply lookup_insert_eq|]. split; [cbn; apply lookup_insert_eq|]. split.
  - eexists _, _, _, _. split; [cbn; apply lookup_insert_eq|]. split; [by split|]. split; [reflexivity|].
    split; [cbn; find_new|]. split; [by split|]. split; [reflexivity|]. split; [done|]. intros name. cbn -[bs].
    rewrite dom_fmap_L, dom_union_L, dom_singleton_L, !dom_insert_L, dom_empty_L.
    rewrite !elem_of_union, !elem_of_singleton. intros [E|[E|[E|E]]]; [left|right|done|by apply not_elem_of_empty in E].
    all: by injection E.
  - split; [cbn -[bs insert]; rewrite fmap_insert, fmap_empty, <- insert_union_l, map_empty_union; reflexivity|].
    split; [cbn -[bs insert lookup Z.add]; repeat first [rewrite lookup_insert_eq | rewrite lookup_insert_ne by lia]; reflexivity|].
    eexists _, _. split; [done|]. split; [cbn; find_new|]. split; [reflexivity|].
    cbn -[bs insert lookup Z.add]; repeat first [rewrite lookup_insert_eq | rewrite lookup_insert_ne by lia]; reflexivity.
Qed.

(** *** A context *)

(** The objects behind the names the program installs. *)
Record browser := MkBrowser {
  b_window : oid; b_navigator : oid; b_console : oid;
  b_setTimeout : oid; b_setInterval : oid; b_clearTimeout : oid; b_clearInterval : oid;
  b_fetch : oid; b_xhr : oid; b_cppDelay : oid
}.

(** The properties of the global object [g] of context [c]. *)
Definition global_props (c : Z) (g : oid) (b : browser) : gmap key slot :=
  assign "cppDelay" (VObj (b_cppDelay b)) (assign "XMLHttpRequest" (VObj (b_xhr b)) (assign "fetch" (VObj (b_fetch b))
  (define "clearInterval" (VObj (b_clearInterval b)) DontEnum (define "clearTimeout" (VObj (b_clearTimeout b)) DontEnum
  (define "setInterval" (VObj (b_setInterval b)) DontEnum (define "setTimeout" (VObj (b_setTimeout b)) DontEnum
  (define "console" (VObj (b_console b)) DontEnum (assign "navigator" (VObj (b_navigator b))
  (assign "globalThis" (VObj g) (assign "window" (VObj g)
  (<[Name (bs "Window") := Data (VObj (b_window b)) None_]> (intrinsics c)))))))))))).

(** The objects do what their names say. *)
Record browser_ok (h : heap) (g : oid) (b : browser) : Prop := {
  ok_window : callee h (b_window b) = Some (IllegalConstructor (bs "Window"));
  ok_navigator : navigator_like g h (b_navigator b);
  ok_console : console_like g h (b_console b);
  ok_setTimeout : callee h (b_setTimeout b) = Some JsSetTimeout;
  ok_setInterval : callee h (b_setInterval b) = Some JsSetInterval;
  ok_clearTimeout : callee h (b_clearTimeout b) = Some JsClearTimer;
  ok_clearInterval : callee h (b_clearInterval b) = Some JsClearTimer;
  ok_fetch : callee h (b_fetch b) = Some FetchCallback;
  ok_xhr : xhr_like g h (b_xhr b);
  ok_cppDelay : callee h (b_cppDelay b) = Some JsCppDelay
}.

(** What a new context has by itself leaves room for the names. *)
Definition room : Prop := forall c,
  intrinsics c !! Name (bs "Window") = None /\
  Forall (assignable (intrinsics c)) ["window"; "globalThis"; "navigator"; "fetch"; "XMLHttpRequest"; "cppDelay"]%string /\
  Forall (definable (intrinsics c)) ["console"; "setTimeout"; "setInterval"; "clearTimeout"; "clearInterval"]%string.

(** A name is as free as before other names were set. *)
Ltac still_free :=
  unfold assignable, definable, assign, define; cbn [oprops set_props];
  rewrite ?lookup_insert_ne by done.

(** The extensions, one after the other, on a global object. *)
Lemma window_registers (h : heap) (g : oid) (r : obj) :
  bounded h -> objs h !! g = Some r -> window_like h g -> assignable (oprops r) "window" -> assignable (oprops r) "globalThis" ->
  exists h', run intrinsics (WindowExtension_register g) h = Some (tt, h') /\
    grows g (fun p => assign "globalThis" (VObj g) (assign "window" (VObj g) p)) h h'.
Proof.
  intros B Hg HW Ha1 Ha2.
  destruct (assign_grows h g r "window" (VObj g) B Hg HW Ha1 eq_refl) as (h1 & E1 & HG1).
  pose proof (grows_target _ _ _ _ HG1 r Hg) as Hg1.
  destruct (assign_grows h1 g _ "globalThis" (VObj g) (grows_bounded _ _ _ _ HG1) Hg1) as (h2 & E2 & HG2);
    [by eapply grows_window_like|by still_free|done|].
  exists h2. split; [|by eapply grows_trans].
  unfold WindowExtension_register, set_val_obj. rewrite !str_lit by done. rewrite run_bind.
  replace (run intrinsics (pbind (Ret (bs "window")) _) h) with (Some (tt, h1)) by (symmetry; exact E1). exact E2.
Qed.

Lemma timeout_registers (h : heap) (g : oid) (r : obj) :
  bounded h -> objs h !! g = Some r -> plain r ->
  Forall (definable (oprops r)) ["setTimeout"; "setInterval"; "clearTimeout"; "clearInterval"]%string ->
  exists h' t1 t2 t3 t4, run intrinsics (TimeoutExtension_register g) h = Some (tt, h') /\
    grows g (fun p => define "clearInterval" (VObj t4) DontEnum (define "clearTimeout" (VObj t3) DontEnum
      (define "setInterval" (VObj t2) DontEnum (define "setTimeout" (VObj t1) DontEnum p)))) h h' /\
    callee h' t1 = Some JsSetTimeout /\ callee h' t2 = Some JsSetInterval /\
    callee h' t3 = Some JsClearTimer /\ callee h' t4 = Some JsClearTimer.
Proof.
  intros B Hg Hpl HD. rewrite !Forall_cons in HD. destruct HD as (D1 & D2 & D3 & D4 & _).
  destruct (method_registers h g r "setTimeout" JsSetTimeout B Hg Hpl D1 eq_refl) as (h1 & t1 & E1 & G1 & C1).
  pose proof (grows_target _ _ _ _ G1 r Hg) as Hg1.
  destruct (method_registers h1 g _ "setInterval" JsSetInterval (grows_bounded _ _ _ _ G1) Hg1) as (h2 & t2 & E2 & G2 & C2);
    [done|by still_free|done|].
  pose proof (grows_target _ _ _ _ G2 _ Hg1) as Hg2.
  destruct (method_registers h2 g _ "clearTimeout" JsClearTimer (grows_bounded _ _ _ _ G2) Hg2) as (h3 & t3 & E3 & G3 & C3);
    [done|by still_free|done|].
  pose proof (grows_target _ _ _ _ G3 _ Hg2) as Hg3.
  destruct (method_registers h3 g _ "clearInterval" JsClearTimer (grows_bounded _ _ _ _ G3) Hg3) as (h4 & t4 & E4 & G4 & C4);
    [done|by still_free|done|].
  exists h4, t1, t2, t3, t4. split.
  - unfold TimeoutExtension_register. by rewrite (run_then _ _ _ _ _ E1), (run_then _ _ _ _ _ E2), (run_then _ _ _ _ _ E3).
  - split; [exact (grows_trans g _ _ h h3 h4 (grows_trans g _ _ h h2 h3 (grows_trans g _ _ h h1 h2 G1 G2) G3) G4)|].
    repeat split; repeat first [done|eapply grows_callee; [eassumption|]].
Qed.

Lemma extensions_register (h : heap) (g : oid) (r : obj) :
  bounded h -> objs h !! g = Some r -> window_like h g ->
  Forall (assignable (oprops r)) ["navigator"; "fetch"; "XMLHttpRequest"]%string ->
  Forall (definable (oprops r)) ["console"; "setTimeout"; "setInterval"; "clearTimeout"; "clearInterval"]%string ->
  exists h' nav con t1 t2 t3 t4 fe xhr,
    run intrinsics (register_each [NavigatorExtension_register; ConsoleExtension_register; TimeoutExtension_register;
      FetchExtension_register; XMLHttpRequestExtension_register] g) h = Some (tt, h') /\
    grows g (fun p => assign "XMLHttpRequest" (VObj xhr) (assign "fetch" (VObj fe)
      (define "clearInterval" (VObj t4) DontEnum (define "clearTimeout" (VObj t3) DontEnum
      (define "setInterval" (VObj t2) DontEnum (define "setTimeout" (VObj t1) DontEnum
      (define "console" (VObj con) DontEnum (assign "navigator" (VObj nav) p)))))))) h h' /\
    navigator_like g h' nav /\ console_like g h' con /\
    callee h' t1 = Some JsSetTimeout /\ callee h' t2 = Some JsSetInterval /\
    callee h' t3 = Some JsClearTimer /\ callee h' t4 = Some JsClearTimer /\
    callee h' fe = Some FetchCallback /\ xhr_like g h' xhr.
Proof.
  intros B Hg HW HA HD. rewrite !Forall_cons in HA. rewrite !Forall_cons in HD. destruct HA as (A1 & A2 & A3 & _).
  destruct HD as (D0 & D1 & D2 & D3 & D4 & _).
  destruct (navigator_registers h g r B Hg HW A1) as (h1 & nav & E1 & G1 & O1).
  pose proof (grows_target _ _ _ _ G1 r Hg) as Hg1.
  assert (Hpl : plain r) by (destruct HW as (r' & ? & ? & ? & Hg' & ? & _); rewrite Hg in Hg'; by injection Hg' as ->).
  destruct (console_registers h1 g _ (grows_bounded _ _ _ _ G1) Hg1) as (h2 & con & E2 & G2 & O2); [done|by still_free|].
  pose proof (grows_target _ _ _ _ G2 _ Hg1) as Hg2.
  destruct (timeout_registers h2 g _ (grows_bounded _ _ _ _ G2) Hg2) as (h3 & t1 & t2 & t3 & t4 & E3 & G3 & C1 & C2 & C3 & C4);
    [done|repeat constructor; by still_free|].
  pose proof (grows_target _ _ _ _ G3 _ Hg2) as Hg3.
  pose proof (grows_trans g _ _ h h2 h3 (grows_trans g _ _ h h1 h2 G1 G2) G3) as G03.
  destruct (fetch_registers h3 g _ (grows_bounded _ _ _ _ G3) Hg3) as (h4 & fe & E4 & G4 & C5);
    [by eapply grows_window_like|by still_free|].
  pose proof (grows_target _ _ _ _ G4 _ Hg3) as Hg4.
  destruct (xhr_registers h4 g _ (grows_bounded _ _ _ _ G4) Hg4) as (h5 & xhr & E5 & G5 & O5);
    [eapply grows_window_like; [exact G4|by eapply grows_window_like]|by still_free|].
  pose proof (grows_trans g _ _ h h4 h5 (grows_trans g _ _ h h3 h4 G03 G4) G5) as G05.
  pose proof (grows_trans g _ _ h3 h4 h5 G4 G5) as G35.
  exists h5, nav, con, t1, t2, t3, t4, fe, xhr. split.
  { cbn [register_each]. rewrite (run_then _ _ _ _ _ E1), (run_then _ _ _ _ _ E2), (run_then _ _ _ _ _ E3),
      (run_then _ _ _ _ _ E4), (run_then _ _ _ _ _ E5). done. }
  split; [exact G05|].
  split; [exact (grows_navigator g _ _ _ _ (grows_trans g _ _ h1 h3 h5 (grows_trans g _ _ h1 h2 h3 G2 G3) G35) O1)|].
  split; [exact (grows_console g _ _ _ _ (grows_trans g _ _ h2 h3 h5 G3 G35) O2)|].
  split; [exact (grows_callee g _ _ _ _ _ G35 C1)|]. split; [exact (grows_callee g _ _ _ _ _ G35 C2)|].
  split; [exact (grows_callee g _ _ _ _ _ G35 C3)|]. split; [exact (grows_callee g _ _ _ _ _ G35 C4)|].
  split; [exact (grows_callee g _ _ _ _ _ G5 C5)|done].
Qed.

Lemma host_functions_bind (h : heap) (c : Z) (g : oid) (r : obj) :
  bounded h -> current h = c -> globals h !! c = Some g -> objs h !! g = Some r -> window_like h g ->
  assignable (oprops r) "cppDelay" ->
  exists h' o, run intrinsics (call_unit (Context_Enter c);; bind_host_functions c) h = Some (tt, h') /\
    grows g (assign "cppDelay" (VObj o)) h h' /\ callee h' o = Some JsCppDelay.
Proof.
  intros B Hcur Hc Hg HW Ha. set (o := ONew (next h)).
  set (h1 := MkHeap (next h + 2) (ftmpls h) (otmpls h) (frozen h)
    (<[o := MkObj {[Name (bs "prototype") := Data (VObj (ONew (next h + 1))) (Z.lor DontEnum DontDelete)]}
        (OFunBase c) (Some JsCppDelay) [] 0 None]>
      (<[ONew (next h + 1) := MkObj {[Name (bs "constructor") := Data (VObj o) DontEnum]} (OBase c) None [] 0 None]>
        (objs h))) (globals h) (current h)).
  assert (HG : grows g id h h1) by (solve_grows B Hg).
  destruct (assign_grows h1 g r "cppDelay" (VObj o)) as (h2 & E2 & HG2);
    [apply HG|by apply (grows_same g h)|by apply (grows_window_like g id h)|done|reflexivity|].
  exists h2, o. split; [|split; [by apply (grows_id g _ h h1 h2 r)|]].
  - cbn -[bs str lookup insert set_slot]. rewrite Hc. cbn -[bs str lookup insert set_slot].
    rewrite Hc. cbn -[bs str lookup insert set_slot].
    rewrite str_lit by done. rewrite <- E2. unfold h1. rewrite Hcur. reflexivity.
  - eapply grows_callee; [exact HG2|]. cbn. by rewrite lookup_insert_eq.
Qed.

(** The parts of the program, run one after the other. *)
Lemma reset_context_chain (h h1 h2 h3 h4 : heap) (c : Z) (g : oid) :
  run intrinsics (t <- WindowExtension_setup_template;; c <- call_handle (Context_New t);;
    call_unit (Context_Enter c);; g <- call_obj (Context_Global c);; Ret (c, g)) h = Some ((c, g), h1) ->
  run intrinsics (WindowExtension_register g) h1 = Some (tt, h2) ->
  run intrinsics (register_each [NavigatorExtension_register; ConsoleExtension_register; TimeoutExtension_register;
    FetchExtension_register; XMLHttpRequestExtension_register] g) h2 = Some (tt, h3) ->
  run intrinsics (call_unit (Context_Enter c);; bind_host_functions c) h3 = Some (tt, h4) ->
  run intrinsics reset_context_program h = Some (c, h4).
Proof.
  intros E1 E2 E3 E4. unfold reset_context_program, register_all, create.
  rewrite run_bind. rewrite run_bind in E1 |- *. destruct (run intrinsics WindowExtension_setup_template h) as [[t h0]|]; [|done].
  cbn [mbind option_bind] in E1 |- *. rewrite run_bind in E1 |- *.
  destruct (run intrinsics (call_handle (Context_New t)) h0) as [[c0 h0']|]; [|done].
  cbn [mbind option_bind] in E1 |- *. rewrite run_bind in E1 |- *.
  destruct (run intrinsics (call_unit (Context_Enter c0)) h0') as [[[] h01]|]; [|done].
  cbn [mbind option_bind] in E1 |- *. rewrite run_bind in E1 |- *.
  destruct (run intrinsics (call_obj (Context_Global c0)) h01) as [[g0 h00]|]; [|done].
  cbn in E1. injection E1 as -> -> ->. cbn [mbind option_bind].
  rewrite run_bind, E2. cbn [mbind option_bind]. rewrite run_bind, E3. cbn [mbind option_bind run].
  rewrite run_bind in E4 |- *.
  destruct (run intrinsics (call_unit (Context_Enter c)) h3) as [[[] h5]|]; [|done].
  cbn [mbind option_bind] in E4 |- *. rewrite run_bind, E4. done.
Qed.

(** The whole program on the documented heap. *)
Lemma reset_context_runs (h : heap) : bounded h -> room ->
  exists h' c g r b, run intrinsics reset_context_program h = Some (c, h') /\
    bounded h' /\ globals h' !! c = Some g /\ objs h' !! g = Some r /\
    oprops r = global_props c g b /\ browser_ok h' g b /\ has_method g h' (oproto r) DontEnum ("alert"%string, WindowAlert).
Proof.
  intros B HR. destruct (window_creates h B (fun c => proj1 (HR c))) as (h1 & c & g & r & w & E1 & B1 & Hcur & Hgl & Hg & HW & Hp & Hw & Hal).
  destruct (HR c) as (HN & HA & HD). rewrite !Forall_cons in HA. rewrite !Forall_cons in HD.
  destruct HA as (A1 & A2 & A3 & A4 & A5 & A6 & _), HD as (D0 & D1 & D2 & D3 & D4 & _).
  destruct (window_registers h1 g r B1 Hg HW) as (h2 & E2 & G2); [rewrite Hp; by still_free..|].
  pose proof (grows_target _ _ _ _ G2 r Hg) as Hg2. pose proof (grows_window_like _ _ _ _ G2 HW) as HW2.
  destruct (extensions_register h2 g _ (grows_bounded _ _ _ _ G2) Hg2 HW2)
    as (h3 & nav & con & t1 & t2 & t3 & t4 & fe & xhr & E3 & G3 & ON & OC & C1 & C2 & C3 & C4 & C5 & OX);
    [repeat constructor; still_free; rewrite Hp; by still_free..|].
  pose proof (grows_target _ _ _ _ G3 _ Hg2) as Hg3. pose proof (grows_window_like _ _ _ _ G3 HW2) as HW3.
  pose proof (grows_trans g _ _ h1 h2 h3 G2 G3) as G13.
  assert (Hcur3 : current h3 = c) by (by rewrite (grows_current _ _ _ _ G13)).
  assert (Hgl3 : globals h3 !! c = Some g) by (by rewrite (grows_globals _ _ _ _ G13)).
  destruct (host_functions_bind h3 c g _ (grows_bounded _ _ _ _ G3) Hcur3 Hgl3 Hg3 HW3) as (h4 & cpp & E4 & G4 & C6);
    [still_free; rewrite Hp; by still_free|].
  pose proof (grows_trans g _ _ h1 h3 h4 G13 G4) as G14.
  exists h4, c, g, (set_props (global_props c g (MkBrowser w nav con t1 t2 t3 t4 fe xhr cpp)) r), (MkBrowser w nav con t1 t2 t3 t4 fe xhr cpp).
  split; [by apply (reset_context_chain h h1 h2 h3 h4 c g)|].
  split; [apply G4|]. split; [by rewrite (grows_globals _ _ _ _ G14)|].
  split; [rewrite (grows_target _ _ _ _ G14 r Hg), Hp; reflexivity|]. split; [done|]. split; [|exact (grows_method g _ _ _ _ _ _ G14 Hal)].
  split; cbn [b_window b_navigator b_console b_setTimeout b_setInterval b_clearTimeout b_clearInterval b_fetch b_xhr b_cppDelay].
  - exact (grows_callee g _ _ _ _ _ G14 Hw).
  - exact (grows_navigator g _ _ _ _ G4 ON).
  - exact (grows_console g _ _ _ _ G4 OC).
  - exact (grows_callee g _ _ _ _ _ G4 C1).
  - exact (grows_callee g _ _ _ _ _ G4 C2).
  - exact (grows_callee g _ _ _ _ _ G4 C3).
  - exact (grows_callee g _ _ _ _ _ G4 C4).
  - exact (grows_callee g _ _ _ _ _ G4 C5).
  - exact (grows_xhr g _ _ _ _ G4 OX).
  - exact C6.
Qed.
End Specs.


(** What a context has by itself: itself, and a console. *)
Definition sample_intrinsics (c : Z) : gmap key slot :=
  {[Name (bs "globalThis") := Data (VObj (OBase c)) DontEnum; Name (bs "console") := Data (VObj (OBase c)) DontEnum]}.


(** [str] gives the engine the characters of its view exactly when there is no
    zero byte among them and one behind them.  With a zero byte inside, the rest is
    lost; without one behind, it goes on into the memory after the view, up to a
    zero byte or out of bounds. *)
Theorem str_exact (data : string_view) :
  (str data = Ret (chars data) <-> (0 ∉ chars data) /\ head (behind data) = Some 0) /\
  (forall a b, chars data = a ++ 0 :: b -> 0 ∉ a -> str data = Ret a) /\
  (forall a b, (0 ∉ chars data) -> behind data = a ++ 0 :: b -> 0 ∉ a -> str data = Ret (chars data ++ a)) /\
  ((0 ∉ chars data ++ behind data) -> str data = Crash).
Proof.
  destruct data as [cs bh]. unfold str. cbn [chars behind].
  assert (Hcut : forall a b, 0 ∉ a -> cs ++ bh = a ++ 0 :: b ->
    match find_char 0 (cs ++ bh) with Some n => Ret (take n (cs ++ bh)) | None => Crash end = Ret a).
  { intros a b Ha ->. by rewrite find_char_app, take_app_length. }
  split; [split|split; [|split]].
  - destruct (find_char 0 (cs ++ bh)) as [n|] eqn:E; [|done]. intros [= Ht].
    apply find_if_Some in E as (a & c & b & E & <- & Hall & Hc). apply Z.eqb_eq in Hc. subst c.
    rewrite E, take_app_length in Ht. subst a. apply app_inv_head in E as ->. split; [|done].
    apply (find_char_None 0). by apply find_if_None.
  - intros [Hc Hb]. destruct bh as [|z bh]; [done|]. injection Hb as ->. by apply (Hcut cs bh).
  - intros a b -> Ha. rewrite <- app_assoc in *. by apply (Hcut a (b ++ bh)).
  - intros a b Hc -> Ha. apply (Hcut (cs ++ a) b); [|by rewrite <- app_assoc].
    rewrite not_elem_of_app. done.
  - intros Hn. by rewrite (proj2 (find_char_None 0 _) Hn).
Qed.
