(* ===== verification/Natives.v ===== *)
(** ppnt-jr: the native functions of the browser objects, and the script runner.

    The callbacks of [src/ppnt-jr/src/builtin/*.cpp] and
    [src/ppnt-jr/src/builtin/helper.ixx], and of [src/ppnt-jr/src/runtime.ixx]
    [js_cpp_delay] with the promise it returns and [execute_script], with [main] of
    [src/ppnt-jr/bin/v8_test1.cpp].  JavaScript
    values and the queries of the engine on them are parameters; a callback leaves
    what it logs and how it returns to JavaScript. *)

From stdpp Require Import gmap strings.
From S2P Require Import Prelude Err EventLoop JsEngine Builtins.

Local Open Scope Z_scope.

(** ** Callbacks *)

(** How a callback returns; [Undefined_] when it sets no return value. *)
Inductive reply := Undefined_ | This | Text (s : bytes) | Promise (p : Z) | TypeError (m : bytes) | GenericError (m : bytes).

(** What a callback did; the process aborts or has undefined behaviour where a
    callback gives no effect. *)
Record effect := MkEffect { logs : list (log_level * bytes); replied : reply }.

(** [v8::FunctionCallbackInfo]. *)
Record call_info (V : Type) := MkInfo { is_construct : bool; arguments : list V }.
#[global] Arguments MkInfo {V}.
#[global] Arguments is_construct {V}.
#[global] Arguments arguments {V}.

(** [str] as the callbacks use it: on literals and strings of their own. *)
Definition str_of (s : bytes) : bytes := match find_char 0 s with Some n => take n s | None => s end.

Definition illegal_constructor (class_name : bytes) (construct : bool) : effect :=
  if construct then MkEffect [] (TypeError (str_of (bs "Failed to construct '" ++ class_name ++ bs "': Illegal constructor")))
  else MkEffect [] (TypeError (bs "Illegal constructor")).

Section Callbacks.

(** The values of the engine and its strings: [to_string] is [ToString] and fails
    when the conversion throws; [utf8] is a null pointer when there is no text. *)
Context {V Str : Type}.
Context (to_string : V -> option Str) (utf8 : Str -> option bytes).

(** *** console.cpp *)

Fixpoint append_args (i : nat) (info : list V) (line : bytes) : option bytes :=
  match info with
  | [] => Some line
  | arg :: info =>
      let line := if (0 <? i)%nat then line ++ bs " " else line in
      s ← to_string arg;
      append_args (S i) info (line ++ default (bs "<non-utf8>") (utf8 s))
  end.

Definition stringify_args (info : list V) (level : bytes) : option bytes :=
  append_args 0 info (level ++ bs " ").

Definition console_call (l : log_level) (prefix tag : string) (info : call_info V) : option effect :=
  line ← stringify_args (arguments info) (bs tag);
  Some (MkEffect [(l, bs prefix ++ line)] Undefined_).

Definition console_debug : call_info V -> option effect := console_call Debug "[JS DEBUG]: " "[debug]".
Definition console_log : call_info V -> option effect := console_call Debug "[JS LOG]: " "[log]".
Definition console_info : call_info V -> option effect := console_call Info "[JS INFO]: " "[info]".
Definition console_warn : call_info V -> option effect := console_call Warn "[JS WARN]: " "[warn]".
Definition console_error : call_info V -> option effect := console_call Err.Error "[JS ERROR]: " "[error]".

(** *** fetch.cpp *)

Fixpoint fetch_params (i : nat) (info : list V) (msg : bytes) : option bytes :=
  match info with
  | [] => Some msg
  | arg :: info =>
      text ← match to_string arg with
             | Some s => utf8 s
             | None => Some (bs "??")
             end;
      fetch_params (S i) info (msg ++ [10] ++ bs " param[" ++ to_string_int (Z.of_nat i) ++ bs "] = " ++ text)
  end.

Definition print_fetch_param (info : call_info V) : option bytes :=
  fetch_params 0 (arguments info)
    (bs "fetch called with " ++ to_string_int (Z.of_nat (length (arguments info))) ++ bs " params").

(** [this_file] is the name of the source file in [std::source_location]. *)
Definition fetch_callback (this_file : bytes) (info : call_info V) : option effect :=
  if is_construct info then Some (MkEffect [] (TypeError (bs "fetch is not a constructor")))
  else
    msg ← print_fetch_param info;
    Some (MkEffect [(Info, msg)] (GenericError (str_of (bs "TODO fetch at " ++ this_file ++ bs ":41")))).

(** *** XMLHttpRequest.cpp *)

Definition xhr_constructor_callback (info : call_info V) : effect :=
  if negb (is_construct info) then MkEffect [] (TypeError (bs "Failed to construct 'XMLHttpRequest': Please use the 'new' operator, this DOM object constructor cannot be called as a function."))
  else MkEffect [] This.

Definition xhr_open_callback (info : call_info V) : effect :=
  if (length (arguments info) <? 2)%nat then
    MkEffect [] (TypeError (bs "Failed to execute 'open' on 'XMLHttpRequest': 2 arguments required"))
  else MkEffect [(Info, bs "XHR.open called with " ++ to_string_int (Z.of_nat (length (arguments info))) ++ bs " params")] Undefined_.

Definition xhr_send_callback (info : call_info V) : effect := MkEffect [(Info, bs "XHR.send called")] Undefined_.

(** *** window.cpp *)

Definition window_alert (info : call_info V) : effect := MkEffect [(Info, bs "window.alert called")] Undefined_.

(** *** navigator.cpp *)

(** [real] is the answer of [HasRealNamedProperty] on the prototype, [name] the
    text of the property's name, a null pointer for a symbol.  The getter never
    intercepts. *)
Definition navigator_name_property_getter (real : option bool) (name : option bytes) : option (list (log_level * bytes)) :=
  if negb (default false real) then
    key_str ← name;
    Some [(Info, bs "Navigator GET Unknown key: " ++ key_str)]
  else Some [].

(** [user_agent] is the one of the environment, if the context has an environment. *)
Definition get_user_agent_callback (user_agent : option bytes) : effect :=
  match user_agent with
  | None => MkEffect [] Undefined_
  | Some ua =>
      MkEffect (if bool_decide (ua = []) then [(Warn, bs "navigator.userAgent is empty")] else []) (Text (str_of ua))
  end.

(** *** All of them

    What a call of a native function of the browser objects does, the timer
    functions and [cppDelay] apart, which work on the loop. *)
Definition call_native (this_file : bytes) (user_agent : option bytes) (n : native) (info : call_info V) : option effect :=
  match n with
  | IllegalConstructor c => Some (illegal_constructor c (is_construct info))
  | ConsoleDebug => console_debug info
  | ConsoleLog => console_log info
  | ConsoleInfo => console_info info
  | ConsoleWarn => console_warn info
  | ConsoleError => console_error info
  | GetUserAgent => Some (get_user_agent_callback user_agent)
  | WindowAlert => Some (window_alert info)
  | FetchCallback => fetch_callback this_file info
  | XhrConstructor => Some (xhr_constructor_callback info)
  | XhrOpen => Some (xhr_open_callback info)
  | XhrSend => Some (xhr_send_callback info)
  | NavigatorGetter | JsSetTimeout | JsSetInterval | JsClearTimer | JsCppDelay => None
  end.

(** ** What they print *)

(** The text of an argument in the console. *)
Definition arg_text (v : V) : option bytes := (fun s => default (bs "<non-utf8>") (utf8 s)) <$> to_string v.

(** The words of a line. *)
Fixpoint unwords (ws : list bytes) : bytes :=
  match ws with
  | [] => []
  | [w] => w
  | w :: ws => w ++ bs " " ++ unwords ws
  end.

Lemma mapM_arg_text (v : V) (info : list V) :
  mapM arg_text (v :: info) =
    s ← to_string v; ts ← mapM arg_text info; Some (default (bs "<non-utf8>") (utf8 s) :: ts).
Proof.
  cbn -[bs]. change (arg_text v) with ((fun s => default (bs "<non-utf8>") (utf8 s)) <$> to_string v).
  by destruct (to_string v).
Qed.

Lemma append_args_later (i : nat) (info : list V) (line : bytes) :
  append_args (S i) info line = (fun ts => line ++ concat ((fun t => bs " " ++ t) <$> ts)) <$> mapM arg_text info.
Proof.
  revert i line. induction info as [|v info IH]; intros i line; [cbn; by rewrite app_nil_r|].
  rewrite mapM_arg_text. cbn [append_args]. destruct (to_string v) as [s|]; [|done]. cbn -[bs]. rewrite IH.
  destruct (mapM arg_text info) as [ts|]; [|done]. cbn -[bs]. by rewrite <- !app_assoc.
Qed.

Lemma unwords_cons (w : bytes) (ws : list bytes) : unwords (w :: ws) = w ++ concat ((fun t => bs " " ++ t) <$> ws).
Proof.
  revert w. induction ws as [|x ws IH]; intros w; cbn -[bs]; [by rewrite app_nil_r|].
  change (w ++ bs " " ++ unwords (x :: ws) = w ++ (bs " " ++ x) ++ concat ((fun t => bs " " ++ t) <$> ws)).
  by rewrite IH, <- app_assoc.
Qed.

Lemma stringify_args_spec (info : list V) (lv : bytes) :
  stringify_args info lv = (fun ts => lv ++ bs " " ++ unwords ts) <$> mapM arg_text info.
Proof.
  unfold stringify_args. destruct info as [|v info]; [done|].
  rewrite mapM_arg_text. cbn [append_args]. destruct (to_string v) as [s|]; [|done]. cbn -[bs unwords]. rewrite append_args_later.
  destruct (mapM arg_text info) as [ts|]; [|done]. cbn -[bs unwords]. by rewrite unwords_cons, <- !app_assoc.
Qed.

Lemma fetch_params_None (i : nat) (info : list V) (msg : bytes) :
  fetch_params i info msg = None <-> Exists (fun v => exists s, to_string v = Some s /\ utf8 s = None) info.
Proof.
  revert i msg. induction info as [|v info IH]; intros i msg; cbn -[bs]; [by rewrite Exists_nil|].
  rewrite Exists_cons. destruct (to_string v) as [s|]; [destruct (utf8 s) as [t|] eqn:E|]; cbn -[bs].
  - rewrite IH. split; [auto|]. intros [(s' & [= <-] & ?)|?]; [congruence|done].
  - split; [|done]. eauto.
  - rewrite IH. split; [auto|]. by intros [(s' & ? & _)|?].
Qed.

Definition console_kind (n : native) : option (log_level * string * string) :=
  match n with
  | ConsoleDebug => Some (Debug, "[JS DEBUG]: ", "[debug]")
  | ConsoleLog => Some (Debug, "[JS LOG]: ", "[log]")
  | ConsoleInfo => Some (Info, "[JS INFO]: ", "[info]")
  | ConsoleWarn => Some (Warn, "[JS WARN]: ", "[warn]")
  | ConsoleError => Some (Err.Error, "[JS ERROR]: ", "[error]")
  | _ => None
  end%string.

(** a console method prints one line, at its level, of its tag and the texts of
    its arguments with one space between them, and aborts the process exactly when
    the conversion of an argument throws. *)
Theorem console_prints (this_file : bytes) (ua : option bytes) (n : native) (info : call_info V) (l : log_level) (prefix tag : string) :
  console_kind n = Some (l, prefix, tag) ->
  call_native this_file ua n info =
    (fun ts => MkEffect [(l, bs prefix ++ bs tag ++ bs " " ++ unwords ts)] Undefined_) <$> mapM arg_text (arguments info) /\
  (call_native this_file ua n info = None <-> Exists (fun v => to_string v = None) (arguments info)).
Proof.
  intros Hk.
  assert (E : call_native this_file ua n info = console_call l prefix tag info) by (destruct n; cbn in Hk; try done; by injection Hk as <- <- <-).
  rewrite E. unfold console_call. rewrite stringify_args_spec. split; [by destruct (mapM arg_text (arguments info))|].
  destruct (mapM arg_text (arguments info)) as [ts|] eqn:Em; cbn -[bs unwords].
  - split; [done|]. intros Hx. exfalso. apply Exists_exists in Hx as (v & Hv & Hn).
    apply mapM_Some in Em. destruct (list_elem_of_lookup_1 _ _ Hv) as [i Hi].
    destruct (Forall2_lookup_l _ _ _ _ _ Em Hi) as (t & _ & Ht). unfold arg_text in Ht. by rewrite Hn in Ht.
  - split; [|done]. intros _. apply mapM_None in Em. eapply Exists_impl; [exact Em|].
    intros v Hv. unfold arg_text in Hv. by apply fmap_None in Hv.
Qed.

(** [fetch] is a stub: every call throws, and has undefined behaviour exactly when
    the engine has no text for a converted argument. *)
Lemma fetch_throws (this_file : bytes) (info : call_info V) :
  match fetch_callback this_file info with
  | Some e => exists m, replied e = TypeError m \/ replied e = GenericError m
  | None => is_construct info = false /\ Exists (fun v => exists s, to_string v = Some s /\ utf8 s = None) (arguments info)
  end.
Proof.
  unfold fetch_callback. destruct (is_construct info); [cbn; eauto|]. unfold print_fetch_param.
  destruct (fetch_params 0 (arguments info) _) as [msg|] eqn:E; [cbn; eauto|]. split; [done|].
  by apply fetch_params_None in E.
Qed.

End Callbacks.

(** ** cppDelay

    [js_cpp_delay] of [runtime.ixx] returns a promise that a native task of the
    loop settles.  A task holds the resolver until it has run. *)

Inductive promise := Pending | Fulfilled (text : bytes) | Rejected (message : bytes).

Record host := MkHost { promises : gmap Z promise; delay_tasks : gmap Z (Z * bool) }.

(** [Resolve] and [Reject] on a promise that is settled change nothing. *)
Definition settle (p : Z) (s : promise) (h : host) : host :=
  match promises h !! p with
  | Some Pending => MkHost (<[p := s]> (promises h)) (delay_tasks h)
  | _ => h
  end.

(** The task; [done] is what [Resolve] or [Reject] returns, and [Check] aborts if there
    is nothing in it.  Without its resolver the task works on an empty handle. *)
Definition run_delay_task (done : option bool) (t : Z) (h : host) : option host :=
  '(p, should_resolve) ← delay_tasks h !! t;
  _ ← done;
  let h := settle p (if (should_resolve : bool) then Fulfilled (bs "cpp resolved") else Rejected (bs "cpp rejected")) h in
  Some (MkHost (promises h) (delete t (delay_tasks h))).

Section CppDelay.
Context {Q V : Type} `{TimerQueue Q}.
Context (is_number : V -> bool) (integer_value : V -> option Z) (boolean_value : V -> bool).

(** [resolver] is the promise [Promise::Resolver::New] makes, [task] the handle of
    the task; the outer [None] is a signed overflow in the loop. *)
Definition js_cpp_delay (now : Z) (resolver : option Z) (task : Z) (event_loop : option (EventLoop Q))
    (info : list V) (h : host) : option (reply * option (EventLoop Q) * host) :=
  match event_loop with
  | None => Some (TypeError (bs "EventLoop is not available"), None, h)
  | Some l =>
      let delay_ms := parse_delay is_number integer_value info 0 in
      let should_resolve := match info !! 1%nat with Some v => boolean_value v | None => true end in
      match resolver with
      | None => Some (TypeError (bs "failed to create Promise resolver"), Some l, h)
      | Some p =>
          let h := MkHost (<[p := Pending]> (promises h)) (<[task := (p, should_resolve)]> (delay_tasks h)) in
          '(_, l) ← set_timeout_task now task delay_ms l;
          Some (Promise p, Some l, h)
      end
  end.

Lemma parse_delay_range (info : list V) (i : nat) : - 2 ^ 63 <= parse_delay is_number integer_value info i <= 2 ^ 63 - 1.
Proof.
  unfold parse_delay. destruct (info !! i) as [v|]; [|lia]. destruct (is_number v); [|cbn; lia]. cbn [negb].
  destruct (integer_value v) as [z|]; [|lia].
  destruct (Z.gtb_spec z (2 ^ 63 - 1)); [lia|]. destruct (Z.ltb_spec z (- 2 ^ 63)); lia.
Qed.

(** C33: [cppDelay] on a loop that can take the timer returns a new promise and
    registers one timeout, due after the delay (none if it is negative or not a
    number); the first run of its task settles this promise and no other, as the
    second argument says (fulfilled if it is missing), unless V8 cannot settle a promise,
    which aborts the process, and there is no second run. *)
Theorem cpp_delay_settles (now p task : Z) (l : EventLoop Q) (info : list V) (h : host) :
  next_id_ l <> INT_MAX -> 0 <= now < 2 ^ 62 ->
  parse_delay is_number integer_value info 0 < 2 ^ 62 / 1000000 ->
  exists l' h' h'' data d,
    js_cpp_delay now (Some p) task (Some l) info h = Some (Promise p, Some l', h') /\
    timer_map_ l' = <[next_id_ l := data]> (timer_map_ l) /\
    timer_heap_ l' = qpush (MkTimer d (next_id_ l)) (timer_heap_ l) /\
    call_of data = NativeCall task /\ is_interval data = false /\
    d = now + Z.max 0 (parse_delay is_number integer_value info 0) * 1000000 /\
    promises h' !! p = Some Pending /\
    (forall b, run_delay_task (Some b) task h' = Some h'') /\ run_delay_task None task h' = None /\
    promises h'' !! p = Some (if match info !! 1%nat with Some v => boolean_value v | None => true end
                              then Fulfilled (bs "cpp resolved") else Rejected (bs "cpp rejected")) /\
    (forall q, q <> p -> promises h'' !! q = promises h !! q) /\
    (forall done, run_delay_task done task h'' = None).
Proof.
  intros Hid Hnow Hd. set (ms := parse_delay is_number integer_value info 0) in *.
  assert (Hadd : add_ms now (normalize_delay ms) = Some (now + Z.max 0 ms * 1000000)).
  { unfold add_ms, normalize_delay, fits_i64. cut (0 <= Z.max 0 ms * 1000000 < 2 ^ 62); [intros Hr|].
    - rewrite (proj2 (Z.leb_le _ _)), (proj2 (Z.ltb_lt _ _)), (proj2 (Z.leb_le _ _)), (proj2 (Z.ltb_lt _ _)) by lia. done.
    - assert (2 ^ 62 / 1000000 * 1000000 <= 2 ^ 62) by (vm_compute; congruence). lia. }
  set (sr := match info !! 1%nat with Some v => boolean_value v | None => true end).
  unfold js_cpp_delay, set_timeout_task, schedule_task. fold ms. fold sr.
  rewrite (proj2 (Z.eqb_neq _ _) Hid), Hadd.
  eexists _, _, _, _, _. split; [reflexivity|]. split; [reflexivity|]. split; [reflexivity|].
  split; [reflexivity|]. split; [reflexivity|]. split; [reflexivity|]. cbn [promises delay_tasks].
  split; [apply lookup_insert_eq|]. unfold run_delay_task, settle. cbn [promises delay_tasks].
  rewrite lookup_insert_eq. cbn [mbind option_bind promises delay_tasks]. rewrite lookup_insert_eq. cbn [promises delay_tasks].
  split; [reflexivity|]. split; [reflexivity|]. cbn [promises delay_tasks]. split; [apply lookup_insert_eq|]. split.
  - intros q Hq. by rewrite !lookup_insert_ne.
  - intros done. by rewrite lookup_delete_eq.
Qed.

End CppDelay.

(** A call of [cppDelay(5, false)]. *)
(** Witness of C33. *)
Lemma cpp_delay_settles_witness :
  exists l' h' h'',
    js_cpp_delay (fun _ => true) (fun z : Z => Some z) (fun z => negb (z =? 0)) 1000 (Some 7) 3
      (Some (MkLoop 1 [] ∅)) [5; 0] (MkHost ∅ ∅) = Some (Promise 7, Some l', h') /\
    run_delay_task (Some true) 3 h' = Some h'' /\ promises h'' !! 7 = Some (Rejected (bs "cpp rejected")).
Proof.
  destruct (cpp_delay_settles (fun _ => true) (fun z : Z => Some z) (fun z => negb (z =? 0)) 1000 7 3
    (MkLoop 1 [] ∅) [5; 0] (MkHost ∅ ∅)) as (l' & h' & h'' & d & t & H1 & _ & _ & _ & _ & _ & _ & H2 & _ & H3 & _);
    [done|lia|by vm_compute|].
  exists l', h', h''. split; [exact H1|]. split; [apply H2|exact H3].
Defined.

(** The console prints two numbers. *)
(** An instance. *)
Lemma console_prints_witness :
  call_native (fun z : Z => Some z) (fun z => Some (to_string_int z)) [] None ConsoleInfo (MkInfo false [1; 22]) =
    Some (MkEffect [(Info, bs "[JS INFO]: " ++ bs "[info]" ++ bs " " ++ bs "1 22")] Undefined_).
Proof.
  destruct (console_prints (fun z : Z => Some z) (fun z => Some (to_string_int z)) [] None ConsoleInfo (MkInfo false [1; 22])
    Info "[JS INFO]: " "[info]") as [H _]; [reflexivity|]. rewrite H. reflexivity.
Defined.

(** ** Running a script *)

Section Script.
Context {J Q : Type} {HE : Engine J Q} {HQ : TimerQueue Q}.

(** [Script::Compile], [Script::Run] and the message of the [TryCatch] around them,
    whose text may be missing. *)
Context (compile : bytes -> J -> option Z * J).
Context (run_script : Z -> J -> EventLoop Q -> option (bool * J * EventLoop Q)).
Context (message : J -> option (option bytes)).

Definition script_error (kind : string) (j : J) : log_level * bytes :=
  (Err.Error, bs kind ++ match message j with Some (Some text) => text | _ => bs "<unknown>" end).

(** How [execute_script] ends; [Aborted] is undefined behaviour. *)
Inductive script_end :=
| ScriptDone (j : J) (l : EventLoop Q) (logged : list (log_level * bytes))
| ScriptOutOfFuel
| Aborted.

Definition execute_script (rounds fuel : nat) (code : string_view) (wait_loop : bool) (j : J) (l : EventLoop Q) : script_end :=
  match str code with
  | Ret source =>
      match compile source j with
      | (None, j) => ScriptDone j l [script_error "[JS Compile Error]: " j]
      | (Some script, j) =>
          match run_script script j l with
          | None => Aborted
          | Some (false, j, l) => ScriptDone j l [script_error "[JS Runtime Error]: " j]
          | Some (true, j, l) =>
              match checkpoint j l with
              | None => Aborted
              | Some (j, l) =>
                  if wait_loop then
                    match run_until_empty rounds fuel j l [] with
                    | Finished (j, l) _ => ScriptDone j l []
                    | Overflowed => Aborted
                    | OutOfFuel => ScriptOutOfFuel
                    end
                  else ScriptDone j l []
              end
          end
      end
  | _ => Aborted
  end.

(** ** [v8_test1.cpp] *)

(** The calls that make and dispose of V8's objects. *)
Inductive v8_call :=
| InitializePlatform | Initialize | NewAllocator | IsolateNew | NewEventLoop | ContextNew
| ContextReset | DeleteEventLoop | IsolateDispose | DeleteAllocator | Dispose | DisposePlatform.

(** The constructor of [Runtime] and its destructor. *)
Definition Runtime_new : list v8_call * EventLoop Q * list (log_level * bytes) :=
  ([NewAllocator; IsolateNew; NewEventLoop; ContextNew], clear_all EventLoop_new,
   [(Warn, bs "Browser Env not set"); (Info, bs "[Runtime] Context reset")]).

Definition Runtime_destroy : list v8_call := [ContextReset; DeleteEventLoop; IsolateDispose; DeleteAllocator].

Inductive main_end :=
| Exit (code : Z) (calls : list v8_call) (timers : option (EventLoop Q)) (logged : list (log_level * bytes))
| MainOutOfFuel
| MainAborted.

(** [main]: [script] is the content of the file, if it can be opened, [j] the engine
    with its new context. *)
Definition v8_main (rounds fuel : nat) (script : option bytes) (j : J) : main_end :=
  match script with
  | None => Exit 1 [] None [(Err.Error, bs "Failed to open script: ./index.js")]
  | Some code =>
      let calls := [InitializePlatform; Initialize] in
      let '(new, l, log) := Runtime_new in
      match execute_script rounds fuel (terminated code) true j l with
      | ScriptDone j l logged =>
          Exit 0 (calls ++ new ++ Runtime_destroy ++ [Dispose; DisposePlatform]) (Some l) (log ++ logged)
      | ScriptOutOfFuel => MainOutOfFuel
      | Aborted => MainAborted
      end
  end.

Section Drains.
Context {HL : TimerQueueLaws Q} {HJ : EngineLaws J Q}.
Implicit Types (l : EventLoop Q) (j : J).

(** The clock does not go back. *)
Lemma tick_loop_clock (fuel : nat) (now : Z) j l fired p j' l' tr :
  tick_loop fuel now j l fired = Finished (p, j', l') tr -> clock j <= clock j'.
Proof.
  revert j l fired. induction fuel as [|fuel IH]; intros j l fired E; [done|]. cbn [tick_loop] in E.
  assert (Hone : forall j1 l1 k, tick_one now j l = Continue j1 l1 k -> clock j <= clock j1).
  { unfold tick_one. intros j1 l1 k. destruct (qtop (timer_heap_ l)) as [key|]; [|done].
    destruct (now <? deadline key); [done|]. cbn [timer_map_ timer_heap_ next_id_].
    destruct (timer_map_ l !! timer_id key) as [data|]; [|intros [= <- _ _]; lia].
    destruct (invoke j (call_of data) (if is_interval data then MkLoop (next_id_ l) (qpop (timer_heap_ l)) (timer_map_ l)
      else cancel (timer_id key) (MkLoop (next_id_ l) (qpop (timer_heap_ l)) (timer_map_ l)))) as [[j2 l2]|] eqn:Ei; [|done].
    destruct (invoke_law_clock _ _ _ _ _ Ei) as [Hc _].
    destruct (is_interval data); [|by intros [= <- _ _]]. destruct (timer_map_ l2 !! timer_id key) as [re|]; [|by intros [= <- _ _]].
    destruct (add_ms (deadline key) (interval_ms re)); [by intros [= <- _ _]|done]. }
  destruct (tick_one now j l) as [pd|j1 l1 [k|]|] eqn:E1; [by injection E as _ <- _ _| | |done];
    (etrans; [by eapply Hone|by eapply IH]).
Qed.

Lemma tick_clock (fuel : nat) j l p j' l' tr :
  tick fuel j l = Finished (p, j', l') tr ->
  (forall j1 l1, checkpoint j l = Some (j1, l1) -> clock j1 <= clock j') /\ clock j <= clock j'.
Proof.
  unfold tick. intros E. destruct (checkpoint j l) as [[j1 l1]|] eqn:E1; [|done]. destruct (checkpoint_law _ _ _ _ E1) as [Hc _].
  apply tick_loop_clock in E. split; [|lia]. intros j2 l2 [= <- _]. done.
Qed.

Lemma wait_clock j l : clock j <= clock (wait_for_next j l).
Proof.
  unfold wait_for_next. destruct (qtop (timer_heap_ l)) as [k|]; [|lia].
  case_match eqn:Hlt; [|lia]. apply Z.ltb_lt in Hlt. pose proof (sleep_law (deadline k - clock j) j). lia.
Qed.

Lemma run_until_empty_clock (rounds fuel : nat) j l fired j' l' tr :
  run_until_empty rounds fuel j l fired = Finished (j', l') tr -> clock j <= clock j'.
Proof.
  revert j l fired. induction rounds as [|rounds IH]; intros j l fired E; [done|]. cbn [run_until_empty] in E.
  destruct (tick fuel j l) as [[[[] j2] l2] tr2| |] eqn:Et; [| |done|done]; apply tick_clock in Et as [_ Hc].
  - apply IH in E. pose proof (wait_clock j2 l2). lia.
  - by injection E as <- _ _.
Qed.

(** A loop that is run until it is empty has no registered timers. *)
Lemma run_until_empty_drains (rounds fuel : nat) j l fired j' l' tr :
  loop_ok [] l -> 0 <= clock j -> clock j' < 2 ^ 62 ->
  run_until_empty rounds fuel j l fired = Finished (j', l') tr -> timer_map_ l' = ∅.
Proof.
  intros Hok H0 Hmax. revert j l fired Hok H0.
  induction rounds as [|rounds IH]; intros j l fired Hok H0 E; [done|]. cbn [run_until_empty] in E.
  destruct (tick fuel j l) as [[[pend j2] l2] tr2| |] eqn:Et; [|done|done].
  destruct (tick_clock _ _ _ _ _ _ _ Et) as [Hc1 Hc2].
  assert (Hle : clock j2 <= clock j').
  { destruct pend; [|by injection E as <- _ _]. apply run_until_empty_clock in E. pose proof (wait_clock j2 l2). lia. }
  destruct (tick_spec j l Hok H0) as (f0 & r & Hf & D).
  { intros j1 l1 E1. specialize (Hc1 _ _ E1). lia. }
  assert (Et' : tick (Nat.max fuel f0) j l = Finished (pend, j2, l2) tr2).
  { unfold tick in *. destruct (checkpoint j l) as [[j4 l4]|]; [|done]. eapply tick_loop_more; [|exact Et]. lia. }
  rewrite Hf in Et' by lia. subst r. destruct D as (now & _ & [D1 D2 D3 D4 D5 D6]). destruct pend.
  - apply IH in E; [done|done|]. pose proof (wait_clock j2 l2). lia.
  - injection E as <- <- <-. by apply D4.
Qed.

Lemma execute_script_end (rounds fuel : nat) (code : string_view) j l j' l' (logged : list (log_level * bytes)) :
  loop_ok [] l -> 0 <= clock j -> clock j' < 2 ^ 62 ->
  (forall src j0, clock j0 <= clock (compile src j0).2) ->
  (forall s j0 l0 b j1 l1, run_script s j0 l0 = Some (b, j1, l1) -> clock j0 <= clock j1 /\ rtc (api_step 0) l0 l1) ->
  execute_script rounds fuel code true j l = ScriptDone j' l' logged ->
  (logged = [] /\ timer_map_ l' = ∅) \/
  (exists kind, logged = [script_error kind j'] /\ rtc (api_step 0) l l').
Proof.
  intros Hok H0 Hmax Hcomp Hrun E. unfold execute_script in E. destruct (str code) as [src| |]; [|done|done].
  specialize (Hcomp src j). destruct (compile src j) as [[s|] j1]; cbn in Hcomp.
  2: { injection E as <- <- <-. right. eexists. split; [done|apply rtc_refl]. }
  destruct (run_script s j1 l) as [[[b j2] l2]|] eqn:Er; [|done]. destruct (Hrun _ _ _ _ _ _ Er) as [Hc2 Hr2].
  destruct b; [|injection E as <- <- <-; right; by eexists].
  destruct (checkpoint j2 l2) as [[j3 l3]|] eqn:E3; [|done]. destruct (checkpoint_law _ _ _ _ E3) as [Hc3 Hr3].
  destruct (run_until_empty rounds fuel j3 l3 []) as [[j4 l4] tr| |] eqn:Eu; [|done|done].
  injection E as <- <- <-. left. split; [done|].
  assert (0 <= clock j3) as H3 by lia.
  eapply run_until_empty_drains; [|exact H3|exact Hmax|exact Eu].
  eapply api_ok; [|exact Hr3|]; [lia|]. by eapply (api_ok 0); [lia|exact Hr2|].
Qed.

(** [execute_script] with the loop: a script that ran to its end, the clock
    staying in its range, leaves no registered timer; one that does not compile or
    that throws is reported in one line and the loop is not run. *)
Theorem execute_script_drains (rounds fuel : nat) (code : string_view) j l j' l' (logged : list (log_level * bytes)) :
  loop_ok [] l -> 0 <= clock j -> clock j' < 2 ^ 62 ->
  (forall src j0, clock j0 <= clock (compile src j0).2) ->
  (forall s j0 l0 b j1 l1, run_script s j0 l0 = Some (b, j1, l1) -> clock j0 <= clock j1 /\ rtc (api_step 0) l0 l1) ->
  execute_script rounds fuel code true j l = ScriptDone j' l' logged ->
  (logged = [] /\ timer_map_ l' = ∅) \/
  (exists kind, logged = [script_error kind j'] /\ rtc (api_step 0) l l').
Proof. apply execute_script_end. Qed.

(** The program that ran a script to its end has fired or cancelled every timer before
    it disposes of the engine; a script that failed is reported, and 0 is returned
    all the same. *)
Theorem v8_main_drains (rounds fuel : nat) (code : bytes) j calls timers ret (logged : list (log_level * bytes)) :
  0 <= clock j -> (forall j' l' log, execute_script rounds fuel (terminated code) true j (clear_all EventLoop_new) = ScriptDone j' l' log -> clock j' < 2 ^ 62) ->
  (forall src j0, clock j0 <= clock (compile src j0).2) ->
  (forall s j0 l0 b j1 l1, run_script s j0 l0 = Some (b, j1, l1) -> clock j0 <= clock j1 /\ rtc (api_step 0) l0 l1) ->
  v8_main rounds fuel (Some code) j = Exit ret calls timers logged ->
  ret = 0 /\ ((exists l', timers = Some l' /\ timer_map_ l' = ∅ /\ length logged = 2%nat) \/
             (exists kind j', last logged = Some (script_error kind j'))).
Proof.
  intros H0 Hmax Hcomp Hrun. unfold v8_main. cbn [Runtime_new].
  destruct (execute_script rounds fuel (terminated code) true j (clear_all EventLoop_new)) as [j' l' log| |] eqn:E; [|done|done].
  intros [= <- _ <- <-]. split; [done|].
  destruct (execute_script_end _ _ _ _ _ _ _ _ loop_ok_new H0 (Hmax _ _ _ eq_refl) Hcomp Hrun E) as [[-> Ht]|(kind & -> & _)].
  - left. by exists l'.
  - right. by exists kind, j'.
Qed.

End Drains.
End Script.

(** A script that sets a timeout of 2 milliseconds. *)
Definition sample_script (_ : Z) (j : Z) (l : EventLoop (list TimerKey)) : option (bool * Z * EventLoop (list TimerKey)) :=
  '(_, l) ← set_timeout (Z.max 0 j) 8 2 [] l; Some (true, j, l).

(** An instance. *)
Lemma execute_script_drains_witness :
  let l' := MkLoop 2 [] ∅ in
  @execute_script Z (list TimerKey) quiet list_queue (fun _ j => (Some 0, j)) sample_script (fun _ => None) 3 5
    (lit "setTimeout(f, 2)") true 10 (MkLoop 1 [] ∅) = ScriptDone 2000011 l' [] /\
  (([] : list (log_level * bytes)) = [] /\ timer_map_ l' = ∅ \/
   exists kind, [] = [script_error (fun _ : Z => None) kind 2000011] /\
     rtc (@api_step (list TimerKey) list_queue 0) (MkLoop 1 [] ∅) l').
Proof.
  intros l'.
  assert (E : @execute_script Z (list TimerKey) quiet list_queue (fun _ j => (Some 0, j)) sample_script (fun _ => None) 3 5
    (lit "setTimeout(f, 2)") true 10 (MkLoop 1 [] ∅) = ScriptDone 2000011 l' []) by (vm_compute; reflexivity).
  split; [exact E|].
  apply (@execute_script_drains Z (list TimerKey) quiet list_queue (fun _ j => (Some 0, j)) sample_script (fun _ => None)
    list_queue_laws quiet_laws 3 5 (lit "setTimeout(f, 2)") 10 (MkLoop 1 [] ∅) 2000011 l' []); [| | | | |exact E].
  - split; cbn; [constructor|intros k Hk; by apply not_elem_of_nil in Hk|done].
  - done.
  - done.
  - intros src j0. cbn. lia.
  - intros s j0 l0 b j1 l1. unfold sample_script. destruct (set_timeout (Z.max 0 j0) 8 2 [] l0) as [[i l2]|] eqn:Es; [|done].
    cbn. intros [= <- <- <-]. split; [lia|]. apply rtc_once. eapply api_set_timeout; [|exact Es]. lia.
Defined.
